(* ===== verification/_CoqProject ===== *)
-Q . S2P
Prelude.v
GoFloat.v
DeepCopy.v
GoValue.v
Decimals.v
FloatOrder.v
JsonProofs.v
JsonClean.v
Envoy.v
Message.v
World.v
Metrics.v
Handlers.v
ServerProofs.v
ServerSpec.v
ServerSafety.v
BodyProofs.v
Adapters.v
Datalayer.v
Extractors.v
ModelSelector.v
Pickers.v
SelectorPlugins.v
SelectorProofs.v
RequestPlugins.v
Processor.v
Fakes.v
Watcher.v
Loader.v
LoaderProofs.v
Options.v
Serving.v
Runner.v
Certs.v
ConfigText.v
Feedback.v
Exchanges.v
Drift.v
InTree.v
Concrete.v
LoaderRuns.v
ExchangeRuns.v
