(* ===== verification/Prelude.v ===== *)
(** * The llm-d inference payload processor (IPP), modelled and verified

    The IPP is an Envoy external-processing (ext_proc) server in Go. Envoy
    streams the headers and body of every inference request and response to
    it; plugins named in a configuration inspect and change them - among others
    they select the model that serves the request - and the server answers with
    header mutations and bodies. Events about requests and responses feed a
    data layer that keeps attributes per model, which the model selection reads
    for the next requests. Paths below are relative to src/.

    ** The parts and the files that model them

    - [Prelude], [GoFloat], [GoValue]: the Go language and standard library as
      the program uses them: panics ([res]), 64-bit wrap-around, the unspecified
      order of [range] over a map ([MapOrder]), binary64 arithmetic, [any]
      values, [fmt]'s %v, encoding/json, time.ParseDuration. [Decimals]: reading
      a decimal number rounds correctly, and printing a float finds digits that
      read back. [FloatOrder]: rounded operations are monotone. [JsonProofs]: the decoder reads back what the encoder prints,
      and its fuel is enough. [JsonClean]: whatever the decoder accepts, the
      encoder can print and the decoder reads back.
    - [Envoy]: pkg/common/error and pkg/common/envoy - error codes and the HTTP
      status they become, header access, chunking of bodies, responses.
    - [Message]: pkg/framework/interface (requesthandling, plugin, datasource
      types) - messages with their mutation log, the cycle state, profiles, the
      plugin interfaces as records of functions.
    - [World]: pkg/metrics/metrics.go, the clock and the event notifier, as the
      class [World] that the handlers are verified against. [Metrics]: the
      collectors behind these metrics and their registration.
    - [Handlers], with [ServerProofs], [ServerSpec], [ServerSafety] and
      [BodyProofs]: pkg/handlers - request.go, response.go and the receive loop
      [Process] of server.go; [ServerSpec] has the straight-line program that
      the loop implements.
    - [Adapters]: plugins/requesthandling/basemodelextractor - the store of
      LoRA adapters, its ConfigMap reconciler, the plugin that reads it.
    - [Datalayer]: interface/datalayer and pkg/datastore/inmemory - attributes,
      models as heap objects, and the class [Datastore] with its laws, which
      the in-memory store implements.
    - [Extractors]: plugins/datalayer - the request metadata and request cost
      extractors and the model configuration datasource, against [Datastore].
    - [ModelSelector], [Pickers], [SelectorPlugins], with [SelectorProofs]:
      pkg/modelselector, plugins/requesthandling/modelselector and
      plugins/modelselector - the pipeline of filters, weighted scorers and a
      picker, and every filter, scorer and picker of the repository.
    - [RequestPlugins]: body-field-to-header, the single profile picker,
      model-name-to-header.
    - [Processor]: pkg/datalayer/processor.go - the event loop, the datasources
      and collectors and their life cycle, as a state machine over all
      interleavings. [Watcher]: the model configuration datasource run by it,
      with the goroutine and the channels its [Start] and [Stop] use.
    - [Loader], with [LoaderProofs]: pkg/config, interface/plugin/handle.go and
      registry.go - defaults, instantiation by factories, profiles, the wiring
      of model selectors, the registration of the in-tree factories.
    - [ConfigText]: the String methods of the configuration types (apix/config).
    - [Options] and [Runner]: pkg/server/options.go,
      pkg/common/observability/logging and cmd/runner/runner.go - flags, their
      validation, and the start-up that puts all the parts together.
    - [Serving]: pkg/server/runserver.go, internal/runnable, internal/tls,
      cmd/runner/health.go and the set-up of tracing and profiling - what the
      manager runs; the gRPC runnable and its shutdown goroutine as a state
      machine. [Runner] assembles the ext_proc runner of [Serving].
    - [Certs]: pkg/common/certs.go - the certificate reloader with its debounce
      timer, as a state machine with a clock.
    - [Feedback]: the processor, the request metadata extractor and the
      in-flight scorer composed. [Exchanges]: the streams of a server that run
      at the same time, and what the extractors learn from their events.
      [Drift]: both together - streams, processor, extractor, scorer.
    - [DeepCopy]: apix/config/v1alpha1/zz_generated.deepcopy.go - the deep
      copies of configurations, over a memory with pointers and slices.
    - [Fakes]: the test doubles of pkg/datalayer and pkg/datastore and the
      helper of pkg/common/envoy/test, against what they replace.
    - [InTree]: the servers that load with the factories of the runner, what
      they are made of, and the theorems on the server for all of them.
    - [Concrete], [LoaderRuns] and [ExchangeRuns]: an environment that implements all the
      interfaces, and runs of the theorems in it.

    A stateful component is a record and its methods are functions on it; what
    methods reach besides - the clock, metrics, the store, caches, random
    numbers - is the world [W] of the classes they ask for. A method that may
    panic returns [res]; Go errors are values of [goerror], with the texts of
    errors abridged where only logs show them. Operations that hold a lock are
    one step; what no lock protects is several - the event loop's receive and
    each call of an extractor, the check and the append of [RegisterExtractor].
    In [Processor], [Watcher], [Certs], [Serving], [Exchanges] and the receive
    loop every order of steps is covered: the actions, and the rounds, are
    arbitrary lists. Recording a metric does not fail ([World] says when it
    would), and header names are compared as they are spelled.

    ** What the theorems show

    - The server. What a request or response body is answered with, on every
      path ([HandleRequestBody_answer], [HandleResponseBody_answer]): the body
      map when a plugin changed it and the original bytes otherwise, in chunks,
      with its Content-Length; the header mutations Envoy applies give exactly
      the headers the plugins left; a mutated body decodes to
      the plugins' body map ([mutated_body_arrives]), where only the fields
      the plugins wrote are asked to be printable. Chunking of the input does
      not matter, streamed responses pass through, each event is sent at most
      once and when, errors become the response their code says, and [Process]
      panics only where a plugin does. For an exchange in order the loop refines
      the straight-line specification ([exchange_refines_spec]).
    - Configured servers. Every configuration that loads with the runner's
      factories gives a server that meets the hypotheses of the theorems above
      ([loaded_servers_are_lawful]) and that changes nothing in the bodies but
      the name of the model ([loaded_servers_are_transparent]); what is left that
      makes one panic ([loaded_servers_panic_only_on_null]).
    - Concurrent streams, whose messages come in any order. What an event points
      to does not change after it was notified, so that the model may copy it,
      unless it is a response that ended before its request
      ([events_hold_the_request]). Where no response does, the load that the
      in-flight scorer reads is the number of streams between their request and
      their response ([load_is_open_exchanges]), up to the events that the
      processor has yet to hand out - from its buffer, or from its hand - or
      has dropped ([load_error_is_bounded]).
    - Model selection. The pipeline serves a model of the store that survives
      the filters and has the highest weighted score; the scores of the cost and
      in-flight scorers lie in [0,1] and rank the candidates, rounding included
      ([scores_are_shares]); the specifications of the
      group filter, the cost scorer, session affinity and the pickers (the
      shuffle is a bijection between draws and permutations); a session's next
      request is served by the model that answered it
      ([sessions_are_served_by_their_model]); what the proxy
      sees when nothing can be selected.
    - The data layer. The reconciled adapters store implements a table of
      ConfigMaps; the in-flight counts and cost digests of the extractors are
      those of an observer of the event sequence; the store follows the models
      file; accepted events reach every extractor in order, and what an
      extractor lacks is at most the event in the loop's hand and those in the
      buffer; [Stop] is final and can return, and nothing is synced after it.
      [scorer_sees_accepted_events] and [no_sync_after_stop] compose them.
    - Configuration and start-up. What loading guarantees the server, when
      its result does not depend on map order, that the built-in configuration
      routes, and that loading does not notice a wrong profile picker
      ([wrong_picker_reference_crashes]); that [Run] starts and stops what was
      configured; that the gRPC runnable's goroutine ends, and certificates are
      reloaded only when the files have been quiet; that a deep copy of a
      configuration stands for the same value in memory of its own
      ([deep_copy_is_deep]).
    - Where the code falls short of that, theorems state what it does: changes
      of ConfigMaps that are not followed, configurations that load and panic,
      a removed model that makes the cost scorer panic, streamed responses that
      are never costed, a count that is never taken back, a datasource that
      starts after [Stop] or panics when it was registered twice, an old
      certificate stored over a new one, log levels that wrap around.

    ** Bounds and fuel

    [chunk_loop] gets the length of the body, and every round consumes a byte at
    least ([chunk_loop_concat]). [digits] prints up to 400 decimal digits: a
    binary64 integer has at most 309 and an int64 19. [shortest_aux] tries up to
    18 digits where 17 always suffice ([try_digits_17]). The JSON decoder gets twice the length of
    its input plus 2, and any more gives the same result ([json_decode_fuel]);
    it also has Go's nesting limit of 10000. Trimming and durations get the
    length of the text. Sums of in-flight counts are exact while the number of
    events times the largest token budget fits in 64 bits, which the theorems
    assume; nothing else bounds the inputs.

    ** Parameters

    Code that is not in the repository is a parameter with the documented
    behaviour the code relies on: the t-digest ([TDigest]), the expirable LRU
    cache and UUIDs ([SessionCache]), random draws ([Rand]), [math.Pow]
    ([MathPow]), the order pdqsort leaves equal elements in ([PdqSort]), the
    YAML and configuration decoders, the files and the API server, the text of
    JSON errors ([JsonText]), gRPC's status codes ([GrpcStatus]), out-of-range
    float conversions ([GoArch]), the libraries [Run] calls ([env]), and loading
    a key pair ([Reloader]).

    ** Not modelled

    Inside of libraries, or no program state: the gRPC, health and metrics
    servers themselves, cryptography, fsnotify, the tracer provider,
    the log lines, cmd/main.go, the registration of the configuration
    type with apimachinery's scheme, and pkg/common/kubemeta.go, which nothing
    uses. Code that is there for tests only is modelled where it stands for a
    part of the program ([Fakes]); the test suites and their harness are not. *)

From Stdlib Require Export ZArith Lia.
From Stdlib Require Import Strings.Byte Ascii String.
From stdpp Require Export base list gmap strings sorting.


(** ** Go values the components share *)

(** A Go [[]byte]. Strings are Go strings: byte sequences, Rocq's [string]. *)
Abbreviation bytes := (list Byte.byte).

#[export] Instance byte_eq_decision : EqDecision Byte.byte := Byte.byte_eq_dec.

(** The conversions [[]byte(s)] and [string(b)]. *)
Definition s2b (s : string) : bytes := String.list_byte_of_string s.
Definition b2s (b : bytes) : string := String.string_of_list_byte b.

(** The outcome of running Go code: it returns, or it panics (nil map
    assignment, nil dereference, failed type assertion, index out of range). *)
Inductive res (A : Type) : Type :=
| Ok (a : A)
| Panic (why : string).
Arguments Ok {A} a.
Arguments Panic {A} why.

#[export] Instance res_ret : MRet res := fun A a => Ok a.
#[export] Instance res_bind : MBind res := fun A B k m =>
  match m with
  | Ok a => k a
  | Panic w => Panic w
  end.

Definition is_ok {A} (r : res A) : bool :=
  match r with Ok _ => true | Panic _ => false end.

(** ** Machine integers *)

Definition two63 : Z := 9223372036854775808.
Definition max_int64 : Z := two63 - 1.
Definition min_int64 : Z := - two63.

(** Go's int64 arithmetic wraps around; [wrap64] is the wrap-around of an
    exact result. *)
Definition wrap64 (z : Z) : Z := (z + two63) `mod` (2 * two63) - two63.

Definition in_int64 (z : Z) : Prop := (min_int64 ≤ z ≤ max_int64)%Z.

(** A [time.Time] in nanoseconds since the zero time; the zero time is [0].
    [time.Time.Sub] saturates at the ends of [time.Duration]. *)
Abbreviation Time := Z (only parsing).
Definition zero_time : Z := 0.
Definition time_sub (t u : Z) : Z := Z.max min_int64 (Z.min max_int64 (t - u)).

(** ** What the Go language leaves to the implementation

    The order in which [range] visits a map is unspecified: any
    permutation of the entries. The development is parametric in it. *)
Class MapOrder : Type := {
  go_range : forall {K} `{Countable K} {V : Type}, gmap K V -> list (K * V);
  go_range_perm : forall {K} `{Countable K} {V : Type} (m : gmap K V),
    go_range m ≡ₚ map_to_list m
}.

(** The order the reference instance picks. *)
#[export] Program Instance map_order_std : MapOrder | 100 := {
  go_range := fun K _ _ V m => map_to_list m
}.
Next Obligation. done. Qed.

Section map_order.
Context {MO : MapOrder}.

Lemma elem_of_go_range `{Countable K} {V} (m : gmap K V) k v :
  (k, v) ∈ go_range m ↔ m !! k = Some v.
Proof. by rewrite go_range_perm, elem_of_map_to_list. Qed.

Lemma length_go_range `{Countable K} {V} (m : gmap K V) :
  length (go_range m) = size m.
Proof. by rewrite go_range_perm, length_map_to_list. Qed.

Lemma NoDup_fst_go_range `{Countable K} {V} (m : gmap K V) :
  NoDup (go_range m).*1.
Proof. rewrite go_range_perm. apply NoDup_fst_map_to_list. Qed.

Lemma list_to_map_go_range `{Countable K} {V} (m : gmap K V) :
  list_to_map (go_range m) = m.
Proof.
  rewrite <- (list_to_map_to_list m) at 2.
  apply list_to_map_proper; [apply NoDup_fst_go_range | apply go_range_perm].
Qed.

Lemma go_range_empty `{Countable K} {V} :
  go_range (∅ : gmap K V) = [].
Proof.
  apply Permutation_nil_r. rewrite go_range_perm. by rewrite map_to_list_empty.
Qed.

Lemma go_range_singleton `{Countable K} {V} (k : K) (v : V) :
  go_range {[k := v]} = [(k, v)].
Proof.
  apply Permutation_singleton_r. rewrite go_range_perm. by rewrite map_to_list_singleton.
Qed.

Lemma go_range_nil_inv `{Countable K} {V} (m : gmap K V) :
  go_range m = [] → m = ∅.
Proof.
  intros E. apply map_to_list_empty_iff, Permutation_nil_r.
  by rewrite <- go_range_perm, E.
Qed.
End map_order.

(** [range] over a [sets.Set], a map to the empty struct. *)
Definition range_set `{MapOrder} `{Countable K} (s : gset K) : list K :=
  (go_range (gset_to_gmap tt s)).*1.

Lemma elem_of_range_set `{MapOrder} `{Countable K} (s : gset K) k :
  k ∈ range_set s ↔ k ∈ s.
Proof.
  unfold range_set. rewrite list_elem_of_fmap. split.
  - intros ([k' []] & -> & Hk). apply elem_of_go_range, lookup_gset_to_gmap_Some in Hk.
    naive_solver.
  - intros Hk. exists (k, tt). split; [done|].
    by apply elem_of_go_range, lookup_gset_to_gmap_Some.
Qed.

(** Stores the same value under every key of a list. *)
Lemma lookup_foldl_insert_const `{Countable K} {V} (ks : list K) (v : V) (m : gmap K V) k :
  foldl (λ m k, <[k := v]> m) m ks !! k = if bool_decide (k ∈ ks) then Some v else m !! k.
Proof.
  revert m. induction ks as [|j ks IH]; intros m; simpl; [done|]. rewrite IH.
  destruct (decide (k = j)) as [->|].
  - rewrite lookup_insert_eq. repeat case_bool_decide; set_solver.
  - rewrite lookup_insert_ne by done. repeat case_bool_decide; set_solver.
Qed.

(** Deletes every key of a list. *)
Lemma lookup_foldl_delete `{Countable K} {V} (ks : list K) (m : gmap K V) k :
  foldl (λ m k, delete k m) m ks !! k = if bool_decide (k ∈ ks) then None else m !! k.
Proof.
  revert m. induction ks as [|j ks IH]; intros m; simpl; [done|]. rewrite IH.
  destruct (decide (k = j)) as [->|].
  - rewrite lookup_delete_eq. repeat case_bool_decide; set_solver.
  - rewrite lookup_delete_ne by done. repeat case_bool_decide; set_solver.
Qed.

(** ** Generic lemmas *)

Lemma b2s_s2b s : b2s (s2b s) = s.
Proof. apply String.string_of_list_byte_of_string. Qed.

Lemma s2b_b2s b : s2b (b2s b) = b.
Proof. apply String.list_byte_of_string_of_list_byte. Qed.

Lemma wrap64_small z : in_int64 z → wrap64 z = z.
Proof.
  unfold in_int64, wrap64, min_int64, max_int64, two63. intros Hz.
  rewrite Z.mod_small; lia.
Qed.

Lemma wrap64_range z : in_int64 (wrap64 z).
Proof.
  unfold in_int64, wrap64, min_int64, max_int64, two63.
  pose proof (Z.mod_pos_bound (z + 9223372036854775808) (2 * 9223372036854775808)).
  lia.
Qed.

Lemma mbind_Ok {A B} (m : res A) (k : A → res B) b :
  m ≫= k = Ok b ↔ ∃ a, m = Ok a ∧ k a = Ok b.
Proof.
  destruct m as [a|w]; simpl; split.
  - intros E. by exists a.
  - by intros (? & [= ->] & ?).
  - done.
  - by intros (? & ? & ?).
Qed.

(** [foldM f l s] threads a state through [f] over [l], stopping at a panic:
    the shape of a Go [for ... range] loop whose body may panic. *)
Fixpoint foldM {A S} (f : S → A → res S) (l : list A) (s : S) : res S :=
  match l with
  | [] => Ok s
  | a :: l => match f s a with Ok s' => foldM f l s' | Panic w => Panic w end
  end.

Lemma foldM_app {A S} (f : S → A → res S) l1 l2 s :
  foldM f (l1 ++ l2) s = (s' ← foldM f l1 s; foldM f l2 s').
Proof.
  revert s. induction l1 as [|a l1 IH]; intros s; simpl; [done|].
  destruct (f s a); simpl; [apply IH | done].
Qed.

(** An invariant of the body is an invariant of the loop. *)
Lemma foldM_inv {A S} (P : S → Prop) (f : S → A → res S) l s s' :
  (∀ s a s', a ∈ l → P s → f s a = Ok s' → P s') →
  P s → foldM f l s = Ok s' → P s'.
Proof.
  revert s. induction l as [|a l IH]; intros s Hf Hs; simpl; [naive_solver|].
  destruct (f s a) eqn:E; [|done]. apply IH.
  - intros ???? . apply Hf. by right.
  - eapply Hf; [by left | done | done].
Qed.

(** ** Proof automation *)

Create HintDb ipp discriminated.
Create Rewrite HintDb ipp.
#[export] Hint Resolve b2s_s2b s2b_b2s wrap64_range : ipp.

(** Case analysis on the innermost scrutinee of the goal, keeping equations. *)
Ltac case_on t := let E := fresh "E" in destruct t eqn:E; simplify_eq/=; try done.

(** Invert every [res]-bind that is known to return. *)
Ltac inv_ok :=
  repeat match goal with
  | H : mbind _ _ = Ok _ |- _ =>
      apply mbind_Ok in H; destruct H as (? & ? & H); simplify_eq/=
  | H : Ok _ = Ok _ |- _ => simplify_eq/=
  | H : mret _ = Ok _ |- _ => unfold mret, res_ret in H; simplify_eq/=
  end.
