(* ===== verification/GoFloat.v ===== *)
(** Go's [float64]: IEEE-754 binary64 numbers as the Standard Library's
    [spec_float] at precision 53 and [emax] 1024, with Go's arithmetic (round
    to nearest even), its comparisons (false on NaN), and its conversions to
    and from integers. The order lemmas reduce a comparison to a
    lexicographic comparison of integer keys; the arithmetic lemmas are the
    exact facts the scorers rely on. *)

From Corelib Require Import SpecFloat.
From S2P Require Import Prelude.

Abbreviation float64 := spec_float.

#[export] Instance float64_eq_dec : EqDecision float64.
Proof. solve_decision. Defined.

Declare Scope float_scope.
Delimit Scope float_scope with float.

Definition prec64 : Z := 53.
Definition emax64 : Z := 1024.

(** ** Arithmetic and comparisons *)

Definition fadd : float64 → float64 → float64 := SFadd prec64 emax64.
Definition fsub : float64 → float64 → float64 := SFsub prec64 emax64.
Definition fmul : float64 → float64 → float64 := SFmul prec64 emax64.
Definition fdiv : float64 → float64 → float64 := SFdiv prec64 emax64.

(** Go's [x < y], [x > y], [x <= y], [x >= y], [x == y]. *)
Definition flt (x y : float64) : bool := SFltb x y.
Definition fle (x y : float64) : bool := SFleb x y.
Definition feq (x y : float64) : bool := SFeqb x y.

Infix "+" := fadd : float_scope.
Infix "-" := fsub : float_scope.
Infix "*" := fmul : float_scope.
Infix "/" := fdiv : float_scope.
Infix "<?" := flt : float_scope.
Infix "<=?" := fle : float_scope.
Notation "x >? y" := (flt y x) (only parsing) : float_scope.
Notation "x >=? y" := (fle y x) (only parsing) : float_scope.
Infix "=?" := feq : float_scope.

(** [float64(z)] of an integer, correctly rounded. *)
Definition f_of_Z (z : Z) : float64 := binary_normalize prec64 emax64 z 0 false.

(** The nearest float of a decimal literal [n / d], both exactly representable. *)
Definition f_ratio (n d : Z) : float64 := fdiv (f_of_Z n) (f_of_Z d).

Definition f0 : float64 := S754_zero false.
Definition f1 : float64 := f_of_Z 1.
Definition f_half : float64 := f_ratio 1 2.

Definition is_nan (x : float64) : bool :=
  match x with S754_nan => true | _ => false end.

Definition is_finite (x : float64) : bool :=
  match x with S754_nan | S754_infinity _ => false | _ => true end.

(** The integer part, rounded toward zero; [None] for NaN and infinities. *)
Definition f_trunc (x : float64) : option Z :=
  match x with
  | S754_zero _ => Some 0%Z
  | S754_finite s m e =>
      let a := if (0 <=? e)%Z then (Zpos m * 2 ^ e)%Z else (Zpos m / 2 ^ (- e))%Z in
      Some (if s then - a else a)%Z
  | _ => None
  end.

(** [math.Ceil], as the integer it is; [None] for NaN and infinities. *)
Definition f_ceil (x : float64) : option Z :=
  match x with
  | S754_zero _ => Some 0%Z
  | S754_finite s m e =>
      let v := (if s then - Zpos m else Zpos m)%Z in
      Some (if (0 <=? e)%Z then (v * 2 ^ e)%Z else (- ((- v) / 2 ^ (- e)))%Z)
  | _ => None
  end.

(** [int64(x)] truncates; when the result does not fit, the Go specification
    leaves the value to the implementation. *)
Class GoArch : Type := {
  f_to_int64_out_of_range : float64 → Z;
  f_to_int64_out_of_range_int64 x : in_int64 (f_to_int64_out_of_range x)
}.

(** amd64's conversion gives the least int64. *)
#[export] Program Instance go_arch_amd64 : GoArch | 100 := {
  f_to_int64_out_of_range := λ _, min_int64
}.
Next Obligation. intros. unfold in_int64, min_int64, max_int64, two63. lia. Qed.

Definition in_int64b (z : Z) : bool := ((min_int64 <=? z) && (z <=? max_int64))%Z.

Definition f_to_int64 `{GoArch} (x : float64) : Z :=
  match f_trunc x with
  | Some z => if in_int64b z then z else f_to_int64_out_of_range x
  | None => f_to_int64_out_of_range x
  end.

(** ** The order *)

(** Integer keys whose lexicographic order is the order of the floats. *)
Definition fkey (x : float64) : Z * Z * Z :=
  match x with
  | S754_nan => (0, 0, 0)
  | S754_zero _ => (0, 0, 0)
  | S754_infinity s => (if s then -2 else 2, 0, 0)
  | S754_finite s m e => if s then (-1, - e, - Zpos m) else (1, e, Zpos m)
  end%Z.

Definition lex_compare (a b : Z * Z * Z) : comparison :=
  match (a.1.1 ?= b.1.1)%Z with
  | Eq => match (a.1.2 ?= b.1.2)%Z with
          | Eq => (a.2 ?= b.2)%Z
          | c => c
          end
  | c => c
  end.

Lemma SFcompare_key x y :
  SFcompare x y =
    if is_nan x || is_nan y then None else Some (lex_compare (fkey x) (fkey y)).
Proof.
  destruct x as [s|s| |s m e], y as [s'|s'| |s' m' e'];
    repeat match goal with b : bool |- _ => destruct b end; try done;
    unfold lex_compare; simpl.
  rewrite Z.compare_opp, (Z.compare_antisym e e').
  by destruct (e ?= e')%Z.
Qed.

(** [lex_compare] as propositions [lia] decides. *)
Definition lex_lt (a b : Z * Z * Z) : Prop :=
  (a.1.1 < b.1.1 ∨ (a.1.1 = b.1.1 ∧ (a.1.2 < b.1.2 ∨ (a.1.2 = b.1.2 ∧ a.2 < b.2))))%Z.

Lemma lex_compare_Lt a b : lex_compare a b = Lt ↔ lex_lt a b.
Proof.
  unfold lex_compare, lex_lt.
  destruct (Z.compare_spec a.1.1 b.1.1), (Z.compare_spec a.1.2 b.1.2),
    (Z.compare_spec a.2 b.2); split; intros; try done; lia.
Qed.

Lemma lex_compare_Eq a b : lex_compare a b = Eq ↔ a = b.
Proof.
  destruct a as [[a1 a2] a3], b as [[b1 b2] b3]. unfold lex_compare; simpl.
  destruct (Z.compare_spec a1 b1), (Z.compare_spec a2 b2),
    (Z.compare_spec a3 b3); split; intros E; simplify_eq; try done; lia.
Qed.

Lemma flt_key x y :
  flt x y = true ↔ is_nan x = false ∧ is_nan y = false ∧ lex_lt (fkey x) (fkey y).
Proof.
  unfold flt, SFltb. rewrite SFcompare_key, <- lex_compare_Lt.
  destruct (is_nan x), (is_nan y); simpl; try naive_solver.
  destruct (lex_compare _ _); naive_solver.
Qed.

Lemma fle_key x y :
  fle x y = true ↔ is_nan x = false ∧ is_nan y = false ∧ ¬ lex_lt (fkey y) (fkey x).
Proof.
  unfold fle, SFleb. rewrite SFcompare_key.
  destruct (is_nan x), (is_nan y); simpl; try naive_solver.
  destruct (lex_compare _ _) eqn:E; [apply lex_compare_Eq in E|apply lex_compare_Lt in E|].
  - unfold lex_lt. rewrite E. split; [intros _; split_and!; lia | done].
  - unfold lex_lt in *. split; [intros _; split_and!; lia | done].
  - split; [done|]. intros (_ & _ & []).
    rewrite <- lex_compare_Lt. revert E. unfold lex_compare.
    rewrite (Z.compare_antisym (fkey y).1.1), (Z.compare_antisym (fkey y).1.2),
      (Z.compare_antisym (fkey y).2).
    by repeat destruct (Z.compare _ _).
Qed.

(** Decide goals about comparisons through the keys. *)
Ltac flt_solve :=
  rewrite ?flt_key, ?fle_key, <- ?not_true_iff_false, ?flt_key, ?fle_key in *;
  unfold lex_lt in *; intuition (try congruence; try lia).

Lemma flt_irrefl x : flt x x = false.
Proof. apply not_true_is_false. rewrite flt_key. unfold lex_lt. lia. Qed.

Lemma flt_trans x y z : flt x y = true → flt y z = true → flt x z = true.
Proof. rewrite !flt_key. unfold lex_lt. intros (?&?&?) (?&?&?). split_and!; try done; lia. Qed.

Lemma flt_asym x y : flt x y = true → flt y x = false.
Proof.
  intros Hxy. apply not_true_is_false. intros Hyx.
  pose proof (flt_trans _ _ _ Hxy Hyx). by rewrite flt_irrefl in *.
Qed.

(** On numbers that are not NaN, [fle] is a total preorder whose strict part is [flt]. *)
Lemma fle_not_flt x y :
  is_nan x = false → is_nan y = false → fle x y = negb (flt y x).
Proof.
  intros Hx Hy. apply eq_true_iff_eq. rewrite negb_true_iff, <- not_true_iff_false.
  rewrite fle_key, flt_key. naive_solver.
Qed.

Lemma fle_trans x y z : fle x y = true → fle y z = true → fle x z = true.
Proof. rewrite !fle_key. unfold lex_lt. intros (?&?&?) (?&?&?). split_and!; try done; lia. Qed.

Lemma fle_refl x : is_nan x = false → fle x x = true.
Proof. intros. rewrite fle_key. unfold lex_lt. split_and!; try done; lia. Qed.

Lemma flt_fle x y : flt x y = true → fle x y = true.
Proof. rewrite flt_key, fle_key. unfold lex_lt. intros (?&?&?). split_and!; try done; lia. Qed.

(** ** Exact facts about division *)

(** [x / x = 1] for every finite non-zero [x]. *)
Lemma fdiv_self s m e : fdiv (S754_finite s m e) (S754_finite s m e) = f1.
Proof.
  unfold fdiv, SFdiv, SFdiv_core_binary.
  rewrite !Z.sub_diag, Bool.xorb_nilpotent.
  change (Z.min (fexp prec64 emax64 0) 0) with (-53)%Z.
  change (0 - -53)%Z with 53%Z. cbv beta iota zeta.
  rewrite Z.shiftl_mul_pow2 by lia.
  replace (Z.div_eucl (Z.pos m * 2 ^ 53) (Z.pos m)) with (2 ^ 53, 0)%Z.
  - unfold new_location, new_location_even, new_location_odd.
    change (0 =? 0)%Z with true. destruct (Z.even _); vm_compute; reflexivity.
  - pose proof (Z.div_mul (2 ^ 53) (Zpos m) ltac:(lia)) as Hd.
    pose proof (Z.mod_mul (2 ^ 53) (Zpos m) ltac:(lia)) as Hm.
    rewrite (Z.mul_comm (2 ^ 53)) in Hd, Hm.
    unfold Z.div, Z.modulo in Hd, Hm.
    destruct (Z.div_eucl (Z.pos m * 2 ^ 53) (Z.pos m)). by rewrite Hd, Hm.
Qed.

Lemma fdiv_zero_l s m e : fdiv f0 (S754_finite s m e) = S754_zero s.
Proof. done. Qed.

(** ** Integers as floats *)

Lemma digits2_pos_iter p k :
  digits2_pos (Pos.iter xO p k) = (digits2_pos p + k)%positive.
Proof.
  induction k as [|k IH] using Pos.peano_ind; simpl; [by rewrite Pos.add_1_r|].
  rewrite Pos.iter_succ. simpl. rewrite IH. lia.
Qed.

Lemma digits2_pos_lower p : (2 ^ (Zpos (digits2_pos p) - 1) ≤ Zpos p)%Z.
Proof.
  induction p as [p IH|p IH|]; simpl digits2_pos; [| |done].
  all: rewrite Pos2Z.inj_succ;
    replace (Z.succ (Zpos (digits2_pos p)) - 1)%Z with (Z.succ (Zpos (digits2_pos p) - 1)) by lia;
    rewrite Z.pow_succ_r by lia; lia.
Qed.

Lemma digits2_pos_53 p : (Zpos p < 2 ^ 53)%Z → (Zpos (digits2_pos p) ≤ 53)%Z.
Proof.
  intros Hp. pose proof (digits2_pos_lower p) as Hl.
  destruct (Z.le_gt_cases (Zpos (digits2_pos p)) 53) as [|Hgt]; [done|].
  pose proof (Z.pow_le_mono_r 2 53 (Zpos (digits2_pos p) - 1)). lia.
Qed.

Lemma fexp_int d e :
  (-1074 ≤ e)%Z → (d = 53)%Z → fexp prec64 emax64 (d + e) = e.
Proof. intros. unfold fexp, emin, prec64, emax64. lia. Qed.

Lemma round_aux_53 m e :
  Zpos (digits2_pos m) = 53%Z → (-1074 ≤ e ≤ 971)%Z →
  binary_round_aux prec64 emax64 false (Zpos m) e loc_Exact = S754_finite false m e.
Proof.
  intros Hd He. unfold binary_round_aux, shr_fexp. simpl Zdigits2.
  rewrite fexp_int, Z.sub_diag by (lia || done). simpl.
  rewrite fexp_int, Z.sub_diag by (lia || done). simpl.
  by rewrite (proj2 (Z.leb_le e (emax64 - prec64))) by (unfold emax64, prec64; lia).
Qed.

(** An integer below 2^53 has a finite, non-zero float. *)
Lemma f_of_Z_finite z :
  (0 < z < 2 ^ 53)%Z → ∃ m e, f_of_Z z = S754_finite false m e.
Proof.
  intros [Hz Hz']. destruct z as [|p|p]; [lia| |lia].
  pose proof (digits2_pos_53 p Hz') as Hd.
  unfold f_of_Z, binary_normalize, binary_round, shl_align.
  set (d := Zpos (digits2_pos p)) in *.
  assert (fexp prec64 emax64 (d + 0) = d - 53)%Z as -> by (unfold fexp, emin, prec64, emax64; lia).
  destruct (d - 53 - 0)%Z as [|k|k] eqn:Ek; [|lia|].
  - eexists _, _. apply round_aux_53; [unfold d in *|]; lia.
  - eexists _, _. apply round_aux_53; [|lia].
    rewrite digits2_pos_iter, Pos2Z.inj_add. fold d. lia.
Qed.

(** A positive integer converts to a positive float: finite or infinite, never zero. *)
Definition is_pos (x : float64) : bool := flt f0 x.

Example f_ratio_tenth : f_ratio 1 10 = S754_finite false 7205759403792794 (-56).
Proof. vm_compute. reflexivity. Qed.
