(* ===== verification/DeepCopy.v ===== *)
(** apix/config/v1alpha1/zz_generated.deepcopy.go: the deep copies of the
    configuration types, over a memory with pointers.

    The structs are polymorphic in what their pointer and slice fields hold, so
    that a configuration in memory and the value it stands for have one shape:
    in memory such a field holds the address of a cell, in the value it holds
    the contents. [into] functions return what [DeepCopyInto] leaves in [*out]. *)

From Stdlib Require Import String.
From Corelib Require Import SpecFloat.
From S2P Require Import Prelude GoFloat.

Local Open Scope string_scope.
Local Open Scope list_scope.

(** ** The structs *)

Record SpecObj (B : Type) := { so_Name : string; so_Type : string; so_Parameters : B }.
Record RefObj (F : Type) := { ro_PluginRef : string; ro_Weight : F }.
Record RefListObj (R : Type) := { rl_Plugins : R }.
Record ProfilePluginsObj (R : Type) := { po_Request : R; po_Response : R }.
Record ProfileObj (P : Type) := { fo_Name : string; fo_Plugins : P }.
Record DatalayerObj (R : Type) := { do_Collectors : R; do_Extractors : R; do_Datasources : R }.
(** apimachinery's [metav1.TypeMeta] holds two strings and no pointer, so the
    assignment of the struct copies it. *)
Record TypeMeta := { Kind : string; APIVersion : string }.
Record ConfigObj (S L R P D : Type) :=
  { co_TypeMeta : TypeMeta; co_Plugins : S; co_PreProcessing : L; co_ProfilePicker : R;
    co_Profiles : P; co_PostProcessing : L; co_Datalayer : D }.

Arguments so_Name {B}. Arguments so_Type {B}. Arguments so_Parameters {B}.
Arguments ro_PluginRef {F}. Arguments ro_Weight {F}.
Arguments rl_Plugins {R}.
Arguments po_Request {R}. Arguments po_Response {R}.
Arguments fo_Name {P}. Arguments fo_Plugins {P}.
Arguments do_Collectors {R}. Arguments do_Extractors {R}. Arguments do_Datasources {R}.
Arguments co_TypeMeta {S L R P D}. Arguments co_Plugins {S L R P D}.
Arguments co_PreProcessing {S L R P D}. Arguments co_ProfilePicker {S L R P D}.
Arguments co_Profiles {S L R P D}. Arguments co_PostProcessing {S L R P D}.
Arguments co_Datalayer {S L R P D}.

(** ** Memory *)

Abbreviation loc := positive (only parsing).

(** A non-nil slice: a window of an array. *)
Record slice := { arr : loc; off : nat; slen : nat }.

Definition MemSpec := SpecObj (option slice).
Definition MemRef := RefObj (option loc).
Definition MemRefList := RefListObj (option slice).
Definition MemProfilePlugins := ProfilePluginsObj (option slice).
Definition MemProfile := ProfileObj (option loc).
Definition MemDatalayer := DatalayerObj (option slice).
Definition MemConfig :=
  ConfigObj (option slice) (option loc) (option loc) (option slice) (option loc).

(** What one allocation holds: a variable, or the array behind slices. *)
Inductive cell : Type :=
| CBytes (a : list Byte.byte)
| CSpecs (a : list MemSpec)
| CRefs (a : list MemRef)
| CProfiles (a : list MemProfile)
| CFloat (x : float64)
| CSpec (x : MemSpec)
| CRef (x : MemRef)
| CRefList (x : MemRefList)
| CProfilePlugins (x : MemProfilePlugins)
| CProfile (x : MemProfile)
| CDatalayer (x : MemDatalayer)
| CConfig (x : MemConfig).

Abbreviation Heap := (gmap loc cell) (only parsing).

(** The types a cell can have. *)
Class Cell (T : Type) := {
  inj : T → cell;
  prj : cell → option T;
  prj_inj x : prj (inj x) = Some x
}.

#[export] Instance cell_bytes : Cell (list Byte.byte) :=
  {| inj := CBytes; prj := λ c, if c is CBytes a then Some a else None; prj_inj _ := eq_refl |}.
#[export] Instance cell_specs : Cell (list MemSpec) :=
  {| inj := CSpecs; prj := λ c, if c is CSpecs a then Some a else None; prj_inj _ := eq_refl |}.
#[export] Instance cell_refs : Cell (list MemRef) :=
  {| inj := CRefs; prj := λ c, if c is CRefs a then Some a else None; prj_inj _ := eq_refl |}.
#[export] Instance cell_profiles : Cell (list MemProfile) :=
  {| inj := CProfiles; prj := λ c, if c is CProfiles a then Some a else None; prj_inj _ := eq_refl |}.
#[export] Instance cell_float : Cell float64 :=
  {| inj := CFloat; prj := λ c, if c is CFloat a then Some a else None; prj_inj _ := eq_refl |}.
#[export] Instance cell_spec : Cell MemSpec :=
  {| inj := CSpec; prj := λ c, if c is CSpec a then Some a else None; prj_inj _ := eq_refl |}.
#[export] Instance cell_ref : Cell MemRef :=
  {| inj := CRef; prj := λ c, if c is CRef a then Some a else None; prj_inj _ := eq_refl |}.
#[export] Instance cell_reflist : Cell MemRefList :=
  {| inj := CRefList; prj := λ c, if c is CRefList a then Some a else None; prj_inj _ := eq_refl |}.
#[export] Instance cell_profile_plugins : Cell MemProfilePlugins :=
  {| inj := CProfilePlugins; prj := λ c, if c is CProfilePlugins a then Some a else None; prj_inj _ := eq_refl |}.
#[export] Instance cell_profile : Cell MemProfile :=
  {| inj := CProfile; prj := λ c, if c is CProfile a then Some a else None; prj_inj _ := eq_refl |}.
#[export] Instance cell_datalayer : Cell MemDatalayer :=
  {| inj := CDatalayer; prj := λ c, if c is CDatalayer a then Some a else None; prj_inj _ := eq_refl |}.
#[export] Instance cell_config : Cell MemConfig :=
  {| inj := CConfig; prj := λ c, if c is CConfig a then Some a else None; prj_inj _ := eq_refl |}.

(** The zero value of a type. *)
Class Zero (T : Type) := zero : T.
#[export] Instance zero_byte : Zero Byte.byte := Byte.x00.
#[export] Instance zero_float : Zero float64 := S754_zero false.
#[export] Instance zero_spec : Zero MemSpec :=
  {| so_Name := ""; so_Type := ""; so_Parameters := None |}.
#[export] Instance zero_ref : Zero MemRef := {| ro_PluginRef := ""; ro_Weight := None |}.
#[export] Instance zero_reflist : Zero MemRefList := {| rl_Plugins := None |}.
#[export] Instance zero_profile_plugins : Zero MemProfilePlugins :=
  {| po_Request := None; po_Response := None |}.
#[export] Instance zero_profile : Zero MemProfile := {| fo_Name := ""; fo_Plugins := None |}.
#[export] Instance zero_datalayer : Zero MemDatalayer :=
  {| do_Collectors := None; do_Extractors := None; do_Datasources := None |}.
#[export] Instance zero_config : Zero MemConfig :=
  {| co_TypeMeta := {| Kind := ""; APIVersion := "" |}; co_Plugins := None;
     co_PreProcessing := None; co_ProfilePicker := None; co_Profiles := None;
     co_PostProcessing := None; co_Datalayer := None |}.

(** ** Code over the memory *)

(** A computation on the memory that may panic. *)
Definition mem (A : Type) : Type := Heap → res (A * Heap).

#[export] Instance mem_ret : MRet mem := λ A a h, Ok (a, h).
#[export] Instance mem_bind : MBind mem := λ A B k m h,
  match m h with Ok (a, h') => k a h' | Panic w => Panic w end.

Definition crash {A} (why : string) : mem A := λ _, Panic why.

(** A new variable or array, at an address that nothing has. *)
Definition alloc {T} `{Cell T} (x : T) : mem loc := λ h,
  let l := fresh (dom h) in Ok (l, <[l := inj x]> h).

Definition load {T} `{Cell T} (l : loc) : mem T := λ h,
  match h !! l ≫= prj with Some x => Ok (x, h) | None => Panic "invalid address" end.

Definition store {T} `{Cell T} (l : loc) (x : T) : mem unit := λ h, Ok (tt, <[l := inj x]> h).

(** [s[i]], and the assignment to it. *)
Definition index {T} `{Cell (list T)} (s : slice) (i : nat) : mem T :=
  a ← load (arr s);
  match (a : list T) !! (off s + i) with
  | Some x => if decide (i < slen s) then mret x else crash "index out of range"
  | None => crash "index out of range"
  end.

Definition set_index {T} `{Cell (list T)} (s : slice) (i : nat) (x : T) : mem unit :=
  a ← load (arr s);
  if decide (i < slen s ∧ off s + i < length (a : list T))
  then store (arr s) (<[off s + i := x]> a)
  else crash "index out of range".

(** [make([]T, n)]. *)
Definition make_slice (T : Type) `{Zero T} `{Cell (list T)} (n : nat) : mem slice :=
  a ← alloc (replicate n (zero : T));
  mret {| arr := a; off := 0; slen := n |}.

(** The builtin [copy]: as many elements as both have. *)
Definition copy {T} `{Cell (list T)} (dst src : slice) : mem unit :=
  a ← load (arr src);
  b ← load (arr dst);
  let n := slen dst `min` slen src in
  store (arr dst)
    (take (off dst) b ++ take n (drop (off src) a) ++ drop (off dst + n) (b : list T)).

(** ** The generated code *)

(** [if in.F != nil { *out = new(T); ( *in).DeepCopyInto( *out) }] on a pointer
    field. The body of a [DeepCopy] is the same text for the receiver. *)
Definition copy_pointer {T} `{Zero T} `{Cell T} (into : T → mem T) (p : option loc)
    : mem (option loc) :=
  match p with
  | None => mret None
  | Some p =>
      out ← alloc (zero : T);
      x ← load p;
      y ← into x;
      _ ← store out y;
      mret (Some out)
  end.

(** [for i := range *in { ( *in)[i].DeepCopyInto(&( *out)[i]) }]. *)
Fixpoint copy_elements {T} `{Cell (list T)} (into : T → mem T) (src out : slice)
    (ks : list nat) : mem unit :=
  match ks with
  | [] => mret tt
  | i :: ks =>
      x ← index src i;
      y ← into x;
      _ ← set_index out i y;
      copy_elements into src out ks
  end.

(** [if in.F != nil { *out = make([]T, len( *in)); for ... }] on a slice field. *)
Definition copy_slice {T} `{Zero T} `{Cell (list T)} (into : T → mem T) (s : option slice)
    : mem (option slice) :=
  match s with
  | None => mret None
  | Some s =>
      out ← make_slice T (slen s);
      _ ← copy_elements into s out (seq 0 (slen s));
      mret (Some out)
  end.

(** The same on the bytes of a [json.RawMessage], with the builtin. *)
Definition copy_bytes (s : option slice) : mem (option slice) :=
  match s with
  | None => mret None
  | Some s =>
      out ← make_slice Byte.byte (slen s);
      _ ← copy (T := Byte.byte) out s;
      mret (Some out)
  end.

Definition PluginSpec_DeepCopyInto (x : MemSpec) : mem MemSpec :=
  parameters ← copy_bytes (so_Parameters x);
  mret {| so_Name := so_Name x; so_Type := so_Type x; so_Parameters := parameters |}.

Definition PluginRef_DeepCopyInto (x : MemRef) : mem MemRef :=
  weight ← match ro_Weight x with
           | None => mret None
           | Some p =>
               out ← alloc (zero : float64);
               f ← load p;
               _ ← store out (f : float64);
               mret (Some out)
           end;
  mret {| ro_PluginRef := ro_PluginRef x; ro_Weight := weight |}.

Definition PluginRefList_DeepCopyInto (x : MemRefList) : mem MemRefList :=
  plugins ← copy_slice PluginRef_DeepCopyInto (rl_Plugins x);
  mret {| rl_Plugins := plugins |}.

Definition ProfilePlugins_DeepCopyInto (x : MemProfilePlugins) : mem MemProfilePlugins :=
  request ← copy_slice PluginRef_DeepCopyInto (po_Request x);
  response ← copy_slice PluginRef_DeepCopyInto (po_Response x);
  mret {| po_Request := request; po_Response := response |}.

Definition Profile_DeepCopyInto (x : MemProfile) : mem MemProfile :=
  plugins ← copy_pointer ProfilePlugins_DeepCopyInto (fo_Plugins x);
  mret {| fo_Name := fo_Name x; fo_Plugins := plugins |}.

Definition DatalayerConfig_DeepCopyInto (x : MemDatalayer) : mem MemDatalayer :=
  collectors ← copy_slice PluginRef_DeepCopyInto (do_Collectors x);
  extractors ← copy_slice PluginRef_DeepCopyInto (do_Extractors x);
  datasources ← copy_slice PluginRef_DeepCopyInto (do_Datasources x);
  mret {| do_Collectors := collectors; do_Extractors := extractors;
          do_Datasources := datasources |}.

Definition PayloadProcessorConfig_DeepCopyInto (x : MemConfig) : mem MemConfig :=
  plugins ← copy_slice PluginSpec_DeepCopyInto (co_Plugins x);
  preProcessing ← copy_pointer PluginRefList_DeepCopyInto (co_PreProcessing x);
  profilePicker ← copy_pointer PluginRef_DeepCopyInto (co_ProfilePicker x);
  profiles ← copy_slice Profile_DeepCopyInto (co_Profiles x);
  postProcessing ← copy_pointer PluginRefList_DeepCopyInto (co_PostProcessing x);
  datalayer ← copy_pointer DatalayerConfig_DeepCopyInto (co_Datalayer x);
  mret {| co_TypeMeta := co_TypeMeta x; co_Plugins := plugins;
          co_PreProcessing := preProcessing; co_ProfilePicker := profilePicker;
          co_Profiles := profiles; co_PostProcessing := postProcessing;
          co_Datalayer := datalayer |}.

Definition PluginSpec_DeepCopy : option loc → mem (option loc) :=
  copy_pointer PluginSpec_DeepCopyInto.
Definition PluginRef_DeepCopy : option loc → mem (option loc) :=
  copy_pointer PluginRef_DeepCopyInto.
Definition PluginRefList_DeepCopy : option loc → mem (option loc) :=
  copy_pointer PluginRefList_DeepCopyInto.
Definition ProfilePlugins_DeepCopy : option loc → mem (option loc) :=
  copy_pointer ProfilePlugins_DeepCopyInto.
Definition Profile_DeepCopy : option loc → mem (option loc) :=
  copy_pointer Profile_DeepCopyInto.
Definition DatalayerConfig_DeepCopy : option loc → mem (option loc) :=
  copy_pointer DatalayerConfig_DeepCopyInto.
Definition PayloadProcessorConfig_DeepCopy : option loc → mem (option loc) :=
  copy_pointer PayloadProcessorConfig_DeepCopyInto.

(** The interface value is nil when the pointer is. *)
Definition DeepCopyObject (p : option loc) : mem (option loc) :=
  c ← PayloadProcessorConfig_DeepCopy p;
  match c with Some c => mret (Some c) | None => mret None end.

(** ** What a pointer or a slice in memory stands for

    [read h x] is the value of [x] in the memory [h]; [foot h x] are the cells
    it is read from. *)

Definition read_option {T V} (read : Heap → T → option V) (h : Heap) (x : option T)
    : option (option V) :=
  match x with None => Some None | Some x => Some <$> read h x end.

Definition foot_option {T} (foot : Heap → T → gset loc) (h : Heap) (x : option T) : gset loc :=
  match x with None => ∅ | Some x => foot h x end.

Definition read_pointer {T V} `{Cell T} (read : Heap → T → option V) (h : Heap) (p : loc)
    : option V :=
  x ← h !! p ≫= prj; read h x.

Definition foot_pointer {T} `{Cell T} (foot : Heap → T → gset loc) (h : Heap) (p : loc)
    : gset loc :=
  {[p]} ∪ foot_option foot h (h !! p ≫= prj).

(** The elements of a slice, when its array has that many. *)
Definition window {T} (s : slice) (a : list T) : option (list T) :=
  if decide (off s + slen s ≤ length a)%nat then Some (take (slen s) (drop (off s) a)) else None.

Definition read_slice {T V} `{Cell (list T)} (read : Heap → T → option V) (h : Heap) (s : slice)
    : option (list V) :=
  a ← h !! arr s ≫= prj; w ← window s a; mapM (read h) w.

Definition foot_slice {T} `{Cell (list T)} (foot : Heap → T → gset loc) (h : Heap) (s : slice)
    : gset loc :=
  {[arr s]} ∪ ⋃ (foot h <$> default [] (a ← h !! arr s ≫= prj; window s a)).

Definition read_flat {T} (_ : Heap) (x : T) : option T := Some x.
Definition foot_flat {T} (_ : Heap) (_ : T) : gset loc := ∅.

Definition ValSpec := SpecObj (option bytes).
Definition ValRef := RefObj (option float64).
Definition ValRefList := RefListObj (option (list ValRef)).
Definition ValProfilePlugins := ProfilePluginsObj (option (list ValRef)).
Definition ValProfile := ProfileObj (option ValProfilePlugins).
Definition ValDatalayer := DatalayerObj (option (list ValRef)).
Definition ValConfig :=
  ConfigObj (option (list ValSpec)) (option ValRefList) (option ValRef)
    (option (list ValProfile)) (option ValDatalayer).

(** ** The contract of a copy

    What is read depends on the footprint only; copying something that stands
    for a value returns, leaves the memory that there was as it was, and gives
    something that stands for the same value in memory that is new. *)
Record Copies {T V} (into : T → mem T) (read : Heap → T → option V)
    (foot : Heap → T → gset loc) : Prop := {
  foot_dom h x v : read h x = Some v → foot h x ⊆ dom h;
  read_frame h h' x v :
    read h x = Some v → (∀ l, l ∈ foot h x → h' !! l = h !! l) →
    read h' x = Some v ∧ foot h' x = foot h x;
  into_spec h x v :
    read h x = Some v →
    ∃ y h', into x h = Ok (y, h') ∧ h ⊆ h' ∧ read h' y = Some v ∧ foot h' y ## dom h
}.

Lemma read_mono {T V} into (read : Heap → T → option V) foot h h' x v :
  Copies into read foot → h ⊆ h' → read h x = Some v →
  read h' x = Some v ∧ foot h' x = foot h x.
Proof.
  intros C Hh Hx. apply (read_frame _ _ _ C h); [done|].
  intros l Hl. apply (foot_dom _ _ _ C h x v) in Hl; [|done].
  apply elem_of_dom in Hl as [c Hc]. rewrite Hc. by eapply lookup_weaken.
Qed.

Lemma read_insert {T V} into (read : Heap → T → option V) foot h x v l c :
  Copies into read foot → l ∉ foot h x → read h x = Some v →
  read (<[l := c]> h) x = Some v ∧ foot (<[l := c]> h) x = foot h x.
Proof.
  intros C Hl Hx. apply (read_frame _ _ _ C h); [done|].
  intros k Hk. apply lookup_insert_ne. by intros ->.
Qed.

Lemma bind_ok {A B} (m : mem A) (k : A → mem B) h a h' :
  m h = Ok (a, h') → (m ≫= k) h = k a h'.
Proof. unfold mbind, mem_bind. by intros ->. Qed.

Lemma load_ok {T} `{Cell T} h l (x : T) : h !! l ≫= prj = Some x → load l h = Ok (x, h).
Proof. unfold load. by intros ->. Qed.

Lemma index_ok {T} `{Cell (list T)} h s (a : list T) i x :
  h !! arr s ≫= prj = Some a → a !! (off s + i) = Some x → i < slen s →
  index s i h = Ok (x, h).
Proof.
  intros Ha Hx Hi. unfold index. erewrite bind_ok by by apply load_ok.
  by rewrite Hx, decide_True.
Qed.

Lemma set_index_ok {T} `{Cell (list T)} h s (a : list T) i x :
  h !! arr s ≫= prj = Some a → i < slen s → off s + i < length a →
  set_index s i x h = Ok (tt, <[arr s := inj (<[off s + i := x]> a)]> h).
Proof.
  intros Ha Hi Hl. unfold set_index. erewrite bind_ok by by apply load_ok.
  by rewrite decide_True.
Qed.

Lemma copies_flat {T} : Copies (λ x : T, mret x) read_flat foot_flat.
Proof.
  split; unfold foot_flat; [set_solver | done |].
  intros h x v E. exists x, h. split_and!; [done..|set_solver].
Qed.

(** Copying to the zero value, then storing, is the same for every pointee. *)
Lemma copies_pointer {T V} `{Zero T} `{Cell T} into (read : Heap → T → option V) foot :
  Copies into read foot →
  Copies (copy_pointer into) (read_option (read_pointer read))
    (foot_option (foot_pointer foot)).
Proof.
  intros C. unfold read_pointer, foot_pointer. split.
  - intros h [p|] v; simpl; [|set_solver].
    intros (w & (x & (c & Hc & Hx)%bind_Some & Hw)%bind_Some & _)%fmap_Some.
    rewrite Hc. simpl. rewrite Hx. simpl. apply union_subseteq. split.
    + apply elem_of_dom_2 in Hc. set_solver.
    + by eapply foot_dom.
  - intros h h' [p|] v; simpl; [|done].
    intros (w & (x & (c & Hc & Hx)%bind_Some & Hw)%bind_Some & ->)%fmap_Some.
    rewrite Hc. simpl. rewrite Hx. simpl. intros Hh.
    rewrite (Hh p), Hc by set_solver. simpl. rewrite Hx. simpl.
    destruct (read_frame _ _ _ C h h' x w Hw) as [-> ->]; [set_solver|done].
  - intros h [p|] v; simpl; [|intros [= <-]; exists None, h; split_and!; [done..|set_solver]].
    intros (w & (x & (c & Hc & Hx)%bind_Some & Hw)%bind_Some & ->)%fmap_Some.
    set (l := fresh (dom h)). assert (Hl : l ∉ dom h) by apply is_fresh.
    assert (Hl' := Hl). apply not_elem_of_dom in Hl'.
    set (h1 := <[l := inj zero]> h).
    assert (Hh1 : h ⊆ h1) by by apply insert_subseteq.
    destruct (read_mono _ _ _ _ h1 _ _ C Hh1 Hw) as [Hw1 _].
    destruct (into_spec _ _ _ C _ _ _ Hw1) as (y & h2 & Ey & Hh2 & Hy & Hf).
    exists (Some l), (<[l := inj y]> h2). split_and!.
    + unfold mbind, mem_bind, alloc, load, store. fold l. fold h1.
      rewrite (lookup_weaken _ _ _ _ Hc Hh1). simpl. by rewrite Hx, Ey.
    + apply insert_subseteq_r; [done|]. by etrans.
    + simpl. rewrite lookup_insert_eq. simpl. rewrite prj_inj. simpl.
      destruct (read_insert _ _ _ h2 y w l (inj y) C) as [-> _]; [|done|done].
      unfold h1 in Hf. set_solver.
    + simpl. rewrite lookup_insert_eq. simpl. rewrite prj_inj. simpl.
      destruct (read_insert _ _ _ h2 y w l (inj y) C) as [_ ->]; [|done|].
      all: unfold h1 in Hf; set_solver.
Qed.

Lemma window_lookup {T} s (a w : list T) i x :
  window s a = Some w → w !! i = Some x → a !! (off s + i) = Some x ∧ i < slen s.
Proof.
  unfold window. intros E Hi. case_decide; simplify_eq.
  apply lookup_take_Some in Hi as [Hi ?]. by rewrite lookup_drop in Hi.
Qed.

Lemma length_window {T} s (a w : list T) : window s a = Some w → length w = slen s.
Proof.
  unfold window. intros E. case_decide; simplify_eq. rewrite length_take, length_drop. lia.
Qed.

(** The array that a loop has filled up to its element number [length ys]. *)
Definition filled {T V} `{Zero T} `{Cell (list T)} (read : Heap → T → option V)
    (foot : Heap → T → gset loc) (h0 h : Heap) (l : loc) (ys : list T) (vs : list V) (n : nat)
    : Prop :=
  h0 ⊆ h ∧ h !! l = Some (inj (ys ++ replicate n zero)) ∧
  Forall2 (λ y v, read h y = Some v ∧ foot h y ## dom h0 ∪ {[l]}) ys vs.

Lemma filled_step {T V} `{Zero T} `{Cell (list T)} into (read : Heap → T → option V) foot
    h0 h l ys vs n x v :
  Copies into read foot → l ∉ dom h0 →
  filled read foot h0 h l ys vs (S n) → read h0 x = Some v →
  ∃ y h1, into x h = Ok (y, h1) ∧ h ⊆ h1 ∧
    filled read foot h0 (<[l := inj (ys ++ y :: replicate n zero)]> h1) l (ys ++ [y])
      (vs ++ [v]) n.
Proof.
  intros C Hl (Hh & Ha & Hys) Hx.
  destruct (read_mono _ _ _ _ h _ _ C Hh Hx) as [Hx' _].
  destruct (into_spec _ _ _ C _ _ _ Hx') as (y & h1 & Ey & Hh1 & Hy & Hf).
  assert (Hlh : l ∈ dom h) by by apply elem_of_dom_2 in Ha.
  assert (Hd : dom h0 ⊆ dom h) by by apply subseteq_dom.
  exists y, h1. split_and!; [done|done|]. split_and!.
  - apply insert_subseteq_r; [by apply not_elem_of_dom|by etrans].
  - by rewrite lookup_insert_eq, <- app_assoc.
  - apply Forall2_app; [|repeat constructor].
    + eapply Forall2_impl; [done|]. intros y' v' [Hy' Hf'].
      destruct (read_mono _ _ _ _ h1 _ _ C Hh1 Hy') as [Hy1 Hf1].
      destruct (read_insert _ _ _ h1 y' v' l (inj (ys ++ y :: replicate n zero)) C)
        as [-> ->]; [|done|]; rewrite Hf1; [set_solver|done].
    + destruct (read_insert _ _ _ h1 y v l (inj (ys ++ y :: replicate n zero)) C)
        as [-> _]; [set_solver|done|done].
    + destruct (read_insert _ _ _ h1 y v l (inj (ys ++ y :: replicate n zero)) C)
        as [_ ->]; set_solver.
Qed.

Lemma copy_elements_fills {T V} `{Zero T} `{Cell (list T)} into (read : Heap → T → option V)
    foot h0 src a w l :
  Copies into read foot → l ∉ dom h0 →
  h0 !! arr src ≫= prj = Some a → window src a = Some w →
  ∀ n h ys vs vs',
  filled read foot h0 h l ys vs n → length ys + n = slen src →
  mapM (read h0) (drop (length ys) w) = Some vs' →
  ∃ h' ys',
    copy_elements into src {| arr := l; off := 0; slen := slen src |} (seq (length ys) n) h
      = Ok (tt, h') ∧
    filled read foot h0 h' l ys' (vs ++ vs') 0.
Proof.
  intros C Hl Ha Hw. pose proof (length_window _ _ _ Hw) as Hlen.
  induction n as [|n IH]; intros h ys vs vs' Hfill Hn Hvs.
  { rewrite drop_ge in Hvs by lia. simpl in Hvs. injection Hvs as <-.
    exists h, ys. by rewrite app_nil_r. }
  destruct (lookup_lt_is_Some_2 w (length ys)) as [x Hx]; [lia|].
  rewrite (drop_S _ _ _ Hx) in Hvs. simpl in Hvs.
  apply bind_Some in Hvs as (v & Hv & (vs1 & Hvs & [= <-])%bind_Some).
  destruct (filled_step into read foot h0 h l ys vs n x v)
    as (y & h1 & Ey & Hh1 & Hfill'); [done..|].
  destruct (IH _ (ys ++ [y]) (vs ++ [v]) vs1 Hfill') as (h' & ys' & E & Hend).
  { rewrite length_app. simpl. lia. }
  { rewrite length_app. simpl. by rewrite Nat.add_1_r. }
  exists h', ys'. split; [|by rewrite <- app_assoc in Hend].
  rewrite length_app, Nat.add_1_r in E. simpl.
  destruct Hfill as (Hh & Hl' & _).
  assert (Ea : h !! arr src ≫= prj = Some a).
  { apply bind_Some in Ha as (c & Hc & Hp). by rewrite (lookup_weaken _ _ _ _ Hc Hh). }
  destruct (window_lookup _ _ _ _ _ Hw Hx) as [Hxa Hi].
  erewrite bind_ok by by eapply index_ok. erewrite bind_ok by exact Ey.
  erewrite bind_ok; [exact E|].
  rewrite (set_index_ok _ _ (ys ++ replicate (S n) zero)); simpl.
  - by rewrite insert_app_r_alt, Nat.sub_diag.
  - rewrite (lookup_weaken _ _ _ _ Hl' Hh1). apply prj_inj.
  - lia.
  - rewrite length_app. simpl. lia.
Qed.

Lemma filled_read {T V} `{Zero T} `{Cell (list T)} (read : Heap → T → option V) foot
    h0 h l ys vs :
  filled read foot h0 h l ys vs 0 →
  let s := {| arr := l; off := 0; slen := length ys |} in
  read_slice read h s = Some vs ∧ foot_slice foot h s ⊆ {[l]} ∪ ⋃ (foot h <$> ys).
Proof.
  intros (Hh & Ha & Hys) s. unfold read_slice, foot_slice. simpl.
  rewrite Ha. simpl. rewrite prj_inj. simpl. rewrite app_nil_r.
  replace (window s ys) with (Some ys).
  - split; [|done]. simpl. apply mapM_Some. eapply Forall2_impl; [done|]. naive_solver.
  - unfold window. simpl. by rewrite decide_True, take_ge by done.
Qed.

Lemma filled_disjoint {T V} `{Zero T} `{Cell (list T)} (read : Heap → T → option V) foot
    h0 h l ys vs n :
  l ∉ dom h0 → filled read foot h0 h l ys vs n → {[l]} ∪ ⋃ (foot h <$> ys) ## dom h0.
Proof.
  intros Hl (_ & _ & Hys). apply disjoint_union_l. split; [set_solver|].
  intros k (F & (y & -> & Hy)%list_elem_of_fmap & Hk)%elem_of_union_list.
  apply list_elem_of_lookup in Hy as [i Hy].
  destruct (Forall2_lookup_l _ _ _ _ _ Hys Hy) as (v & _ & _ & Hd). set_solver.
Qed.

Lemma slice_parts {T V} `{Cell (list T)} (read : Heap → T → option V) h s vs :
  read_slice read h s = Some vs →
  ∃ a w, h !! arr s ≫= prj = Some a ∧ window s a = Some w ∧ mapM (read h) w = Some vs ∧
    arr s ∈ dom h.
Proof.
  unfold read_slice. intros (a & Ha & (w & Hw & Hvs)%bind_Some)%bind_Some.
  exists a, w. split_and!; [done..|]. apply bind_Some in Ha as (c & Hc & _).
  by apply elem_of_dom_2 in Hc.
Qed.

Lemma foot_slice_dom {T V} `{Zero T} `{Cell (list T)} into (read : Heap → T → option V) foot
    h s vs :
  Copies into read foot → read_slice read h s = Some vs → foot_slice foot h s ⊆ dom h.
Proof.
  intros C (a & w & Ha & Hw & Hvs & Hin)%slice_parts.
  unfold foot_slice. rewrite Ha. simpl. rewrite Hw. simpl.
  apply mapM_Some in Hvs. intros l [->%elem_of_singleton|Hl]%elem_of_union; [done|].
  apply elem_of_union_list in Hl as (F & (x & -> & Hx)%list_elem_of_fmap & Hl).
  apply list_elem_of_lookup in Hx as [i Hx].
  destruct (Forall2_lookup_l _ _ _ _ _ Hvs Hx) as (v' & _ & Hv').
  by eapply foot_dom in Hv'; [apply Hv' in Hl|].
Qed.

Lemma read_slice_frame {T V} `{Zero T} `{Cell (list T)} into (read : Heap → T → option V) foot
    h h' s vs :
  Copies into read foot → read_slice read h s = Some vs →
  (∀ l, l ∈ foot_slice foot h s → h' !! l = h !! l) →
  read_slice read h' s = Some vs ∧ foot_slice foot h' s = foot_slice foot h s.
Proof.
  intros C (a & w & Ha & Hw & Hvs & Hin)%slice_parts.
  unfold foot_slice, read_slice. rewrite Ha. simpl. rewrite Hw. simpl. intros Hh.
  rewrite (Hh (arr s)) by set_solver. rewrite Ha. simpl. rewrite Hw. simpl.
  assert (Hall : Forall (λ x, ∀ v, read h x = Some v → read h' x = Some v ∧
    foot h' x = foot h x) w).
  { apply Forall_forall. intros x Hx v Hv. apply (read_frame _ _ _ C h); [done|].
    intros l Hl. apply Hh, elem_of_union_r, elem_of_union_list.
    exists (foot h x). split; [by apply list_elem_of_fmap_2|done]. }
  apply mapM_Some in Hvs. clear -Hvs Hall.
  assert (mapM (read h') w = Some vs ∧ foot h' <$> w = foot h <$> w) as [-> ->]; [|done].
  induction Hvs as [|x v w vs Hx Hvs IH]; [done|].
  apply Forall_cons in Hall as [Hx' Hall]. destruct (Hx' v Hx) as [Hr Hf].
  destruct (IH Hall) as [IH1 IH2]. rewrite !fmap_cons, Hf, IH2. simpl.
  by rewrite Hr, IH1.
Qed.

Lemma copies_slice {T V} `{Zero T} `{Cell (list T)} into (read : Heap → T → option V) foot :
  Copies into read foot →
  Copies (copy_slice into) (read_option (read_slice read)) (foot_option (foot_slice foot)).
Proof.
  intros C. split.
  - intros h [s|] v; simpl; [|set_solver]. intros (vs & Hs & _)%fmap_Some.
    by eapply foot_slice_dom.
  - intros h h' [s|] v; simpl; [|done]. intros (vs & Hs & ->)%fmap_Some Hh.
    by destruct (read_slice_frame into read foot h h' s vs C Hs Hh) as [-> ->].
  - intros h [s|] v; simpl; [|intros [= <-]; exists None, h; split_and!; [done..|set_solver]].
    intros (vs & (a & w & Ha & Hw & Hvs & Hin)%slice_parts & ->)%fmap_Some.
    set (l := fresh (dom h)). assert (Hl : l ∉ dom h) by apply is_fresh.
    destruct (copy_elements_fills into read foot h s a w l C Hl Ha Hw (slen s)
      (<[l := inj (replicate (slen s) zero)]> h) [] [] vs) as (h' & ys & E & Hfill).
    { split_and!; [by apply insert_subseteq, not_elem_of_dom | by rewrite lookup_insert_eq |].
      constructor. }
    { done. }
    { done. }
    destruct (filled_read _ _ _ _ _ _ _ Hfill) as [Hr Hf].
    assert (Hlen : length ys = slen s).
    { destruct Hfill as (_ & _ & Hys). apply Forall2_length in Hys. rewrite Hys.
      rewrite <- (length_window _ _ _ Hw). symmetry. by eapply length_mapM. }
    rewrite Hlen in Hr, Hf. exists (Some {| arr := l; off := 0; slen := slen s |}), h'.
    split_and!.
    + unfold copy_slice. erewrite bind_ok; [by erewrite bind_ok by exact E|done].
    + apply Hfill.
    + simpl. by rewrite Hr.
    + simpl. apply filled_disjoint in Hfill; [|done]. set_solver.
Qed.

Lemma copy_ok {T} `{Cell (list T)} h dst src (a b : list T) :
  h !! arr src ≫= prj = Some a → h !! arr dst ≫= prj = Some b →
  let n := slen dst `min` slen src in
  copy dst src h = Ok (tt, <[arr dst := inj (take (off dst) b ++ take n (drop (off src) a) ++
    drop (off dst + n) b)]> h).
Proof.
  intros Ha Hb. unfold copy. erewrite bind_ok by by apply load_ok.
  by erewrite bind_ok by by apply load_ok.
Qed.

(** The builtin [copy] into a new array does what the loop does for bytes. *)
Lemma copies_bytes :
  Copies copy_bytes (read_option (read_slice (T := Byte.byte) read_flat))
    (foot_option (foot_slice (T := Byte.byte) foot_flat)).
Proof.
  pose proof (copies_slice (λ x : Byte.byte, mret x) read_flat foot_flat copies_flat) as C.
  split; [exact (foot_dom _ _ _ C) | exact (read_frame _ _ _ C) |].
  intros h [s|] v; simpl; [|intros [= <-]; exists None, h; split_and!; [done..|set_solver]].
  intros (vs & (a & w & Ha & Hw & Hvs & Hin)%slice_parts & ->)%fmap_Some.
  set (l := fresh (dom h)). assert (Hl : l ∉ dom h) by apply is_fresh.
  assert (Hlen := length_window _ _ _ Hw).
  assert (vs = w) as ->.
  { apply mapM_Some in Hvs. clear -Hvs. induction Hvs as [|x v w vs [= ->] _ IH]; congruence. }
  set (h1 := <[l := inj (replicate (slen s) (zero : Byte.byte))]> h).
  assert (Hh1 : h ⊆ h1) by by apply insert_subseteq, not_elem_of_dom.
  assert (Hfill : filled read_flat foot_flat h (<[l := inj w]> h1) l w w 0).
  { split_and!.
    - apply insert_subseteq_r; [by apply not_elem_of_dom|done].
    - by rewrite lookup_insert_eq, app_nil_r.
    - apply Forall_Forall2_diag, Forall_forall. intros x _. split; [done|].
      unfold foot_flat. set_solver. }
  destruct (filled_read _ _ _ _ _ _ _ Hfill) as [Hr Hf]. rewrite Hlen in Hr, Hf.
  exists (Some {| arr := l; off := 0; slen := slen s |}), (<[l := inj w]> h1). split_and!.
  - unfold copy_bytes. erewrite bind_ok by reflexivity. erewrite bind_ok; [reflexivity|].
    rewrite (copy_ok _ _ _ a (replicate (slen s) zero)); simpl.
    + rewrite Nat.min_id, (drop_ge (replicate _ _)), app_nil_r by (by rewrite length_replicate).
      unfold window in Hw. case_decide; simplify_eq. done.
    + apply bind_Some in Ha as (c & Hc & Hp). fold l. change (h1 !! arr s ≫= prj = Some a).
      by rewrite (lookup_weaken _ _ _ _ Hc Hh1).
    + fold l. fold h1. unfold h1. by rewrite lookup_insert_eq.
  - apply Hfill.
  - unfold read_option. by rewrite Hr.
  - unfold foot_option. apply filled_disjoint in Hfill; [|done]. set_solver.
Qed.

(** ** Structs

    A struct is read field by field. *)

Definition read_PluginSpec (h : Heap) (x : MemSpec) : option ValSpec :=
  parameters ← read_option (read_slice (T := Byte.byte) read_flat) h (so_Parameters x);
  mret {| so_Name := so_Name x; so_Type := so_Type x; so_Parameters := parameters |}.

Definition read_PluginRef (h : Heap) (x : MemRef) : option ValRef :=
  weight ← read_option (read_pointer (T := float64) read_flat) h (ro_Weight x);
  mret {| ro_PluginRef := ro_PluginRef x; ro_Weight := weight |}.

Definition read_refs : Heap → option slice → option (option (list ValRef)) :=
  read_option (read_slice read_PluginRef).

Definition read_PluginRefList (h : Heap) (x : MemRefList) : option ValRefList :=
  plugins ← read_refs h (rl_Plugins x);
  mret {| rl_Plugins := plugins |}.

Definition read_ProfilePlugins (h : Heap) (x : MemProfilePlugins) : option ValProfilePlugins :=
  request ← read_refs h (po_Request x);
  response ← read_refs h (po_Response x);
  mret {| po_Request := request; po_Response := response |}.

Definition read_Profile (h : Heap) (x : MemProfile) : option ValProfile :=
  plugins ← read_option (read_pointer read_ProfilePlugins) h (fo_Plugins x);
  mret {| fo_Name := fo_Name x; fo_Plugins := plugins |}.

Definition read_DatalayerConfig (h : Heap) (x : MemDatalayer) : option ValDatalayer :=
  collectors ← read_refs h (do_Collectors x);
  extractors ← read_refs h (do_Extractors x);
  datasources ← read_refs h (do_Datasources x);
  mret {| do_Collectors := collectors; do_Extractors := extractors;
          do_Datasources := datasources |}.

Definition read_Config (h : Heap) (x : MemConfig) : option ValConfig :=
  plugins ← read_option (read_slice read_PluginSpec) h (co_Plugins x);
  preProcessing ← read_option (read_pointer read_PluginRefList) h (co_PreProcessing x);
  profilePicker ← read_option (read_pointer read_PluginRef) h (co_ProfilePicker x);
  profiles ← read_option (read_slice read_Profile) h (co_Profiles x);
  postProcessing ← read_option (read_pointer read_PluginRefList) h (co_PostProcessing x);
  datalayer ← read_option (read_pointer read_DatalayerConfig) h (co_Datalayer x);
  mret {| co_TypeMeta := co_TypeMeta x; co_Plugins := plugins;
          co_PreProcessing := preProcessing; co_ProfilePicker := profilePicker;
          co_Profiles := profiles; co_PostProcessing := postProcessing;
          co_Datalayer := datalayer |}.

(** Two fields one after the other, and what is made of their copies. *)
Definition into_pair {A B} (f : A → mem A) (g : B → mem B) (x : A * B) : mem (A * B) :=
  a ← f x.1; b ← g x.2; mret (a, b).
Definition read_pair {A B V U} (f : Heap → A → option V) (g : Heap → B → option U) (h : Heap)
    (x : A * B) : option (V * U) :=
  a ← f h x.1; b ← g h x.2; mret (a, b).
Definition foot_pair {A B} (f : Heap → A → gset loc) (g : Heap → B → gset loc) (h : Heap)
    (x : A * B) : gset loc := f h x.1 ∪ g h x.2.

Lemma copies_pair {A B V U} f (r : Heap → A → option V) fa g (r' : Heap → B → option U) fb :
  Copies f r fa → Copies g r' fb → Copies (into_pair f g) (read_pair r r') (foot_pair fa fb).
Proof.
  unfold read_pair, foot_pair. intros C D. split.
  - intros h [a b] v; simpl. intros (x & Hx & (y & Hy & _)%bind_Some)%bind_Some.
    apply union_subseteq. split; by eapply foot_dom.
  - intros h h' [a b] v; simpl. intros (x & Hx & (y & Hy & <-)%bind_Some)%bind_Some Hh.
    destruct (read_frame _ _ _ C h h' a x Hx) as [-> ->]; [set_solver|].
    destruct (read_frame _ _ _ D h h' b y Hy) as [-> ->]; [set_solver|done].
  - intros h [a b] v; simpl. intros (x & Hx & (y & Hy & <-)%bind_Some)%bind_Some.
    destruct (into_spec _ _ _ C _ _ _ Hx) as (a' & h1 & Ea & Hh1 & Hx' & Hfa).
    destruct (read_mono _ _ _ _ _ _ _ D Hh1 Hy) as [Hy1 _].
    destruct (into_spec _ _ _ D _ _ _ Hy1) as (b' & h2 & Eb & Hh2 & Hy' & Hfb).
    destruct (read_mono _ _ _ _ _ _ _ C Hh2 Hx') as [Hx2 Hf2].
    exists (a', b'), h2. apply subseteq_dom in Hh1 as Hd. split_and!.
    + unfold into_pair. simpl. erewrite bind_ok by done. by erewrite bind_ok by done.
    + by etrans.
    + simpl. by rewrite Hx2, Hy'.
    + simpl. rewrite Hf2. set_solver.
Qed.

(** A struct [S] with its value [V], seen as its fields [A] with their values
    [U]; the rest of the struct is copied as it is. *)
Lemma copies_struct {S V A U} (get : S → A) (put : S → A → S) (val : S → U → V)
    into (read : Heap → S → option V) f (r : Heap → A → option U) fa :
  (∀ x a, get (put x a) = a) → (∀ x a u, val (put x a) u = val x u) →
  (∀ x h, into x h = ((a ← f (get x); mret (put x a)) : mem S) h) →
  (∀ h x, read h x = val x <$> r h (get x)) →
  Copies f r fa → Copies into read (λ h x, fa h (get x)).
Proof.
  intros Hg Hv Hi Hr C. split.
  - intros h x v. rewrite Hr. intros (u & Hu & _)%fmap_Some. by eapply foot_dom.
  - intros h h' x v. rewrite !Hr. intros (u & Hu & ->)%fmap_Some Hh.
    by destruct (read_frame _ _ _ C h h' _ _ Hu) as [-> ->].
  - intros h x v. rewrite Hr. intros (u & Hu & ->)%fmap_Some.
    destruct (into_spec _ _ _ C _ _ _ Hu) as (a & h' & E & Hh & Ha & Hf).
    exists (put x a), h'. rewrite Hi, Hr, Hg, Ha. simpl. rewrite Hv.
    split_and!; [by erewrite bind_ok by done | done..].
Qed.

Lemma PluginSpec_copies : ∃ foot, Copies PluginSpec_DeepCopyInto read_PluginSpec foot.
Proof.
  eexists. eapply (copies_struct so_Parameters
    (λ x a, {| so_Name := so_Name x; so_Type := so_Type x; so_Parameters := a |})
    (λ x u, {| so_Name := so_Name x; so_Type := so_Type x; so_Parameters := u |}));
    [done..| |exact copies_bytes].
  intros h x. unfold read_PluginSpec. by destruct (read_option _ _ _).
Qed.

Lemma PluginRef_copies : ∃ foot, Copies PluginRef_DeepCopyInto read_PluginRef foot.
Proof.
  eexists. eapply (copies_struct ro_Weight
    (λ x a, {| ro_PluginRef := ro_PluginRef x; ro_Weight := a |})
    (λ x u, {| ro_PluginRef := ro_PluginRef x; ro_Weight := u |}));
    [done.. | | | exact (copies_pointer _ _ _ copies_flat)].
  - intros x h. unfold PluginRef_DeepCopyInto, copy_pointer. by destruct (ro_Weight x).
  - intros h x. unfold read_PluginRef. by destruct (read_option _ _ _).
Qed.

Lemma refs_copies : ∃ foot, Copies (copy_slice PluginRef_DeepCopyInto) read_refs foot.
Proof. destruct PluginRef_copies as [foot C]. eexists. by apply copies_slice. Qed.

Lemma PluginRefList_copies : ∃ foot, Copies PluginRefList_DeepCopyInto read_PluginRefList foot.
Proof.
  destruct refs_copies as [foot C]. eexists.
  eapply (copies_struct rl_Plugins (λ x a, {| rl_Plugins := a |})
    (λ (x : MemRefList) u, {| rl_Plugins := u |})); [done.. | | exact C].
  intros h x. unfold read_PluginRefList. by destruct (read_refs _ _).
Qed.

(** Code that copies fields one by one is code that copies a tuple of them. *)
Ltac by_fields :=
  unfold into_pair, mbind, mem_bind; simpl;
  repeat match goal with
  | |- context [match ?m with Ok _ => _ | Panic _ => _ end] =>
      lazymatch m with
      | context [match _ with Ok _ => _ | Panic _ => _ end] => fail
      | _ => destruct m as [[? ?]|]; simpl
      end
  end; done.

(** The same for reading them. *)
Ltac by_reads :=
  unfold read_pair; simpl;
  repeat match goal with
  | |- context [match ?m with Some _ => _ | None => _ end] =>
      lazymatch m with
      | context [match _ with Some _ => _ | None => _ end] => fail
      | _ => destruct m; simpl
      end
  end; done.

Lemma ProfilePlugins_copies :
  ∃ foot, Copies ProfilePlugins_DeepCopyInto read_ProfilePlugins foot.
Proof.
  destruct refs_copies as [foot C]. eexists.
  eapply (copies_struct (λ x, (po_Request x, po_Response x))
    (λ x a, {| po_Request := a.1; po_Response := a.2 |})
    (λ (x : MemProfilePlugins) u, {| po_Request := u.1; po_Response := u.2 |}));
    [by intros ? [] | done | | | exact (copies_pair _ _ _ _ _ _ C C)].
  - intros x h. unfold ProfilePlugins_DeepCopyInto. by_fields.
  - intros h x. unfold read_ProfilePlugins, mbind, option_bind. by_reads.
Qed.

Lemma Profile_copies : ∃ foot, Copies Profile_DeepCopyInto read_Profile foot.
Proof.
  destruct ProfilePlugins_copies as [foot C]. eexists.
  eapply (copies_struct fo_Plugins (λ x a, {| fo_Name := fo_Name x; fo_Plugins := a |})
    (λ x u, {| fo_Name := fo_Name x; fo_Plugins := u |}));
    [done.. | | exact (copies_pointer _ _ _ C)].
  intros h x. unfold read_Profile. by destruct (read_option _ _ _).
Qed.

Lemma DatalayerConfig_copies :
  ∃ foot, Copies DatalayerConfig_DeepCopyInto read_DatalayerConfig foot.
Proof.
  destruct refs_copies as [foot C]. eexists.
  eapply (copies_struct (λ x, (do_Collectors x, (do_Extractors x, do_Datasources x)))
    (λ x a, {| do_Collectors := a.1; do_Extractors := a.2.1; do_Datasources := a.2.2 |})
    (λ (x : MemDatalayer) u,
      {| do_Collectors := u.1; do_Extractors := u.2.1; do_Datasources := u.2.2 |}));
    [by intros ? (? & ? & ?) | done | | |
     exact (copies_pair _ _ _ _ _ _ C (copies_pair _ _ _ _ _ _ C C))].
  - intros x h. unfold DatalayerConfig_DeepCopyInto. by_fields.
  - intros h x. unfold read_DatalayerConfig, mbind, option_bind. by_reads.
Qed.

Lemma Config_copies : ∃ foot, Copies PayloadProcessorConfig_DeepCopyInto read_Config foot.
Proof.
  destruct PluginSpec_copies as [fs S], PluginRefList_copies as [fl L].
  destruct PluginRef_copies as [fr R], Profile_copies as [fp P].
  destruct DatalayerConfig_copies as [fd D]. eexists.
  eapply (copies_struct
    (λ x, (co_Plugins x, (co_PreProcessing x, (co_ProfilePicker x,
           (co_Profiles x, (co_PostProcessing x, co_Datalayer x))))))
    (λ x a, {| co_TypeMeta := co_TypeMeta x; co_Plugins := a.1; co_PreProcessing := a.2.1;
       co_ProfilePicker := a.2.2.1; co_Profiles := a.2.2.2.1;
       co_PostProcessing := a.2.2.2.2.1; co_Datalayer := a.2.2.2.2.2 |})
    (λ x u, {| co_TypeMeta := co_TypeMeta x; co_Plugins := u.1; co_PreProcessing := u.2.1;
       co_ProfilePicker := u.2.2.1; co_Profiles := u.2.2.2.1;
       co_PostProcessing := u.2.2.2.2.1; co_Datalayer := u.2.2.2.2.2 |}));
    [by intros ? (? & ? & ? & ? & ? & ?) | done | | |
     exact (copies_pair _ _ _ _ _ _ (copies_slice _ _ _ S)
       (copies_pair _ _ _ _ _ _ (copies_pointer _ _ _ L)
       (copies_pair _ _ _ _ _ _ (copies_pointer _ _ _ R)
       (copies_pair _ _ _ _ _ _ (copies_slice _ _ _ P)
       (copies_pair _ _ _ _ _ _ (copies_pointer _ _ _ L) (copies_pointer _ _ _ D))))))].
  - intros x h. unfold PayloadProcessorConfig_DeepCopyInto. by_fields.
  - intros h x. unfold read_Config, mbind, option_bind. by_reads.
Qed.

(** C37: Deep copies of configurations are deep. Whatever configuration [v] a
    pointer stands for - nil or shared fields and windows of larger arrays
    included - [DeepCopyObject] returns a new object that stands for the same
    [v] and leaves the memory there was as it was. There is a set [F] of new
    cells that holds all of the copy and nothing of the original: the copy is
    [v] whatever is written outside of [F], and the original is [v] whatever is
    written into [F]. The copy of nil is nil. *)
Theorem deep_copy_is_deep (h : Heap) (p : loc) (v : ValConfig)
    (Hv : read_pointer read_Config h p = Some v) :
  DeepCopyObject None h = Ok (None, h) ∧
  ∃ q h' F,
    DeepCopyObject (Some p) h = Ok (Some q, h') ∧ h ⊆ h' ∧ q ∈ F ∧ F ## dom h ∧
    (∀ h'', (∀ l, l ∈ F → h'' !! l = h' !! l) → read_pointer read_Config h'' q = Some v) ∧
    (∀ h'', (∀ l, l ∉ F → h'' !! l = h' !! l) → read_pointer read_Config h'' p = Some v).
Proof.
  split; [done|]. destruct Config_copies as [foot C]. apply copies_pointer in C.
  assert (Hp : read_option (read_pointer read_Config) h (Some p) = Some (Some v))
    by (simpl; by rewrite Hv).
  destruct (into_spec _ _ _ C _ _ _ Hp) as (y & h' & E & Hh & Hy & Hf).
  destruct y as [q|]; [|done]. exists q, h', (foot_pointer foot h' q). split_and!.
  - unfold DeepCopyObject. by erewrite bind_ok by exact E.
  - done.
  - unfold foot_pointer. set_solver.
  - done.
  - intros h'' Hh''. destruct (read_frame _ _ _ C h' h'' (Some q) (Some v) Hy Hh'') as [Hr _].
    simpl in Hr. by apply fmap_Some in Hr as (? & ? & [= ->]).
  - intros h'' Hh''. assert (Hd := foot_dom _ _ _ C h (Some p) (Some v) Hp).
    destruct (read_frame _ _ _ C h h'' (Some p) (Some v) Hp) as [Hr _].
    { intros l Hl%Hd. rewrite Hh'' by set_solver. apply elem_of_dom in Hl as [c Hc].
      rewrite Hc. by eapply lookup_weaken. }
    simpl in Hr. by apply fmap_Some in Hr as (? & ? & [= ->]).
Qed.

(** A configuration in memory: one list of references serves before and after
    the profile and names the weighted plugin of the profile too; parameters are
    a window of a larger buffer; the data layer has an empty list, and nil. *)
Definition sample_heap : Heap :=
  list_to_map
    [(1%positive, CConfig
        {| co_TypeMeta := {| Kind := "PayloadProcessorConfig"; APIVersion := "llm-d.ai/v1alpha1" |};
           co_Plugins := Some {| arr := 2; off := 0; slen := 1 |};
           co_PreProcessing := Some 3%positive; co_ProfilePicker := None;
           co_Profiles := Some {| arr := 4; off := 0; slen := 1 |};
           co_PostProcessing := Some 3%positive; co_Datalayer := Some 5%positive |});
     (2%positive, CSpecs [{| so_Name := ""; so_Type := "t";
        so_Parameters := Some {| arr := 6; off := 2; slen := 2 |} |}]);
     (3%positive, CRefList {| rl_Plugins := Some {| arr := 7; off := 0; slen := 1 |} |});
     (4%positive, CProfiles [{| fo_Name := "default"; fo_Plugins := Some 8%positive |}]);
     (5%positive, CDatalayer {| do_Collectors := Some {| arr := 7; off := 1; slen := 0 |};
        do_Extractors := None; do_Datasources := None |});
     (6%positive, CBytes (s2b ": {}"));
     (7%positive, CRefs [{| ro_PluginRef := "t"; ro_Weight := Some 9%positive |}]);
     (8%positive, CProfilePlugins {| po_Request := Some {| arr := 7; off := 0; slen := 1 |};
        po_Response := None |});
     (9%positive, CFloat (S754_finite false 4503599627370496 (-52)))].

Definition sample_refs : list ValRef :=
  [{| ro_PluginRef := "t"; ro_Weight := Some (S754_finite false 4503599627370496 (-52)) |}].

Definition sample_config : ValConfig :=
  {| co_TypeMeta := {| Kind := "PayloadProcessorConfig"; APIVersion := "llm-d.ai/v1alpha1" |};
     co_Plugins := Some [{| so_Name := ""; so_Type := "t"; so_Parameters := Some (s2b "{}") |}];
     co_PreProcessing := Some {| rl_Plugins := Some sample_refs |}; co_ProfilePicker := None;
     co_Profiles := Some [{| fo_Name := "default";
       fo_Plugins := Some {| po_Request := Some sample_refs; po_Response := None |} |}];
     co_PostProcessing := Some {| rl_Plugins := Some sample_refs |};
     co_Datalayer := Some {| do_Collectors := Some []; do_Extractors := None;
       do_Datasources := None |} |}.

Lemma deep_copy_is_deep_witness :
  ∃ q h' F,
    DeepCopyObject (Some 1%positive) sample_heap = Ok (Some q, h') ∧
    F ## dom sample_heap ∧ size h' = 24 ∧
    (∀ h'', (∀ l, l ∈ F → h'' !! l = h' !! l) →
      read_pointer read_Config h'' q = Some sample_config).
Proof.
  destruct (deep_copy_is_deep sample_heap 1 sample_config) as (_ & q & h' & F & E & _ & _ & HF & Hc & _).
  { vm_compute. reflexivity. }
  exists q, h', F. split_and!; [exact E | exact HF | | exact Hc].
  assert (Hs : (if DeepCopyObject (Some 1%positive) sample_heap is Ok (_, m) then size m else 0) = 24)
    by (vm_compute; reflexivity).
  rewrite E in Hs. exact Hs.
Defined.
