(* ===== verification/GoValue.v ===== *)
(** Go values held in an [any], and the parts of the Go standard library the
    payload processor applies to them: [strings], UTF-8, the formatting of
    [float64] in [strconv], [fmt]'s [%v] verb, and [encoding/json].

    [any] is what [json.Unmarshal] builds in a [map[string]any]: [nil], [bool],
    [float64], [string], [[]any] and [map[string]any]. A nested object is the
    list of its entries in increasing key order, without duplicates. *)

From Corelib Require Import SpecFloat.
From Stdlib Require Import Strings.Byte String.
From S2P Require Import Prelude GoFloat.

Local Open Scope string_scope.
Local Open Scope list_scope.

#[local] Set Warnings "-register-all".

Inductive any : Type :=
| ANil
| ABool (b : bool)
| ANum (f : float64)
| AStr (s : string)
| AArr (l : list any)
| AObj (l : list (string * any)).

(** Go type assertions [v.(string)], [v.(float64)], [v.(map[string]any)]; the
    [any] of an absent key is [nil]. *)
Definition as_string (v : any) : option string :=
  match v with AStr s => Some s | _ => None end.
Definition as_float (v : any) : option float64 :=
  match v with ANum f => Some f | _ => None end.
Definition as_object (v : any) : option (list (string * any)) :=
  match v with AObj l => Some l | _ => None end.

(** [m[key]] of a nested object. *)
Fixpoint obj_lookup (k : string) (l : list (string * any)) : option any :=
  match l with
  | [] => None
  | (k', v) :: l => if String.eqb k k' then Some v else obj_lookup k l
  end.

(** Store in a nested object: keeps the keys sorted, the last write wins. *)
Fixpoint obj_insert (k : string) (v : any) (l : list (string * any)) : list (string * any) :=
  match l with
  | [] => [(k, v)]
  | (k', v') :: l' =>
      match String.compare k k' with
      | Lt => (k, v) :: l
      | Eq => (k, v) :: l'
      | Gt => (k', v') :: obj_insert k v l'
      end
  end.

(** ** strings *)

Definition has_prefix (s p : string) : bool := String.prefix p s.

Fixpoint string_drop (n : nat) (s : string) : string :=
  match n, s with
  | S n, String _ s => string_drop n s
  | _, _ => s
  end.

Definition trim_prefix (s p : string) : string :=
  if has_prefix s p then string_drop (String.length p) s else s.

(** [strings.ToLower] on ASCII; HTTP field names are ASCII. *)
Definition byte_to_lower (b : byte) : byte :=
  let n := Byte.to_N b in
  if (65 <=? n)%N && (n <=? 90)%N
  then match Byte.of_N (n + 32) with Some b' => b' | None => b end
  else b.

Definition to_lower (s : string) : string := b2s (byte_to_lower <$> s2b s).

(** A byte from its code; codes above 255 do not occur. *)
Definition bN (n : N) : byte := default "000"%byte (Byte.of_N n).
Definition bval (b : byte) : N := Byte.to_N b.

(** The UTF-8 encodings of the runes [unicode.IsSpace] accepts. *)
Definition space_runes : list bytes :=
  map (map bN)
    [[9]; [10]; [11]; [12]; [13]; [32]; [194; 133]; [194; 160]; [225; 154; 128];
     [226; 128; 128]; [226; 128; 129]; [226; 128; 130]; [226; 128; 131]; [226; 128; 132];
     [226; 128; 133]; [226; 128; 134]; [226; 128; 135]; [226; 128; 136]; [226; 128; 137];
     [226; 128; 138]; [226; 128; 168]; [226; 128; 169]; [226; 128; 175]; [226; 129; 159];
     [227; 128; 128]]%N.

Fixpoint strip_bytes (p s : bytes) : option bytes :=
  match p, s with
  | [], _ => Some s
  | a :: p, b :: s => if Byte.eqb a b then strip_bytes p s else None
  | _, [] => None
  end.

(** Drop one leading rune of [rs], if there is one. *)
Fixpoint strip_one (rs : list bytes) (s : bytes) : option bytes :=
  match rs with
  | [] => None
  | r :: rs => match strip_bytes r s with Some s' => Some s' | None => strip_one rs s end
  end.

Fixpoint strip_all (fuel : nat) (rs : list bytes) (s : bytes) : bytes :=
  match fuel with
  | O => s
  | S fuel => match strip_one rs s with Some s' => strip_all fuel rs s' | None => s end
  end.

(** [strings.TrimSpace]; the length of the input is enough fuel, as every
    round removes at least one byte. *)
Definition trim_left (rs : list bytes) (s : bytes) : bytes := strip_all (length s) rs s.
Definition trim_space (s : string) : string :=
  b2s (reverse (trim_left (map (fun r => reverse r) space_runes)
                 (reverse (trim_left space_runes (s2b s))))).

(** ** UTF-8 *)

(** The length of the well-formed UTF-8 sequence [s] starts with, if any. *)
Definition utf8_len (s : bytes) : option nat :=
  let cont b := (128 <=? bval b)%N && (bval b <=? 191)%N in
  match s with
  | [] => None
  | b0 :: s =>
      let n0 := bval b0 in
      if (n0 <? 128)%N then Some 1%nat
      else match s with
      | [] => None
      | b1 :: s =>
          let n1 := bval b1 in
          if (194 <=? n0)%N && (n0 <=? 223)%N && cont b1 then Some 2%nat
          else match s with
          | [] => None
          | b2 :: s =>
              let ok3 :=
                if (n0 =? 224)%N then (160 <=? n1)%N && (n1 <=? 191)%N
                else if (n0 =? 237)%N then (128 <=? n1)%N && (n1 <=? 159)%N
                else (225 <=? n0)%N && (n0 <=? 239)%N && cont b1 in
              if ok3 && cont b2 then Some 3%nat
              else match s with
              | [] => None
              | b3 :: _ =>
                  let ok4 :=
                    if (n0 =? 240)%N then (144 <=? n1)%N && (n1 <=? 191)%N
                    else if (n0 =? 244)%N then (128 <=? n1)%N && (n1 <=? 143)%N
                    else (241 <=? n0)%N && (n0 <=? 243)%N && cont b1 in
                  if ok4 && cont b2 && cont b3 then Some 4%nat else None
              end
          end
      end
  end.

Definition utf8_encode (c : N) : bytes :=
  if (c <? 128)%N then [bN c]
  else if (c <? 2048)%N then [bN (192 + c / 64); bN (128 + c mod 64)]
  else if (c <? 65536)%N
  then [bN (224 + c / 4096); bN (128 + (c / 64) mod 64); bN (128 + c mod 64)]
  else [bN (240 + c / 262144); bN (128 + (c / 4096) mod 64); bN (128 + (c / 64) mod 64);
        bN (128 + c mod 64)].

Definition rune_error : bytes := map bN [239; 191; 189]%N.

(** ** strconv: decimal floats *)

(** The float nearest to [d * 10^e], for [d >= 0]; infinite when too large. *)
Definition f_of_decimal (neg : bool) (d e : Z) : float64 :=
  match d with
  | Zpos p =>
      if (0 <=? e)%Z
      then match (Zpos p * 10 ^ e)%Z with
           | Zpos q => binary_round prec64 emax64 neg q 0
           | _ => S754_zero neg
           end
      else let '(m, x, l) := SFdiv_core_binary prec64 emax64 (Zpos p) 0 (10 ^ (- e)) 0 in
           binary_round_aux prec64 emax64 neg m x l
  | _ => S754_zero neg
  end.

(** The number of decimal digits of a positive integer. *)
Fixpoint ndigits_aux (fuel : nat) (z : Z) : Z :=
  match fuel with
  | O => 0
  | S fuel => if (z <? 10)%Z then 1 else (1 + ndigits_aux fuel (z / 10))%Z
  end.
Definition ndigits (z : Z) : Z := ndigits_aux 2000 z.

(** [m * 2^e = num / den]. *)
Definition f_num_den (m : positive) (e : Z) : Z * Z :=
  if (0 <=? e)%Z then (Zpos m * 2 ^ e, 1)%Z else (Zpos m, 2 ^ (- e))%Z.

(** The decimal exponent [k] with [10^(k-1) <= num/den < 10^k]. *)
Definition dec_exp (num den : Z) : Z :=
  let k := (ndigits num - ndigits den)%Z in
  (* 10^(k-1) < num/den < 10^(k+1) *)
  if (if (0 <=? k)%Z then (den * 10 ^ k <=? num)%Z else (den <=? num * 10 ^ (- k))%Z)
  then (k + 1)%Z else k.

(** The [n]-digit decimal nearest to [num/den] among its two neighbours that
    round back to the float [(m, e)]. *)
Definition try_digits (m : positive) (e num den k n : Z) : option (Z * Z) :=
  let s := (k - n)%Z in  (* value = digits * 10^s *)
  let '(a, b) := if (0 <=? s)%Z then (num, den * 10 ^ s)%Z else (num * 10 ^ (- s), den)%Z in
  let lo := (a / b)%Z in
  let hi := (lo + 1)%Z in
  let back d := bool_decide (f_of_decimal false d s = S754_finite false m e) in
  let lo_closer := (2 * (a - lo * b) <? b)%Z
                   || ((2 * (a - lo * b) =? b)%Z && Z.even lo) in
  match back lo, back hi with
  | true, true => Some ((if lo_closer then lo else hi), s)
  | true, false => Some (lo, s)
  | false, true => Some (hi, s)
  | false, false => None
  end.

(** The shortest digits that round back to the float: at most 17 are needed. *)
Fixpoint shortest_aux (fuel : nat) (m : positive) (e num den k n : Z) : Z * Z :=
  match fuel with
  | O => (0, 0)%Z
  | S fuel => match try_digits m e num den k n with
              | Some r => r
              | None => shortest_aux fuel m e num den k (n + 1)
              end
  end.

Fixpoint strip_zeros (fuel : nat) (d s : Z) : Z * Z :=
  match fuel with
  | O => (d, s)
  | S fuel => if (d mod 10 =? 0)%Z && negb (d =? 0)%Z
              then strip_zeros fuel (d / 10) (s + 1) else (d, s)
  end.

Definition shortest (m : positive) (e : Z) : Z * Z :=
  let '(num, den) := f_num_den m e in
  let '(d, s) := shortest_aux 18 m e num den (dec_exp num den) 1 in
  strip_zeros 20 d s.

(** Decimal digits of a non-negative integer, most significant first. *)
Fixpoint digits_aux (fuel : nat) (z : Z) (acc : bytes) : bytes :=
  match fuel with
  | O => acc
  | S fuel =>
      let acc := bN (Z.to_N (48 + z mod 10)) :: acc in
      if (z <? 10)%Z then acc else digits_aux fuel (z / 10) acc
  end.
Definition digits (z : Z) : bytes := digits_aux 400 z [].

(** [strconv.Itoa]. *)
Definition itoa (z : Z) : string :=
  b2s (if (z <? 0)%Z then "-"%byte :: digits (- z) else digits z).

(** [%e] with at least [w] exponent digits. *)
Definition fmt_e (w : nat) (ds : bytes) (x : Z) : bytes :=
  let mant := match ds with
              | [] => []
              | [d] => [d]
              | d :: ds => d :: "."%byte :: ds
              end in
  let ex := digits (Z.abs x) in
  mant ++ ["e"%byte; if (x <? 0)%Z then "-"%byte else "+"%byte] ++
  (if Nat.ltb (length ex) w then "0"%byte :: ex else ex).

(** [%f] of the digits [ds] with the decimal point after [dp] digits. *)
Definition fmt_f (ds : bytes) (dp : Z) : bytes :=
  let n := Z.of_nat (length ds) in
  if (dp <=? 0)%Z then
    s2b "0." ++ replicate (Z.to_nat (- dp)) "0"%byte ++ ds
  else if (n <=? dp)%Z then ds ++ replicate (Z.to_nat (dp - n)) "0"%byte
  else take (Z.to_nat dp) ds ++ "."%byte :: drop (Z.to_nat dp) ds.

(** [strconv.FormatFloat(f, 'g', -1, 64)], which is [fmt]'s [%v]. *)
Definition format_g (f : float64) : bytes :=
  match f with
  | S754_nan => s2b "NaN"
  | S754_infinity s => s2b (if s then "-Inf" else "+Inf")
  | S754_zero s => s2b (if s then "-0" else "0")
  | S754_finite s m e =>
      let '(d, sc) := shortest m e in
      let ds := digits d in
      let dp := (Z.of_nat (length ds) + sc)%Z in
      let x := (dp - 1)%Z in
      (if s then ["-"%byte] else []) ++
      if (x <? -4)%Z || (6 <=? x)%Z then fmt_e 2 ds x else fmt_f ds dp
  end.

(** encoding/json's floats: ['f'], or ['e'] below 1e-6 and from 1e21 on with
    the exponent's leading zero dropped; NaN and infinities are errors. *)
Definition format_json (f : float64) : option bytes :=
  match f with
  | S754_nan | S754_infinity _ => None
  | S754_zero s => Some (s2b (if s then "-0" else "0"))
  | S754_finite s m e =>
      let '(d, sc) := shortest m e in
      let ds := digits d in
      let dp := (Z.of_nat (length ds) + sc)%Z in
      let x := (dp - 1)%Z in
      Some ((if s then ["-"%byte] else []) ++
            (if (x <? -6)%Z || (21 <=? x)%Z
             then fmt_e (if (x <? 0)%Z then 1 else 2) ds x else fmt_f ds dp))
  end.

(** ** fmt: [fmt.Sprintf("%v", v)] *)

Fixpoint intersperse (sep : bytes) (l : list bytes) : bytes :=
  match l with
  | [] => []
  | [x] => x
  | x :: l => x ++ sep ++ intersperse sep l
  end.

Fixpoint sprintf_v_bytes (v : any) : bytes :=
  match v with
  | ANil => s2b "<nil>"
  | ABool b => s2b (if b then "true" else "false")
  | ANum f => format_g f
  | AStr s => s2b s
  | AArr l => s2b "[" ++ intersperse (s2b " ") (map sprintf_v_bytes l) ++ s2b "]"
  | AObj l =>
      s2b "map[" ++
      intersperse (s2b " ") (map (fun kv => s2b kv.1 ++ s2b ":" ++ sprintf_v_bytes kv.2) l) ++
      s2b "]"
  end.

Definition sprintf_v (v : any) : string := b2s (sprintf_v_bytes v).

(** ** encoding/json: Marshal *)

Definition hex_digit (n : N) : byte :=
  if (n <? 10)%N then bN (48 + n) else bN (87 + n).

Definition esc_u (c : N) : bytes :=
  s2b "\u" ++ map hex_digit [c / 4096; (c / 256) mod 16; (c / 16) mod 16; c mod 16]%N.

(** One ASCII byte inside a JSON string, with HTML escaping. *)
Definition enc_ascii (b : byte) : bytes :=
  let n := bval b in
  if (n =? 34)%N then map bN [92; 34]%N
  else if (n =? 92)%N then map bN [92; 92]%N
  else if (n =? 8)%N then map bN [92; 98]%N
  else if (n =? 12)%N then map bN [92; 102]%N
  else if (n =? 10)%N then map bN [92; 110]%N
  else if (n =? 13)%N then map bN [92; 114]%N
  else if (n =? 9)%N then map bN [92; 116]%N
  else if (n <? 32)%N || (n =? 60)%N || (n =? 62)%N || (n =? 38)%N then esc_u n
  else [b].

Fixpoint enc_string_aux (fuel : nat) (s : bytes) : bytes :=
  match fuel with
  | O => []
  | S fuel =>
      match s with
      | [] => []
      | b :: s' =>
          if (bval b <? 128)%N then enc_ascii b ++ enc_string_aux fuel s'
          else match utf8_len s with
          | None => esc_u 65533 ++ enc_string_aux fuel s'
          | Some n =>
              let r := take n s in
              (if bool_decide (r = map bN [226; 128; 168]%N) then esc_u 8232
               else if bool_decide (r = map bN [226; 128; 169]%N) then esc_u 8233 else r)
              ++ enc_string_aux fuel (drop n s)
          end
      end
  end.

Definition enc_string (s : string) : bytes :=
  let b := s2b s in ["034"%byte] ++ enc_string_aux (S (length b)) b ++ ["034"%byte].

Fixpoint join_opt (sep : bytes) (l : list (option bytes)) : option bytes :=
  match l with
  | [] => Some []
  | [x] => x
  | x :: l => b ← x; r ← join_opt sep l; Some (b ++ sep ++ r)
  end.

(** [json.Marshal]; [None] is an [UnsupportedValueError] (NaN, infinities). *)
Fixpoint json_marshal (v : any) : option bytes :=
  match v with
  | ANil => Some (s2b "null")
  | ABool b => Some (s2b (if b then "true" else "false"))
  | ANum f => format_json f
  | AStr s => Some (enc_string s)
  | AArr l => r ← join_opt (s2b ",") (map json_marshal l); Some (s2b "[" ++ r ++ s2b "]")
  | AObj l =>
      r ← join_opt (s2b ",")
            (map (fun kv => v ← json_marshal kv.2; Some (enc_string kv.1 ++ s2b ":" ++ v)) l);
      Some (s2b "{" ++ r ++ s2b "}")
  end.

(** ** encoding/json: Unmarshal into an [any] *)

Fixpoint skip_ws (s : bytes) : bytes :=
  match s with
  | b :: s' =>
      if bool_decide (b = " "%byte ∨ b = "009"%byte ∨ b = "010"%byte ∨ b = "013"%byte)
      then skip_ws s' else s
  | [] => []
  end.

(** The byte [c] at the front of [s], and what follows it. *)
Definition eat (c : byte) (s : bytes) : option bytes :=
  match s with
  | b :: s => if Byte.eqb b c then Some s else None
  | [] => None
  end.

Definition hex_val (b : byte) : option N :=
  let n := bval b in
  if (48 <=? n)%N && (n <=? 57)%N then Some (n - 48)%N
  else if (97 <=? n)%N && (n <=? 102)%N then Some (n - 87)%N
  else if (65 <=? n)%N && (n <=? 70)%N then Some (n - 55)%N
  else None.

Definition hex4 (s : bytes) : option (N * bytes) :=
  match s with
  | a :: b :: c :: d :: s =>
      a ← hex_val a; b ← hex_val b; c ← hex_val c; d ← hex_val d;
      Some (((a * 16 + b) * 16 + c) * 16 + d, s)%N
  | _ => None
  end.

(** The rune of a [\u] escape whose code unit is [u]: a surrogate pair joins
    with the escape that follows, a lone surrogate becomes U+FFFD. *)
Definition dec_u (u : N) (s : bytes) : bytes * bytes :=
  if (55296 <=? u)%N && (u <? 57344)%N then
    match (s ← eat "\" s; s ← eat "u" s; hex4 s) with
    | Some (v, s') =>
        if (u <? 56320)%N && (56320 <=? v)%N && (v <? 57344)%N
        then (utf8_encode (65536 + (u - 55296) * 1024 + (v - 56320)), s')%N
        else (rune_error, s)
    | None => (rune_error, s)
    end
  else (utf8_encode u, s).

(** What the contents of a string literal start with: the closing quote, or
    text and what follows it. *)
Inductive piece : Type :=
| PEnd (rest : bytes)
| PText (r rest : bytes)
| PBad.

(** A backslash escape other than [\u]. *)
Definition escaped (c : byte) (s : bytes) : piece :=
  if Byte.eqb c "034" || Byte.eqb c "\" || Byte.eqb c "/" then PText [c] s
  else if Byte.eqb c "b" then PText ["008"%byte] s
  else if Byte.eqb c "f" then PText ["012"%byte] s
  else if Byte.eqb c "n" then PText ["010"%byte] s
  else if Byte.eqb c "r" then PText ["013"%byte] s
  else if Byte.eqb c "t" then PText ["009"%byte] s
  else PBad.

Definition next_piece (s : bytes) : piece :=
  match s with
  | [] => PBad
  | b :: s' =>
      if Byte.eqb b "034" then PEnd s'
      else if Byte.eqb b "\" then
        match s' with
        | [] => PBad
        | c :: s =>
            if Byte.eqb c "u"
            then match hex4 s with
                 | Some (u, s) => let '(r, s) := dec_u u s in PText r s
                 | None => PBad
                 end
            else escaped c s
        end
      else if (bval b <? 32)%N then PBad
      else match utf8_len s with
           | Some n => PText (take n s) (drop n s)
           | None => PText rune_error s'
           end
  end.

(** The contents of a string literal, after its opening quote. *)
Fixpoint dec_string (fuel : nat) (s : bytes) : option (bytes * bytes) :=
  match fuel with
  | O => None
  | S fuel =>
      match next_piece s with
      | PEnd s => Some ([], s)
      | PText r s => '(x, s) ← dec_string fuel s; Some (r ++ x, s)
      | PBad => None
      end
  end.

Fixpoint take_digits (s : bytes) : bytes * bytes :=
  match s with
  | b :: s' => if (48 <=? bval b)%N && (bval b <=? 57)%N
               then let '(d, r) := take_digits s' in (b :: d, r) else ([], s)
  | [] => ([], [])
  end.

Definition digits_val (ds : bytes) : Z :=
  fold_left (fun z b => z * 10 + Z.of_N (bval b) - 48)%Z ds 0%Z.

(** An optional sign: whether it is a minus. *)
Definition dec_sign (s : bytes) : bool * bytes :=
  match eat "-" s with
  | Some s => (true, s)
  | None => (false, default s (eat "+" s))
  end.

Definition dec_digits (s : bytes) : option (bytes * bytes) :=
  match take_digits s with
  | ([], _) => None
  | r => Some r
  end.

(** The exponent part of a number: [e], an optional sign, digits. *)
Definition dec_exponent (s : bytes) : option (Z * bytes) :=
  match (match eat "e" s with Some s => Some s | None => eat "E" s end) with
  | Some s =>
      let '(neg, s) := dec_sign s in
      '(ds, s) ← dec_digits s; Some (if neg then - digits_val ds else digits_val ds, s)%Z
  | None => Some (0%Z, s)
  end.

(** No digit follows a leading zero. *)
Definition leading_zero (ds : bytes) : bool :=
  match ds with b :: _ :: _ => Byte.eqb b "0" | _ => false end.

(** A number; one too large for a float64 becomes an infinity, which
    [json_unmarshal_map] turns into the error it is. An exponent that puts the
    value far outside the range of float64 settles it without computing it. *)
Definition dec_number (s : bytes) : option (any * bytes) :=
  let '(neg, s) := match eat "-" s with Some s => (true, s) | None => (false, s) end in
  '(ip, s) ← dec_digits s;
  if leading_zero ip then None
  else
    '(fp, s) ← match eat "." s with Some s => dec_digits s | None => Some ([], s) end;
    '(x, s) ← dec_exponent s;
    let d := digits_val (ip ++ fp) in
    let e := (x - Z.of_nat (length fp))%Z in
    let mag := (Z.of_nat (length (ip ++ fp)) + e)%Z in
    let f := if (d =? 0)%Z then S754_zero neg
             else if (mag <? -400)%Z then S754_zero neg
             else if (ndigits d + e >? 400)%Z then S754_infinity neg
             else f_of_decimal neg d e in
    Some (ANum f, s).

Definition dec_literal (l : string) (v : any) (s : bytes) : option (any * bytes) :=
  s ← strip_bytes (s2b l) s; Some (v, s).

(** What a value starts with, and what follows that. *)
Inductive start : Type :=
| SObject (s : bytes)
| SArray (s : bytes)
| SString (s : bytes)
| SLiteral (l : string) (v : any)
| SNumber.

Definition start_of (s : bytes) : start :=
  match s with
  | [] => SNumber
  | b :: s => if Byte.eqb b "{" then SObject s
              else if Byte.eqb b "[" then SArray s
              else if Byte.eqb b "034" then SString s
              else if Byte.eqb b "t" then SLiteral "true" (ABool true)
              else if Byte.eqb b "f" then SLiteral "false" (ABool false)
              else if Byte.eqb b "n" then SLiteral "null" ANil
              else SNumber
  end.

(** A value, nested at most 10000 deep. [fuel] bounds the recursion; twice the
    input's length is enough, as every two calls consume a byte. *)
Fixpoint dec_value (fuel : nat) (depth : Z) (s : bytes) : option (any * bytes) :=
  match fuel with
  | O => None
  | S fuel =>
      let s := skip_ws s in
      match start_of s with
      | SObject s =>
          if (10000 <=? depth)%Z then None
          else match eat "}" (skip_ws s) with
               | Some s => Some (AObj [], s)
               | None => '(l, s) ← dec_members fuel (depth + 1) s []; Some (AObj l, s)
               end
      | SArray s =>
          if (10000 <=? depth)%Z then None
          else match eat "]" (skip_ws s) with
               | Some s => Some (AArr [], s)
               | None => '(l, s) ← dec_elements fuel (depth + 1) s; Some (AArr l, s)
               end
      | SString s => '(r, s) ← dec_string (S (length s)) s; Some (AStr (b2s r), s)
      | SLiteral l v => dec_literal l v s
      | SNumber => dec_number s
      end
  end
with dec_members (fuel : nat) (depth : Z) (s : bytes) (acc : list (string * any)) :
    option (list (string * any) * bytes) :=
  match fuel with
  | O => None
  | S fuel =>
      s ← eat "034" (skip_ws s);
      '(k, s) ← dec_string (S (length s)) s;
      s ← eat ":" (skip_ws s);
      '(v, s) ← dec_value fuel depth s;
      let acc := obj_insert (b2s k) v acc in
      match eat "," (skip_ws s) with
      | Some s => dec_members fuel depth s acc
      | None => s ← eat "}" (skip_ws s); Some (acc, s)
      end
  end
with dec_elements (fuel : nat) (depth : Z) (s : bytes) : option (list any * bytes) :=
  match fuel with
  | O => None
  | S fuel =>
      '(v, s) ← dec_value fuel depth s;
      match eat "," (skip_ws s) with
      | Some s => '(l, s) ← dec_elements fuel depth s; Some (v :: l, s)
      | None => s ← eat "]" (skip_ws s); Some ([v], s)
      end
  end.

(** The syntax of a whole document; [None] is a syntax error. *)
Definition json_decode (s : bytes) : option any :=
  match dec_value (2 * length s + 2) 0 s with
  | Some (v, s) => match skip_ws s with [] => Some v | _ => None end
  | None => None
  end.

(** An out-of-range number is recorded as an [UnmarshalTypeError] that is
    returned at the end of the decoding; the value in its place is [nil]. *)
Fixpoint has_range_error (v : any) : bool :=
  match v with
  | ANum f => negb (is_finite f)
  | AArr l => existsb has_range_error l
  | AObj l => existsb (fun kv => has_range_error kv.2) l
  | _ => false
  end.

Fixpoint scrub (v : any) : any :=
  match v with
  | ANum f => if is_finite f then v else ANil
  | AArr l => AArr (map scrub l)
  | AObj l => AObj (map (fun kv => (kv.1, scrub kv.2)) l)
  | _ => v
  end.

(** [json.Unmarshal(s, &m)] for [m map[string]any] ([None] is the nil map):
    the map afterwards and whether there was an error. [null] sets the map to
    nil, an object adds its entries to the map there was (or a new one),
    anything else is an error that leaves the map alone. *)
Definition json_unmarshal_map (s : bytes) (m : option (gmap string any)) :
    option (gmap string any) * bool :=
  match json_decode s with
  | Some ANil => (None, false)
  | Some (AObj l) =>
      (Some (foldl (fun m kv => <[kv.1 := scrub kv.2]> m) (default ∅ m) l),
       has_range_error (AObj l))
  | _ => (m, true)
  end.

(** A Go map as the sorted entries [json.Marshal] and [%v] visit. *)
Definition sorted_entries (m : gmap string any) : list (string * any) :=
  foldr (fun kv l => obj_insert kv.1 kv.2 l) [] (map_to_list m).

(** [json.Marshal(m)] for [m map[string]any]. *)
Definition json_marshal_map (m : option (gmap string any)) : option bytes :=
  match m with
  | None => Some (s2b "null")
  | Some m => json_marshal (AObj (sorted_entries m))
  end.

(** The text of encoding/json's errors, which the model leaves open. *)
Class JsonText : Type := { json_error : bytes → string }.

#[export] Instance json_text_std : JsonText | 100 := {
  json_error _ := "invalid character"
}.

(** ** Decoding into Go structs

    [json.Unmarshal] into a struct finds a field by its name, exactly or else
    ignoring case, leaves it alone when the document lacks it or has [null],
    and fails when the types differ. These decoders work on the parsed document
    and so assume that it does not spell a field twice. *)

Fixpoint lookup_fold (k : string) (l : list (string * any)) : option any :=
  match l with
  | [] => None
  | (k', v) :: l => if String.eqb (to_lower k') (to_lower k) then Some v else lookup_fold k l
  end.

(** A decoder returns the value, or [None] for a type error. *)
Definition decoder (A : Type) : Type := any → option A.

Definition dec_str : decoder string := λ v,
  match v with ANil => Some "" | AStr s => Some s | _ => None end.

Definition dec_float : decoder float64 := λ v,
  match v with ANil => Some f0 | ANum x => if is_finite x then Some x else None | _ => None end.

Definition dec_list {A} (d : decoder A) : decoder (list A) := λ v,
  match v with ANil => Some [] | AArr l => mapM d l | _ => None end.

(** The field [k] of an object, [dflt] when it is absent or null. *)
Definition dec_field {A} (d : decoder A) (k : string) (dflt : A) (o : list (string * any)) :
    option A :=
  match (match obj_lookup k o with Some v => Some v | None => lookup_fold k o end) with
  | None | Some ANil => Some dflt
  | Some v => d v
  end.

(** [null] leaves the struct as it is: [f] of the empty object. *)
Definition dec_struct {A} (f : list (string * any) → option A) : decoder A := λ v,
  match v with ANil => f [] | AObj o => f o | _ => None end.

(** An [int] field. The parsed document does not say how a number was written;
    encoding/json also refuses an integral value written with a point or an
    exponent. *)
Definition dec_int : decoder Z := λ v,
  match v with
  | ANil => Some 0%Z
  | ANum x => match f_trunc x with
              | Some z => if feq (f_of_Z z) x && in_int64b z then Some z else None
              | None => None
              end
  | _ => None
  end.

(** [json.Unmarshal(raw, &config)], skipped when [raw] is empty: [f] reads the
    fields, keeping the defaults of those that are absent. *)
Definition dec_params {A} (f : list (string * any) → option A) (raw : bytes) : option A :=
  match raw with
  | [] => f []
  | _ => match json_decode raw with Some v => dec_struct f v | None => None end
  end.

(** ** [time.ParseDuration] *)

Definition nano_unit (u : bytes) : option Z :=
  let s := b2s u in
  if String.eqb s "ns" then Some 1%Z
  else if String.eqb s "us" then Some 1000%Z
  else if bool_decide (u = map bN [194; 181; 115]%N) then Some 1000%Z
  else if bool_decide (u = map bN [206; 188; 115]%N) then Some 1000%Z
  else if String.eqb s "ms" then Some 1000000%Z
  else if String.eqb s "s" then Some 1000000000%Z
  else if String.eqb s "m" then Some 60000000000%Z
  else if String.eqb s "h" then Some 3600000000000%Z
  else None.

(** The unit runs up to the next digit or point. *)
Fixpoint take_unit (s : bytes) : bytes * bytes :=
  match s with
  | b :: s' => if bool_decide (b = "."%byte) || ((48 <=? bval b) && (bval b <=? 57))%N
               then ([], s)
               else let '(u, r) := take_unit s' in (b :: u, r)
  | [] => ([], [])
  end.

(** [leadingFraction]: digits are dropped once the value would overflow. *)
Fixpoint leading_fraction (ds : bytes) (f : Z) (scale : float64) (full : bool) : Z * float64 :=
  match ds with
  | [] => (f, scale)
  | b :: ds =>
      let y := (f * 10 + (Z.of_N (bval b) - 48))%Z in
      if full || (two63 / 10 <? f)%Z || (two63 <? y)%Z then leading_fraction ds f scale true
      else leading_fraction ds y (fmul scale (f_of_Z 10)) false
  end.

(** One round of the loop: a number, a unit and the rest. *)
Definition duration_term (s : bytes) : option (Z * bytes) :=
  let '(ints, s1) := take_digits s in
  let '(fracs, s2) := match s1 with
                      | "."%byte :: r => take_digits r
                      | _ => ([], s1)
                      end in
  let v := digits_val ints in
  if (two63 <? v)%Z then None
  else if (length ints =? 0)%nat && (length fracs =? 0)%nat then None
  else
    let '(u, rest) := take_unit s2 in
    match nano_unit u with
    | None => None
    | Some unit =>
        if (two63 / unit <? v)%Z then None
        else
          let '(f, scale) := leading_fraction fracs 0 f1 false in
          let extra := if (0 <? f)%Z
                       then default 0%Z (f_trunc (fmul (f_of_Z f) (fdiv (f_of_Z unit) scale)))
                       else 0%Z in
          let v := (v * unit + extra)%Z in
          if (two63 <? v)%Z then None else Some (v, rest)
    end.

Fixpoint duration_terms (fuel : nat) (d : Z) (s : bytes) : option Z :=
  match s with
  | [] => Some d
  | _ =>
      match fuel with
      | O => None
      | S fuel =>
          match duration_term s with
          | None => None
          | Some (v, s) => if (two63 <? d + v)%Z then None else duration_terms fuel (d + v) s
          end
      end
  end.

(** In nanoseconds; [None] is an error. A term is at least one byte long. *)
Definition ParseDuration (str : string) : option Z :=
  let s := s2b str in
  let '(neg, s) := match s with
                   | "-"%byte :: s => (true, s)
                   | "+"%byte :: s => (false, s)
                   | _ => (false, s)
                   end in
  match s with
  | [] => None
  | ["0"%byte] => Some 0%Z
  | _ =>
      match duration_terms (length s) 0 s with
      | None => None
      | Some d => if neg then Some (- d)%Z else if (d =? two63)%Z then None else Some d
      end
  end.
