(* ===== verification/Decimals.v ===== *)
(** Decimal floats: strconv's conversions between binary64 numbers and decimal
    digits, as [GoValue] defines them. A decimal is rounded correctly, so its
    float depends on its value only; 17 digits always determine a float, so the
    search for the shortest digits ends; and they read back as that float. *)

From Stdlib Require Import Strings.Byte String.
From Corelib Require Import SpecFloat.
From S2P Require Import Prelude GoFloat GoValue.

Local Open Scope string_scope.
Local Open Scope list_scope.
Local Open Scope Z_scope.

(** [SpecFloat] uses the kernel's copies of the operations on integers. *)
Ltac stdlib_z :=
  change IntDef.Z.even with Z.even in *; change IntDef.Z.eqb with Z.eqb in *;
  change IntDef.Z.compare with Z.compare in *; change IntDef.Z.add with Z.add in *;
  change IntDef.Z.mul with Z.mul in *; change IntDef.Z.sub with Z.sub in *;
  change IntDef.Z.max with Z.max in *; change IntDef.Z.min with Z.min in *;
  change IntDef.Z.leb with Z.leb in *.

(** ** A quotient as a mantissa and the location of the rest *)

Definition place (r Y : Z) : location :=
  if r =? 0 then loc_Exact else loc_Inexact (2 * r ?= Y).

Definition locate (X Y : Z) : shr_record := shr_record_of_loc (X / Y) (place (X mod Y) Y).

Lemma place_new_location r Y : new_location Y r = place r Y.
Proof.
  unfold new_location, new_location_even, new_location_odd, place. stdlib_z. cbv beta.
  destruct (Z.even Y) eqn:Ey; [done|]. destruct (r =? 0); [done|].
  assert (Z.odd Y = true) as Ho by (rewrite <- Z.negb_even, Ey; done).
  apply Z.odd_spec in Ho as [j ->]. f_equal.
  destruct (Z.compare_spec (2 * r + 1) (2 * j + 1)), (Z.compare_spec (2 * r) (2 * j + 1));
    first [done|exfalso; lia].
Qed.

Lemma shr_m_locate X Y : shr_m (locate X Y) = X / Y.
Proof. unfold locate. by destruct (place _ _) as [|[]]. Qed.

Lemma loc_of_locate X Y : loc_of_shr_record (locate X Y) = place (X mod Y) Y.
Proof. unfold locate. by destruct (place _ _) as [|[]]. Qed.

Lemma shr_1_record m r s :
  0 ≤ m → shr_1 {| shr_m := m; shr_r := r; shr_s := s |} =
    {| shr_m := m / 2; shr_r := Z.odd m; shr_s := r || s |}.
Proof.
  intros Hm. rewrite <- Z.div2_div. destruct m as [|[p|p|]|p]; simpl; try done; lia.
Qed.

(** A shift to the right divides by two. *)
Lemma shr_1_locate X Y : 0 ≤ X → 0 < Y → shr_1 (locate X Y) = locate X (2 * Y).
Proof.
  intros HX HY. pose proof (Z.div_pos X Y HX HY) as Hm.
  pose proof (Z.mod_pos_bound X Y HY) as Hr. pose proof (Z.div_mod X Y) as Hd.
  assert (X / (2 * Y) = X / Y / 2) as Hq by (rewrite Z.div_div by lia; f_equal; lia).
  pose proof (Zmod_odd (X / Y)) as Ho. pose proof (Z.div_mod (X / Y) 2) as Hd2.
  assert (X mod (2 * Y) = (if Z.odd (X / Y) then Y else 0) + X mod Y) as Hm2.
  { rewrite !(Z.mod_eq X) by lia. rewrite Hq. destruct (Z.odd (X / Y)); nia. }
  assert (locate X Y = {| shr_m := X / Y;
    shr_r := match 2 * (X mod Y) ?= Y with Lt => false | _ => negb (X mod Y =? 0) end;
    shr_s := match 2 * (X mod Y) ?= Y with Eq => false | _ => negb (X mod Y =? 0) end |}) as ->.
  { unfold locate, place. destruct (Z.eqb_spec (X mod Y) 0) as [->|].
    - cbn [shr_record_of_loc]. f_equal; by destruct (2 * 0 ?= Y).
    - by destruct (2 * (X mod Y) ?= Y). }
  rewrite shr_1_record by done. unfold locate, place. rewrite Hq, Hm2.
  destruct (Z.odd (X / Y)), (Z.eqb_spec (X mod Y) 0) as [E|E].
  - rewrite E, Z.add_0_r. rewrite (proj2 (Z.eqb_neq Y 0)) by lia. rewrite Z.compare_refl.
    by destruct (2 * 0 ?= Y).
  - rewrite (proj2 (Z.eqb_neq (Y + X mod Y) 0)) by lia.
    rewrite (proj2 (Z.compare_gt_iff (2 * (Y + X mod Y)) (2 * Y))) by lia.
    by destruct (2 * (X mod Y) ?= Y).
  - rewrite E. by destruct (2 * 0 ?= Y).
  - rewrite Z.add_0_l. rewrite (proj2 (Z.eqb_neq (X mod Y) 0)) by done.
    rewrite (proj2 (Z.compare_lt_iff (2 * (X mod Y)) (2 * Y))) by lia.
    by destruct (2 * (X mod Y) ?= Y).
Qed.

Lemma iter_shr_locate p X Y :
  0 ≤ X → 0 < Y → SpecFloat.iter_pos shr_1 p (locate X Y) = locate X (2 ^ Zpos p * Y).
Proof.
  revert Y. induction p as [p IH|p IH|]; intros Y HX HY; cbn [SpecFloat.iter_pos].
  - rewrite shr_1_locate, IH, IH by (try done; try lia; apply Z.mul_pos_pos; lia). f_equal.
    rewrite (Pos2Z.inj_xI p), Z.pow_add_r, Z.mul_comm, Z.pow_mul_r by lia.
    change (2 ^ 2) with (2 * 2). rewrite Z.pow_mul_l. lia.
  - rewrite IH, IH by (try done; apply Z.mul_pos_pos; lia). f_equal.
    rewrite (Pos2Z.inj_xO p), Z.mul_comm, Z.pow_mul_r by lia.
    change (2 ^ 2) with (2 * 2). rewrite Z.pow_mul_l. lia.
  - by apply shr_1_locate.
Qed.

Lemma digits2_pos_upper p : Zpos p < 2 ^ Zpos (digits2_pos p).
Proof.
  induction p as [p IH|p IH|]; cbn [digits2_pos]; [| |done].
  all: rewrite Pos2Z.inj_succ, Z.pow_succ_r by lia; lia.
Qed.

Lemma Zdigits2_bounds m : 0 < m → 2 ^ (Zdigits2 m - 1) ≤ m < 2 ^ Zdigits2 m.
Proof.
  intros Hm. destruct m as [|p|p]; try lia. split; [apply digits2_pos_lower|apply digits2_pos_upper].
Qed.

Lemma Zdigits2_nonneg m : 0 ≤ m → 0 ≤ Zdigits2 m.
Proof. destruct m; simpl; lia. Qed.

Abbreviation fexp64 := (fexp prec64 emax64).

Lemma fexp64_eq e : fexp64 e = Z.max (e - 53) (-1074).
Proof. unfold fexp, emin, prec64, emax64. stdlib_z. lia. Qed.

(** The exponent at which a positive number with the mantissa [M] is rounded. *)
Definition canonical (M E : Z) : Prop :=
  -1074 ≤ E ∧ M < 2 ^ 53 ∧ (-1074 < E → 2 ^ 52 ≤ M).

Lemma shr_fexp_locate X Y E :
  0 ≤ X → 0 < Y → E ≤ fexp64 (Zdigits2 (X / Y) + E) →
  ∃ n, 0 ≤ n ∧
    shr_fexp prec64 emax64 (X / Y) E (place (X mod Y) Y) = (locate X (2 ^ n * Y), E + n) ∧
    canonical (X / (2 ^ n * Y)) (E + n).
Proof.
  intros HX HY HE. unfold shr_fexp. stdlib_z. fold (locate X Y).
  pose proof (Z.div_pos X Y HX HY) as HM. set (M := X / Y) in *.
  exists (fexp64 (Zdigits2 M + E) - E). split; [lia|]. split.
  - destruct (fexp64 (Zdigits2 M + E) - E) as [|p|p] eqn:En; simpl.
    + f_equal; [f_equal; lia|lia].
    + rewrite iter_shr_locate by done. reflexivity.
    + lia.
  - rewrite fexp64_eq in *. set (n := Z.max (Zdigits2 M + E - 53) (-1074) - E) in *.
    assert (0 ≤ n) as Hn by lia. rewrite (Z.mul_comm (2 ^ n)), <- Z.div_div by lia. fold M.
    destruct (Z.eq_dec M 0) as [Ez|Hz].
    { subst n. rewrite Ez in *. rewrite Z.div_0_l by lia. change (Zdigits2 0) with 0 in *.
      split_and!; [lia|done|lia]. }
    destruct (Zdigits2_bounds M) as [Hlo Hhi]; [lia|]. split; [lia|]. split.
    + apply Z.div_lt_upper_bound; [lia|]. rewrite <- Z.pow_add_r by lia.
      eapply Z.lt_le_trans; [exact Hhi|]. apply Z.pow_le_mono_r; lia.
    + intros Hgt. assert (n = Zdigits2 M - 53) as -> by lia. apply Z.div_le_lower_bound; [lia|].
      rewrite <- Z.pow_add_r by lia. by replace (Zdigits2 M - 53 + 52) with (Zdigits2 M - 1) by lia.
Qed.

(** ** Rounding to nearest *)

Lemma rne_near P Q m :
  0 < Q → 2 * Z.abs (P - m * Q) < Q →
  round_nearest_even (P / Q) (place (P mod Q) Q) = m.
Proof.
  intros HQ Hn. pose proof (Z.div_mod P Q) as Hd. pose proof (Z.mod_pos_bound P Q HQ) as Hr.
  assert (P / Q = m ∨ P / Q = m - 1) as [Em|Em] by nia; unfold place.
  - destruct (Z.eqb_spec (P mod Q) 0); simpl; [done|].
    rewrite (proj2 (Z.compare_lt_iff (2 * (P mod Q)) Q)); [done|nia].
  - rewrite (proj2 (Z.eqb_neq (P mod Q) 0)) by nia. simpl.
    rewrite (proj2 (Z.compare_gt_iff (2 * (P mod Q)) Q)); [|nia]. stdlib_z. lia.
Qed.

(** Normal and subnormal positive floats. *)
Definition float_range (m e : Z) : Prop :=
  0 < m < 2 ^ 53 ∧ -1074 ≤ e ≤ 971 ∧ (-1074 < e → 2 ^ 52 ≤ m).

Lemma bounded_range m e : bounded prec64 emax64 m e = true ↔ float_range (Zpos m) e.
Proof.
  unfold bounded, canonical_mantissa, float_range. stdlib_z. rewrite fexp64_eq.
  pose proof (Zdigits2_bounds (Zpos m)) as [Hlo Hhi]; [lia|]. simpl Zdigits2 in *.
  set (d := Zpos (digits2_pos m)) in *. rewrite andb_true_iff, Z.eqb_eq, Z.leb_le.
  change (emax64 - prec64) with 971. split.
  - intros [He Hle]. split_and!; try lia.
    + eapply Z.lt_le_trans; [exact Hhi|]. apply Z.pow_le_mono_r; lia.
    + intros Hgt. assert (d = 53) as -> by lia. done.
  - intros ([Hm1 Hm2] & He & Hn).
    assert (d ≤ 53) as Hd by (apply digits2_pos_53; done).
    split; [|lia]. destruct (Z.eq_dec e (-1074)) as [->|]; [lia|].
    assert (52 < d); [|lia]. apply (Z.pow_lt_mono_r_iff 2); [lia|unfold d; lia|lia].
Qed.

(** [V / W], in units of [2^-1074], is within a part in [2 * 10^16] of the float. *)
Definition near (V W m e : Z) : Prop :=
  2 * 10 ^ 16 * Z.abs (V - m * 2 ^ (e + 1074) * W) ≤ m * 2 ^ (e + 1074) * W.

Lemma near_scaled P Q T : 0 < Q → 2 * 10 ^ 16 * Z.abs (P - T * Q) ≤ T * Q → 0 < T ≤ 2 ^ 53 →
  2 * Z.abs (P - T * Q) < Q.
Proof.
  intros HQ Hn HT. assert (T * Q ≤ 2 ^ 53 * Q) by nia.
  change (2 * 10 ^ 16) with 20000000000000000 in *. change (2 ^ 53) with 9007199254740992 in *. lia.
Qed.

Lemma near_units V W m e Q A B w :
  0 < Q → 0 < w → V * Q = A * w → m * 2 ^ (e + 1074) * W * Q = B * w → near V W m e →
  2 * 10 ^ 16 * Z.abs (A - B) ≤ B.
Proof.
  unfold near. intros HQ Hw HA HB Hn. apply (Z.mul_le_mono_pos_r _ _ w); [done|].
  rewrite <- HB, <- Z.mul_assoc, <- (Z.abs_eq w) at 1 by lia. rewrite <- Z.abs_mul.
  rewrite Z.mul_sub_distr_r, <- HA, <- HB, <- Z.mul_sub_distr_r, Z.abs_mul, (Z.abs_eq Q) by lia. nia.
Qed.

(** A value that is rounded at the float's exponent or a smaller one. *)
Lemma near_rounds_below P Q E V W m e :
  0 < Q → 0 < W → P < 2 ^ 53 * Q → -1074 ≤ E ≤ e → P * W * 2 ^ (E + 1074) = V * Q →
  float_range m e → near V W m e →
  (E = e ∧ 2 * Z.abs (P - m * Q) < Q) ∨
  (E = e - 1 ∧ m = 2 ^ 52 ∧ 2 * Z.abs (P - 2 ^ 53 * Q) < Q).
Proof.
  intros HQ HW HP HE Hv (Hm & He & Hme) Hn. set (T := m * 2 ^ (e - E)).
  pose proof (Z.pow_pos_nonneg 2 (E + 1074)) as Hpos.
  assert (2 * 10 ^ 16 * Z.abs (P - T * Q) ≤ T * Q) as Hs.
  { apply (near_units V W m e Q P (T * Q) (W * 2 ^ (E + 1074))); [done|nia|nia| |done].
    replace (e + 1074) with ((e - E) + (E + 1074)) by lia. rewrite Z.pow_add_r by lia. unfold T. nia. }
  destruct (Z.eq_dec E e) as [->|Hne].
  { left. split; [done|]. unfold T in Hs. rewrite Z.sub_diag, Z.mul_1_r in Hs.
    apply near_scaled; [done..|lia]. }
  right. assert (2 ^ 52 ≤ m) as Hm52 by (apply Hme; lia).
  assert (2 ^ 1 ≤ 2 ^ (e - E)) as Hk by (apply Z.pow_le_mono_r; lia). change (2 ^ 1) with 2 in Hk.
  assert (T = 2 ^ 53) as ET.
  { change (2 * 10 ^ 16) with 20000000000000000 in Hs. change (2 ^ 53) with 9007199254740992 in *.
    change (2 ^ 52) with 4503599627370496 in *. assert (9007199254740992 ≤ T) by (unfold T; nia). nia. }
  assert (e - E = 1) as Ee.
  { destruct (Z.eq_dec (e - E) 1) as [|Hk1]; [done|]. exfalso.
    assert (2 ^ 2 ≤ 2 ^ (e - E)) by (apply Z.pow_le_mono_r; lia). unfold T in ET.
    change (2 ^ 53) with 9007199254740992 in *. change (2 ^ 52) with 4503599627370496 in *. nia. }
  split; [lia|]. rewrite ET in Hs. split; [|apply near_scaled; [done..|split; [done|reflexivity]]].
  unfold T in ET. rewrite Ee in ET. change (2 ^ 53) with (2 ^ 52 * 2 ^ 1) in ET. lia.
Qed.

(** It is never rounded at a larger one. *)
Lemma near_rounds_above P Q E V W m e :
  0 < Q → 0 < W → 2 ^ 52 * Q ≤ P → e < E → P * W * 2 ^ (E + 1074) = V * Q →
  float_range m e → near V W m e → False.
Proof.
  intros HQ HW HP HE Hv (Hm & He & _) Hn. pose proof (Z.pow_pos_nonneg 2 (e + 1074)) as Hpos.
  replace (E + 1074) with ((E - e) + (e + 1074)) in Hv by lia. rewrite Z.pow_add_r in Hv by lia.
  assert (2 ^ 1 ≤ 2 ^ (E - e)) as Hk by (apply Z.pow_le_mono_r; lia). change (2 ^ 1) with 2 in Hk.
  set (K := 2 ^ (E - e)) in *.
  assert (2 * 10 ^ 16 * Z.abs (P * K - m * Q) ≤ m * Q) as Hs.
  { apply (near_units V W m e Q (P * K) (m * Q) (W * 2 ^ (e + 1074))); [done|nia|nia|nia|done]. }
  change (2 * 10 ^ 16) with 20000000000000000 in Hs.
  change (2 ^ 53) with 9007199254740992 in *. change (2 ^ 52) with 4503599627370496 in *.
  assert (9007199254740992 * Q ≤ P * K) by nia. nia.
Qed.

Lemma quotient_bounds P Q b : 0 < Q → (P / Q < b ↔ P < b * Q) ∧ (b ≤ P / Q ↔ b * Q ≤ P).
Proof.
  intros HQ. pose proof (Z.div_mod P Q). pose proof (Z.mod_pos_bound P Q HQ). split; split; nia.
Qed.

Lemma near_rounds P Q E V W m e :
  0 < Q → 0 < W → canonical (P / Q) E → P * W * 2 ^ (E + 1074) = V * Q →
  float_range m e → near V W m e →
  (E = e ∧ 2 * Z.abs (P - m * Q) < Q) ∨
  (E = e - 1 ∧ m = 2 ^ 52 ∧ 2 * Z.abs (P - 2 ^ 53 * Q) < Q).
Proof.
  intros HQ HW (HE & Hlt & Hge) Hv Hr Hn. destruct (Z.le_gt_cases E e) as [Hle|Hgt].
  - apply (near_rounds_below P Q E V W m e); try done. by apply quotient_bounds.
  - destruct (near_rounds_above P Q E V W m e); try done. apply quotient_bounds; [done|].
    apply Hge. destruct Hr as (_ & ? & _). lia.
Qed.

(** The second shift of [binary_round_aux], after rounding. *)
Lemma shr_fexp_rounded M E :
  0 ≤ M → -1074 ≤ E → M < 2 ^ 53 →
  shr_fexp prec64 emax64 M E loc_Exact = ({| shr_m := M; shr_r := false; shr_s := false |}, E).
Proof.
  intros HM HE Hlt. unfold shr_fexp. stdlib_z. rewrite fexp64_eq.
  assert (Zdigits2 M ≤ 53) as Hd.
  { destruct M as [|p|p]; [done| |lia]. by apply digits2_pos_53. }
  destruct (Z.max (Zdigits2 M + E - 53) (-1074) - E) eqn:En; [done|lia|done].
Qed.

Lemma shr_fexp_carry E :
  -1074 ≤ E →
  shr_fexp prec64 emax64 (2 ^ 53) E loc_Exact =
    ({| shr_m := 2 ^ 52; shr_r := false; shr_s := false |}, E + 1).
Proof.
  intros HE. unfold shr_fexp. stdlib_z. change (Zdigits2 (2 ^ 53)) with 54. rewrite fexp64_eq.
  replace (Z.max (54 + E - 53) (-1074) - E) with 1 by lia. reflexivity.
Qed.

Lemma round_aux_near s X Y E V W m e :
  0 ≤ X → 0 < Y → 0 < W → -1074 ≤ E → E ≤ fexp64 (Zdigits2 (X / Y) + E) →
  X * W * 2 ^ (E + 1074) = V * Y → float_range (Zpos m) e → near V W (Zpos m) e →
  binary_round_aux prec64 emax64 s (X / Y) E (place (X mod Y) Y) = S754_finite s m e.
Proof.
  intros HX HY HW HE Hfe Hv Hr Hn. unfold binary_round_aux.
  destruct (shr_fexp_locate X Y E HX HY Hfe) as (n & Hn0 & -> & Hc).
  rewrite shr_m_locate, loc_of_locate. set (Q := 2 ^ n * Y) in *.
  pose proof (Z.pow_pos_nonneg 2 n) as Hpn.
  assert (0 < Q) as HQ by (unfold Q; nia). pose proof Hr as (Hm & He & _).
  destruct (near_rounds X Q (E + n) V W (Zpos m) e) as [[Ee Hnear]|(Ee & Em & Hnear)]; try done.
  { replace (E + n + 1074) with (n + (E + 1074)) by lia. rewrite Z.pow_add_r by lia. unfold Q. nia. }
  - rewrite (rne_near X Q (Zpos m) HQ Hnear), shr_fexp_rounded by lia. cbn [shr_m].
    stdlib_z. change (emax64 - prec64) with 971. rewrite (proj2 (Z.leb_le _ _)) by lia. by rewrite Ee.
  - rewrite (rne_near X Q (2 ^ 53) HQ Hnear), shr_fexp_carry by lia. rewrite <- Em. cbn [shr_m].
    stdlib_z. change (emax64 - prec64) with 971. rewrite (proj2 (Z.leb_le _ _)) by lia.
    f_equal. lia.
Qed.

(** ** A decimal is rounded once *)

(** [d * 10^s], in units of [2^-1074], as a fraction. *)
Definition dec_num (d s : Z) : Z := d * 10 ^ Z.max 0 s * 2 ^ 1074.
Definition dec_den (s : Z) : Z := 10 ^ Z.max 0 (- s).

Lemma dec_den_pos s : 0 < dec_den s.
Proof. apply Z.pow_pos_nonneg; lia. Qed.

(** The quotient [X / Y] at the exponent [E] is what rounding starts from. *)
Definition rounds_from (X Y E V W : Z) : Prop :=
  0 ≤ X ∧ 0 < Y ∧ -1074 ≤ E ∧ E ≤ fexp64 (Zdigits2 (X / Y) + E) ∧
  X * W * 2 ^ (E + 1074) = V * Y.

Lemma shl_align_spec p E :
  ∃ q ez, shl_align p 0 E = (q, ez) ∧ ez = Z.min 0 E ∧ Zpos q = Zpos p * 2 ^ (- ez) ∧
    Zpos (digits2_pos q) + ez = Zpos (digits2_pos p).
Proof.
  unfold shl_align. stdlib_z. rewrite Z.sub_0_r. destruct E as [|k|k].
  - exists p, 0. split_and!; [done|done|lia|lia].
  - exists p, 0. split_and!; [done|lia|lia|lia].
  - exists (Pos.iter xO p k), (Zneg k). split_and!; [done|lia| |].
    + clear. change (- Zneg k) with (Zpos k). induction k as [|k IH] using Pos.peano_ind; [simpl; lia|].
      rewrite Pos.iter_succ, Pos2Z.inj_succ, Z.pow_succ_r by lia. rewrite Pos2Z.inj_xO, IH. lia.
    + rewrite digits2_pos_iter. lia.
Qed.

Lemma binary_round_from neg p :
  ∃ X E, binary_round prec64 emax64 neg p 0 =
      binary_round_aux prec64 emax64 neg (X / 1) E (place (X mod 1) 1) ∧
    rounds_from X 1 E (Zpos p * 2 ^ 1074) 1.
Proof.
  unfold binary_round. stdlib_z. rewrite Z.add_0_r.
  destruct (shl_align_spec p (fexp64 (Zpos (digits2_pos p)))) as (q & ez & -> & Ez & Hq & Hd).
  rewrite fexp64_eq in Ez. exists (Zpos q), ez. rewrite Z.div_1_r, Z.mod_1_r.
  split; [done|]. unfold rounds_from. rewrite Z.div_1_r, fexp64_eq. simpl Zdigits2.
  split_and!; [lia|lia|lia|lia|]. rewrite Hq, !Z.mul_1_r, <- Z.mul_assoc, <- Z.pow_add_r by lia.
  do 2 f_equal. lia.
Qed.

Lemma div_core_from N D :
  0 < N → 0 < D →
  ∃ X E, SFdiv_core_binary prec64 emax64 N 0 D 0 = (X / D, E, place (X mod D) D) ∧
    rounds_from X D E (N * 2 ^ 1074) D.
Proof.
  intros HN HD. unfold SFdiv_core_binary. stdlib_z. rewrite !Z.add_0_r, Z.sub_0_r.
  set (E := Z.min (fexp64 (Zdigits2 N - Zdigits2 D)) 0).
  assert (-1074 ≤ E ≤ 0) as HE by (unfold E; rewrite fexp64_eq; lia).
  exists (N * 2 ^ (- E)), E.
  assert (match 0 - E with 0 => N | Zpos _ => Z.shiftl N (0 - E) | Zneg _ => 0 end = N * 2 ^ (- E)) as ->.
  { replace (0 - E) with (- E) by lia. destruct (- E) as [|k|k] eqn:Ek; [simpl; lia| |lia].
    by rewrite Z.shiftl_mul_pow2 by lia. }
  pose proof (Z.pow_pos_nonneg 2 (- E)) as Hp.
  assert (Z.div_eucl (N * 2 ^ (- E)) D = (N * 2 ^ (- E) / D, N * 2 ^ (- E) mod D)) as Hde.
  { unfold Z.div, Z.modulo. by destruct (Z.div_eucl _ D). }
  split.
  { change (IntDef.Z.div_eucl) with Z.div_eucl. rewrite Hde. by rewrite place_new_location. }
  split_and!; [nia|done|lia| |].
  - rewrite fexp64_eq. destruct (Z.eq_dec E (-1074)) as [|Hne]; [lia|].
    assert (E ≤ Zdigits2 N - Zdigits2 D - 53) as HEd by (unfold E in *; rewrite fexp64_eq in *; lia).
    destruct (Zdigits2_bounds N HN) as [HNlo _]. destruct (Zdigits2_bounds D HD) as [_ HDhi].
    pose proof (Zdigits2_nonneg D). assert (0 < Zdigits2 N) by (destruct N; simpl; lia). set (k := Zdigits2 N - Zdigits2 D - E - 1).
    assert (2 ^ k ≤ N * 2 ^ (- E) / D) as HM.
    { apply quotient_bounds; [done|]. transitivity (2 ^ k * 2 ^ Zdigits2 D); [apply Z.mul_le_mono_nonneg_l; lia|].
      rewrite <- Z.pow_add_r by lia.
      replace (k + Zdigits2 D) with ((Zdigits2 N - 1) + (- E)) by lia.
      rewrite Z.pow_add_r by lia. apply Z.mul_le_mono_nonneg_r; [lia|exact HNlo]. }
    assert (k < Zdigits2 (N * 2 ^ (- E) / D)); [|lia].
    pose proof (Z.pow_pos_nonneg 2 k). destruct (Zdigits2_bounds (N * 2 ^ (- E) / D)) as [_ Hhi]; [lia|].
    apply (Z.pow_lt_mono_r_iff 2); [lia| |lia]. apply Zdigits2_nonneg. lia.
  - rewrite <- !Z.mul_assoc, (Z.mul_comm D), !Z.mul_assoc. f_equal.
    rewrite <- Z.mul_assoc, <- Z.pow_add_r by lia. do 2 f_equal. lia.
Qed.

Lemma f_of_decimal_from neg p s :
  ∃ X Y E, f_of_decimal neg (Zpos p) s =
      binary_round_aux prec64 emax64 neg (X / Y) E (place (X mod Y) Y) ∧
    rounds_from X Y E (dec_num (Zpos p) s) (dec_den s).
Proof.
  unfold f_of_decimal, dec_num, dec_den. destruct (Z.leb_spec 0 s) as [Hs|Hs].
  - rewrite Z.max_r, (Z.max_l 0 (- s)) by lia. change (10 ^ 0) with 1.
    assert (0 < Zpos p * 10 ^ s) as Hpos by (apply Z.mul_pos_pos; [lia|apply Z.pow_pos_nonneg; lia]).
    destruct (Zpos p * 10 ^ s) as [|q|q]; [lia| |lia].
    destruct (binary_round_from neg q) as (X & E & -> & H). by exists X, 1, E.
  - rewrite Z.max_l, Z.max_r by lia. change (10 ^ 0) with 1. rewrite Z.mul_1_r.
    destruct (div_core_from (Zpos p) (10 ^ (- s))) as (X & E & -> & H);
      [lia|apply Z.pow_pos_nonneg; lia|]. by exists X, (10 ^ (- s)), E.
Qed.

(** A decimal near a float reads as that float. *)
Lemma f_of_decimal_near neg d s m e :
  0 < d → float_range (Zpos m) e → near (dec_num d s) (dec_den s) (Zpos m) e →
  f_of_decimal neg d s = S754_finite neg m e.
Proof.
  intros Hd Hr Hn. destruct d as [|p|p]; try lia.
  destruct (f_of_decimal_from neg p s) as (X & Y & E & -> & HX & HY & HE & Hf & Hv).
  by apply (round_aux_near neg X Y E _ _ m e HX HY (dec_den_pos s) HE Hf Hv).
Qed.

(** ** The float depends on the value only *)

Lemma locate_scale X Y k : 0 < Y → 0 < k → locate (X * k) (Y * k) = locate X Y.
Proof.
  intros HY Hk. unfold locate. rewrite Z.div_mul_cancel_r, Z.mul_mod_distr_r by lia. f_equal.
  unfold place. destruct (Z.eqb_spec (X mod Y) 0) as [->|Hne]; [done|].
  rewrite (proj2 (Z.eqb_neq (X mod Y * k) 0)) by nia. f_equal.
  rewrite Z.mul_assoc. destruct (Z.compare_spec (2 * (X mod Y)) Y);
    [apply Z.compare_eq_iff|apply Z.compare_lt_iff|apply Z.compare_gt_iff]; nia.
Qed.

Lemma locate_ratio P Q P' Q' : 0 < Q → 0 < Q' → P * Q' = P' * Q → locate P Q = locate P' Q'.
Proof.
  intros HQ HQ' E. rewrite <- (locate_scale P Q Q'), E, (Z.mul_comm Q) by done.
  by rewrite locate_scale.
Qed.

Lemma canonical_unique P Q E P' Q' E' :
  0 < Q → 0 < Q' → canonical (P / Q) E → canonical (P' / Q') E' →
  P * Q' * 2 ^ (E + 1074) = P' * Q * 2 ^ (E' + 1074) → E' ≤ E.
Proof.
  intros HQ HQ' (HE & HM & _) (HE' & _ & HM') Hv. apply Z.nlt_ge. intros Hlt.
  apply quotient_bounds in HM; [|done]. specialize (HM' ltac:(lia)).
  apply quotient_bounds in HM'; [|done].
  replace (E' + 1074) with ((E' - E) + (E + 1074)) in Hv by lia.
  rewrite (Z.pow_add_r 2 (E' - E)) in Hv by lia.
  pose proof (Z.pow_pos_nonneg 2 (E + 1074)). set (u := 2 ^ (E + 1074)) in *.
  assert (2 ^ 1 ≤ 2 ^ (E' - E)) as Hk by (apply Z.pow_le_mono_r; lia). change (2 ^ 1) with 2 in Hk.
  set (K := 2 ^ (E' - E)) in *.
  assert (P * Q' = P' * Q * K) as Hv' by (apply (Z.mul_cancel_r _ _ u); [lia|by rewrite <- (Z.mul_assoc _ K)]).
  change (2 ^ 53) with 9007199254740992 in *. change (2 ^ 52) with 4503599627370496 in *.
  assert (P * Q' < 9007199254740992 * Q * Q') by nia.
  assert (4503599627370496 * Q' * Q * 2 ≤ P' * Q * K); [|nia].
  apply Z.mul_le_mono_nonneg; nia.
Qed.

Lemma rounds_from_unique neg X Y E V W X' Y' E' V' W' :
  0 < W → 0 < W' → rounds_from X Y E V W → rounds_from X' Y' E' V' W' → V * W' = V' * W →
  binary_round_aux prec64 emax64 neg (X / Y) E (place (X mod Y) Y) =
  binary_round_aux prec64 emax64 neg (X' / Y') E' (place (X' mod Y') Y').
Proof.
  intros HW HW' (HX & HY & HE & Hf & Hv) (HX' & HY' & HE' & Hf' & Hv') Hvv.
  unfold binary_round_aux.
  destruct (shr_fexp_locate X Y E HX HY Hf) as (n & Hn & -> & Hc).
  destruct (shr_fexp_locate X' Y' E' HX' HY' Hf') as (n' & Hn' & -> & Hc').
  set (Q := 2 ^ n * Y) in *. set (Q' := 2 ^ n' * Y') in *.
  pose proof (Z.pow_pos_nonneg 2 n). pose proof (Z.pow_pos_nonneg 2 n').
  assert (0 < Q ∧ 0 < Q') as [HQ HQ'] by (unfold Q, Q'; nia).
  assert (X * Q' * 2 ^ (E + n + 1074) = X' * Q * 2 ^ (E' + n' + 1074)) as Hr.
  { replace (E + n + 1074) with (n + (E + 1074)) by lia.
    replace (E' + n' + 1074) with (n' + (E' + 1074)) by lia.
    rewrite (Z.pow_add_r 2 n), (Z.pow_add_r 2 n') by lia.
    apply (Z.mul_cancel_r _ _ (W * W')); [nia|]. unfold Q, Q'.
    set (u := 2 ^ (E + 1074)) in *. set (u' := 2 ^ (E' + 1074)) in *.
    set (c := 2 ^ n) in *. set (c' := 2 ^ n') in *.
    transitivity ((X * W * u) * (W' * Y' * c * c')); [ring|]. rewrite Hv.
    transitivity ((X' * W' * u') * (W * Y * c * c')); [|ring]. rewrite Hv'.
    transitivity ((V * W') * (Y * Y' * c * c')); [ring|]. rewrite Hvv. ring. }
  assert (E + n = E' + n') as EE.
  { apply Z.le_antisymm; [eapply (canonical_unique X' Q' _ X Q)|eapply (canonical_unique X Q _ X' Q')];
      eauto; by symmetry. }
  rewrite EE in Hr |- *. rewrite (locate_ratio X Q X' Q'); [done..|].
  apply (Z.mul_cancel_r _ _ (2 ^ (E' + n' + 1074))); [|done].
  destruct Hc' as [? _]. apply Z.pow_nonzero; lia.
Qed.

Lemma f_of_decimal_value neg d s d' s' :
  0 < d → 0 < d' → dec_num d s * dec_den s' = dec_num d' s' * dec_den s →
  f_of_decimal neg d s = f_of_decimal neg d' s'.
Proof.
  intros Hd Hd' Hv. destruct d as [|p|p], d' as [|p'|p']; try lia.
  destruct (f_of_decimal_from neg p s) as (X & Y & E & -> & H).
  destruct (f_of_decimal_from neg p' s') as (X' & Y' & E' & -> & H').
  by apply (rounds_from_unique neg X Y E _ _ X' Y' E' _ _ (dec_den_pos s) (dec_den_pos s') H H').
Qed.

(** Trailing zeros do not count. *)
Lemma f_of_decimal_shift neg d s k :
  0 ≤ d → 0 ≤ k → f_of_decimal neg (d * 10 ^ k) s = f_of_decimal neg d (s + k).
Proof.
  intros Hd Hk. destruct (Z.eq_dec d 0) as [->|]; [done|]. pose proof (Z.pow_pos_nonneg 10 k).
  apply f_of_decimal_value; [nia|lia|]. unfold dec_num, dec_den.
  assert (10 ^ k * 10 ^ Z.max 0 s * 10 ^ Z.max 0 (- (s + k)) = 10 ^ Z.max 0 (s + k) * 10 ^ Z.max 0 (- s))
    as Hp by (rewrite <- !Z.pow_add_r by lia; f_equal; lia).
  generalize dependent (2 ^ 1074). intros u.
  transitivity (d * u * (10 ^ k * 10 ^ Z.max 0 s * 10 ^ Z.max 0 (- (s + k)))); [ring|].
  rewrite Hp. ring.
Qed.

(** ** Rounding gives floats that exist *)

Lemma rne_bounds X Y : 0 < Y →
  X / Y ≤ round_nearest_even (X / Y) (place (X mod Y) Y) ≤ X / Y + 1.
Proof.
  intros HY. unfold place. destruct (_ =? 0); simpl; [lia|]. destruct (_ ?= Y); stdlib_z; [|lia..].
  destruct (Z.even _); lia.
Qed.

Lemma round_aux_valid neg X Y E V W :
  rounds_from X Y E V W →
  valid_binary prec64 emax64 (binary_round_aux prec64 emax64 neg (X / Y) E (place (X mod Y) Y)) = true.
Proof.
  intros (HX & HY & HE & Hf & _). unfold binary_round_aux.
  destruct (shr_fexp_locate X Y E HX HY Hf) as (n & Hn & -> & (Hc1 & Hc2 & Hc3)).
  rewrite shr_m_locate, loc_of_locate. set (Q := 2 ^ n * Y) in *.
  assert (0 < Q) as HQ by (pose proof (Z.pow_pos_nonneg 2 n); unfold Q; nia).
  pose proof (rne_bounds X Q HQ) as Hr. pose proof (Z.div_pos X Q HX HQ) as Hp.
  set (M := round_nearest_even _ _) in *.
  destruct (Z.eq_dec M (2 ^ 53)) as [->|Hne].
  - rewrite shr_fexp_carry by lia. cbn [shr_m]. destruct (IntDef.Z.leb _ _) eqn:El; [|done].
    apply bounded_range. split; [done|]. split; [|done]. stdlib_z. apply Z.leb_le in El.
    change (emax64 - prec64) with 971 in El. lia.
  - rewrite shr_fexp_rounded by lia. cbn [shr_m]. destruct M as [|m|m] eqn:EM; [done| |lia].
    destruct (IntDef.Z.leb _ _) eqn:El; [|done]. apply bounded_range. stdlib_z. apply Z.leb_le in El.
    change (emax64 - prec64) with 971 in El. split_and!; [lia..|]. intros Hgt. specialize (Hc3 Hgt). lia.
Qed.

Lemma f_of_decimal_valid neg d s : valid_binary prec64 emax64 (f_of_decimal neg d s) = true.
Proof.
  destruct d as [|p|p]; [done| |done].
  destruct (f_of_decimal_from neg p s) as (X & Y & E & -> & H). by eapply round_aux_valid.
Qed.

(** ** Seventeen digits determine a float *)

Lemma ndigits_bounds z : 0 < z < 10 ^ 2000 → 1 ≤ ndigits z ∧ 10 ^ (ndigits z - 1) ≤ z < 10 ^ ndigits z.
Proof.
  unfold ndigits. assert (∀ fuel z, 0 < z < 10 ^ Z.of_nat fuel →
    1 ≤ ndigits_aux fuel z ∧ 10 ^ (ndigits_aux fuel z - 1) ≤ z < 10 ^ ndigits_aux fuel z) as H.
  { clear. induction fuel as [|fuel IH]; intros z Hz; [simpl in Hz; lia|]. cbn [ndigits_aux].
    rewrite Nat2Z.inj_succ, Z.pow_succ_r in Hz by lia.
    destruct (Z.ltb_spec z 10); [simpl; lia|].
    pose proof (Z.div_mod z 10). pose proof (Z.mod_pos_bound z 10).
    destruct (IH (z / 10)) as [Hn [Hlo Hhi]]; [lia|]. set (n := ndigits_aux fuel (z / 10)) in *.
    replace (1 + n - 1) with (1 + (n - 1)) by lia. rewrite !Z.pow_add_r by lia. lia. }
  intros Hz. apply H. by replace (Z.of_nat 2000) with 2000 by lia.
Qed.

(** [10^j <= num / den] and [num / den < 10^j]. *)
Definition pow10_le (j num den : Z) : Prop := den * 10 ^ Z.max 0 j ≤ num * 10 ^ Z.max 0 (- j).
Definition lt_pow10 (j num den : Z) : Prop := num * 10 ^ Z.max 0 (- j) < den * 10 ^ Z.max 0 j.

Lemma dec_exp_spec num den :
  0 < num < 10 ^ 2000 → 0 < den < 10 ^ 2000 →
  pow10_le (dec_exp num den - 1) num den ∧ lt_pow10 (dec_exp num den) num den.
Proof.
  intros Hn Hd. destruct (ndigits_bounds num Hn) as (Hn1 & Hnlo & Hnhi).
  destruct (ndigits_bounds den Hd) as (Hd1 & Hdlo & Hdhi). unfold dec_exp.
  set (a := ndigits num) in *. set (b := ndigits den) in *.
  assert (pow10_le (a - b - 1) num den) as Hlo.
  { unfold pow10_le. apply Z.le_trans with (10 ^ b * 10 ^ Z.max 0 (a - b - 1)).
    { apply Z.mul_le_mono_nonneg_r; [apply Z.pow_nonneg; lia|lia]. }
    apply Z.le_trans with (10 ^ (a - 1) * 10 ^ Z.max 0 (- (a - b - 1))).
    - rewrite <- !Z.pow_add_r by lia. apply Z.pow_le_mono_r; lia.
    - apply Z.mul_le_mono_nonneg_r; [apply Z.pow_nonneg; lia|lia]. }
  assert (lt_pow10 (a - b + 1) num den) as Hhi.
  { unfold lt_pow10. apply Z.lt_le_trans with (10 ^ a * 10 ^ Z.max 0 (- (a - b + 1))).
    { apply Z.mul_lt_mono_pos_r; [apply Z.pow_pos_nonneg; lia|lia]. }
    apply Z.le_trans with (10 ^ (b - 1) * 10 ^ Z.max 0 (a - b + 1)).
    - rewrite <- !Z.pow_add_r by lia. apply Z.pow_le_mono_r; lia.
    - apply Z.mul_le_mono_nonneg_r; [apply Z.pow_nonneg; lia|lia]. }
  assert ((if (if 0 <=? a - b then den * 10 ^ (a - b) <=? num else den <=? num * 10 ^ (- (a - b)))
    then pow10_le (a - b) num den else lt_pow10 (a - b) num den)) as Htest.
  { unfold pow10_le, lt_pow10. destruct (Z.leb_spec 0 (a - b)).
    - rewrite Z.max_r, Z.max_l by lia. change (10 ^ 0) with 1.
      destruct (Z.leb_spec (den * 10 ^ (a - b)) num); lia.
    - rewrite Z.max_l, Z.max_r by lia. change (10 ^ 0) with 1.
      destruct (Z.leb_spec den (num * 10 ^ (- (a - b)))); lia. }
  destruct (if 0 <=? a - b then _ else _); [|done].
  by replace (a - b + 1 - 1) with (a - b) by lia.
Qed.

(** A quotient below [n] digits and above [n - 1], at the scale [k - n]. *)
Lemma scaled_digits k n num den a b :
  0 < den → pow10_le (k - 1) num den → lt_pow10 k num den →
  (a, b) = (if 0 <=? k - n then (num, den * 10 ^ (k - n)) else (num * 10 ^ (- (k - n)), den)) →
  1 ≤ n → 0 < b ∧ 10 ^ (n - 1) * b ≤ a < 10 ^ n * b.
Proof.
  unfold pow10_le, lt_pow10. intros Hden Hlo Hhi Hab Hn.
  destruct (Z.leb_spec 0 (k - n)) as [Hk|Hk]; injection Hab as -> ->.
  - pose proof (Z.pow_pos_nonneg 10 (k - n)).
    rewrite (Z.max_r 0 (k - 1)), (Z.max_r 0 k), (Z.max_l 0 (- (k - 1))), (Z.max_l 0 (- k)) in * by lia.
    change (10 ^ 0) with 1 in *. rewrite Z.mul_1_r in Hlo, Hhi. split; [nia|].
    replace (k - 1) with ((n - 1) + (k - n)) in Hlo by lia. replace k with (n + (k - n)) in Hhi by lia.
    rewrite Z.pow_add_r in Hlo, Hhi by lia. nia.
  - pose proof (Z.pow_pos_nonneg 10 (- (k - n))) as Hp. split; [done|]. split.
    + destruct (Z.le_gt_cases 0 (k - 1)).
      * rewrite Z.max_r, Z.max_l in Hlo by lia. change (10 ^ 0) with 1 in Hlo.
        replace (n - 1) with ((k - 1) + - (k - n)) by lia. rewrite Z.pow_add_r by lia. nia.
      * rewrite Z.max_l, Z.max_r in Hlo by lia. change (10 ^ 0) with 1 in Hlo.
        replace (- (k - n)) with (- (k - 1) + (n - 1)) by lia. rewrite Z.pow_add_r by lia.
        pose proof (Z.pow_pos_nonneg 10 (n - 1)). nia.
    + destruct (Z.le_gt_cases 0 k).
      * rewrite (Z.max_r 0 k), Z.max_l in Hhi by lia. change (10 ^ 0) with 1 in Hhi.
        replace n with (k + - (k - n)) at 2 by lia. rewrite Z.pow_add_r by lia. nia.
      * rewrite (Z.max_l 0 k), Z.max_r in Hhi by lia. change (10 ^ 0) with 1 in Hhi.
        replace (- (k - n)) with (- k + n) by lia. rewrite Z.pow_add_r by lia.
        pose proof (Z.pow_pos_nonneg 10 n). nia.
Qed.

Lemma f_num_den_spec m e :
  float_range (Zpos m) e →
  let '(num, den) := f_num_den m e in
  0 < num < 10 ^ 2000 ∧ 0 < den < 10 ^ 2000 ∧
  num * 2 ^ 1074 = Zpos m * 2 ^ (e + 1074) * den.
Proof.
  intros ([_ Hm] & He & _). assert (2 ^ 1074 < 10 ^ 2000) as Hbig by (vm_compute; reflexivity).
  unfold f_num_den. destruct (Z.leb_spec 0 e).
  - pose proof (Z.pow_pos_nonneg 2 e). split_and!; [nia| |lia|lia|].
    + apply Z.lt_trans with (2 ^ 53 * 2 ^ e); [apply Z.mul_lt_mono_pos_r; lia|].
      rewrite <- Z.pow_add_r by lia. eapply Z.le_lt_trans; [|exact Hbig]. apply Z.pow_le_mono_r; lia.
    + rewrite Z.mul_1_r, <- Z.mul_assoc, <- Z.pow_add_r by lia. done.
  - pose proof (Z.pow_pos_nonneg 2 (- e)). split_and!; [lia| |lia| |].
    + eapply Z.lt_trans; [exact Hm|]. eapply Z.lt_trans; [|exact Hbig]. done.
    + eapply Z.le_lt_trans; [|exact Hbig]. apply Z.pow_le_mono_r; lia.
    + rewrite <- Z.mul_assoc, <- Z.pow_add_r by lia. do 2 f_equal. lia.
Qed.

(** The scaled quotient that [try_digits] looks at, and a decimal of it. *)
Lemma near_scaled_decimal num den s d m e :
  0 < den → num * 2 ^ 1074 = Zpos m * 2 ^ (e + 1074) * den →
  let a := num * 10 ^ Z.max 0 (- s) in
  let b := den * 10 ^ Z.max 0 s in
  2 * 10 ^ 16 * Z.abs (d * b - a) ≤ a →
  near (dec_num d s) (dec_den s) (Zpos m) e.
Proof.
  intros Hden Hv a b Hab. unfold near. apply (Z.mul_le_mono_pos_r _ _ den); [done|].
  assert (Zpos m * 2 ^ (e + 1074) * dec_den s * den = a * 2 ^ 1074) as Ea.
  { unfold a, dec_den. transitivity ((Zpos m * 2 ^ (e + 1074) * den) * 10 ^ Z.max 0 (- s)); [ring|].
    rewrite <- Hv. ring. }
  rewrite Ea, <- Z.mul_assoc, <- (Z.abs_eq den) at 1 by lia. rewrite <- Z.abs_mul.
  rewrite Z.mul_sub_distr_r, Ea.
  replace (dec_num d s * den) with (d * b * 2 ^ 1074) by (unfold dec_num, b; ring).
  rewrite <- Z.mul_sub_distr_r, Z.abs_mul, (Z.abs_eq (2 ^ 1074)) by (apply Z.pow_nonneg; lia).
  rewrite Z.mul_assoc. apply Z.mul_le_mono_nonneg_r; [apply Z.pow_nonneg; lia|done].
Qed.

(** What is known of the quotients at a scale. *)
Record scaled (num den k n a b : Z) : Prop := {
  sc_a : a = num * 10 ^ Z.max 0 (- (k - n));
  sc_b : b = den * 10 ^ Z.max 0 (k - n);
  sc_pos : 0 < b;
  sc_lo : 10 ^ (n - 1) * b ≤ a;
  sc_hi : a < 10 ^ n * b }.

Lemma try_digits_scaled m e n :
  float_range (Zpos m) e → 1 ≤ n →
  let '(num, den) := f_num_den m e in
  let k := dec_exp num den in
  let '(a, b) := if 0 <=? k - n then (num, den * 10 ^ (k - n)) else (num * 10 ^ (- (k - n)), den) in
  0 < den ∧ num * 2 ^ 1074 = Zpos m * 2 ^ (e + 1074) * den ∧ scaled num den k n a b.
Proof.
  intros Hr Hn. pose proof (f_num_den_spec m e Hr) as H. destruct (f_num_den m e) as [num den].
  destruct H as (Hnum & Hden & Hv). cbv zeta. destruct (dec_exp_spec num den Hnum Hden) as [Hlo Hhi].
  set (k := dec_exp num den) in *.
  destruct (if 0 <=? k - n then _ else _) as [a b] eqn:Eab. symmetry in Eab.
  destruct (scaled_digits k n num den a b) as (Hb & Hl & Hh); [lia|done..|].
  split; [lia|]. split; [done|]. split; try done; destruct (Z.leb_spec 0 (k - n)); injection Eab as -> ->.
  - rewrite Z.max_l by lia. ring.
  - by rewrite Z.max_r by lia.
  - by rewrite Z.max_r by lia.
  - rewrite Z.max_l by lia. ring.
Qed.

Lemma try_digits_17 m e :
  float_range (Zpos m) e →
  let '(num, den) := f_num_den m e in
  is_Some (try_digits m e num den (dec_exp num den) 17).
Proof.
  intros Hr. pose proof (try_digits_scaled m e 17 Hr) as H. destruct (f_num_den m e) as [num den].
  unfold try_digits. cbv zeta in *. set (k := dec_exp num den) in *.
  destruct (if 0 <=? k - 17 then _ else _) as [a b].
  destruct (H ltac:(lia)) as (Hden & Hv & [Ha Hb Hpos Hlo _]). clear H.
  change (10 ^ (17 - 1)) with 10000000000000000 in Hlo.
  pose proof (Z.div_mod a b) as Hdm. pose proof (Z.mod_pos_bound a b Hpos) as Hm.
  set (lo := a / b) in *. assert (0 < lo) as Hlo0 by nia.
  assert (∀ d, 0 < d → 2 * Z.abs (d * b - a) ≤ b →
    bool_decide (f_of_decimal false d (k - 17) = S754_finite false m e) = true) as Hback.
  { intros d Hd Hn. apply bool_decide_eq_true. apply f_of_decimal_near; [done..|].
    apply (near_scaled_decimal num den); [done..|]. rewrite <- Ha, <- Hb.
    change (2 * 10 ^ 16) with 20000000000000000. lia. }
  destruct (Z.le_gt_cases (2 * (a mod b)) b).
  - rewrite (Hback lo) by nia. by destruct (bool_decide _).
  - rewrite (Hback (lo + 1)) by nia. by destruct (bool_decide _).
Qed.

(** ** The shortest digits *)

Lemma try_digits_back m e num den k n d s :
  try_digits m e num den k n = Some (d, s) →
  f_of_decimal false d s = S754_finite false m e ∧ s = k - n.
Proof.
  unfold try_digits. destruct (if 0 <=? k - n then _ else _) as [a b]. cbv zeta.
  destruct (bool_decide (f_of_decimal false (a / b) (k - n) = _)) eqn:E1;
    destruct (bool_decide (f_of_decimal false (a / b + 1) (k - n) = _)) eqn:E2;
    repeat match goal with H : bool_decide _ = true |- _ => apply bool_decide_eq_true in H end;
    try done; [destruct (_ || _)|..]; by intros [= <- <-].
Qed.

Lemma try_digits_bound m e n d s :
  float_range (Zpos m) e → 1 ≤ n →
  let '(num, den) := f_num_den m e in
  try_digits m e num den (dec_exp num den) n = Some (d, s) → 10 ^ (n - 1) ≤ d ≤ 10 ^ n.
Proof.
  intros Hr Hn. pose proof (try_digits_scaled m e n Hr Hn) as H. destruct (f_num_den m e) as [num den].
  unfold try_digits. cbv zeta in *. set (k := dec_exp num den) in *.
  destruct (if 0 <=? k - n then _ else _) as [a b]. destruct H as (_ & _ & [_ _ Hpos Hlo Hhi]).
  assert (10 ^ (n - 1) ≤ a / b < 10 ^ n) as Hq by (split; apply quotient_bounds; done).
  destruct (bool_decide _), (bool_decide _); try done; [destruct (_ || _)|..]; intros [= <- _]; lia.
Qed.

Lemma shortest_aux_finds fuel m e num den k n j :
  n ≤ j < n + Z.of_nat fuel → is_Some (try_digits m e num den k j) →
  ∃ i d s, n ≤ i ≤ j ∧ shortest_aux fuel m e num den k n = (d, s) ∧
    try_digits m e num den k i = Some (d, s).
Proof.
  revert n. induction fuel as [|fuel IH]; intros n Hj Hs; [lia|]. cbn [shortest_aux].
  destruct (try_digits m e num den k n) as [[d s]|] eqn:E; [exists n, d, s; split_and!; [lia|lia|done..]|].
  destruct (Z.eq_dec n j) as [<-|]; [rewrite E in Hs; by destruct Hs|].
  destruct (IH (n + 1)) as (i & d & s & Hi & H); [lia|done|]. exists i, d, s. split; [lia|done].
Qed.

Lemma strip_zeros_spec fuel d s :
  0 < d → ∃ j, 0 ≤ j ∧ (strip_zeros fuel d s).2 = s + j ∧ d = (strip_zeros fuel d s).1 * 10 ^ j.
Proof.
  revert d s. induction fuel as [|fuel IH]; intros d s Hd; cbn [strip_zeros].
  { exists 0. simpl. lia. }
  destruct (Z.eqb_spec (d mod 10) 0) as [Em|]; [|exists 0; simpl; lia].
  destruct (d =? 0); [exists 0; simpl; lia|]. cbn [negb andb].
  pose proof (Z.div_mod d 10). destruct (IH (d / 10) (s + 1)) as (j & Hj & -> & Ed); [lia|].
  exists (j + 1). split; [lia|]. split; [lia|]. rewrite Z.pow_add_r by lia. lia.
Qed.

(** The decimal exponent of a float. *)
Lemma dec_exp_range m e :
  float_range (Zpos m) e → let '(num, den) := f_num_den m e in -330 ≤ dec_exp num den ≤ 320.
Proof.
  intros Hr. pose proof (f_num_den_spec m e Hr) as Hs. pose proof Hr as ([_ Hm] & He & _).
  assert (let '(num, den) := f_num_den m e in num < 10 ^ 310 ∧ den < 10 ^ 325) as Hb.
  { assert (2 ^ 1024 < 10 ^ 310 ∧ 2 ^ 1074 < 10 ^ 325) as [B1 B2] by (split; vm_compute; reflexivity).
    unfold f_num_den. destruct (Z.leb_spec 0 e); split.
    - eapply Z.lt_trans; [apply Z.mul_lt_mono_pos_r; [apply Z.pow_pos_nonneg; lia|exact Hm]|].
      rewrite <- Z.pow_add_r by lia. eapply Z.le_lt_trans; [|exact B1]. apply Z.pow_le_mono_r; lia.
    - vm_compute. reflexivity.
    - eapply Z.lt_trans; [exact Hm|]. vm_compute. reflexivity.
    - eapply Z.le_lt_trans; [|exact B2]. apply Z.pow_le_mono_r; lia. }
  destruct (f_num_den m e) as [num den]. destruct Hs as (Hnum & Hden & _).
  destruct (dec_exp_spec num den Hnum Hden) as [Hlo Hhi]. unfold pow10_le, lt_pow10 in *.
  set (k := dec_exp num den) in *. clearbody k. destruct Hb as [Hb1 Hb2]. split.
  - apply Z.nlt_ge. intros Hk. rewrite (Z.max_l 0 k), Z.max_r in Hhi by lia. change (10 ^ 0) with 1 in Hhi.
    assert (10 ^ 325 ≤ 10 ^ (- k)) by (apply Z.pow_le_mono_r; lia).
    set (B := 10 ^ 325) in *. clearbody B. nia.
  - apply Z.nlt_ge. intros Hk. rewrite Z.max_r, Z.max_l in Hlo by lia. change (10 ^ 0) with 1 in Hlo.
    assert (10 ^ 310 ≤ 10 ^ (k - 1)) by (apply Z.pow_le_mono_r; lia).
    set (B := 10 ^ 310) in *. clearbody B. nia.
Qed.

(** The shortest digits of a float read back as it; there are at most 18, and
    the place of the first one is bounded. *)
Lemma shortest_spec m e d s :
  float_range (Zpos m) e → shortest m e = (d, s) →
  0 < d ≤ 10 ^ 17 ∧ f_of_decimal false d s = S754_finite false m e ∧
  ∀ len, 10 ^ (len - 1) ≤ d < 10 ^ len → 1 ≤ len → -330 ≤ len + s ≤ 321.
Proof.
  intros Hr. unfold shortest. pose proof (try_digits_17 m e Hr) as H17.
  pose proof (dec_exp_range m e Hr) as Hk. pose proof (try_digits_bound m e) as Hbound.
  destruct (f_num_den m e) as [num den]. set (k := dec_exp num den) in *.
  destruct (shortest_aux_finds 18 m e num den k 1 17) as (n & d0 & s0 & Hn & -> & Ht); [lia|done|].
  destruct (Hbound n d0 s0 Hr ltac:(lia) Ht) as [Hlo Hhi]. apply try_digits_back in Ht as [Hback ->].
  assert (0 < d0) as Hd0 by (pose proof (Z.pow_pos_nonneg 10 (n - 1)); lia).
  destruct (strip_zeros_spec 20 d0 (k - n) Hd0) as (j & Hj & Es & Ed).
  destruct (strip_zeros 20 d0 (k - n)) as [d' s']. simpl in Es, Ed. intros [= <- <-]. subst s'.
  pose proof (Z.pow_pos_nonneg 10 j) as Hp. assert (0 < d') as Hd' by nia.
  assert (10 ^ n ≤ 10 ^ 17) by (apply Z.pow_le_mono_r; lia).
  split; [nia|]. split.
  { rewrite <- Hback, Ed, f_of_decimal_shift by lia. done. }
  intros len [Hl1 Hl2] Hlen.
  assert (n - 1 < len + j).
  { apply (Z.pow_lt_mono_r_iff 10); [lia|lia|]. rewrite Z.pow_add_r by lia.
    eapply Z.le_lt_trans; [exact Hlo|]. rewrite Ed. apply Z.mul_lt_mono_pos_r; lia. }
  assert (len - 1 + j ≤ n); [|lia].
  apply (Z.pow_le_mono_r_iff 10); [lia|lia|]. rewrite Z.pow_add_r by lia.
  eapply Z.le_trans; [|exact Hhi]. rewrite Ed. apply Z.mul_le_mono_nonneg_r; lia.
Qed.

(** ** Decimal text *)

Definition is_digit (b : byte) : bool := (48 <=? bval b)%N && (bval b <=? 57)%N.

Lemma digit_byte d : 0 ≤ d < 10 →
  is_digit (bN (Z.to_N (48 + d))) = true ∧ Z.of_N (bval (bN (Z.to_N (48 + d)))) = 48 + d.
Proof.
  intros Hd. assert (d ∈ [0; 1; 2; 3; 4; 5; 6; 7; 8; 9]) as H by (rewrite !elem_of_cons; lia).
  repeat (apply elem_of_cons in H as [->|H]; [done|]). by apply not_elem_of_nil in H.
Qed.

Lemma digits_val_snoc ds b : digits_val (ds ++ [b]) = digits_val ds * 10 + Z.of_N (bval b) - 48.
Proof. unfold digits_val. by rewrite fold_left_app. Qed.

(** A digit that is not zero. *)
Definition leads (b : byte) : Prop := is_digit b = true ∧ b ≠ "0"%byte.

(** The digits of a positive number. *)
Definition spells (ds : bytes) (z : Z) : Prop :=
  (∃ b ds', ds = b :: ds' ∧ leads b) ∧ Forall (λ b, is_digit b = true) ds ∧ digits_val ds = z ∧
  10 ^ (Z.of_nat (length ds) - 1) ≤ z < 10 ^ Z.of_nat (length ds).

Lemma digits_aux_spells fuel z acc :
  0 < z < 10 ^ Z.of_nat fuel → ∃ ds, digits_aux fuel z acc = ds ++ acc ∧ spells ds z.
Proof.
  revert z acc. induction fuel as [|fuel IH]; intros z acc Hz; [simpl in Hz; lia|]. cbn [digits_aux].
  pose proof (Z.mod_pos_bound z 10 ltac:(lia)) as Hm. pose proof (Z.div_mod z 10 ltac:(lia)) as Hd.
  destruct (digit_byte (z mod 10) Hm) as [Hb Hv].
  set (b := bN (Z.to_N (48 + z mod 10))) in *. destruct (Z.ltb_spec z 10) as [Hlt|Hge].
  - exists [b]. split; [done|]. rewrite Z.mod_small in Hv by lia. split_and!.
    + exists b, []. split; [done|]. split; [done|]. intros ->.
      change (Z.of_N (bval "0"%byte)) with 48 in Hv. lia.
    + by repeat constructor.
    + unfold digits_val. simpl. lia.
    + simpl. lia.
    + simpl. lia.
  - rewrite Nat2Z.inj_succ, Z.pow_succ_r in Hz by lia.
    destruct (IH (z / 10) (b :: acc)) as (ds & -> & (b0 & ds' & Eds & Hl) & Hds & Hval & Hlen); [lia|].
    exists (ds ++ [b]). rewrite <- app_assoc. split; [done|].
    rewrite Eds in *. split_and!.
    + exists b0, (ds' ++ [b]). by split.
    + apply Forall_app. split; [done|]. by repeat constructor.
    + rewrite digits_val_snoc, Hval, Hv. lia.
    + rewrite length_app, Nat2Z.inj_add. change (Z.of_nat (length [b])) with 1.
      replace (Z.of_nat (length (b0 :: ds')) + 1 - 1) with (1 + (Z.of_nat (length (b0 :: ds')) - 1)) by lia.
      rewrite Z.pow_add_r by (simpl; lia). lia.
    + rewrite length_app, Nat2Z.inj_add. change (Z.of_nat (length [b])) with 1.
      rewrite Z.pow_add_r by lia. lia.
Qed.

Lemma digits_spells z : 0 < z < 10 ^ 400 → spells (digits z) z.
Proof.
  intros Hz. destruct (digits_aux_spells 400 z []) as (ds & E & H).
  - by replace (Z.of_nat 400) with 400 by lia.
  - unfold digits. by rewrite E, app_nil_r.
Qed.

Lemma digits_val_app ds ds' :
  digits_val (ds ++ ds') = digits_val ds * 10 ^ Z.of_nat (length ds') + digits_val ds'.
Proof.
  induction ds' as [|b ds' IH] using rev_ind; [rewrite app_nil_r; change (digits_val []) with 0; simpl; lia|].
  rewrite app_assoc, !digits_val_snoc, IH, length_app, Nat2Z.inj_add, Z.pow_add_r by lia.
  change (10 ^ Z.of_nat (length [b])) with 10. lia.
Qed.

Lemma digits_val_zeros n : digits_val (replicate n "0"%byte) = 0.
Proof.
  induction n as [|n IH]; [done|]. change (replicate (S n) "0"%byte) with (["0"%byte] ++ replicate n "0"%byte).
  rewrite digits_val_app, IH. done.
Qed.

Definition no_digit (s : bytes) : Prop := match s with b :: _ => is_digit b = false | [] => True end.

Lemma take_digits_all ds r : Forall (λ b, is_digit b = true) ds → no_digit r → take_digits (ds ++ r) = (ds, r).
Proof.
  intros Hds Hr. induction Hds as [|b ds Hb _ IH]; simpl.
  - destruct r as [|b r]; [done|]. simpl in Hr |- *. unfold is_digit in Hr. by rewrite Hr.
  - unfold is_digit in Hb. by rewrite Hb, IH.
Qed.

Lemma dec_digits_all ds r :
  Forall (λ b, is_digit b = true) ds → ds ≠ [] → no_digit r → dec_digits (ds ++ r) = Some (ds, r).
Proof. intros Hds Hne Hr. unfold dec_digits. rewrite take_digits_all by done. by destruct ds. Qed.

Lemma digit_neqb b c : is_digit b = true → is_digit c = false → Byte.eqb b c = false.
Proof.
  intros Hb Hc. destruct (Byte.eqb b c) eqn:E; [|done]. apply Byte.byte_dec_bl in E. congruence.
Qed.

Lemma dec_exponent_text w x :
  0 < Z.abs x < 10 ^ 400 →
  dec_exponent (["e"%byte; if x <? 0 then "-"%byte else "+"%byte] ++
    (let ex := digits (Z.abs x) in if Nat.ltb (length ex) w then "0"%byte :: ex else ex)) = Some (x, []).
Proof.
  intros Hx. destruct (digits_spells _ Hx) as ((b & ds & Eds & _) & Hds & Hval & _). cbv zeta.
  set (ex := digits (Z.abs x)) in *.
  set (ex' := if Nat.ltb (length ex) w then "0"%byte :: ex else ex).
  assert (Forall (λ b, is_digit b = true) ex' ∧ ex' ≠ [] ∧ digits_val ex' = Z.abs x) as (H1 & H2 & H3).
  { unfold ex'. destruct (Nat.ltb _ _); [|by rewrite Eds in *].
    split; [by constructor|]. split; [done|].
    change ("0"%byte :: ex) with (["0"%byte] ++ ex). by rewrite digits_val_app, Hval. }
  pose proof (dec_digits_all ex' [] H1 H2 I) as Hd. rewrite app_nil_r in Hd.
  unfold dec_exponent, dec_sign. cbn [app eat Byte.eqb].
  destruct (Z.ltb_spec x 0); cbn; rewrite Hd; cbn; rewrite H3; do 2 f_equal; lia.
Qed.

(** A number in text, its parts: sign, integer digits, fraction digits, rest. *)
Lemma dec_number_parts (neg : bool) ip fp t x f :
  Forall (λ b, is_digit b = true) ip → ip ≠ [] → leading_zero ip = false →
  Forall (λ b, is_digit b = true) fp → no_digit t → eat "." t = None →
  dec_exponent t = Some (x, []) →
  let d := digits_val (ip ++ fp) in
  let e := x - Z.of_nat (length fp) in
  0 < d → -400 ≤ Z.of_nat (length (ip ++ fp)) + e → ndigits d + e ≤ 400 →
  f_of_decimal neg d e = f →
  dec_number ((if neg then ["-"%byte] else []) ++ ip ++ (match fp with [] => [] | _ => "."%byte :: fp end) ++ t)
    = Some (ANum f, []).
Proof.
  intros Hip Hne Hlz Hfp Ht Hdot Hexp d e Hd Hmag Hnd <-. unfold dec_number.
  set (rest := (match fp with [] => [] | _ => "."%byte :: fp end) ++ t).
  assert (match eat "-" ((if neg then ["-"%byte] else []) ++ ip ++ rest) with
          | Some s => (true, s) | None => (false, (if neg then ["-"%byte] else []) ++ ip ++ rest) end =
          (neg, ip ++ rest)) as ->.
  { destruct neg; [done|]. destruct ip as [|b ip]; [done|]. simpl.
    apply Forall_cons in Hip as [Hb _]. by rewrite digit_neqb. }
  assert (no_digit rest) as Hrest by (by destruct fp).
  rewrite dec_digits_all by done. cbn [mbind option_bind]. rewrite Hlz.
  assert (match eat "." rest with Some s => dec_digits s | None => Some ([], rest) end = Some (fp, t)) as ->.
  { unfold rest. destruct fp as [|b fp]; [cbn [app]; by rewrite Hdot|]. cbn [app eat Byte.eqb].
    change (dec_digits ((b :: fp) ++ t) = Some (b :: fp, t)). by apply dec_digits_all. }
  cbn [mbind option_bind]. rewrite Hexp. cbn [mbind option_bind]. fold d e.
  rewrite (proj2 (Z.eqb_neq d 0)) by lia. rewrite (proj2 (Z.ltb_ge _ (-400))) by exact Hmag.
  rewrite Z.gtb_ltb, (proj2 (Z.ltb_ge 400 _)) by lia. done.
Qed.

Lemma spells_leads ds z : spells ds z → leading_zero ds = false ∧ ds ≠ [].
Proof.
  intros ((b & ds' & -> & Hb & Hz) & _). split; [|done]. destruct ds' as [|b' ds']; [done|]. simpl.
  destruct (Byte.eqb b "0") eqn:E; [|done]. by apply Byte.byte_dec_bl in E.
Qed.

Lemma ndigits_le z j : 0 < z < 10 ^ j → 0 ≤ j ≤ 2000 → ndigits z ≤ j.
Proof.
  intros Hz Hj. destruct (ndigits_bounds z) as (_ & Hlo & _).
  - split; [lia|]. eapply Z.lt_le_trans; [apply Hz|]. apply Z.pow_le_mono_r; lia.
  - assert (ndigits z - 1 < j); [|lia]. apply (Z.pow_lt_mono_r_iff 10); lia.
Qed.

Section format.
Context (neg : bool) (ds : bytes) (d sc : Z) (f : float64).
Hypotheses (Hspell : spells ds d) (Hf : f_of_decimal neg d sc = f)
  (Hdp : -330 ≤ Z.of_nat (length ds) + sc ≤ 321) (Hd : 0 < d)
  (Hlength : Z.of_nat (length ds) ≤ 400).

Let sign : bytes := if neg then ["-"%byte] else [].

Lemma reads_fmt_e w :
  Z.of_nat (length ds) + sc - 1 ≠ 0 →
  dec_number (sign ++ fmt_e w ds (Z.of_nat (length ds) + sc - 1)) = Some (ANum f, []).
Proof.
  intros Hx. destruct Hspell as ((b & fp & Eds & Hb) & Hds & Hval & Hlen).
  set (x := Z.of_nat (length ds) + sc - 1) in *.
  assert (fmt_e w ds x = [b] ++ (match fp with [] => [] | _ => "."%byte :: fp end) ++
    (["e"%byte; if x <? 0 then "-"%byte else "+"%byte] ++
     (let ex := digits (Z.abs x) in if Nat.ltb (length ex) w then "0"%byte :: ex else ex))) as ->
    by (unfold fmt_e; rewrite Eds; by destruct fp).
  rewrite Eds in Hds. apply Forall_cons in Hds as [Hbd Hfp].
  assert (length ds = S (length fp)) as El by (by rewrite Eds).
  apply (dec_number_parts neg [b] fp _ x f); [by constructor|done|done|done|done|done| |..].
  - apply dec_exponent_text. split; [lia|]. apply Z.le_lt_trans with 1000; [unfold x; lia|].
    apply Z.lt_trans with (10 ^ 4); [done|]. apply Z.pow_lt_mono_r; lia.
  - cbn [app]. rewrite <- Eds. lia.
  - cbn [app]. rewrite <- Eds. lia.
  - cbn [app]. rewrite <- Eds, Hval.
    assert (ndigits d ≤ Z.of_nat (length ds)); [|lia]. apply ndigits_le; lia.
  - cbn [app]. rewrite <- Eds, Hval, <- Hf. f_equal. lia.
Qed.

Lemma reads_fmt_f :
  Z.of_nat (length ds) + sc ≤ 21 →
  dec_number (sign ++ fmt_f ds (Z.of_nat (length ds) + sc)) = Some (ANum f, []).
Proof.
  intros Hdp'. pose proof (spells_leads ds d Hspell) as [Hlz Hne].
  destruct Hspell as ((b & fp & Eds & Hb) & Hds & Hval & Hlen).
  set (dp := Z.of_nat (length ds) + sc) in *.
  assert (ndigits d ≤ Z.of_nat (length ds)) as Hnd by (apply ndigits_le; lia).
  unfold fmt_f. destruct (Z.leb_spec dp 0) as [Hle|Hgt]; [|destruct (Z.leb_spec (Z.of_nat (length ds)) dp)].
  - set (z := replicate (Z.to_nat (- dp)) "0"%byte).
    assert (s2b "0." ++ z ++ ds = ["0"%byte] ++ (match z ++ ds with [] => [] | _ => "."%byte :: z ++ ds end) ++ [])
      as -> by (rewrite app_nil_r; destruct (z ++ ds) eqn:E; [|done]; by apply app_nil in E as [_ ->]).
    assert (digits_val (["0"%byte] ++ z ++ ds) = d) as Ed.
    { rewrite digits_val_app. change (digits_val ["0"%byte]) with 0.
      rewrite digits_val_app. unfold z. rewrite digits_val_zeros, Hval. lia. }
    assert (Z.of_nat (length (z ++ ds)) = - dp + Z.of_nat (length ds)) as El.
    { rewrite length_app. unfold z. rewrite length_replicate. lia. }
    apply (dec_number_parts neg ["0"%byte] (z ++ ds) [] 0 f); [by repeat constructor|done|done| |done..| | | |].
    + apply Forall_app. split; [|done]. unfold z. by apply Forall_replicate.
    + rewrite Ed. lia.
    + rewrite length_app, Nat2Z.inj_add, El. simpl. lia.
    + rewrite Ed, El. lia.
    + rewrite Ed, El, <- Hf. f_equal. lia.
  - set (z := replicate (Z.to_nat (dp - Z.of_nat (length ds))) "0"%byte).
    assert (length z = Z.to_nat (dp - Z.of_nat (length ds))) as El by apply length_replicate.
    assert (digits_val (ds ++ z) = d * 10 ^ sc) as Ed.
    { rewrite digits_val_app, Hval, El. unfold z. rewrite digits_val_zeros, Z2Nat.id by lia.
      rewrite Z.add_0_r. do 2 f_equal. lia. }
    pose proof (Z.pow_pos_nonneg 10 sc) as Hp.
    rewrite <- (app_nil_r (ds ++ z)). change (@nil byte) with ([] ++ @nil byte) at 1.
    apply (dec_number_parts neg (ds ++ z) [] [] 0 f); [| | |done..| | | |]; rewrite ?app_nil_r, ?Ed.
    + apply Forall_app. split; [done|]. unfold z. by apply Forall_replicate.
    + by rewrite Eds.
    + rewrite Eds in *. simpl. destruct (fp ++ z); [done|]. destruct Hb as [_ Hb].
      destruct (Byte.eqb b "0") eqn:E; [|done]. by apply Byte.byte_dec_bl in E.
    + nia.
    + rewrite length_app, El. simpl. lia.
    + simpl. assert (ndigits (d * 10 ^ sc) ≤ dp); [|lia]. apply ndigits_le; [|lia].
      split; [nia|]. unfold dp. rewrite Z.pow_add_r by lia. nia.
    + simpl. rewrite f_of_decimal_shift by lia. by rewrite Z.add_0_l.
  - assert (drop (Z.to_nat dp) ds ≠ []) as Hdrop.
    { intros E. apply (f_equal length) in E. rewrite length_drop in E. simpl in E. lia. }
    assert (take (Z.to_nat dp) ds ++ "."%byte :: drop (Z.to_nat dp) ds =
      take (Z.to_nat dp) ds ++ (match drop (Z.to_nat dp) ds with [] => [] | _ => "."%byte :: drop (Z.to_nat dp) ds end) ++ [])
      as -> by (rewrite app_nil_r; by destruct (drop (Z.to_nat dp) ds)).
    apply (dec_number_parts neg _ (drop (Z.to_nat dp) ds) [] 0 f); rewrite ?take_drop, ?length_drop, ?Hval.
    + by apply Forall_take.
    + intros E. apply (f_equal length) in E. rewrite length_take in E. rewrite Eds in E. simpl in E. lia.
    + rewrite Eds in *. destruct (Z.to_nat dp) as [|n] eqn:En; [lia|]. simpl.
      simpl in Hlz. destruct fp as [|b' fp]; [by destruct n|]. simpl in Hlz. by destruct n.
    + by apply Forall_drop.
    + done.
    + done.
    + done.
    + lia.
    + lia.
    + lia.
    + rewrite <- Hf. f_equal. lia.
Qed.
End format.

(** Only the sign of the result depends on the sign. *)
Definition with_sign (neg : bool) (f : float64) : float64 :=
  match f with
  | S754_zero _ => S754_zero neg
  | S754_infinity _ => S754_infinity neg
  | S754_finite _ m e => S754_finite neg m e
  | S754_nan => S754_nan
  end.

Lemma round_aux_sign neg m e l :
  binary_round_aux prec64 emax64 neg m e l = with_sign neg (binary_round_aux prec64 emax64 false m e l).
Proof.
  unfold binary_round_aux. destruct (shr_fexp _ _ m e l) as [r e'].
  destruct (shr_fexp _ _ _ e' _) as [r' e'']. destruct (shr_m r'); [done| |done].
  by destruct (IntDef.Z.leb _ _).
Qed.

Lemma f_of_decimal_sign neg d s : f_of_decimal neg d s = with_sign neg (f_of_decimal false d s).
Proof.
  unfold f_of_decimal. destruct d as [|p|p]; try done. destruct (0 <=? s).
  - destruct (Zpos p * 10 ^ s) as [|q|q]; try done. unfold binary_round.
    destruct (shl_align _ _ _). apply round_aux_sign.
  - destruct (SFdiv_core_binary _ _ _ _ _ _) as [[m x] l]. apply round_aux_sign.
Qed.

(** The floats that exist. *)
Definition valid_float (f : float64) : bool := valid_binary prec64 emax64 f && is_finite f.

(** encoding/json prints a finite float as a number that reads back as it. *)
Lemma format_json_reads f :
  valid_float f = true → ∃ bs, format_json f = Some bs ∧ dec_number bs = Some (ANum f, []).
Proof.
  unfold valid_float. intros [Hv Hfin]%andb_prop. destruct f as [s|s| |s m e]; try done.
  { eexists. split; [done|]. by destruct s; vm_compute. }
  apply bounded_range in Hv. unfold format_json. destruct (shortest m e) as [d sc] eqn:Es.
  destruct (shortest_spec m e d sc Hv Es) as ([Hd0 Hd1] & Hf & Hdp).
  assert (10 ^ 17 < 10 ^ 400) as Hbig by (apply Z.pow_lt_mono_r; lia).
  pose proof (digits_spells d ltac:(lia)) as Hspell. pose proof Hspell as ((b & fp & Eds & _) & _ & _ & Hlen).
  assert (1 ≤ Z.of_nat (length (digits d))) as Hl1 by (rewrite Eds; simpl; lia).
  specialize (Hdp _ Hlen Hl1).
  assert (Z.of_nat (length (digits d)) ≤ 400) as Hl.
  { assert (Z.of_nat (length (digits d)) - 1 < 18); [|lia]. apply (Z.pow_lt_mono_r_iff 10); [lia|lia|].
    eapply Z.le_lt_trans; [apply Hlen|]. apply Z.le_lt_trans with (1 := Hd1). done. }
  assert (f_of_decimal s d sc = S754_finite s m e) as Hfs by (by rewrite f_of_decimal_sign, Hf).
  eexists. split; [done|]. set (n := Z.of_nat (length (digits d))) in *.
  destruct (_ || _) eqn:Ecase.
  - apply (reads_fmt_e s (digits d) d sc _ Hspell Hfs Hdp Hd0 Hl). fold n.
    apply orb_prop in Ecase as [H%Z.ltb_lt|H%Z.leb_le]; lia.
  - apply orb_false_iff in Ecase as [_ H%Z.leb_gt].
    apply (reads_fmt_f s (digits d) d sc _ Hspell Hfs Hdp Hd0 Hl). fold n. lia.
Qed.
