(* ===== verification/FloatOrder.v ===== *)
(** Rounding respects the order: the sums, differences and quotients of
    non-negative binary64 numbers that the scorers compute are the exact results
    rounded to nearest, and rounding is monotone. *)

From Corelib Require Import SpecFloat.
From S2P Require Import Prelude GoFloat Decimals.

Local Open Scope Z_scope.

(** ** What a float rounds *)

(** The float of a rounded mantissa at an exponent. *)
Definition of_rounded (M F : Z) : float64 :=
  if M =? 2 ^ 53 then if F + 1 <=? 971 then S754_finite false (2 ^ 52)%positive (F + 1) else S754_infinity false
  else match M with
       | Zpos m => if F <=? 971 then S754_finite false m F else S754_infinity false
       | _ => S754_zero false
       end.

Definition rne (P Q : Z) : Z := round_nearest_even (P / Q) (place (P mod Q) Q).

(** [f] is [V / W], in units of [2^-1074], rounded. *)
Definition rounded (V W : Z) (f : float64) : Prop :=
  ∃ P Q F, 0 ≤ P ∧ 0 < Q ∧ canonical (P / Q) F ∧ P * W * 2 ^ (F + 1074) = V * Q ∧ f = of_rounded (rne P Q) F.

Lemma rne_range P Q F : 0 ≤ P → 0 < Q → canonical (P / Q) F →
  0 ≤ rne P Q ≤ 2 ^ 53 ∧ (-1074 < F → 2 ^ 52 ≤ rne P Q).
Proof.
  intros HP HQ (HF & Hlt & Hge). pose proof (rne_bounds P Q HQ). pose proof (Z.div_pos P Q HP HQ).
  unfold rne. split; [lia|]. intros H'. specialize (Hge H'). lia.
Qed.

Lemma rne_mono P Q P' Q' : 0 < Q → 0 < Q' → P * Q' ≤ P' * Q → rne P Q ≤ rne P' Q'.
Proof.
  intros HQ HQ' Hle. unfold rne.
  pose proof (rne_bounds P Q HQ) as Hb. pose proof (rne_bounds P' Q' HQ') as Hb'.
  pose proof (Z.div_mod P Q) as Hd. pose proof (Z.div_mod P' Q') as Hd'.
  pose proof (Z.mod_pos_bound P Q HQ) as Hr. pose proof (Z.mod_pos_bound P' Q' HQ') as Hr'.
  assert (P / Q ≤ P' / Q') as Hq.
  { apply Z.div_le_lower_bound; [done|]. assert (Q' * (P / Q) * Q ≤ P' * Q); [|nia]. nia. }
  destruct (Z.eq_dec (P / Q) (P' / Q')) as [E|Hne]; [|lia].
  rewrite <- E in *. assert ((P mod Q) * Q' ≤ (P' mod Q') * Q) as Hrr by nia.
  set (q := P / Q) in *. set (r := P mod Q) in *. set (r' := P' mod Q') in *. clearbody q r r'.
  unfold place in *. destruct (Z.eqb_spec r 0) as [Er|Hr0]; [simpl in *; lia|].
  destruct (Z.eqb_spec r' 0) as [Er'|Hr0']; [nia|]. simpl in *. stdlib_z.
  destruct (Z.compare_spec (2 * r) Q), (Z.compare_spec (2 * r') Q'); try lia; try nia.
Qed.

Lemma canonical_mono P Q E P' Q' E' :
  0 < Q → 0 < Q' → canonical (P / Q) E → canonical (P' / Q') E' →
  P' * Q * 2 ^ (E' + 1074) ≤ P * Q' * 2 ^ (E + 1074) → E' ≤ E.
Proof.
  intros HQ HQ' (HE & HM & _) (HE' & _ & HM') Hv. apply Z.nlt_ge. intros Hlt.
  apply quotient_bounds in HM; [|done]. specialize (HM' ltac:(lia)).
  apply quotient_bounds in HM'; [|done].
  replace (E' + 1074) with ((E' - E) + (E + 1074)) in Hv by lia.
  rewrite (Z.pow_add_r 2 (E' - E)) in Hv by lia.
  pose proof (Z.pow_pos_nonneg 2 (E + 1074)). set (u := 2 ^ (E + 1074)) in *.
  assert (2 ^ 1 ≤ 2 ^ (E' - E)) as Hk by (apply Z.pow_le_mono_r; lia). change (2 ^ 1) with 2 in Hk.
  set (K := 2 ^ (E' - E)) in *.
  assert (P' * Q * K ≤ P * Q') as Hv' by (apply (Z.mul_le_mono_pos_r _ _ u); lia).
  change (2 ^ 53) with 9007199254740992 in *. change (2 ^ 52) with 4503599627370496 in *.
  assert (P * Q' < 9007199254740992 * Q * Q') by nia.
  assert (4503599627370496 * Q' * Q * 2 ≤ P' * Q * K); [|nia].
  apply Z.mul_le_mono_nonneg; nia.
Qed.

(** The keys of [GoFloat] compare the result. *)
Lemma of_rounded_key M F :
  0 ≤ M ≤ 2 ^ 53 →
  is_nan (of_rounded M F) = false ∧
  fkey (of_rounded M F) =
    if M =? 2 ^ 53 then if F + 1 <=? 971 then (1, F + 1, 2 ^ 52) else (2, 0, 0)
    else if M =? 0 then (0, 0, 0) else if F <=? 971 then (1, F, M) else (2, 0, 0).
Proof.
  intros HM. unfold of_rounded. destruct (Z.eqb_spec M (2 ^ 53)).
  - by destruct (_ <=? _).
  - destruct M as [|m|m]; [done| |lia]. by destruct (_ <=? _).
Qed.

Lemma of_rounded_mono M F M' F' :
  0 ≤ M ≤ 2 ^ 53 → 0 ≤ M' ≤ 2 ^ 53 → -1074 ≤ F → (-1074 < F' → 2 ^ 52 ≤ M') →
  F < F' ∨ F = F' ∧ M ≤ M' → fle (of_rounded M F) (of_rounded M' F') = true.
Proof.
  intros HM HM' HF Hn Hle. apply fle_key. destruct (of_rounded_key M F HM) as [H1 ->].
  destruct (of_rounded_key M' F' HM') as [H2 ->]. split_and!; [done..|]. unfold lex_lt.
  change (2 ^ 53) with 9007199254740992 in *. change (2 ^ 52) with 4503599627370496 in *.
  destruct (Z.eqb_spec M 9007199254740992), (Z.eqb_spec M' 9007199254740992), (Z.eqb_spec M 0), (Z.eqb_spec M' 0),
    (Z.leb_spec (F + 1) 971), (Z.leb_spec (F' + 1) 971), (Z.leb_spec F 971), (Z.leb_spec F' 971); simpl; lia.
Qed.

Lemma rounded_mono V W f V' W' f' :
  0 < W → 0 < W' → rounded V W f → rounded V' W' f' → V * W' ≤ V' * W → fle f f' = true.
Proof.
  intros HW HW' (P & Q & F & HP & HQ & Hc & Hv & ->) (P' & Q' & F' & HP' & HQ' & Hc' & Hv' & ->) Hle.
  destruct (rne_range P Q F HP HQ Hc) as [Hr _]. destruct (rne_range P' Q' F' HP' HQ' Hc') as [Hr' Hn'].
  assert (P * Q' * 2 ^ (F + 1074) ≤ P' * Q * 2 ^ (F' + 1074)) as Hpq.
  { apply (Z.mul_le_mono_pos_r _ _ (W * W')); [nia|].
    transitivity ((V * Q) * (Q' * W')); [rewrite <- Hv; lia|].
    transitivity ((V' * Q') * (Q * W)); [|rewrite <- Hv'; lia].
    transitivity ((V * W') * (Q * Q')); [lia|]. transitivity ((V' * W) * (Q * Q')); [|lia].
    apply Z.mul_le_mono_nonneg_r; [nia|done]. }
  pose proof (canonical_mono P' Q' F' P Q F HQ' HQ Hc' Hc Hpq) as HF.
  destruct Hc as [HF0 _]. apply of_rounded_mono; [done..|].
  destruct (Z.eq_dec F F') as [<- | Hne]; [right|left; lia]. split; [done|]. apply rne_mono; [done..|].
  apply (Z.mul_le_mono_pos_r _ _ (2 ^ (F + 1074))); [apply Z.pow_pos_nonneg; lia|done].
Qed.

Lemma rounded_finite m e :
  float_range (Zpos m) e → rounded (Zpos m * 2 ^ (e + 1074)) 1 (S754_finite false m e).
Proof.
  intros ((Hm & Hm') & He & Hn). exists (Zpos m), 1, e. unfold canonical, rne. rewrite Z.div_1_r, Z.mod_1_r.
  split_and!; [lia|lia|lia|done|done|lia|]. simpl round_nearest_even. unfold of_rounded.
  rewrite (proj2 (Z.eqb_neq _ _)) by lia. by rewrite (proj2 (Z.leb_le _ _)) by lia.
Qed.

Lemma rounded_zero W : 0 < W → rounded 0 W f0.
Proof. intros HW. exists 0, 1, (-1074). split_and!; [lia|lia|by vm_compute|done|done]. Qed.

(** What [binary_round_aux] computes, from a quotient at any exponent: [k] only
    has to be large enough. *)
Lemma aux_rounded k X Y E V W :
  1074 ≤ k → 0 ≤ X → 0 < Y → - k ≤ E → E ≤ fexp64 (Zdigits2 (X / Y) + E) →
  X * W * 2 ^ (E + k) = V * 2 ^ (k - 1074) * Y →
  rounded V W (binary_round_aux prec64 emax64 false (X / Y) E (place (X mod Y) Y)).
Proof.
  intros Hk HX HY HE Hf Hv. unfold binary_round_aux.
  destruct (shr_fexp_locate X Y E HX HY Hf) as (n & Hn & -> & Hc). pose proof Hc as (HF & _ & _).
  rewrite shr_m_locate, loc_of_locate. pose proof (Z.pow_pos_nonneg 2 n).
  assert (0 < 2 ^ n * Y) as HQ by nia. exists X, (2 ^ n * Y), (E + n). set (Q := 2 ^ n * Y) in *.
  destruct (rne_range X Q (E + n) HX HQ Hc) as [Hr _]. fold (rne X Q). split_and!; [done..| |].
  - assert (0 < 2 ^ (k - 1074)) as Hp by (apply Z.pow_pos_nonneg; lia).
    apply (Z.mul_cancel_r _ _ (2 ^ (k - 1074))); [lia|].
    rewrite <- Z.mul_assoc, <- Z.pow_add_r by lia.
    replace (E + n + 1074 + (k - 1074)) with (n + (E + k)) by lia. rewrite Z.pow_add_r by lia.
    transitivity (2 ^ n * (X * W * 2 ^ (E + k))); [ring|]. rewrite Hv. unfold Q. ring.
  - unfold of_rounded. destruct (Z.eqb_spec (rne X Q) (2 ^ 53)) as [-> | Hne].
    + rewrite shr_fexp_carry by lia. reflexivity.
    + rewrite shr_fexp_rounded by lia. cbn [shr_m]. destruct (rne X Q); [done|done|lia].
Qed.

(** The quotient of two integers has at least the difference of their digits. *)
Lemma digits_quotient N D : 0 < N → 0 < D → Zdigits2 D + 1 ≤ Zdigits2 N →
  Zdigits2 N - Zdigits2 D ≤ Zdigits2 (N / D).
Proof.
  intros HN HD Hd. destruct (Zdigits2_bounds N HN) as [Hlo _]. destruct (Zdigits2_bounds D HD) as [_ Hhi].
  pose proof (Zdigits2_nonneg D). set (k := Zdigits2 N - 1 - Zdigits2 D).
  assert (2 ^ k ≤ N / D) as HM.
  { apply quotient_bounds; [done|]. transitivity (2 ^ k * 2 ^ Zdigits2 D); [apply Z.mul_le_mono_nonneg_l; lia|].
    rewrite <- Z.pow_add_r by lia. by replace (k + Zdigits2 D) with (Zdigits2 N - 1) by lia. }
  pose proof (Z.pow_pos_nonneg 2 k) as Hp. destruct (Zdigits2_bounds (N / D)) as [_ Hh]; [lia|].
  assert (k < Zdigits2 (N / D)); [|lia]. apply (Z.pow_lt_mono_r_iff 2); [lia| |lia]. apply Zdigits2_nonneg. lia.
Qed.

Lemma Zdigits2_shift m k : 0 < m → 0 ≤ k → Zdigits2 (m * 2 ^ k) = Zdigits2 m + k.
Proof.
  intros Hm Hk. pose proof (Z.pow_pos_nonneg 2 k).
  destruct (Zdigits2_bounds m Hm) as [H1 H2]. destruct (Zdigits2_bounds (m * 2 ^ k)) as [H3 H4]; [nia|].
  assert (0 < Zdigits2 m) by (destruct m; simpl; lia).
  assert (Zdigits2 m + k - 1 < Zdigits2 (m * 2 ^ k)).
  { apply (Z.pow_lt_mono_r_iff 2); [lia|apply Zdigits2_nonneg; nia|]. eapply Z.le_lt_trans; [|exact H4].
    replace (Zdigits2 m + k - 1) with ((Zdigits2 m - 1) + k) by lia. rewrite Z.pow_add_r by lia.
    apply Z.mul_le_mono_nonneg_r; lia. }
  assert (Zdigits2 (m * 2 ^ k) - 1 < Zdigits2 m + k); [|lia].
  apply (Z.pow_lt_mono_r_iff 2); [lia|lia|]. eapply Z.le_lt_trans; [exact H3|].
  rewrite Z.pow_add_r by lia. apply Z.mul_lt_mono_pos_r; lia.
Qed.

Lemma rounded_fdiv m e m' e' :
  float_range (Zpos m) e → float_range (Zpos m') e' →
  rounded (Zpos m * 2 ^ (e + 1074) * 2 ^ 1074) (Zpos m' * 2 ^ (e' + 1074))
    (fdiv (S754_finite false m e) (S754_finite false m' e')).
Proof.
  intros (Hm & He & _) (Hm' & He' & _).
  unfold fdiv, SFdiv, SFdiv_core_binary. stdlib_z. set (E := Z.min _ _).
  assert (-2045 ≤ E ≤ e - e') as HE by (unfold E; rewrite fexp64_eq; lia).
  assert (match e - e' - E with 0 => Zpos m | Zpos _ => Z.shiftl (Zpos m) (e - e' - E) | Zneg _ => 0 end =
    Zpos m * 2 ^ (e - e' - E)) as ->.
  { destruct (e - e' - E) as [|k|k] eqn:Ek; [simpl; lia| |lia]. by rewrite Z.shiftl_mul_pow2 by lia. }
  pose proof (Z.pow_pos_nonneg 2 (e - e' - E)) as Hp.
  assert (Z.div_eucl (Zpos m * 2 ^ (e - e' - E)) (Zpos m') =
    (Zpos m * 2 ^ (e - e' - E) / Zpos m', Zpos m * 2 ^ (e - e' - E) mod Zpos m')) as Hde.
  { unfold Z.div, Z.modulo. by destruct (Z.div_eucl _ _). }
  change (IntDef.Z.div_eucl) with Z.div_eucl. rewrite Hde, place_new_location. simpl xorb.
  apply (aux_rounded 2045); [lia|lia|lia|lia| |].
  - rewrite fexp64_eq. destruct (Z.le_gt_cases E (-1074)) as [|Hgt]; [lia|].
    assert (E ≤ Zdigits2 (Zpos m) + e - (Zdigits2 (Zpos m') + e') - 53)
      by (unfold E in *; rewrite fexp64_eq in *; lia).
    pose proof (digits_quotient (Zpos m * 2 ^ (e - e' - E)) (Zpos m')) as Hq.
    rewrite Zdigits2_shift in Hq by lia. specialize (Hq ltac:(lia) ltac:(lia) ltac:(lia)). lia.
  - transitivity (Zpos m * Zpos m' * (2 ^ (e - e' - E) * 2 ^ (e' + 1074) * 2 ^ (E + 2045))); [ring|].
    transitivity (Zpos m * Zpos m' * (2 ^ (e + 1074) * 2 ^ 1074 * 2 ^ (2045 - 1074))); [|ring].
    f_equal. rewrite <- !Z.pow_add_r by lia. f_equal. lia.
Qed.

Lemma shl_align_at p e E :
  ∃ q ez, shl_align p e E = (q, ez) ∧ ez = Z.min e E ∧ Zpos q = Zpos p * 2 ^ (e - ez).
Proof.
  unfold shl_align. stdlib_z. destruct (E - e) as [|k|k] eqn:Ek.
  - exists p, e. split_and!; [done|lia|]. rewrite Z.sub_diag. lia.
  - exists p, e. split_and!; [done|lia|]. rewrite Z.sub_diag. lia.
  - exists (Pos.iter xO p k), E. split_and!; [done|lia|]. replace (e - E) with (Zpos k) by lia. clear.
    induction k as [|k IH] using Pos.peano_ind; [simpl; lia|].
    rewrite Pos.iter_succ, Pos2Z.inj_succ, Z.pow_succ_r by lia. rewrite Pos2Z.inj_xO, IH. lia.
Qed.

Lemma rounded_binary_round p e :
  -1074 ≤ e → rounded (Zpos p * 2 ^ (e + 1074)) 1 (binary_round prec64 emax64 false p e).
Proof.
  intros He. unfold binary_round. stdlib_z.
  destruct (shl_align_at p e (fexp64 (Zpos (digits2_pos p) + e))) as (q & ez & -> & Ez & Hq).
  rewrite fexp64_eq in Ez.
  replace (binary_round_aux prec64 emax64 false (Zpos q) ez loc_Exact)
    with (binary_round_aux prec64 emax64 false (Zpos q / 1) ez (place (Zpos q mod 1) 1))
    by (by rewrite Z.div_1_r, Z.mod_1_r).
  apply (aux_rounded 1074); [lia|lia|lia|lia| |].
  - rewrite Z.div_1_r, Hq, Zdigits2_shift by lia. rewrite fexp64_eq. simpl Zdigits2. lia.
  - change (2 ^ (1074 - 1074)) with 1. rewrite Hq, !Z.mul_1_r, <- Z.mul_assoc, <- Z.pow_add_r by lia. do 2 f_equal. lia.
Qed.

(** ** Amounts: the finite numbers that are not negative *)

Definition amount (f : float64) : Prop :=
  match f with
  | S754_zero false => True
  | S754_finite false m e => float_range (Zpos m) e
  | _ => False
  end.

(** An amount in units of [2^-1074], of which every amount is a multiple. *)
Definition units (f : float64) : Z :=
  match f with S754_finite false m e => Zpos m * 2 ^ (e + 1074) | _ => 0 end.

Lemma amount_rounded f : amount f → rounded (units f) 1 f.
Proof.
  destruct f as [[]|[]| |[] m e]; try done; intros Hf; [by apply rounded_zero|by apply rounded_finite].
Qed.

Lemma amount_f0 : amount f0 ∧ units f0 = 0. Proof. done. Qed.

Lemma amount_f1 : amount f1 ∧ units f1 = 2 ^ 1074.
Proof. split; [|by vm_compute]. vm_compute. by intuition. Qed.

Lemma units_nonneg f : amount f → 0 ≤ units f.
Proof.
  destruct f as [[]|[]| |[] m e]; try done. simpl. intros (_ & He & _).
  pose proof (Z.pow_pos_nonneg 2 (e + 1074)). lia.
Qed.

Lemma units_pos f : amount f → feq f f0 = false → 0 < units f.
Proof.
  destruct f as [[]|[]| |[] m e]; try done. simpl. intros (_ & He & _) _.
  pose proof (Z.pow_pos_nonneg 2 (e + 1074)). lia.
Qed.

Lemma amount_not_nan f : amount f → is_nan f = false.
Proof. by destruct f as [[]|[]| |[] m e]. Qed.

Lemma rounded_amount V W f : rounded V W f → amount f ∨ f = S754_infinity false.
Proof.
  intros (P & Q & F & HP & HQ & Hc & _ & ->). destruct (rne_range P Q F HP HQ Hc) as [Hr Hn].
  destruct Hc as [HF _]. unfold of_rounded. destruct (Z.eqb_spec (rne P Q) (2 ^ 53)).
  - destruct (Z.leb_spec (F + 1) 971); [left|by right]. unfold amount, float_range. split_and!; [done|done|lia|lia|done].
  - destruct (rne P Q) as [|m|m]; [by left| |lia]. destruct (Z.leb_spec F 971); [left|by right].
    unfold amount, float_range. split_and!; lia.
Qed.

Lemma fle_units f g : amount f → amount g → fle f g = true ↔ units f ≤ units g.
Proof.
  intros Hf Hg. pose proof (amount_rounded f Hf) as Rf. pose proof (amount_rounded g Hg) as Rg. split.
  - intros Hle. apply Z.nlt_ge. intros Hlt.
    assert (fle g f = true) as Hle' by (eapply rounded_mono; [..|exact Rg|exact Rf|]; lia).
    apply fle_key in Hle as (_ & _ & H1). apply fle_key in Hle' as (_ & _ & H2). unfold lex_lt in *.
    assert (f = g) as ->; [|lia].
    destruct f as [[]|[]| |[] m e]; try done; destruct g as [[]|[]| |[] m' e']; try done; simpl in *; try lia.
    f_equal; lia.
  - intros Hle. eapply rounded_mono; [..|exact Rf|exact Rg|]; lia.
Qed.

(** ** The operations round their exact results *)

Lemma units_align m e k : -1074 ≤ k ≤ e → Zpos m * 2 ^ (e + 1074) = Zpos m * 2 ^ (e - k) * 2 ^ (k + 1074).
Proof. intros Hk. rewrite <- Z.mul_assoc, <- Z.pow_add_r by lia. do 2 f_equal. lia. Qed.

Lemma fadd_rounded a b : amount a → amount b → rounded (units a + units b) 1 (fadd a b).
Proof.
  intros Ha Hb. destruct a as [[]|[]| |[] m e]; try done; destruct b as [[]|[]| |[] m' e']; try done.
  - by apply rounded_zero.
  - by apply (amount_rounded (S754_finite false m' e')).
  - simpl units. rewrite Z.add_0_r. by apply (amount_rounded (S754_finite false m e)).
  - destruct Ha as (_ & He & _), Hb as (_ & He' & _). unfold fadd, SFadd. stdlib_z. cbn [cond_Zopp].
    destruct (shl_align_at m e (Z.min e e')) as (q & ez & -> & Ez & Hq).
    destruct (shl_align_at m' e' (Z.min e e')) as (q' & ez' & -> & Ez' & Hq'). cbn [fst].
    replace ez with (Z.min e e') in * by lia. replace ez' with (Z.min e e') in * by lia. set (k := Z.min e e') in *.
    replace (units (S754_finite false m e) + units (S754_finite false m' e'))
      with (Zpos (q + q') * 2 ^ (k + 1074)).
    + apply rounded_binary_round. lia.
    + simpl units. rewrite (units_align m e k), (units_align m' e' k), <- Hq, <- Hq' by lia.
      rewrite Pos2Z.inj_add. lia.
Qed.

Lemma fsub_rounded a b : amount a → amount b → units b ≤ units a → rounded (units a - units b) 1 (fsub a b).
Proof.
  intros Ha Hb Hle. destruct b as [[]|[]| |[] m' e']; try done.
  - simpl units. rewrite Z.sub_0_r. replace (fsub a (S754_zero false)) with a.
    + by apply amount_rounded.
    + by destruct a as [[]|[]| |[] m e].
  - destruct a as [[]|[]| |[] m e]; try done.
    { pose proof (units_pos _ Hb eq_refl). simpl in *. lia. }
    destruct Ha as (_ & He & _), Hb as (_ & He' & _). unfold fsub, SFsub. stdlib_z. cbn [cond_Zopp].
    destruct (shl_align_at m e (Z.min e e')) as (q & ez & -> & Ez & Hq).
    destruct (shl_align_at m' e' (Z.min e e')) as (q' & ez' & -> & Ez' & Hq'). cbn [fst].
    replace ez with (Z.min e e') in * by lia. replace ez' with (Z.min e e') in * by lia. set (k := Z.min e e') in *.
    assert (units (S754_finite false m e) - units (S754_finite false m' e') = (Zpos q - Zpos q') * 2 ^ (k + 1074)) as Hd.
    { simpl units. rewrite (units_align m e k), (units_align m' e' k), <- Hq, <- Hq' by lia. lia. }
    rewrite Hd. assert (0 ≤ Zpos q - Zpos q') as Hp.
    { pose proof (Z.pow_pos_nonneg 2 (k + 1074)). nia. }
    destruct (Zpos q - Zpos q') as [|p|p] eqn:Ep; [|apply rounded_binary_round; lia|lia].
    by apply rounded_zero.
Qed.

Lemma fdiv_rounded a b : amount a → amount b → 0 < units b → rounded (units a * 2 ^ 1074) (units b) (fdiv a b).
Proof.
  intros Ha Hb Hpos. destruct b as [[]|[]| |[] m' e']; try done.
  destruct a as [[]|[]| |[] m e]; try done; [by apply rounded_zero|by apply rounded_fdiv].
Qed.

Lemma rounded_below V W f b : 0 < W → rounded V W f → amount b → V ≤ units b * W → amount f ∧ units f ≤ units b.
Proof.
  intros HW Hr Hb Hle. assert (fle f b = true) as Hfb.
  { eapply rounded_mono; [exact HW| |exact Hr|by apply amount_rounded|]; lia. }
  destruct (rounded_amount _ _ _ Hr) as [Hf| ->]; [split; [done|by apply fle_units]|].
  by destruct b as [[]|[]| |[] m e].
Qed.

(** A part of a whole is between 0 and 1, and a greater part is greater. *)
Lemma fdiv_share a b : amount a → amount b → 0 < units b → units a ≤ units b →
  amount (fdiv a b) ∧ units (fdiv a b) ≤ units f1.
Proof.
  intros Ha Hb Hpos Hle. destruct amount_f1 as [H1 E1].
  apply (rounded_below (units a * 2 ^ 1074) (units b)); [done|by apply fdiv_rounded|done|].
  rewrite E1, Z.mul_comm. by apply Z.mul_le_mono_nonneg_l.
Qed.

Lemma fdiv_mono a a' b : amount a → amount a' → amount b → 0 < units b → units a ≤ units a' →
  fle (fdiv a b) (fdiv a' b) = true.
Proof.
  intros Ha Ha' Hb Hpos Hle.
  eapply rounded_mono; [exact Hpos|exact Hpos|by apply fdiv_rounded|by apply fdiv_rounded|].
  apply Z.mul_le_mono_nonneg_r; [lia|]. apply Z.mul_le_mono_nonneg_r; [|done]. by apply Z.pow_nonneg.
Qed.

Lemma fsub_share r : amount r → units r ≤ units f1 → amount (fsub f1 r) ∧ units (fsub f1 r) ≤ units f1.
Proof.
  intros Hr Hle. destruct amount_f1 as [H1 _]. pose proof (units_nonneg r Hr).
  apply (rounded_below (units f1 - units r) 1); [done|by apply fsub_rounded|done|lia].
Qed.

Lemma fsub_mono r r' : amount r → amount r' → units r ≤ units r' → units r' ≤ units f1 →
  fle (fsub f1 r') (fsub f1 r) = true.
Proof.
  intros Hr Hr' Hle H1. destruct amount_f1 as [Hf1 _].
  eapply (rounded_mono (units f1 - units r') 1 _ (units f1 - units r) 1);
    [done|done|apply fsub_rounded; (done || lia)|apply fsub_rounded; (done || lia)|lia].
Qed.

(** A sum of amounts is at least each of them, also when it overflows. *)
Lemma fadd_above a b :
  amount b → amount a ∨ a = S754_infinity false →
  (amount (fadd a b) ∨ fadd a b = S754_infinity false) ∧ fle a (fadd a b) = true ∧ fle b (fadd a b) = true.
Proof.
  intros Hb [Ha| ->].
  - pose proof (fadd_rounded a b Ha Hb) as Hr. pose proof (units_nonneg a Ha). pose proof (units_nonneg b Hb).
    split_and!; [by eapply rounded_amount| |].
    + eapply rounded_mono; [..|by apply amount_rounded|exact Hr|]; lia.
    + eapply rounded_mono; [..|by apply amount_rounded|exact Hr|]; lia.
  - replace (fadd (S754_infinity false) b) with (S754_infinity false) by (by destruct b as [[]|[]| |[] m e]).
    split_and!; [by right|done|]. by destruct b as [[]|[]| |[] m e].
Qed.

(** Integers. *)
Lemma f_of_Z_rounded z : 0 ≤ z → rounded (z * 2 ^ 1074) 1 (f_of_Z z).
Proof.
  intros Hz. unfold f_of_Z, binary_normalize. destruct z as [|p|p]; [by apply rounded_zero| |lia].
  apply (rounded_binary_round p 0). lia.
Qed.

Lemma f_of_Z_amount z : 0 ≤ z ≤ max_int64 → amount (f_of_Z z).
Proof.
  intros Hz. destruct (rounded_below (z * 2 ^ 1074) 1 (f_of_Z z) (f_of_Z (2 ^ 63))); [done| | | |done].
  - apply f_of_Z_rounded. lia.
  - vm_compute. intuition discriminate.
  - replace (units (f_of_Z (2 ^ 63))) with (2 ^ 63 * 2 ^ 1074) by (by vm_compute).
    rewrite Z.mul_1_r. apply Z.mul_le_mono_nonneg_r; [by apply Z.pow_nonneg|]. unfold max_int64, two63 in Hz. lia.
Qed.

Lemma f_of_Z_mono z z' : 0 ≤ z ≤ z' → z' ≤ max_int64 → units (f_of_Z z) ≤ units (f_of_Z z').
Proof.
  intros Hz Hz'. apply fle_units; [apply f_of_Z_amount; lia|apply f_of_Z_amount; lia|].
  eapply rounded_mono; [..|apply f_of_Z_rounded; lia|apply f_of_Z_rounded; lia|]; [lia|lia|].
  rewrite !Z.mul_1_r. apply Z.mul_le_mono_nonneg_r; [by apply Z.pow_nonneg|lia].
Qed.

Lemma f_of_Z_pos z : 0 < z ≤ max_int64 → 0 < units (f_of_Z z).
Proof.
  intros Hz. eapply Z.lt_le_trans; [|apply (f_of_Z_mono 1 z); lia]. by vm_compute.
Qed.
