(* ===== verification/JsonProofs.v ===== *)
(** encoding/json as [GoValue] models it: the decoder's fuel is enough for any
    input, and what the encoder prints decodes to the value it was given. *)

From Stdlib Require Import Strings.Byte String.
From S2P Require Import Prelude GoFloat GoValue Decimals.

Local Open Scope string_scope.
Local Open Scope list_scope.
Local Open Scope nat_scope.

(** ** The decoder consumes its input *)

(** [s'] is a proper suffix of [s], as far as lengths tell. *)
Definition shorter (s' s : bytes) : Prop := length s' < length s.

Create HintDb json discriminated.

(** Opens the binds of a decoder that returned. *)
Ltac inv_some H :=
  repeat match type of H with
  | mbind _ _ = Some _ => apply bind_Some in H; destruct H as (? & ? & H)
  end.

Lemma eat_shorter c s s' : eat c s = Some s' → shorter s' s.
Proof. unfold shorter. destruct s as [|b s]; simpl; [done|]. destruct (Byte.eqb b c); [|done]. intros [= ->]. lia. Qed.

Lemma skip_ws_length s : length (skip_ws s) ≤ length s.
Proof. induction s as [|b s IH]; simpl; [done|]. case_bool_decide; simpl; lia. Qed.

Lemma eat_skip_ws c s s' : eat c (skip_ws s) = Some s' → shorter s' s.
Proof. intros H%eat_shorter. pose proof (skip_ws_length s). unfold shorter in *. lia. Qed.

Lemma hex4_shorter s u s' : hex4 s = Some (u, s') → shorter s' s.
Proof.
  unfold hex4, shorter. destruct s as [|a [|b [|c [|d s]]]]; try done. intros H. inv_some H.
  injection H as _ ->. simpl. lia.
Qed.

Lemma dec_u_length u s r s' : dec_u u s = (r, s') → length s' ≤ length s.
Proof.
  unfold dec_u. destruct (_ && _); [|intros [= _ <-]; lia].
  destruct (eat "\" s ≫= _) as [[v s1]|] eqn:E; [|intros [= _ <-]; lia].
  apply bind_Some in E as (s2 & H2 & (s3 & H3 & H1)%bind_Some).
  apply eat_shorter in H2, H3. apply hex4_shorter in H1. unfold shorter in *.
  destruct (_ && _); intros [= _ <-]; lia.
Qed.

Lemma escaped_rest c s r s' : escaped c s = PText r s' → s' = s.
Proof. unfold escaped. repeat (case_match; [by intros [= _ ->]|]). done. Qed.

Lemma utf8_len_bounds s n : utf8_len s = Some n → 1 ≤ n ≤ length s.
Proof.
  unfold utf8_len. intros H. destruct s as [|b0 [|b1 [|b2 [|b3 s]]]]; [done|..];
    repeat (match type of H with (if ?c then _ else _) = _ => destruct c end;
            try (injection H as <-; simpl; lia)); done.
Qed.

Lemma next_piece_shorter s r s' : next_piece s = PText r s' → shorter s' s.
Proof.
  unfold shorter. destruct s as [|b s]; [done|]. cbn [next_piece].
  destruct (Byte.eqb b "034"); [done|].
  destruct (Byte.eqb b "\").
  - destruct s as [|c s]; [done|]. destruct (Byte.eqb c "u").
    + destruct (hex4 s) as [[u s1]|] eqn:E; [|done]. destruct (dec_u u s1) as [r1 s2] eqn:Eu.
      intros [= _ <-]. apply hex4_shorter in E. apply dec_u_length in Eu. unfold shorter in E. simpl. lia.
    + intros ->%escaped_rest. simpl. lia.
  - destruct (_ <? _)%N; [done|]. destruct (utf8_len (b :: s)) as [n|] eqn:E; intros H; inversion H; subst.
    + apply utf8_len_bounds in E. rewrite length_drop. simpl in *. lia.
    + simpl. lia.
Qed.

Lemma next_piece_end s s' : next_piece s = PEnd s' → shorter s' s.
Proof.
  unfold shorter. destruct s as [|b s]; [done|]. cbn [next_piece].
  destruct (Byte.eqb b "034"); [intros [= ->]; simpl; lia|]. intros H. exfalso. revert H.
  destruct (Byte.eqb b "\"); [|by repeat case_match].
  destruct s as [|c s]; [done|]. unfold escaped. destruct (Byte.eqb c "u"); [|by repeat case_match].
  destruct (hex4 s) as [[u s1]|]; [|done]. by destruct (dec_u u s1).
Qed.

Lemma dec_string_fuel f1 f2 s :
  length s < f1 → length s < f2 → dec_string f1 s = dec_string f2 s.
Proof.
  revert f2 s. induction f1 as [|f1 IH]; intros [|f2] s H1 H2; [lia..|]. simpl.
  destruct (next_piece s) as [|r s'|] eqn:E; [done| |done]. apply next_piece_shorter in E.
  unfold shorter in E. by rewrite (IH f2) by lia.
Qed.

Lemma dec_string_shorter f s r s' : dec_string f s = Some (r, s') → shorter s' s.
Proof.
  revert s r. induction f as [|f IH]; intros s r; simpl; [done|].
  destruct (next_piece s) as [s1|r1 s1|] eqn:E; [|..|done].
  - intros [= _ ->]. by apply next_piece_end.
  - apply next_piece_shorter in E. intros ([x s2] & H & [= _ ->])%bind_Some. apply IH in H.
    unfold shorter in *. lia.
Qed.

Lemma take_digits_length s ds s' : take_digits s = (ds, s') → length s = length ds + length s'.
Proof.
  revert ds. induction s as [|b s IH]; intros ds; simpl; [by intros [= <- <-]|].
  destruct (_ && _); [|by intros [= <- <-]]. destruct (take_digits s) as [d r].
  intros [= <- <-]. simpl. by rewrite (IH d).
Qed.

Lemma dec_digits_shorter s ds s' : dec_digits s = Some (ds, s') → shorter s' s.
Proof.
  unfold dec_digits, shorter. destruct (take_digits s) as [[|d l] r] eqn:E; [done|].
  intros [= <- <-]. apply take_digits_length in E. simpl in E. lia.
Qed.

Lemma dec_exponent_length s x s' : dec_exponent s = Some (x, s') → length s' ≤ length s.
Proof.
  unfold dec_exponent, dec_sign. intros H.
  destruct (eat "e" s) as [s1|] eqn:E1; [|destruct (eat "E" s) as [s1|] eqn:E2];
    [apply eat_shorter in E1|apply eat_shorter in E2|by injection H as _ ->].
  all: unfold shorter in *; destruct (eat "-" s1) as [s2|] eqn:E3;
    [apply eat_shorter in E3|destruct (eat "+" s1) as [s2|] eqn:E4; [apply eat_shorter in E4|]];
    simpl in H; apply bind_Some in H as ([ds s3] & H%dec_digits_shorter & [= _ ->]);
    unfold shorter in *; lia.
Qed.

Lemma dec_number_shorter s v s' : dec_number s = Some (v, s') → shorter s' s.
Proof.
  unfold dec_number. intros H.
  assert (∃ neg s1, match eat "-" s with Some s => (true, s) | None => (false, s) end = (neg, s1) ∧
    length s1 ≤ length s) as (neg & s1 & E1 & L1).
  { destruct (eat "-" s) as [s1|] eqn:E; [apply eat_shorter in E|]; unfold shorter in *;
      eexists _, _; (split; [reflexivity|lia]). }
  rewrite E1 in H. apply bind_Some in H as ([ip s2] & E2%dec_digits_shorter & H).
  destruct (leading_zero ip); [done|]. apply bind_Some in H as ([fp s3] & E3 & H).
  apply bind_Some in H as ([x s4] & E4%dec_exponent_length & [= _ ->]).
  destruct (eat "." s2) as [s5|] eqn:E5;
    [apply eat_shorter in E5; apply dec_digits_shorter in E3|injection E3 as _ ->];
    unfold shorter in *; lia.
Qed.

Lemma strip_bytes_length p s s' : strip_bytes p s = Some s' → length s = length p + length s'.
Proof.
  revert s. induction p as [|a p IH]; intros [|b s]; simpl; try (by intros [= <-]); try done.
  destruct (Byte.eqb a b); [|done]. intros H. by rewrite (IH s).
Qed.

Lemma dec_literal_shorter l v w s s' :
  l ≠ "" → dec_literal l v s = Some (w, s') → shorter s' s.
Proof.
  unfold dec_literal, shorter. intros Hl (s1 & H%strip_bytes_length & [= _ <-])%bind_Some.
  assert (length (s2b l) ≠ 0); [|lia]. destruct l; [done|]. unfold s2b. simpl. lia.
Qed.

Lemma start_of_shorter s :
  match start_of s with
  | SObject s' | SArray s' | SString s' => shorter s' s
  | SLiteral l _ => l ≠ ""
  | SNumber => True
  end.
Proof.
  unfold shorter. destruct s as [|b s]; simpl; [done|].
  repeat (case_match; simplify_eq/=; try done; try lia).
Qed.

(** ** Enough fuel *)

(** Every value, member list and element list the decoder returns is shorter
    than its input, whatever the fuel. *)
Lemma dec_shorter fuel :
  (∀ d s v s', dec_value fuel d s = Some (v, s') → shorter s' s) ∧
  (∀ d s acc l s', dec_members fuel d s acc = Some (l, s') → shorter s' s) ∧
  (∀ d s l s', dec_elements fuel d s = Some (l, s') → shorter s' s).
Proof.
  induction fuel as [|fuel (IHv & IHm & IHe)]; [done|]. unfold shorter in *. split_and!.
  - intros d s v s'. cbn [dec_value]. pose proof (skip_ws_length s) as Hw.
    pose proof (start_of_shorter (skip_ws s)) as Hs. unfold shorter in Hs.
    destruct (start_of (skip_ws s)) as [s1|s1|s1|l w|].
    + destruct (_ <=? _)%Z; [done|]. destruct (eat "}" (skip_ws s1)) as [s2|] eqn:E.
      * intros [= _ <-]. apply eat_skip_ws in E. unfold shorter in E. lia.
      * intros ([l s2] & H%IHm & [= _ <-])%bind_Some. lia.
    + destruct (_ <=? _)%Z; [done|]. destruct (eat "]" (skip_ws s1)) as [s2|] eqn:E.
      * intros [= _ <-]. apply eat_skip_ws in E. unfold shorter in E. lia.
      * intros ([l s2] & H%IHe & [= _ <-])%bind_Some. lia.
    + intros ([r s2] & H%dec_string_shorter & [= _ <-])%bind_Some. unfold shorter in H. lia.
    + intros H%dec_literal_shorter; [|done]. unfold shorter in H. lia.
    + intros H%dec_number_shorter. unfold shorter in H. lia.
  - intros d s acc l s'. cbn [dec_members].
    intros (s1 & E1%eat_skip_ws & ([k s2] & E2%dec_string_shorter & (s3 & E3%eat_skip_ws & H)%bind_Some)%bind_Some)%bind_Some.
    apply bind_Some in H as ([v s4] & E4%IHv & H). unfold shorter in *.
    destruct (eat "," (skip_ws s4)) as [s5|] eqn:E5; [apply eat_skip_ws in E5; apply IHm in H|];
      [unfold shorter in *; lia|].
    apply bind_Some in H as (s5 & E6%eat_skip_ws & [= _ <-]). unfold shorter in *. lia.
  - intros d s l s'. cbn [dec_elements]. intros ([v s4] & E4%IHv & H)%bind_Some.
    destruct (eat "," (skip_ws s4)) as [s5|] eqn:E5.
    + apply eat_skip_ws in E5. apply bind_Some in H as ([l' s6] & H%IHe & [= _ <-]).
      unfold shorter in *. lia.
    + apply bind_Some in H as (s5 & E6%eat_skip_ws & [= _ <-]). unfold shorter in *. lia.
Qed.

(** Two amounts of fuel that are both enough give the same result. *)
Lemma dec_fuel f :
  (∀ f' d s, 2 * length s + 1 ≤ f → 2 * length s + 1 ≤ f' → dec_value f d s = dec_value f' d s) ∧
  (∀ f' d s acc, 2 * length s + 1 ≤ f → 2 * length s + 1 ≤ f' →
     dec_members f d s acc = dec_members f' d s acc) ∧
  (∀ f' d s, 2 * length s + 2 ≤ f → 2 * length s + 2 ≤ f' →
     dec_elements f d s = dec_elements f' d s).
Proof.
  induction f as [|f (IHv & IHm & IHe)]; [split_and!; intros; lia|]. split_and!.
  - intros [|f'] d s H H'; [lia|]. cbn [dec_value]. pose proof (skip_ws_length s) as Hw.
    pose proof (start_of_shorter (skip_ws s)) as Hs. unfold shorter in Hs.
    destruct (start_of (skip_ws s)) as [s1|s1|s1|l w|]; [| |done..].
    + by rewrite (IHm f') by lia.
    + by rewrite (IHe f') by lia.
  - intros [|f'] d s acc H H'; [lia|]. cbn [dec_members].
    destruct (eat "034" (skip_ws s)) as [s1|] eqn:E1; [|done]. cbn [mbind option_bind].
    destruct (dec_string _ s1) as [[k s2]|] eqn:E2; [|done]. cbn [mbind option_bind].
    destruct (eat ":" (skip_ws s2)) as [s3|] eqn:E3; [|done]. cbn [mbind option_bind].
    apply eat_skip_ws in E1, E3. apply dec_string_shorter in E2. unfold shorter in *.
    rewrite (IHv f') by lia. destruct (dec_value f' d s3) as [[v s4]|] eqn:E4; [|done]. cbn [mbind option_bind].
    apply dec_shorter in E4. unfold shorter in E4.
    destruct (eat "," (skip_ws s4)) as [s5|] eqn:E5; [|done]. apply eat_skip_ws in E5.
    unfold shorter in E5. apply IHm; lia.
  - intros [|f'] d s H H'; [lia|]. cbn [dec_elements].
    rewrite (IHv f') by lia. destruct (dec_value f' d s) as [[v s4]|] eqn:E4; [|done]. cbn [mbind option_bind].
    apply dec_shorter in E4. unfold shorter in E4.
    destruct (eat "," (skip_ws s4)) as [s5|] eqn:E5; [|done]. apply eat_skip_ws in E5.
    unfold shorter in E5. by rewrite (IHe f') by lia.
Qed.

(** However much more fuel the decoder had, it would decode the same. *)
Lemma json_decode_fuel f s :
  2 * length s + 1 ≤ f →
  json_decode s = match dec_value f 0 s with
                  | Some (v, s') => match skip_ws s' with [] => Some v | _ => None end
                  | None => None
                  end.
Proof.
  intros Hf. unfold json_decode. by rewrite (proj1 (dec_fuel _) f 0%Z s) by lia.
Qed.

(** ** Strings *)

(** A sequence of well-formed UTF-8 sequences. *)
Fixpoint valid_aux (fuel : nat) (s : bytes) : bool :=
  match s, fuel with
  | [], _ => true
  | _, O => false
  | _, S fuel => match utf8_len s with
                 | Some n => valid_aux fuel (drop n s)
                 | None => false
                 end
  end.

Definition valid_utf8 (s : string) : bool := valid_aux (length (s2b s)) (s2b s).

(** A well-formed sequence is recognised by its own bytes. *)
Lemma utf8_len_app s n t : utf8_len s = Some n → utf8_len (take n s ++ t) = Some n.
Proof.
  unfold utf8_len. intros H. destruct s as [|b0 [|b1 [|b2 [|b3 s]]]]; [done|..];
    repeat (match type of H with (if ?c then _ else _) = _ => destruct c eqn:? end;
            try (injection H as <-; simpl;
                 repeat match goal with E : _ = _ |- _ => rewrite E end; done)); done.
Qed.

Lemma utf8_len_ascii b s : (bval b <? 128)%N = true → utf8_len (b :: s) = Some 1.
Proof. intros H. unfold utf8_len. by rewrite H. Qed.

Lemma next_piece_ascii b t :
  (bval b <? 128)%N = true → next_piece (enc_ascii b ++ t) = PText [b] t.
Proof. intros H. destruct b; try discriminate H; reflexivity. Qed.

Lemma next_piece_esc c r t :
  (c = 8232%N ∧ r = map bN [226; 128; 168]%N ∨ c = 8233%N ∧ r = map bN [226; 128; 169]%N) →
  next_piece (esc_u c ++ t) = PText r t.
Proof. intros [[-> ->]|[-> ->]]; reflexivity. Qed.

Lemma byte_eqb_ge b c : (bval b <? 128)%N = false → (bval c <? 128)%N = true → Byte.eqb b c = false.
Proof.
  intros Hb Hc. destruct (Byte.eqb b c) eqn:E; [|done]. apply Byte.byte_dec_bl in E. congruence.
Qed.

Lemma next_piece_multi b s n t :
  (bval b <? 128)%N = false → utf8_len (b :: s) = Some n →
  next_piece (take n (b :: s) ++ t) = PText (take n (b :: s)) t.
Proof.
  intros Hb Hn. pose proof (utf8_len_app _ _ t Hn) as Ht.
  pose proof (utf8_len_bounds _ _ Hn) as Hlen. destruct n as [|n]; [lia|].
  cbn [take app] in *. cbn [next_piece].
  rewrite !(byte_eqb_ge b) by done. rewrite Ht.
  assert ((bval b <? 32)%N = false) as -> by (apply N.ltb_ge in Hb; apply N.ltb_ge; lia).
  change (b :: take n s ++ t) with ((b :: take n s) ++ t). simpl in Hlen.
  rewrite take_app_length', drop_app_length' by (simpl; rewrite length_take; lia). done.
Qed.

(** The encoder's output for the first rune. *)
Lemma enc_first_rune fuel b s n :
  utf8_len (b :: s) = Some n →
  ∃ e, enc_string_aux (S fuel) (b :: s) = e ++ enc_string_aux fuel (drop n (b :: s)) ∧
    ∀ t, next_piece (e ++ t) = PText (take n (b :: s)) t.
Proof.
  intros Hn. cbn [enc_string_aux]. destruct (bval b <? 128)%N eqn:Hb.
  - rewrite utf8_len_ascii in Hn by done. injection Hn as <-. exists (enc_ascii b).
    split; [done|]. intros t. by apply next_piece_ascii.
  - rewrite Hn. eexists. split; [reflexivity|]. intros t.
    case_bool_decide as H1; [apply next_piece_esc; by left|].
    case_bool_decide as H2; [apply next_piece_esc; by right|]. by apply next_piece_multi.
Qed.

Lemma dec_enc_string f fe fd s t :
  valid_aux f s = true → length s < fe → length (enc_string_aux fe s) < fd →
  dec_string fd (enc_string_aux fe s ++ "034"%byte :: t) = Some (s, t).
Proof.
  revert fe fd s. induction f as [|f IH]; intros fe fd [|b s] Hv Hfe Hfd; try done;
    (destruct fd as [|fd]; [simpl in *; lia|]); (destruct fe as [|fe]; [simpl in *; lia|]); try done.
  cbn [valid_aux] in Hv. destruct (utf8_len (b :: s)) as [n|] eqn:Hn; [|done].
  destruct (enc_first_rune fe b s n Hn) as (e & E & He). rewrite E in *. rewrite <- app_assoc.
  pose proof (He []) as Hne. apply next_piece_shorter in Hne. unfold shorter in Hne.
  rewrite length_app in Hne, Hfd. cbn [dec_string]. rewrite He.
  apply utf8_len_bounds in Hn.
  rewrite IH; [|done|rewrite length_drop; simpl in *; lia|simpl in *; lia].
  cbn [mbind option_bind]. by rewrite take_drop.
Qed.

(** A string literal, from its opening quote on. *)
Lemma dec_enc_literal s t :
  valid_utf8 s = true →
  ∃ q, enc_string s ++ t = "034"%byte :: q ∧
    dec_string (S (length q)) q = Some (s2b s, t).
Proof.
  intros Hv. exists (enc_string_aux (S (length (s2b s))) (s2b s) ++ "034"%byte :: t).
  unfold enc_string. split; [cbn [app]; by rewrite <- app_assoc|].
  apply (dec_enc_string _ _ _ _ _ Hv); [lia|]. rewrite length_app. simpl. lia.
Qed.

(** ** Numbers *)

(** What may follow a value inside a document. *)
Definition delimited (t : bytes) : Prop :=
  match t with
  | [] => True
  | b :: _ => b = ","%byte ∨ b = "}"%byte ∨ b = "]"%byte
  end.

Lemma eat_app c s t :
  c ≠ ","%byte → c ≠ "}"%byte → c ≠ "]"%byte → delimited t →
  eat c (s ++ t) = (.++ t) <$> eat c s.
Proof.
  intros H1 H2 H3 Ht. destruct s as [|b s]; simpl; [|by destruct (Byte.eqb b c)].
  destruct t as [|b t]; simpl; [done|]. destruct (Byte.eqb b c) eqn:E; [|done].
  apply Byte.byte_dec_bl in E. subst. destruct Ht as [|[|]]; congruence.
Qed.

Lemma take_digits_app s t ds r :
  delimited t → take_digits s = (ds, r) → take_digits (s ++ t) = (ds, r ++ t).
Proof.
  intros Ht. revert ds r. induction s as [|b s IH]; intros ds r; simpl.
  - intros [= <- <-]. destruct t as [|b t]; [done|]. by destruct Ht as [-> | [-> | ->]].
  - destruct (_ && _); [|by intros [= <- <-]]. destruct (take_digits s) as [d r'].
    intros [= <- <-]. by rewrite (IH d r').
Qed.

Lemma dec_digits_app s t ds r :
  delimited t → dec_digits s = Some (ds, r) → dec_digits (s ++ t) = Some (ds, r ++ t).
Proof.
  unfold dec_digits. intros Ht. destruct (take_digits s) as [d r'] eqn:E.
  rewrite (take_digits_app s t d r') by done. by destruct d; [|intros [= <- <-]].
Qed.

Lemma dec_exponent_app s t x r :
  delimited t → dec_exponent s = Some (x, r) → dec_exponent (s ++ t) = Some (x, r ++ t).
Proof.
  unfold dec_exponent, dec_sign. intros Ht. rewrite !eat_app by done.
  destruct (eat "e" s) as [s1|] eqn:E1; [|destruct (eat "E" s) as [s1|] eqn:E2]; simpl;
    [| |by intros [= <- <-]];
    rewrite !eat_app by done;
    (destruct (eat "-" s1) as [s2|] eqn:E3; [|destruct (eat "+" s1) as [s2|] eqn:E4]); simpl;
    intros ([ds s3] & H & [= <- <-])%bind_Some; by rewrite (dec_digits_app _ t ds s3).
Qed.

Lemma dec_number_app s t v r :
  delimited t → dec_number s = Some (v, r) → dec_number (s ++ t) = Some (v, r ++ t).
Proof.
  unfold dec_number. intros Ht. rewrite eat_app by done.
  destruct (eat "-" s) as [s0|]; simpl;
    intros ([ip s2] & H1 & H)%bind_Some; rewrite (dec_digits_app _ t ip s2) by done;
    cbn [mbind option_bind]; (destruct (leading_zero ip); [done|]); rewrite eat_app by done;
    apply bind_Some in H as ([fp s3] & H2 & H);
    (assert (match (.++ t) <$> eat "." s2 with Some s => dec_digits s | None => Some ([], s2 ++ t) end =
       Some (fp, s3 ++ t)) as ->
      by (destruct (eat "." s2) as [s4|]; simpl in *; [by apply dec_digits_app|by injection H2 as <- <-]));
    cbn [mbind option_bind]; apply bind_Some in H as ([x s4] & H3 & [= <- <-]);
    by rewrite (dec_exponent_app _ t x s4).
Qed.

(** A number starts with a minus or a digit. *)
Lemma dec_number_start s v r :
  dec_number s = Some (v, r) →
  ∃ b s', s = b :: s' ∧ (b = "-"%byte ∨ (48 <=? bval b)%N && (bval b <=? 57)%N = true).
Proof.
  unfold dec_number. destruct s as [|b s]; [done|]. intros H. exists b, s. split; [done|].
  cbn [eat] in H. destruct (Byte.eqb b "-") eqn:E; [left; by apply Byte.byte_dec_bl|]. right.
  apply bind_Some in H as ([ip s2] & H & _). unfold dec_digits in H. simpl in H.
  by destruct (_ && _).
Qed.

(** ** Values *)

Section any_ind.
Variable P : any → Prop.
Hypotheses (Hnil : P ANil) (Hbool : ∀ b, P (ABool b)) (Hnum : ∀ f, P (ANum f))
  (Hstr : ∀ s, P (AStr s)) (Harr : ∀ l, Forall P l → P (AArr l))
  (Hobj : ∀ l, Forall (λ kv, P kv.2) l → P (AObj l)).

(** Induction with the hypothesis for every element. *)
Fixpoint any_nested_ind (v : any) : P v :=
  match v with
  | ANil => Hnil
  | ABool b => Hbool b
  | ANum f => Hnum f
  | AStr s => Hstr s
  | AArr l => Harr l ((fix go l : Forall P l :=
      match l with
      | [] => Forall_nil_2 _
      | v :: l => Forall_cons_2 _ _ _ (any_nested_ind v) (go l)
      end) l)
  | AObj l => Hobj l ((fix go l : Forall (λ kv, P kv.2) l :=
      match l with
      | [] => Forall_nil_2 _
      | kv :: l => Forall_cons_2 _ _ _ (any_nested_ind kv.2) (go l)
      end) l)
  end.
End any_ind.

Definition string_lt (s t : string) : bool := match String.compare s t with Lt => true | _ => false end.

Fixpoint keys_sorted (ks : list string) : bool :=
  match ks with
  | k :: (k' :: _) as ks => string_lt k k' && keys_sorted ks
  | _ => true
  end.

(** How deep the arrays and objects are nested. *)
Fixpoint height (v : any) : nat :=
  match v with
  | AArr l => S (list_max (map height l))
  | AObj l => S (list_max (map (λ kv, height kv.2) l))
  | _ => 0
  end.

(** What survives printing: finite floats, text that is UTF-8, and
    objects as [any] has them, with increasing keys. *)
Fixpoint clean (v : any) : bool :=
  match v with
  | ANil | ABool _ => true
  | ANum f => valid_float f
  | AStr s => valid_utf8 s
  | AArr l => forallb clean l
  | AObj l => keys_sorted l.*1 && forallb (λ kv, valid_utf8 kv.1 && clean kv.2) l
  end.

(** Values do not start with white space or a closing bracket. *)
Definition opens (b : byte) : bool :=
  negb (bool_decide (b = " "%byte ∨ b = "009"%byte ∨ b = "010"%byte ∨ b = "013"%byte) ||
        Byte.eqb b "]" || Byte.eqb b "}").

Lemma number_start b s :
  b = "-"%byte ∨ (48 <=? bval b)%N && (bval b <=? 57)%N = true →
  opens b = true ∧ start_of (b :: s) = SNumber.
Proof. intros [->|H]; [done|]. destruct b; try discriminate H; done. Qed.

Lemma skip_ws_opens b s : opens b = true → skip_ws (b :: s) = b :: s.
Proof. unfold opens. simpl. by case_bool_decide. Qed.

Lemma marshal_opens v bs :
  clean v = true → json_marshal v = Some bs → ∃ b s, bs = b :: s ∧ opens b = true.
Proof.
  destruct v as [|b|f|s|l|l]; simpl; intros Hc H.
  - injection H as <-. by eexists _, _.
  - injection H as <-. destruct b; by eexists _, _.
  - destruct (format_json_reads f Hc) as (bs' & H' & E). rewrite H in H'. injection H' as <-.
    apply dec_number_start in E as (b & s & -> & Hb). exists b, s. split; [done|].
    by apply (number_start b s).
  - injection H as <-. by eexists _, _.
  - apply bind_Some in H as (r & _ & [= <-]). by eexists _, _.
  - apply bind_Some in H as (r & _ & [= <-]). by eexists _, _.
Qed.

Lemma eat_opens c b s t :
  opens b = true → c = "]"%byte ∨ c = "}"%byte → eat c (skip_ws ((b :: s) ++ t)) = None.
Proof.
  intros Hb Hc. cbn [app]. rewrite skip_ws_opens by done. simpl. destruct (Byte.eqb b c) eqn:E; [|done].
  apply Byte.byte_dec_bl in E. subst. by destruct Hc as [-> | ->].
Qed.

(** With enough fuel, the decoder reads [v] back from [bs]. *)
Definition reads (v : any) (bs : bytes) : Prop := ∃ f0, ∀ f d t,
  f0 ≤ f → (d + Z.of_nat (height v) ≤ 10000)%Z → delimited t → dec_value f d (bs ++ t) = Some (v, t).

Definition reads_back (v : any) : Prop :=
  ∀ bs, clean v = true → json_marshal v = Some bs → reads v bs.

Lemma reads_elements l r :
  l ≠ [] → Forall reads_back l → forallb clean l = true →
  join_opt (s2b ",") (map json_marshal l) = Some r →
  (∃ b s, r = b :: s ∧ opens b = true) ∧
  ∃ f0, ∀ f d t, f0 ≤ f →
    (d + Z.of_nat (list_max (map height l)) ≤ 10000)%Z →
    dec_elements f d (r ++ "]"%byte :: t) = Some (l, t).
Proof.
  intros Hne Hl. revert r. induction Hl as [|v l Hv Hl IH]; intros r Hc Hj; [done|].
  cbn [forallb] in Hc. apply andb_prop in Hc as [Hcv Hcl].
  assert (∃ bs, json_marshal v = Some bs) as [bs Hbs].
  { destruct l; simpl in Hj; [by eexists|]. apply bind_Some in Hj as (bs & H & _). by exists bs. }
  destruct (marshal_opens v bs Hcv Hbs) as (b & s & -> & Hb).
  destruct (Hv _ Hcv Hbs) as [f1 H1].
  destruct l as [|v' l].
  - cbn [map join_opt] in Hj. rewrite Hbs in Hj. injection Hj as <-.
    split; [by eexists _, _|]. exists (S f1). intros [|f] d t Hf Hd; [lia|].
    cbn [dec_elements]. rewrite H1; [|lia|cbn in Hd; lia|simpl; tauto]. reflexivity.
  - change (map json_marshal (v :: v' :: l)) with (json_marshal v :: map json_marshal (v' :: l)) in Hj.
    assert (∃ r', join_opt (s2b ",") (map json_marshal (v' :: l)) = Some r' ∧
      r = (b :: s) ++ s2b "," ++ r') as (r' & Hr' & ->).
    { cbn [join_opt map] in *. rewrite Hbs in Hj. cbn [mbind option_bind] in Hj.
      apply bind_Some in Hj as (r' & H & [= <-]). by exists r'. }
    destruct (IH ltac:(done) r' Hcl Hr') as (_ & f2 & H2).
    split; [by eexists _, _|]. exists (S (max f1 f2)). intros [|f] d t Hf Hd; [lia|].
    cbn [dec_elements]. rewrite <- !app_assoc.
    rewrite H1; [|lia|cbn [map list_max foldr] in Hd; lia|simpl; tauto]. cbn [mbind option_bind].
    change (eat "," (skip_ws (s2b "," ++ r' ++ "]"%byte :: t))) with (Some (r' ++ "]"%byte :: t)).
    cbn iota beta. rewrite H2; [done|lia|].
    change (list_max (map height (v :: v' :: l))) with
      (height v `max` list_max (map height (v' :: l))) in Hd. lia.
Qed.

Definition member (kv : string * any) : option bytes :=
  v ← json_marshal kv.2; Some (enc_string kv.1 ++ s2b ":" ++ v).

(** One member: its key, its value, and what follows. *)
Lemma reads_member f0 k v bs rest f d acc :
  (∀ f d t, f0 ≤ f → (d + Z.of_nat (height v) ≤ 10000)%Z → delimited t →
     dec_value f d (bs ++ t) = Some (v, t)) →
  valid_utf8 k = true → delimited rest → f0 ≤ f → (d + Z.of_nat (height v) ≤ 10000)%Z →
  dec_members (S f) d ((enc_string k ++ s2b ":" ++ bs) ++ rest) acc =
    match eat "," (skip_ws rest) with
    | Some s => dec_members f d s (obj_insert k v acc)
    | None => s ← eat "}" (skip_ws rest); Some (obj_insert k v acc, s)
    end.
Proof.
  intros H0 Hk Hrest Hf Hd. rewrite <- !app_assoc.
  destruct (dec_enc_literal k (s2b ":" ++ bs ++ rest) Hk) as (q & -> & Hq).
  cbn [dec_members].
  change (eat "034" (skip_ws ("034"%byte :: q))) with (Some q). cbn [mbind option_bind].
  rewrite Hq. cbn [mbind option_bind].
  change (eat ":" (skip_ws (s2b ":" ++ bs ++ rest))) with (Some (bs ++ rest)). cbn [mbind option_bind].
  rewrite H0 by done. cbn [mbind option_bind]. by rewrite b2s_s2b.
Qed.

Lemma reads_members l r :
  l ≠ [] → Forall (λ kv, reads_back kv.2) l →
  forallb (λ kv, valid_utf8 kv.1 && clean kv.2) l = true →
  join_opt (s2b ",") (map member l) = Some r →
  (∃ s, r = "034"%byte :: s) ∧
  ∃ f0, ∀ f d acc t, f0 ≤ f →
    (d + Z.of_nat (list_max (map (λ kv, height kv.2) l)) ≤ 10000)%Z →
    dec_members f d (r ++ "}"%byte :: t) acc =
      Some (foldl (λ a kv, obj_insert kv.1 kv.2 a) acc l, t).
Proof.
  intros Hne Hl. revert r. induction Hl as [|[k v] l Hv Hl IH]; intros r Hc Hj; [done|].
  cbn [forallb fst snd] in Hc. apply andb_prop in Hc as [[Hk Hcv]%andb_prop Hcl].
  assert (∃ bs, json_marshal v = Some bs) as [bs Hbs].
  { destruct l; [apply bind_Some in Hj as (bs & H & _); by exists bs|].
    apply bind_Some in Hj as (m & (bs & H & _)%bind_Some & _). by exists bs. }
  assert (member (k, v) = Some (enc_string k ++ s2b ":" ++ bs)) as Hm
    by (unfold member; cbn [fst snd]; by rewrite Hbs).
  destruct (Hv bs Hcv Hbs) as [f1 H1].
  destruct l as [|kv' l].
  - cbn [map join_opt] in Hj. rewrite Hm in Hj. injection Hj as <-. split; [by eexists|].
    exists (S f1). intros [|f] d acc t Hf Hd; [lia|]. cbn in Hd.
    rewrite (reads_member f1 k v bs); [|done|done|simpl; tauto|lia|lia]. reflexivity.
  - change (map member ((k, v) :: kv' :: l)) with (member (k, v) :: map member (kv' :: l)) in Hj.
    assert (∃ r', join_opt (s2b ",") (map member (kv' :: l)) = Some r' ∧
      r = (enc_string k ++ s2b ":" ++ bs) ++ s2b "," ++ r') as (r' & Hr' & ->).
    { cbn [join_opt map] in *. rewrite Hm in Hj. cbn [mbind option_bind] in Hj.
      apply bind_Some in Hj as (r' & H & [= <-]). by exists r'. }
    destruct (IH ltac:(done) r' Hcl Hr') as (_ & f2 & H2). split; [by eexists|].
    exists (S (max f1 f2)). intros [|f] d acc t Hf Hd; [lia|].
    change (list_max (map (λ kv, height kv.2) ((k, v) :: kv' :: l))) with
      (height v `max` list_max (map (λ kv, height kv.2) (kv' :: l))) in Hd.
    replace (((enc_string k ++ s2b ":" ++ bs) ++ s2b "," ++ r') ++ "}"%byte :: t) with
      ((enc_string k ++ s2b ":" ++ bs) ++ s2b "," ++ r' ++ "}"%byte :: t) by (by rewrite <- !app_assoc).
    rewrite (reads_member f1 k v bs); [|done|done|simpl; tauto|lia|lia].
    change (eat "," (skip_ws (s2b "," ++ r' ++ "}"%byte :: t))) with (Some (r' ++ "}"%byte :: t)).
    cbn iota beta. by rewrite H2 by lia.
Qed.

(** *** Objects keep their entries in order *)

Lemma string_lt_iff s t : string_lt s t = true ↔ String.compare s t = Lt.
Proof. unfold string_lt. by destruct (String.compare s t). Qed.

Lemma string_lt_trans s t u : string_lt s t = true → string_lt t u = true → string_lt s u = true.
Proof.
  rewrite !string_lt_iff. revert t u.
  induction s as [|a s IH]; intros [|b t] [|c u]; simpl; try done.
  unfold Ascii.compare. intros H1 H2.
  destruct (N.compare_spec (Ascii.N_of_ascii a) (Ascii.N_of_ascii b)) as [E1|E1|E1]; [| |done];
    destruct (N.compare_spec (Ascii.N_of_ascii b) (Ascii.N_of_ascii c)) as [E2|E2|E2]; try done;
    destruct (N.compare_spec (Ascii.N_of_ascii a) (Ascii.N_of_ascii c)) as [E3|E3|E3];
    try done; try lia. by eapply IH.
Qed.

Lemma keys_sorted_below k ks : keys_sorted (k :: ks) = true → Forall (λ k', string_lt k k' = true) ks.
Proof.
  revert k. induction ks as [|k' ks IH]; intros k; [constructor|]. cbn [keys_sorted].
  intros [Hk Hks]%andb_prop. constructor; [done|]. eapply Forall_impl; [by apply IH|].
  intros k2 Hk2. by eapply string_lt_trans.
Qed.

Lemma keys_sorted_tail k ks : keys_sorted (k :: ks) = true → keys_sorted ks = true.
Proof. destruct ks; [done|]. cbn [keys_sorted]. by intros [_ H]%andb_prop. Qed.

(** Inserting after everything there is. *)
Lemma obj_insert_last k v acc :
  Forall (λ k', string_lt k' k = true) acc.*1 → obj_insert k v acc = acc ++ [(k, v)].
Proof.
  induction acc as [|[k' v'] acc IH]; simpl; [done|]. intros [Hk Hacc]%Forall_cons.
  apply string_lt_iff in Hk. rewrite String.compare_antisym, Hk. simpl. by rewrite IH.
Qed.

Lemma foldl_obj_insert l acc :
  keys_sorted l.*1 = true → Forall (λ kv, Forall (λ k', string_lt k' kv.1 = true) acc.*1) l →
  foldl (λ a kv, obj_insert kv.1 kv.2 a) acc l = acc ++ l.
Proof.
  revert acc. induction l as [|[k v] l IH]; intros acc Hs Hl; simpl; [by rewrite app_nil_r|].
  apply Forall_cons in Hl as [Hk Hl]. simpl in Hk. rewrite obj_insert_last by done.
  rewrite IH; [by rewrite <- app_assoc|by eapply keys_sorted_tail|].
  assert (Forall (λ kv, string_lt k kv.1 = true) l) as Hlt
    by (apply (Forall_fmap fst (λ k', string_lt k k' = true)); exact (keys_sorted_below _ _ Hs)).
  rewrite Forall_forall in Hl, Hlt |- *.
  intros kv Hkv. rewrite fmap_app. apply Forall_app. split; [by apply Hl|]. repeat constructor.
  by apply Hlt.
Qed.

Lemma any_reads_back v : reads_back v.
Proof.
  induction v as [|b|f|s|l IH|l IH] using any_nested_ind; intros bs Hc H; unfold reads.
  - injection H as <-. exists 1. intros [|f'] d t Hf _ _; [lia|done].
  - injection H as <-. exists 1. intros [|f'] d t Hf _ _; [lia|]. by destruct b.
  - simpl in Hc, H. destruct (format_json_reads f Hc) as (bs' & H' & E). rewrite H in H'.
    injection H' as <-. exists 1. intros [|f'] d t Hf _ Ht; [lia|].
    cbn [dec_value]. pose proof (dec_number_app _ t _ _ Ht E) as Ha.
    apply dec_number_start in E as (b & s & -> & Hb). cbn [app] in *.
    destruct (number_start b (s ++ t) Hb) as [Ho Hs]. by rewrite skip_ws_opens, Hs, Ha.
  - simpl in Hc, H. injection H as <-. exists 1. intros [|f'] d t Hf _ _; [lia|].
    destruct (dec_enc_literal s t Hc) as (q & -> & Hq). cbn [dec_value].
    change (start_of (skip_ws ("034"%byte :: q))) with (SString q). cbn iota beta.
    rewrite Hq. cbn [mbind option_bind]. by rewrite b2s_s2b.
  - simpl in Hc, H. apply bind_Some in H as (r & Hr & [= <-]). destruct l as [|v l].
    { injection Hr as <-. exists 1. intros [|f'] d t Hf Hd _; [lia|]. simpl in Hd.
      cbn [dec_value]. change (start_of _) with (SArray ("]"%byte :: t)). cbn iota beta.
      destruct (Z.leb_spec 10000 d); [lia|done]. }
    destruct (reads_elements (v :: l) r ltac:(done) IH Hc Hr) as ((b & s & -> & Hb) & f0 & H0).
    exists (S f0). intros [|f] d t Hf Hd _; [lia|].
    match goal with |- dec_value _ _ ?x = _ =>
      replace x with ("["%byte :: (b :: s) ++ s2b "]" ++ t) by (simpl; by rewrite <- app_assoc) end.
    cbn [dec_value height] in *.
    change (start_of _) with (SArray ((b :: s) ++ s2b "]" ++ t)). cbn iota beta.
    destruct (Z.leb_spec 10000 d); [lia|]. rewrite eat_opens by tauto.
    change (s2b "]" ++ t) with ("]"%byte :: t). rewrite H0; [done|lia|lia].
  - simpl in Hc, H. apply andb_prop in Hc as [Hs Hc].
    apply bind_Some in H as (r & Hr & [= <-]). destruct l as [|kv l].
    { injection Hr as <-. exists 1. intros [|f'] d t Hf Hd _; [lia|]. simpl in Hd.
      cbn [dec_value]. change (start_of _) with (SObject ("}"%byte :: t)). cbn iota beta.
      destruct (Z.leb_spec 10000 d); [lia|done]. }
    destruct (reads_members (kv :: l) r ltac:(done) IH Hc Hr) as ((s & ->) & f0 & H0).
    exists (S f0). intros [|f] d t Hf Hd _; [lia|].
    match goal with |- dec_value _ _ ?x = _ =>
      replace x with ("{"%byte :: ("034"%byte :: s) ++ s2b "}" ++ t)
      by (simpl; by rewrite <- app_assoc) end.
    cbn [dec_value height] in *.
    change (start_of _) with (SObject (("034"%byte :: s) ++ s2b "}" ++ t)). cbn iota beta.
    destruct (Z.leb_spec 10000 d); [lia|]. rewrite eat_opens by tauto.
    change (s2b "}" ++ t) with ("}"%byte :: t). rewrite H0; [|lia|lia]. cbn [mbind option_bind].
    by rewrite foldl_obj_insert by (done || apply Forall_forall; constructor).
Qed.

(** What the encoder prints, the decoder reads back. *)
Lemma json_roundtrip v bs :
  clean v = true → (Z.of_nat (height v) ≤ 10000)%Z → json_marshal v = Some bs → json_decode bs = Some v.
Proof.
  intros Hc Hh H. destruct (any_reads_back v bs Hc H) as [f0 H0].
  rewrite (json_decode_fuel (max f0 (2 * length bs + 1))) by lia.
  specialize (H0 (max f0 (2 * length bs + 1)) 0%Z []). rewrite app_nil_r in H0.
  by rewrite H0 by (done || lia).
Qed.

(** ** Maps *)

Lemma string_compare_eq s t : String.compare s t = Eq → s = t.
Proof. apply String.compare_eq_iff. Qed.

Lemma string_compare_refl s : String.compare s s = Eq.
Proof. pose proof (String.compare_antisym s s) as H. by destruct (String.compare s s). Qed.

Lemma list_to_map_obj_insert k v l :
  list_to_map (obj_insert k v l) = (<[k := v]> (list_to_map l) : gmap string any).
Proof.
  induction l as [|[k' v'] l IH]; simpl; [done|].
  destruct (String.compare k k') eqn:E; simpl; [|done|].
  - apply string_compare_eq in E as ->. by rewrite insert_insert_eq.
  - rewrite IH. apply insert_insert_ne. intros ->. rewrite string_compare_refl in E. done.
Qed.

Lemma obj_insert_keys k v l : (obj_insert k v l).*1 ⊆ k :: l.*1.
Proof.
  induction l as [|[k' v'] l IH]; simpl; [done|].
  destruct (String.compare k k') eqn:E; simpl; set_solver.
Qed.

Lemma keys_sorted_cons k ks :
  Forall (λ k', string_lt k k' = true) ks → keys_sorted ks = true → keys_sorted (k :: ks) = true.
Proof. destruct 1; [done|]. cbn [keys_sorted]. intros ->. by rewrite andb_true_r. Qed.

Lemma obj_insert_sorted k v l : keys_sorted l.*1 = true → keys_sorted (obj_insert k v l).*1 = true.
Proof.
  induction l as [|[k' v'] l IH]; [done|]. intros Hs. cbn [obj_insert].
  pose proof (keys_sorted_below _ _ Hs) as Hb. pose proof (keys_sorted_tail _ _ Hs) as Ht.
  destruct (String.compare k k') eqn:E.
  - apply string_compare_eq in E as ->. exact Hs.
  - apply string_lt_iff in E. apply keys_sorted_cons; [|exact Hs]. constructor; [done|].
    eapply Forall_impl; [exact Hb|]. intros k2. by apply string_lt_trans.
  - apply keys_sorted_cons; [|by apply IH]. apply Forall_forall. intros k2 Hk2.
    apply (obj_insert_keys k v l) in Hk2. apply elem_of_cons in Hk2 as [->|Hk2].
    + apply string_lt_iff. simpl. by rewrite (String.compare_antisym k' k), E.
    + rewrite Forall_forall in Hb. by apply Hb.
Qed.

Lemma sorted_entries_spec (m : gmap string any) :
  keys_sorted (sorted_entries m).*1 = true ∧ list_to_map (sorted_entries m) = m.
Proof.
  unfold sorted_entries. split.
  - induction (map_to_list m) as [|[k v] l IH]; [done|]. by apply obj_insert_sorted.
  - rewrite <- (list_to_map_to_list m) at 2. induction (map_to_list m) as [|[k v] l IH]; [done|].
    simpl. by rewrite list_to_map_obj_insert, IH.
Qed.

Lemma keys_sorted_NoDup ks : keys_sorted ks = true → NoDup ks.
Proof.
  induction ks as [|k ks IH]; [constructor|]. intros H. apply NoDup_cons. split.
  - intros Hin. apply keys_sorted_below in H. rewrite Forall_forall in H. apply H, string_lt_iff in Hin.
    by rewrite string_compare_refl in Hin.
  - apply IH. by eapply keys_sorted_tail.
Qed.

Lemma foldl_insert_fresh (l : list (string * any)) (m : gmap string any) :
  NoDup l.*1 → foldl (λ m kv, <[kv.1 := kv.2]> m) m l = list_to_map l ∪ m.
Proof.
  revert m. induction l as [|[k v] l IH]; intros m; simpl; [by rewrite (left_id_L ∅ (∪))|].
  intros [Hk Hl]%NoDup_cons. rewrite IH by done. simpl.
  rewrite <- insert_union_r by (by apply not_elem_of_list_to_map_1). by rewrite insert_union_l.
Qed.

Lemma foldl_insert_scrub (l : list (string * any)) (m : gmap string any) :
  foldl (λ m kv, <[kv.1 := scrub kv.2]> m) m l =
  foldl (λ m kv, <[kv.1 := kv.2]> m) m (map (λ kv, (kv.1, scrub kv.2)) l).
Proof. revert m. induction l as [|kv l IH]; intros m; simpl; [done|]. apply IH. Qed.

(** A body that survives printing. *)
Definition clean_body (m : gmap string any) : Prop :=
  map_Forall (λ k v, valid_utf8 k = true ∧ clean v = true ∧ (Z.of_nat (height v) < 10000)%Z) m.

Lemma clean_finite v : clean v = true → has_range_error v = false ∧ scrub v = v.
Proof.
  induction v as [|b|f|s|l IH|l IH] using any_nested_ind; simpl; intros Hc; [done..| |done| |].
  - apply andb_prop in Hc as [_ ->]. done.
  - rewrite forallb_forall in Hc. rewrite Forall_forall in IH. split.
    + apply not_true_is_false. intros (v & Hv & H)%existsb_exists.
      destruct (IH v) as [? _]; [by apply list_elem_of_In|by apply Hc|congruence].
    + f_equal. rewrite <- (map_id l) at 2. apply map_ext_in. intros v Hv.
      apply IH; [by apply list_elem_of_In|by apply Hc].
  - apply andb_prop in Hc as [_ Hc]. rewrite forallb_forall in Hc. rewrite Forall_forall in IH. split.
    + apply not_true_is_false. intros (kv & Hv & H)%existsb_exists.
      destruct (IH kv) as [? _]; [by apply list_elem_of_In| |congruence].
      by apply Hc, andb_prop in Hv as [_ Hv].
    + f_equal. rewrite <- (map_id l) at 2. apply map_ext_in. intros [k v] Hv. f_equal. simpl.
      apply (IH (k, v)); [by apply list_elem_of_In|]. by apply Hc, andb_prop in Hv as [_ Hv].
Qed.

(** [json.Unmarshal] of what [json.Marshal] printed gives the map back. *)
Lemma json_map_roundtrip m bs :
  (∀ b, m = Some b → clean_body b) → json_marshal_map m = Some bs →
  json_unmarshal_map bs None = (m, false).
Proof.
  unfold json_marshal_map, json_unmarshal_map. destruct m as [m|]; [|by intros _ [= <-]].
  intros Hm H. specialize (Hm m eq_refl). destruct (sorted_entries_spec m) as [Hs Hl].
  set (l := sorted_entries m) in *.
  assert (∀ kv, kv ∈ l → valid_utf8 kv.1 = true ∧ clean kv.2 = true ∧ (Z.of_nat (height kv.2) < 10000)%Z) as He.
  { intros [k v] Hkv. apply Hm. rewrite <- Hl.
    apply elem_of_list_to_map_1; [by apply keys_sorted_NoDup|done]. }
  assert (clean (AObj l) = true) as Hc.
  { simpl. rewrite Hs. apply forallb_forall. intros kv Hkv%list_elem_of_In.
    destruct (He kv Hkv) as (-> & -> & _). done. }
  assert (Z.of_nat (height (AObj l)) ≤ 10000)%Z as Hh.
  { cbn [height]. enough (list_max (map (λ kv, height kv.2) l) ≤ Z.to_nat 9999) by lia.
    apply list_max_le, List.Forall_forall. intros n (kv & <- & Hkv)%in_map_iff.
    apply list_elem_of_In, He in Hkv. lia. }
  rewrite (json_roundtrip _ _ Hc Hh H). destruct (clean_finite _ Hc) as [-> Hscrub].
  injection Hscrub as Hscrub. f_equal. f_equal. simpl.
  rewrite foldl_insert_scrub, Hscrub.
  rewrite foldl_insert_fresh by (by apply keys_sorted_NoDup). rewrite Hl. apply map_union_empty.
Qed.
