(* ===== verification/JsonClean.v ===== *)
(** What encoding/json decodes is [clean], whatever the input: its strings are
    UTF-8, its floats exist, its objects have increasing keys, and it is no
    deeper than the limit. With [JsonProofs]: what was decoded can be encoded,
    and decodes to itself. *)

From Stdlib Require Import Strings.Byte String.
From Corelib Require Import SpecFloat.
From S2P Require Import Prelude GoFloat GoValue Decimals JsonProofs.

Local Open Scope string_scope.
Local Open Scope list_scope.
Local Open Scope nat_scope.

(** ** Well-formed UTF-8 *)

(** A sequence that is recognised whatever follows it. *)
Definition whole (r : bytes) : Prop := ∀ t, utf8_len (r ++ t) = Some (length r).

Lemma bval_bN n : (n < 256)%N → bval (bN n) = n.
Proof.
  intros Hn. unfold bN, bval. destruct (Byte.of_N n) as [b|] eqn:E; [by apply Byte.to_of_N|].
  apply Byte.of_N_None_iff in E. lia.
Qed.

Lemma whole_ascii b : (bval b <? 128)%N = true → whole [b].
Proof. intros Hb t. by apply utf8_len_ascii. Qed.

Lemma whole_rune_error : whole rune_error.
Proof. done. Qed.

Lemma whole_take s n : utf8_len s = Some n → whole (take n s).
Proof.
  intros H t. rewrite (utf8_len_app s n t H). apply utf8_len_bounds in H. rewrite length_take. f_equal. lia.
Qed.

(** Closes a comparison of bytes by arithmetic. *)
Ltac byte_cmp := repeat first
  [ rewrite (proj2 (N.ltb_lt _ _)) by lia | rewrite (proj2 (N.ltb_ge _ _)) by lia
  | rewrite (proj2 (N.leb_le _ _)) by lia | rewrite (proj2 (N.leb_gt _ _)) by lia
  | rewrite (proj2 (N.eqb_eq _ _)) by lia | rewrite (proj2 (N.eqb_neq _ _)) by lia ].

(** The six bits from the bit [2^k] on, and what is above them. *)
Lemma six_bits c k : k ≠ 0%N →
  (c / k = 64 * (c / (k * 64)) + (c / k) mod 64 ∧ (c / k) mod 64 < 64)%N.
Proof.
  intros Hk. rewrite <- N.Div0.div_div. split; [apply N.div_mod'|by apply N.mod_lt].
Qed.

Lemma whole_encode c : (c < 55296 ∨ 57344 ≤ c < 1114112)%N → whole (utf8_encode c).
Proof.
  intros Hc t. unfold utf8_encode. pose proof (six_bits c 1) as H0. rewrite N.div_1_r in H0.
  pose proof (six_bits c 64) as H1. pose proof (six_bits c 4096) as H2.
  change (1 * 64)%N with 64%N in H0. change (64 * 64)%N with 4096%N in H1.
  change (4096 * 64)%N with 262144%N in H2.
  specialize (H0 ltac:(done)). specialize (H1 ltac:(done)). specialize (H2 ltac:(done)).
  set (r0 := (c mod 64)%N) in *. set (q1 := (c / 64)%N) in *. set (r1 := (q1 mod 64)%N) in *.
  set (q2 := (c / 4096)%N) in *. set (r2 := (q2 mod 64)%N) in *. set (q3 := (c / 262144)%N) in *.
  clearbody r0 r1 r2 q1 q2 q3.
  destruct (N.ltb_spec c 128); [|destruct (N.ltb_spec c 2048); [|destruct (N.ltb_spec c 65536)]].
  - apply whole_ascii. rewrite bval_bN by lia. byte_cmp. done.
  - unfold utf8_len. cbn [app]. rewrite !bval_bN by lia. byte_cmp. done.
  - unfold utf8_len. cbn [app]. rewrite !bval_bN by lia.
    destruct (N.eq_dec q2 0%N); [|destruct (N.eq_dec q2 13%N)]; byte_cmp; done.
  - unfold utf8_len. cbn [app]. rewrite !bval_bN by lia.
    destruct (N.eq_dec q3 0%N); [|destruct (N.eq_dec q3 4%N)]; byte_cmp; done.
Qed.

(** Fuel beyond the length does not matter. *)
Lemma valid_fuel f f' s : valid_aux f s = true → length s ≤ f' → valid_aux f' s = true.
Proof.
  revert f' s. induction f as [|f IH]; intros f' [|b s]; try done; intros Hv Hl; (destruct f' as [|f']; [simpl in *; lia|]); try done.
  cbn [valid_aux] in *. destruct (utf8_len (b :: s)) as [n|] eqn:E; [|done].
  apply utf8_len_bounds in E. apply IH; [done|]. rewrite length_drop. simpl in *. lia.
Qed.

Lemma valid_whole r s : whole r → valid_aux (length s) s = true → valid_aux (length (r ++ s)) (r ++ s) = true.
Proof.
  intros Hr Hs. pose proof (Hr []) as Hr0. apply utf8_len_bounds in Hr0.
  apply (valid_fuel (S (length s))); [|done]. destruct r as [|b r]; [simpl in *; lia|].
  cbn [app valid_aux]. change (b :: r ++ s) with ((b :: r) ++ s). rewrite Hr.
  by rewrite drop_app_length.
Qed.

(** ** Strings *)

Lemma hex_val_lt b n : hex_val b = Some n → (n < 16)%N.
Proof.
  unfold hex_val. repeat (destruct (_ && _) eqn:E; [apply andb_prop in E as [E1%N.leb_le E2%N.leb_le];
    intros [= <-]; lia|clear E]). done.
Qed.

Lemma hex4_lt s u s' : hex4 s = Some (u, s') → (u < 65536)%N.
Proof.
  destruct s as [|a [|b [|c [|d s]]]]; try done. simpl.
  intros (x & Hx%hex_val_lt & (y & Hy%hex_val_lt & (z & Hz%hex_val_lt & (w & Hw%hex_val_lt & [= <- <-])%bind_Some)%bind_Some)%bind_Some)%bind_Some.
  lia.
Qed.

Lemma dec_u_whole u s : (u < 65536)%N → whole (dec_u u s).1.
Proof.
  intros Hu. unfold dec_u. destruct (_ && _) eqn:Eu.
  - destruct (_ ≫= _) as [[v s']|] eqn:Ev; [|apply whole_rune_error].
    destruct (_ && _ && _) eqn:Ec; [|apply whole_rune_error].
    apply andb_prop in Ec as [[Ec1%N.ltb_lt Ec2%N.leb_le]%andb_prop Ec3%N.ltb_lt].
    apply andb_prop in Eu as [Eu1%N.leb_le _]. apply whole_encode. lia.
  - apply andb_false_iff in Eu. rewrite N.leb_gt, N.ltb_ge in Eu. apply whole_encode. lia.
Qed.

Lemma next_piece_whole s r s' : next_piece s = PText r s' → whole r.
Proof.
  unfold next_piece. destruct s as [|b s]; [done|].
  destruct (Byte.eqb b "034") eqn:E1; [done|]. destruct (Byte.eqb b "\") eqn:E2.
  - destruct s as [|c s]; [done|]. destruct (Byte.eqb c "u").
    + destruct (hex4 s) as [[u s1]|] eqn:Eh; [|done]. apply hex4_lt in Eh.
      pose proof (dec_u_whole u s1 Eh) as Hw. destruct (dec_u u s1). by intros [= <- _].
    + unfold escaped. destruct (_ || _ || _) eqn:Ec.
      * intros [= <- _]. apply whole_ascii. repeat (apply orb_prop in Ec as [Ec|Ec]);
          apply Byte.byte_dec_bl in Ec as ->; done.
      * clear Ec. repeat (destruct (Byte.eqb c _); [intros E; injection E as <- <-; by apply whole_ascii|]). done.
  - destruct (_ <? 32)%N; [done|]. destruct (utf8_len (b :: s)) as [n|] eqn:E.
    + intros [= <- _]. by apply whole_take.
    + intros [= <- _]. apply whole_rune_error.
Qed.

Lemma dec_string_valid f s r s' : dec_string f s = Some (r, s') → valid_utf8 (b2s r) = true.
Proof.
  unfold valid_utf8. rewrite s2b_b2s. revert s r. induction f as [|f IH]; intros s r; [done|].
  cbn [dec_string]. destruct (next_piece s) as [rest|p rest|] eqn:E; [by intros [= <- _]| |done].
  intros ([x s1] & H & [= <- <-])%bind_Some. apply valid_whole; [by eapply next_piece_whole|by eapply IH].
Qed.

(** ** Values *)

(** [clean], but for numbers out of the range of float64, which are infinite
    until the decoder reports them. *)
Fixpoint almost_clean (v : any) : bool :=
  match v with
  | ANil | ABool _ => true
  | ANum f => valid_binary prec64 emax64 f
  | AStr s => valid_utf8 s
  | AArr l => forallb almost_clean l
  | AObj l => keys_sorted l.*1 && forallb (λ kv, valid_utf8 kv.1 && almost_clean kv.2) l
  end.

Lemma dec_number_almost s v s' : dec_number s = Some (v, s') → almost_clean v = true ∧ height v = 0.
Proof.
  unfold dec_number. destruct (match eat "-" s with Some _ => _ | None => _ end) as [neg s0].
  intros ([ip s1] & _ & H)%bind_Some. destruct (leading_zero ip); [done|].
  apply bind_Some in H as ([fp s2] & _ & H). apply bind_Some in H as ([x s3] & _ & H).
  cbv zeta in H. injection H as <- <-. split; [|done]. simpl. repeat case_match; try done. apply f_of_decimal_valid.
Qed.

Definition entry_ok (kv : string * any) : bool := valid_utf8 kv.1 && almost_clean kv.2.

Lemma obj_insert_all (P : string * any → Prop) k v l :
  P (k, v) → Forall P l → Forall P (obj_insert k v l).
Proof.
  intros Hk. induction 1 as [|[k' v'] l Hk' Hl IH]; cbn [obj_insert]; [by constructor|].
  destruct (String.compare k k'); repeat constructor; done.
Qed.

(** What the three decoders return, by induction on the fuel; [Z.of_nat (height
    v)] is at most what the limit leaves at their depth. *)
Definition entry_fits (depth : Z) (kv : string * any) : Prop :=
  entry_ok kv = true ∧ (Z.of_nat (height kv.2) + depth ≤ 10000)%Z.

Definition members_fit (depth : Z) (l : list (string * any)) : Prop :=
  keys_sorted l.*1 = true ∧ Forall (entry_fits depth) l.

Lemma members_fit_value depth l :
  (0 ≤ depth < 10000)%Z → members_fit (depth + 1) l →
  almost_clean (AObj l) = true ∧ (Z.of_nat (height (AObj l)) + depth ≤ 10000)%Z.
Proof.
  intros Hd [Hs Hl]. rewrite Forall_forall in Hl. split.
  - cbn [almost_clean]. rewrite Hs. apply forallb_forall. intros kv Hkv%list_elem_of_In.
    apply (Hl kv Hkv).
  - cbn [height]. enough (list_max (map (λ kv, height kv.2) l) ≤ Z.to_nat (9999 - depth)) by lia.
    apply list_max_le, List.Forall_forall. intros n (kv & <- & Hkv)%in_map_iff.
    apply list_elem_of_In, Hl in Hkv as [_ H]. lia.
Qed.

Lemma elements_fit_value depth l :
  (0 ≤ depth < 10000)%Z →
  Forall (λ v, almost_clean v = true ∧ (Z.of_nat (height v) + (depth + 1) ≤ 10000)%Z) l →
  almost_clean (AArr l) = true ∧ (Z.of_nat (height (AArr l)) + depth ≤ 10000)%Z.
Proof.
  intros Hd Hl. rewrite Forall_forall in Hl. split.
  - cbn [almost_clean]. apply forallb_forall. intros v Hv%list_elem_of_In. apply (Hl v Hv).
  - cbn [height]. enough (list_max (map height l) ≤ Z.to_nat (9999 - depth)) by lia.
    apply list_max_le, List.Forall_forall. intros n (v & <- & Hv)%in_map_iff.
    apply list_elem_of_In, Hl in Hv as [_ H]. lia.
Qed.

Lemma start_of_literal s l v : start_of s = SLiteral l v → height v = 0 ∧ almost_clean v = true.
Proof.
  unfold start_of. destruct s as [|b s]; [done|].
  repeat (destruct (Byte.eqb b _); [first [done|by intros [= _ <-]]|]). done.
Qed.

Lemma dec_literal_value l v w s s' : dec_literal l v s = Some (w, s') → w = v.
Proof. unfold dec_literal. by intros (x & _ & [= <- _])%bind_Some. Qed.

Lemma dec_almost fuel :
  (∀ depth s v s', (0 ≤ depth ≤ 10000)%Z → dec_value fuel depth s = Some (v, s') →
     almost_clean v = true ∧ (Z.of_nat (height v) + depth ≤ 10000)%Z) ∧
  (∀ depth s acc l s', (0 ≤ depth ≤ 10000)%Z → members_fit depth acc →
     dec_members fuel depth s acc = Some (l, s') → members_fit depth l) ∧
  (∀ depth s l s', (0 ≤ depth ≤ 10000)%Z → dec_elements fuel depth s = Some (l, s') →
     Forall (λ v, almost_clean v = true ∧ (Z.of_nat (height v) + depth ≤ 10000)%Z) l).
Proof.
  induction fuel as [|fuel (IHv & IHm & IHe)]; [done|]. split_and!.
  - intros depth s v s' Hd. cbn [dec_value].
    assert (∀ x : any, height x = 0 → almost_clean x = true →
      almost_clean x = true ∧ (Z.of_nat (height x) + depth ≤ 10000)%Z) as Hflat by (intros; split; [done|lia]).
    destruct (start_of (skip_ws s)) as [s1|s1|s1|l w|] eqn:Es.
    + destruct (Z.leb_spec 10000 depth); [done|]. destruct (eat "}" _) as [s2|].
      { intros [= <- _]. apply members_fit_value; [lia|]. by split. }
      intros ([l s2] & H2 & [= <- _])%bind_Some. apply members_fit_value; [lia|].
      eapply IHm; [| |exact H2]; [lia|]. by split.
    + destruct (Z.leb_spec 10000 depth); [done|]. destruct (eat "]" _) as [s2|].
      { intros [= <- _]. apply elements_fit_value; [lia|constructor]. }
      intros ([l s2] & H2 & [= <- _])%bind_Some. apply elements_fit_value; [lia|].
      eapply IHe; [|exact H2]. lia.
    + intros ([r s2] & H2%dec_string_valid & [= <- _])%bind_Some. by apply Hflat.
    + intros ->%dec_literal_value. apply start_of_literal in Es as [? ?]. by apply Hflat.
    + intros [Hc Hh]%dec_number_almost. by apply Hflat.
  - intros depth s acc l s' Hd Hacc. cbn [dec_members].
    intros (s1 & _ & ([k s2] & Hk%dec_string_valid & (s3 & _ & ([v s4] & Hv & H)%bind_Some)%bind_Some)%bind_Some)%bind_Some.
    apply (IHv depth) in Hv as [Hv Hh]; [|done].
    assert (members_fit depth (obj_insert (b2s k) v acc)) as Hins.
    { destruct Hacc as [Hs Ha]. split; [by apply obj_insert_sorted|]. apply obj_insert_all; [|done].
      split; [|done]. unfold entry_ok. simpl. by rewrite Hk, Hv. }
    destruct (eat "," (skip_ws s4)) as [s5|]; [by eapply IHm|].
    by apply bind_Some in H as (s5 & _ & [= <- _]).
  - intros depth s l s' Hd. cbn [dec_elements]. intros ([v s1] & Hv & H)%bind_Some.
    apply (IHv depth) in Hv as Hv'; [|done].
    destruct (eat "," (skip_ws s1)) as [s2|].
    + apply bind_Some in H as ([l' s3] & Hl & [= <- _]). constructor; [done|]. by eapply IHe.
    + apply bind_Some in H as (s2 & _ & [= <- _]). by apply Forall_singleton.
Qed.

(** Without a number out of range the value is clean. *)
Lemma almost_clean_clean v : almost_clean v = true → has_range_error v = false → clean v = true.
Proof.
  induction v as [|b|f|s|l IH|l IH] using any_nested_ind; cbn [almost_clean has_range_error clean];
    intros Hc He; [done..| |done| |].
  - apply negb_false_iff in He. unfold valid_float. by rewrite Hc, He.
  - rewrite Forall_forall in IH. apply forallb_forall. intros v Hv.
    rewrite forallb_forall in Hc. apply IH; [by apply list_elem_of_In|by apply Hc|].
    apply not_true_is_false. intros H. apply not_true_iff_false in He. apply He.
    apply existsb_exists. by exists v.
  - apply andb_prop in Hc as [-> Hc]. cbn [andb]. rewrite Forall_forall in IH.
    apply forallb_forall. intros kv Hkv. rewrite forallb_forall in Hc.
    pose proof (Hc kv Hkv) as [-> Hcv]%andb_prop. cbn [andb].
    apply IH; [by apply list_elem_of_In|done|]. apply not_true_is_false. intros H.
    apply not_true_iff_false in He. apply He. apply existsb_exists. by exists kv.
Qed.

Lemma json_decode_clean s v :
  json_decode s = Some v → has_range_error v = false →
  clean v = true ∧ (Z.of_nat (height v) ≤ 10000)%Z.
Proof.
  unfold json_decode. destruct (dec_value _ 0 s) as [[w s']|] eqn:E; [|done].
  destruct (skip_ws s'); [|done]. intros [= ->] He.
  destruct (proj1 (dec_almost _) 0%Z s v s' ltac:(lia) E) as [Hc Hh].
  split; [by apply almost_clean_clean|lia].
Qed.

Lemma join_opt_all sep l : Forall is_Some l → is_Some (join_opt sep l).
Proof.
  induction 1 as [|x l Hx Hl IH]; [by eexists|]. cbn [join_opt]. destruct l as [|y l]; [done|].
  destruct Hx as [b ->], IH as [r ->]. by eexists.
Qed.

Lemma marshal_clean v : clean v = true → is_Some (json_marshal v).
Proof.
  induction v as [|b|f|s|l IH|l IH] using any_nested_ind; cbn [clean json_marshal]; intros Hc.
  - by eexists.
  - by eexists.
  - destruct (format_json_reads f Hc) as (bs & -> & _). by eexists.
  - by eexists.
  - rewrite forallb_forall in Hc. rewrite Forall_forall in IH.
    destruct (join_opt_all (s2b ",") (map json_marshal l)) as [r ->]; [|by eexists].
    apply Forall_forall. intros x Hx. apply list_elem_of_In, in_map_iff in Hx as (v & <- & Hv).
    apply IH; [by apply list_elem_of_In|by apply Hc].
  - apply andb_prop in Hc as [_ Hc]. rewrite forallb_forall in Hc. rewrite Forall_forall in IH.
    match goal with |- is_Some (_ ← join_opt _ ?ls; _) =>
      destruct (join_opt_all (s2b ",") ls) as [r ->]; [|by eexists] end.
    apply Forall_forall. intros x Hx. apply list_elem_of_In, in_map_iff in Hx as (kv & <- & Hv).
    destruct (IH kv) as [bs ->]; [by apply list_elem_of_In| |by eexists].
    by apply Hc, andb_prop in Hv as [_ Hv].
Qed.

(** Decoding, encoding and decoding again: a document that decodes can be
    encoded, and the encoding decodes to the same value. *)
Theorem json_normal_form s v :
  json_decode s = Some v → has_range_error v = false →
  ∃ bs, json_marshal v = Some bs ∧ json_decode bs = Some v.
Proof.
  intros Hd He. destruct (json_decode_clean s v Hd He) as [Hc Hh].
  destruct (json_marshal v) as [bs|] eqn:Em.
  - exists bs. split; [done|]. by apply json_roundtrip.
  - destruct (marshal_clean v Hc) as [bs H]. congruence.
Qed.

(** What [json.Unmarshal] leaves in a map that was nil or clean is clean. *)
Lemma unmarshal_clean s m m' :
  (∀ b, m = Some b → clean_body b) → json_unmarshal_map s m = (m', false) →
  ∀ b, m' = Some b → clean_body b.
Proof.
  intros Hm. unfold json_unmarshal_map. destruct (json_decode s) as [[| | | | |l]|] eqn:E; try done.
  { by intros [= <-]. }
  intros [= <- He] b [= <-]. destruct (json_decode_clean s _ E He) as [Hc Hh].
  destruct (clean_finite _ Hc) as [_ Hs]. injection Hs as Hs.
  assert (Forall (λ kv, valid_utf8 kv.1 = true ∧ clean kv.2 = true ∧ (Z.of_nat (height kv.2) < 10000)%Z) l)
    as Hl.
  { cbn [clean] in Hc. apply andb_prop in Hc as [_ Hc]. rewrite forallb_forall in Hc.
    apply Forall_forall. intros kv Hkv. pose proof (Hc kv (proj1 (list_elem_of_In _ _) Hkv)) as [H1 H2]%andb_prop.
    split; [done|]. split; [done|]. cbn [height] in Hh.
    assert (height kv.2 ≤ list_max (map (λ kv, height kv.2) l)); [|lia].
    pose proof (proj1 (list_max_le (map (λ kv, height kv.2) l) _) (Nat.le_refl _)) as Hall.
    rewrite List.Forall_forall in Hall. apply Hall, in_map_iff. exists kv.
    split; [done|by apply list_elem_of_In]. }
  rewrite foldl_insert_scrub, Hs. clear -Hm Hl.
  assert (clean_body (default ∅ m)) as H0 by (destruct m as [b|]; [by apply Hm|apply map_Forall_empty]).
  clear Hm. revert H0. generalize (default ∅ m : gmap string any) as b.
  induction Hl as [|[k v] l Hkv _ IH]; intros b Hb; [done|]. simpl. apply IH.
  by apply map_Forall_insert_2.
Qed.
