(* ===== verification/Envoy.v ===== *)
(** The ext_proc vocabulary of pkg/common/envoy and pkg/common/error: the
    messages the proxy sends and receives (the fields the program uses of the
    protobuf types), header access, chunked bodies, and the mapping of errors
    to immediate responses. *)

From Stdlib Require Import String.
From S2P Require Import Prelude GoFloat GoValue.

Local Open Scope string_scope.
Local Open Scope list_scope.

(** ** Errors *)

(** The Go [error] values the program builds: [errcommon.Error], the
    [plugin.ErrNotFound] sentinel, [errors.New] (or [fmt.Errorf] without [%w]),
    [fmt.Errorf("prefix%w", inner)], and a gRPC status error. *)
Inductive goerror : Type :=
| EError (Code Msg : string)
| ENotFound
| ENew (text : string)
| EWrap (prefix : string) (inner : goerror)
| EStatus (code : Z) (text : string).

#[export] Instance goerror_eq_dec : EqDecision goerror.
Proof. solve_decision. Defined.

(** [err.Error()]. *)
Fixpoint error_text (e : goerror) : string :=
  match e with
  | EError c m => "inference error: " +:+ c +:+ " - " +:+ m
  | ENotFound => "not found"
  | ENew t => t
  | EWrap p e => p +:+ error_text e
  | EStatus _ t => t
  end.

(** [errors.Is(err, plugin.ErrNotFound)]. *)
Fixpoint is_not_found (e : goerror) : bool :=
  match e with
  | ENotFound => true
  | EWrap _ e => is_not_found e
  | _ => false
  end.

Module ErrCommon.

Definition Unknown : string := "Unknown".
Definition BadRequest : string := "BadRequest".
Definition Unauthorized : string := "Unauthorized".
Definition Forbidden : string := "Forbidden".
Definition NotFound : string := "NotFound".
Definition Internal : string := "Internal".
Definition ServiceUnavailable : string := "ServiceUnavailable".
Definition ModelServerError : string := "ModelServerError".
Definition ResourceExhausted : string := "ResourceExhausted".

(** The type assertion sees the error itself, not what it wraps. *)
Definition CanonicalCode (e : goerror) : string :=
  match e with
  | EError c _ => c
  | _ => Unknown
  end.

End ErrCommon.

(** ** Messages *)

Record HeaderValue := { Key : string; Value : string; RawValue : bytes }.

(** [HttpHeaders]: the inner header map pointer may be nil. *)
Record HttpHeaders := { Headers_of : option (list HeaderValue); EndOfStream : bool }.

(** [headers.GetEndOfStream()], safe on a nil pointer. *)
Definition GetEndOfStream (h : option HttpHeaders) : bool :=
  match h with Some h => EndOfStream h | None => false end.

Inductive AppendAction := OVERWRITE_IF_EXISTS_OR_ADD.

Record HeaderValueOption := { Header : HeaderValue; Append : AppendAction }.

Record HeaderMutation :=
  { SetHeaders : list HeaderValueOption; RemoveHeaders : list string }.

Record StreamedBodyResponse := { sb_Body : bytes; sb_EndOfStream : bool }.

Record CommonResponse :=
  { ClearRouteCache : bool;
    HeaderMutation_of : option HeaderMutation;
    BodyMutation_of : option StreamedBodyResponse }.

Inductive ProcessingResponse : Type :=
| RequestHeadersResp (r : option CommonResponse)
| RequestBodyResp (r : CommonResponse)
| RequestTrailersResp
| ResponseHeadersResp (r : option CommonResponse)
| ResponseBodyResp (r : CommonResponse)
| ResponseTrailersResp
| ImmediateResp (code : Z) (body : bytes).

Definition streamed (body : bytes) (eos : bool) : CommonResponse :=
  {| ClearRouteCache := false; HeaderMutation_of := None;
     BodyMutation_of := Some {| sb_Body := body; sb_EndOfStream := eos |} |}.

Definition header_mutation (clear : bool) (set : list HeaderValueOption) (rem : list string) :
    CommonResponse :=
  {| ClearRouteCache := clear;
     HeaderMutation_of := Some {| SetHeaders := set; RemoveHeaders := rem |};
     BodyMutation_of := None |}.

(** ** Headers *)

Definition GetHeaderValue (h : HeaderValue) : string :=
  match RawValue h with
  | [] => Value h
  | raw => b2s raw
  end.

Fixpoint find_header (lowerKey : string) (hs : list HeaderValue) : string :=
  match hs with
  | [] => ""
  | h :: hs => if String.eqb (to_lower (Key h)) lowerKey then GetHeaderValue h
               else find_header lowerKey hs
  end.

Definition ExtractHeaderValue (req : option HttpHeaders) (headerKey : string) : string :=
  let headerKeyInLower := to_lower headerKey in
  match req with
  | Some {| Headers_of := Some hs |} => find_header headerKeyInLower hs
  | _ => ""
  end.

Definition GenerateHeadersMutation `{MapOrder} (headers : gmap string string) :
    list HeaderValueOption :=
  (fun kv => {| Header := {| Key := kv.1; Value := ""; RawValue := s2b kv.2 |};
                Append := OVERWRITE_IF_EXISTS_OR_ADD |}) <$> go_range headers.

(** ** Chunked bodies *)

Definition BodyByteLimit : Z := 62000.

(** [b[i : i+n]]. *)
Definition bslice (b : bytes) (i n : Z) : bytes := take (Z.to_nat n) (drop (Z.to_nat i) b).

(** The [for startingIndex < bodyLen] loop. [fuel] is the number of rounds
    left; the body's length is enough, as a round advances by at least 1. *)
Fixpoint chunk_loop (fuel : nat) (limit : Z) (bodyBytes : bytes) (setEos : bool)
    (startingIndex : Z) : list CommonResponse :=
  let bodyLen := Z.of_nat (length bodyBytes) in
  match fuel with
  | O => []
  | S fuel =>
      if (startingIndex <? bodyLen)%Z then
        let len := Z.min (bodyLen - startingIndex) limit in
        let chunk := bslice bodyBytes startingIndex len in
        let eos := setEos && (bodyLen <=? len + startingIndex)%Z in
        streamed chunk eos :: chunk_loop fuel limit bodyBytes setEos (startingIndex + len)
      else []
  end.

Definition BuildChunkedBodyResponses (bodyBytes : bytes) (setEos : bool) : list CommonResponse :=
  match bodyBytes with
  | [] => [streamed bodyBytes setEos]
  | _ => chunk_loop (length bodyBytes) BodyByteLimit bodyBytes setEos 0
  end.

Definition AddStreamedResponseBody (responses : list ProcessingResponse) (body : bytes) :
    list ProcessingResponse :=
  responses ++ (ResponseBodyResp <$> BuildChunkedBodyResponses body true).

(** ** Errors as responses *)

(** google.golang.org/grpc's [status.Code]: the gRPC code an error carries. *)
Class GrpcStatus : Type := { status_Code : goerror → Z }.

(** codes.Unknown *)
Definition codes_Unknown : Z := 2.

#[export] Instance grpc_status_std : GrpcStatus | 100 := {
  status_Code e := match e with EStatus c _ => c | _ => codes_Unknown end
}.

Definition http_code (code : string) : option Z :=
  if String.eqb code ErrCommon.BadRequest then Some 400%Z
  else if String.eqb code ErrCommon.Unauthorized then Some 401%Z
  else if String.eqb code ErrCommon.Forbidden then Some 403%Z
  else if String.eqb code ErrCommon.NotFound then Some 404%Z
  else if String.eqb code ErrCommon.ResourceExhausted then Some 429%Z
  else if String.eqb code ErrCommon.Internal then Some 500%Z
  else if String.eqb code ErrCommon.ServiceUnavailable then Some 503%Z
  else None.

(** [inl] is the response, [inr] the returned error. An empty message leaves
    the body unset, which is the empty body. *)
Definition BuildErrResponse `{GrpcStatus} (err : goerror) : ProcessingResponse + goerror :=
  match http_code (ErrCommon.CanonicalCode err) with
  | None => inr (EStatus (status_Code err) ("failed to handle request: " +:+ error_text err))
  | Some c => inl (ImmediateResp c (s2b (error_text err)))
  end.

(** ** Facts about chunks *)

(** The bytes and the end-of-stream flag a streamed response carries. *)
Definition chunk_body (r : CommonResponse) : bytes :=
  match BodyMutation_of r with Some b => sb_Body b | None => [] end.
Definition chunk_eos (r : CommonResponse) : bool :=
  match BodyMutation_of r with Some b => sb_EndOfStream b | None => false end.

Section chunks.
Variables (limit : Z) (body : bytes) (setEos : bool).
Hypothesis limit_pos : (0 < limit)%Z.
Let n := Z.of_nat (length body).

Lemma length_bslice b i k :
  (0 ≤ i)%Z → (0 ≤ k)%Z → (i + k ≤ Z.of_nat (length b))%Z →
  Z.of_nat (length (bslice b i k)) = k.
Proof. intros. unfold bslice. rewrite length_take, length_drop. lia. Qed.

Lemma chunk_loop_concat fuel i :
  (0 ≤ i ≤ n)%Z → (n - i ≤ Z.of_nat fuel)%Z →
  mjoin (chunk_body <$> chunk_loop fuel limit body setEos i) = drop (Z.to_nat i) body.
Proof using limit_pos.
  revert i. induction fuel as [|fuel IH]; intros i Hi Hf; simpl.
  - rewrite drop_ge; [done|]. lia.
  - fold n. destruct (Z.ltb_spec i n) as [Hlt|Hge]; simpl.
    + rewrite IH by lia. unfold bslice.
      rewrite <- (take_drop (Z.to_nat (Z.min (n - i) limit)) (drop (Z.to_nat i) body)) at 2.
      f_equal. rewrite drop_drop. f_equal. lia.
    + rewrite drop_ge; [done|]. lia.
Qed.

Lemma chunk_loop_sizes fuel i :
  (0 ≤ i)%Z →
  Forall (fun r => 1 ≤ Z.of_nat (length (chunk_body r)) ≤ limit)%Z
    (chunk_loop fuel limit body setEos i).
Proof using limit_pos.
  revert i. induction fuel as [|fuel IH]; intros i Hi; simpl; [constructor|].
  fold n. destruct (Z.ltb_spec i n) as [Hlt|Hge]; [|constructor].
  constructor; [|apply IH; lia].
  cbn [chunk_body streamed BodyMutation_of sb_Body].
  pose proof (length_bslice body i (Z.min (n - i) limit)) as E. lia.
Qed.

(** Exactly the last chunk carries the end-of-stream flag. *)
Lemma chunk_loop_eos fuel i :
  (0 ≤ i < n)%Z → (n - i ≤ Z.of_nat fuel)%Z →
  ∃ init last, chunk_loop fuel limit body setEos i = init ++ [last] ∧
    chunk_eos last = setEos ∧ Forall (fun r => chunk_eos r = false) init.
Proof using limit_pos.
  revert i. induction fuel as [|fuel IH]; intros i Hi Hf; [lia|]; simpl.
  fold n. destruct (Z.ltb_spec i n) as [Hlt|Hge]; [|lia].
  destruct (Z.leb_spec n (Z.min (n - i) limit + i)) as [Hl|Hl].
  - eexists [], _. split; [|split; [|constructor]].
    + destruct fuel; simpl; [done|]. fold n.
      destruct (Z.ltb_spec (i + Z.min (n - i) limit) n); [lia|done].
    + simpl. by rewrite andb_true_r.
  - destruct (IH (i + Z.min (n - i) limit)%Z) as (init & last & -> & ? & ?); [lia|lia|].
    exists (streamed (bslice body i (Z.min (n - i) limit)) (setEos && false) :: init), last.
    split; [done|]. split; [done|]. constructor; [|done]. simpl. by rewrite andb_false_r.
Qed.
End chunks.

(** A list of chunks streams [body]: they concatenate to it, respect the
    limit, and only the last one says [eos]. *)
Definition streams (body : bytes) (eos : bool) (rs : list CommonResponse) : Prop :=
  mjoin (chunk_body <$> rs) = body ∧
  Forall (fun r => Z.of_nat (length (chunk_body r)) ≤ BodyByteLimit)%Z rs ∧
  ∃ init last, rs = init ++ [last] ∧ chunk_eos last = eos ∧
    Forall (fun r => chunk_eos r = false) init.

Lemma BuildChunked_streams body eos : streams body eos (BuildChunkedBodyResponses body eos).
Proof.
  unfold streams, BuildChunkedBodyResponses. destruct body as [|b body].
  - split_and!; [done| by repeat constructor |]. by exists [], (streamed [] eos).
  - set (bs := b :: body). split_and!.
    + rewrite chunk_loop_concat; [done|unfold BodyByteLimit; lia|lia|lia].
    + eapply Forall_impl; [apply chunk_loop_sizes; unfold BodyByteLimit; lia|].
      simpl. intros; lia.
    + apply chunk_loop_eos; [unfold BodyByteLimit; lia | simpl; lia | lia].
Qed.

(** A body that is not empty is never sent as an empty chunk. *)
Lemma BuildChunked_nonempty body eos :
  body ≠ [] → Forall (fun r => chunk_body r ≠ []) (BuildChunkedBodyResponses body eos).
Proof.
  intros Hb. destruct body as [|b body]; [done|]. unfold BuildChunkedBodyResponses.
  eapply Forall_impl; [apply chunk_loop_sizes; unfold BodyByteLimit; lia|].
  intros r [Hr _] E. rewrite E in Hr. simpl in Hr. lia.
Qed.
