(* ===== verification/Message.v ===== *)
(** The plugin framework's data: inference messages and their mutation log
    (pkg/framework/interface/requesthandling/types.go), the cycle state and
    typed names (pkg/framework/interface/plugin), profiles and the request and
    response plugin interfaces.

    A plugin method takes the state it can reach through its receiver and its
    pointer arguments - the world [W] of everything shared between requests,
    the cycle state, the message - and returns all of it with its error. *)

From Stdlib Require Import String.
From S2P Require Import Prelude GoFloat GoValue Envoy.

Local Open Scope string_scope.
Local Open Scope list_scope.

(** ** Typed names *)

Record TypedName := { Type_ : string; Name : string }.

#[export] Instance TypedName_eq_dec : EqDecision TypedName.
Proof. solve_decision. Defined.

Definition TypedName_String (tn : TypedName) : string := Name tn +:+ "/" +:+ Type_ tn.

(** ** Cycle state *)

Abbreviation CycleState := (gmap string any).

Definition NewCycleState : CycleState := ∅.

Definition Read (c : CycleState) (key : string) : any + goerror :=
  match c !! key with
  | Some v => inl v
  | None => inr ENotFound
  end.

Definition Write (c : CycleState) (key : string) (v : any) : CycleState := <[key := v]> c.

Definition Delete (c : CycleState) (key : string) : CycleState := delete key c.

(** The dynamic type's name, as [%T] prints it. *)
Definition type_name (v : any) : string :=
  match v with
  | ANil => "<nil>"
  | ABool _ => "bool"
  | ANum _ => "float64"
  | AStr _ => "string"
  | AArr _ => "[]interface {}"
  | AObj _ => "map[string]interface {}"
  end.

(** [ReadCycleStateKey[T]] with the type assertion to [T] as [assert]. *)
Definition ReadCycleStateKey {T} (assert : any → option T) (c : CycleState) (key : string) :
    T + goerror :=
  match Read c key with
  | inr e => inr e
  | inl raw =>
      match assert raw with
      | Some v => inl v
      | None => inr (ENew ("unexpected type for key " +:+ key +:+ ": got " +:+ type_name raw))
      end
  end.

(** ** Messages *)

(** [Body = None] is the nil map: reading it is fine, storing panics. *)
Record InferenceMessage :=
  { Headers : gmap string string;
    Body : option (gmap string any);
    mutatedHeaders : gmap string string;
    removedHeaders : gset string;
    bodyMutated : bool }.

Abbreviation InferenceRequest := InferenceMessage.

Record InferenceResponse :=
  { rmsg : InferenceMessage;
    CurrentChunk : string;
    chunkMutated : bool }.

Definition newInferenceMessage : InferenceMessage :=
  {| Headers := ∅; Body := Some ∅; mutatedHeaders := ∅; removedHeaders := ∅;
     bodyMutated := false |}.

Definition NewInferenceRequest : InferenceRequest := newInferenceMessage.

Definition NewInferenceResponse : InferenceResponse :=
  {| rmsg := newInferenceMessage; CurrentChunk := ""; chunkMutated := false |}.

Definition with_headers (m : InferenceMessage) (h : gmap string string) : InferenceMessage :=
  {| Headers := h; Body := Body m; mutatedHeaders := mutatedHeaders m;
     removedHeaders := removedHeaders m; bodyMutated := bodyMutated m |}.

Definition with_body (m : InferenceMessage) (b : option (gmap string any)) : InferenceMessage :=
  {| Headers := Headers m; Body := b; mutatedHeaders := mutatedHeaders m;
     removedHeaders := removedHeaders m; bodyMutated := bodyMutated m |}.

Definition with_rmsg (r : InferenceResponse) (m : InferenceMessage) : InferenceResponse :=
  {| rmsg := m; CurrentChunk := CurrentChunk r; chunkMutated := chunkMutated r |}.

(** [m.Body[key]]. *)
Definition body_lookup (m : InferenceMessage) (key : string) : option any :=
  match Body m with Some b => b !! key | None => None end.

(** [m.Body[key].(string)], the zero value when the assertion fails. *)
Definition body_string (m : InferenceMessage) (key : string) : string :=
  match body_lookup m key with
  | Some v => default "" (as_string v)
  | None => ""
  end.

Definition SetHeader (m : InferenceMessage) (key value : string) : InferenceMessage :=
  if bool_decide (Headers m !! key = Some value) then m
  else {| Headers := <[key := value]> (Headers m); Body := Body m;
          mutatedHeaders := <[key := value]> (mutatedHeaders m);
          removedHeaders := removedHeaders m ∖ {[key]};
          bodyMutated := bodyMutated m |}.

Definition RemoveHeader (m : InferenceMessage) (key : string) : InferenceMessage :=
  match Headers m !! key with
  | Some _ =>
      {| Headers := delete key (Headers m); Body := Body m;
         mutatedHeaders := delete key (mutatedHeaders m);
         removedHeaders := removedHeaders m ∪ {[key]};
         bodyMutated := bodyMutated m |}
  | None => m
  end.

Definition MutatedHeaders (m : InferenceMessage) : gmap string string := mutatedHeaders m.

(** A [sets.Set] is a map to the empty struct, ranged over in map order. *)
Definition RemovedHeaders `{MapOrder} (m : InferenceMessage) : list string :=
  range_set (removedHeaders m).

Definition SetBody (m : InferenceMessage) (b : option (gmap string any)) : InferenceMessage :=
  {| Headers := Headers m; Body := b; mutatedHeaders := mutatedHeaders m;
     removedHeaders := removedHeaders m; bodyMutated := true |}.

(** Storing in a nil map panics. *)
Definition SetBodyField (m : InferenceMessage) (key : string) (value : any) :
    res InferenceMessage :=
  match Body m with
  | Some b => Ok (SetBody m (Some (<[key := value]> b)))
  | None => Panic "assignment to entry in nil map"
  end.

Definition RemoveBodyField (m : InferenceMessage) (key : string) : InferenceMessage :=
  match Body m with
  | Some b => match b !! key with
              | Some _ => SetBody m (Some (delete key b))
              | None => m
              end
  | None => m
  end.

Definition BodyMutated (m : InferenceMessage) : bool := bodyMutated m.

Definition SetChunk (r : InferenceResponse) (chunk : string) : InferenceResponse :=
  {| rmsg := rmsg r; CurrentChunk := chunk; chunkMutated := true |}.

Definition ChunkMutated (r : InferenceResponse) : bool := chunkMutated r.

Definition ResetChunkState (r : InferenceResponse) (chunk : string) : InferenceResponse :=
  {| rmsg := rmsg r; CurrentChunk := chunk; chunkMutated := false |}.

(** ** Plugin interfaces *)

(** What a method that takes a cycle state and a message returns. *)
Abbreviation called W M := (res (W * CycleState * M * option goerror)).

Section plugins.
Context {W : Type}.

Record RequestProcessor :=
  { rp_name : TypedName;
    ProcessRequest : W → CycleState → InferenceRequest → called W InferenceRequest }.

Record ResponseProcessor :=
  { rsp_name : TypedName;
    ProcessResponse : W → CycleState → InferenceResponse → called W InferenceResponse }.

Record ResponseHeadersProcessor :=
  { rhp_name : TypedName;
    ProcessResponseHeaders : W → CycleState → InferenceResponse → called W InferenceResponse }.

Record ResponseChunkProcessor :=
  { rcp_name : TypedName;
    ProcessResponseChunk :
      W → CycleState → InferenceResponse → bool → called W InferenceResponse }.

(** The zero [Profile] is the empty profile. [ModelSelectorPlugins] are
    wired into a model selector while loading and not used afterwards: they
    are in the loader's model, not here. *)
Record Profile :=
  { RequestPlugins : list RequestProcessor;
    ResponsePlugins : list ResponseProcessor;
    ResponseChunkProcessors : list ResponseChunkProcessor;
    NeedsResponseBuffering : bool }.

Definition NewProfile : Profile :=
  {| RequestPlugins := []; ResponsePlugins := []; ResponseChunkProcessors := [];
     NeedsResponseBuffering := false |}.

(** [Pick] returns a profile pointer, which may be nil, and an error. *)
Record ProfilePicker :=
  { pp_name : TypedName;
    PickProfile : W → CycleState → InferenceRequest → gmap string Profile →
      res (W * CycleState * InferenceRequest * (option Profile * option goerror)) }.
End plugins.

Arguments RequestProcessor : clear implicits.
Arguments ResponseProcessor : clear implicits.
Arguments ResponseHeadersProcessor : clear implicits.
Arguments ResponseChunkProcessor : clear implicits.
Arguments Profile : clear implicits.
Arguments ProfilePicker : clear implicits.

(** ** Data-layer events *)

Inductive Event : Type :=
| RequestEvent (Request : InferenceRequest) (cycle : CycleState)
| ResponseEvent (Request : InferenceRequest) (Response : InferenceResponse)
    (cycle : CycleState) (Duration TTFT : Z)
| OtherEvent (Type' : string) (Payload : any).

(** ** What the mutation log means *)

(** The proxy applies a header mutation: it drops the removed names and
    overwrites or adds the set ones. *)
Definition apply_mutation (h mutated : gmap string string) (removed : gset string) :
    gmap string string :=
  mutated ∪ filter (λ kv, kv.1 ∉ removed) h.

(** The message's log turns the headers [h0] the proxy has into the headers
    the plugins see, and never sets and removes the same name. *)
Record tracks (h0 : gmap string string) (m : InferenceMessage) : Prop :=
  { tracks_apply : apply_mutation h0 (mutatedHeaders m) (removedHeaders m) = Headers m;
    tracks_disjoint : dom (mutatedHeaders m) ## removedHeaders m }.

Lemma lookup_apply_mutation h mu rm k :
  apply_mutation h mu rm !! k =
    match mu !! k with
    | Some v => Some v
    | None => if bool_decide (k ∈ rm) then None else h !! k
    end.
Proof.
  unfold apply_mutation. rewrite lookup_union, map_lookup_filter.
  destruct (mu !! k), (h !! k); simpl; try case_guard; try case_bool_decide;
    simpl in *; done.
Qed.

Lemma tracks_lookup h0 m k :
  tracks h0 m →
  Headers m !! k = match mutatedHeaders m !! k with
                   | Some v => Some v
                   | None => if bool_decide (k ∈ removedHeaders m) then None else h0 !! k
                   end.
Proof. intros [<- _]. apply lookup_apply_mutation. Qed.

Lemma tracks_fresh h : tracks h (with_headers newInferenceMessage h).
Proof.
  split; [|simpl; set_solver]. simpl. apply map_eq. intros k.
  rewrite lookup_apply_mutation, lookup_empty, bool_decide_eq_false_2; [done|set_solver].
Qed.

Lemma tracks_SetHeader h0 m k v : tracks h0 m → tracks h0 (SetHeader m k v).
Proof.
  intros Ht. unfold SetHeader. case_bool_decide as Hd; [done|].
  split; simpl.
  - apply map_eq. intros j. rewrite lookup_apply_mutation.
    destruct (decide (j = k)) as [->|Hne].
    + by rewrite !lookup_insert_eq.
    + rewrite !lookup_insert_ne by done. rewrite (tracks_lookup _ _ _ Ht).
      destruct (mutatedHeaders m !! j); [done|].
      repeat case_bool_decide; set_solver.
  - pose proof (tracks_disjoint _ _ Ht). rewrite dom_insert_L. set_solver.
Qed.

Lemma tracks_RemoveHeader h0 m k : tracks h0 m → tracks h0 (RemoveHeader m k).
Proof.
  intros Ht. unfold RemoveHeader. destruct (Headers m !! k) eqn:Hk; [|done].
  split; simpl.
  - apply map_eq. intros j. rewrite lookup_apply_mutation.
    destruct (decide (j = k)) as [->|Hne].
    + rewrite !lookup_delete_eq. by rewrite bool_decide_eq_true_2 by set_solver.
    + rewrite !lookup_delete_ne by done. rewrite (tracks_lookup _ _ _ Ht).
      destruct (mutatedHeaders m !! j); [done|].
      repeat case_bool_decide; set_solver.
  - pose proof (tracks_disjoint _ _ Ht). rewrite dom_delete_L. set_solver.
Qed.

Lemma tracks_with_body h0 m b : tracks h0 m → tracks h0 (with_body m b).
Proof. by intros [??]. Qed.

Lemma tracks_SetBody h0 m b : tracks h0 m → tracks h0 (SetBody m b).
Proof. by intros [??]. Qed.

Lemma tracks_SetBodyField h0 m m' k v :
  tracks h0 m → SetBodyField m k v = Ok m' → tracks h0 m'.
Proof.
  unfold SetBodyField. intros Ht. destruct (Body m); [|done]. intros [= <-].
  by apply tracks_SetBody.
Qed.

Lemma tracks_RemoveBodyField h0 m k : tracks h0 m → tracks h0 (RemoveBodyField m k).
Proof.
  unfold RemoveBodyField. intros Ht. destruct (Body m) as [b|]; [|done].
  destruct (b !! k); [by apply tracks_SetBody | done].
Qed.

#[export] Hint Resolve tracks_fresh tracks_SetHeader tracks_RemoveHeader tracks_with_body
  tracks_SetBody tracks_SetBodyField tracks_RemoveBodyField : ipp.

Lemma Headers_SetHeader m k v : Headers (SetHeader m k v) = <[k := v]> (Headers m).
Proof.
  unfold SetHeader. case_bool_decide as H; [|done]. by rewrite insert_id.
Qed.

Lemma Body_SetHeader m k v : Body (SetHeader m k v) = Body m.
Proof. unfold SetHeader. by case_bool_decide. Qed.

Lemma bodyMutated_SetHeader m k v : bodyMutated (SetHeader m k v) = bodyMutated m.
Proof. unfold SetHeader. by case_bool_decide. Qed.

Lemma elem_of_RemovedHeaders `{MapOrder} m k :
  k ∈ RemovedHeaders m ↔ k ∈ removedHeaders m.
Proof. apply elem_of_range_set. Qed.

(** ** Programs over the header interface *)

(** What a plugin can do to a message through its methods. *)
Inductive message_op : Type :=
| OpSetHeader (k v : string)
| OpRemoveHeader (k : string)
| OpSetBody (b : option (gmap string any))
| OpSetBodyField (k : string) (v : any)
| OpRemoveBodyField (k : string).

Definition run_op (m : InferenceMessage) (op : message_op) : res InferenceMessage :=
  match op with
  | OpSetHeader k v => Ok (SetHeader m k v)
  | OpRemoveHeader k => Ok (RemoveHeader m k)
  | OpSetBody b => Ok (SetBody m b)
  | OpSetBodyField k v => SetBodyField m k v
  | OpRemoveBodyField k => Ok (RemoveBodyField m k)
  end.

Definition run_ops (ops : list message_op) (m : InferenceMessage) : res InferenceMessage :=
  foldM run_op ops m.
