(* ===== verification/World.v ===== *)
(** What the components share with their environment: the clock, the
    Prometheus metrics of pkg/metrics/metrics.go and the data layer's
    [EventNotifier], as one interface [World] with its laws. The handlers are
    verified against the interface; [StdWorld] is an implementation of it.

    Recording a metric always succeeds here. In the program a label that is not
    valid UTF-8 makes the Prometheus client panic; the labels are constants,
    names of plugins, and the model of a request, which is valid UTF-8 when it
    comes out of the JSON decoder. The model is therefore one of a program in
    which no plugin writes a model name that is not. *)

From Stdlib Require Import String.
From S2P Require Import Prelude GoFloat GoValue Envoy Message.

Local Open Scope string_scope.
Local Open Scope list_scope.

(** ** Metrics *)

(** One observation or increment, by metric. *)
Inductive Metric : Type :=
| M_info (commit buildRef : string)
| M_success_total
| M_body_field_not_found_total (field : string)
| M_body_field_empty_total (field : string)
| M_plugin_duration (extensionPoint pluginType pluginName : string) (d : Z)
| M_model_selector_e2e (d : Z)
| M_model_selector_attempt_total (status : string)
| M_request_ttft (model : string) (d : Z)
| M_session_affinity_cache_hits_total
| M_session_affinity_cache_misses_total
| M_session_affinity_cache_size (n : Z).

(** ** The interface *)

Class World (W : Type) : Type := {
  now : W → Z * W;
  record : Metric → W → W;
  Notify : Event → W → W;
  (** the calls of [Notify] so far, in order *)
  notified : W → list Event;
  now_positive : ∀ w, (0 < (now w).1)%Z;
  notified_now : ∀ w, notified (now w).2 = notified w;
  notified_record : ∀ m w, notified (record m w) = notified w;
  notified_Notify : ∀ e w, notified (Notify e w) = notified w ++ [e]
}.

Section record.
Context `{World W}.

Definition RecordIPPInfo (commitSha buildRef : string) : W → W :=
  record (M_info commitSha buildRef).

Definition RecordSuccessCounter : W → W := record M_success_total.

Definition RecordBodyFieldNotFound (fieldName : string) : W → W :=
  record (M_body_field_not_found_total fieldName).

Definition RecordBodyFieldEmpty (fieldName : string) : W → W :=
  record (M_body_field_empty_total fieldName).

Definition RecordPluginProcessingLatency (extensionPoint : string) (tn : TypedName) (d : Z) :
    W → W :=
  record (M_plugin_duration extensionPoint (Type_ tn) (Name tn) d).

Definition RecordModelSelectorE2ELatency (d : Z) : W → W := record (M_model_selector_e2e d).

Definition RecordRequestTTFT (model : string) (d : Z) : W → W := record (M_request_ttft model d).

Definition RecordModelSelectorAttempt (err : option goerror) : W → W :=
  match err with
  | Some _ => record (M_model_selector_attempt_total "failure")
  | None => record (M_model_selector_attempt_total "success")
  end.

(** [before := time.Now(); f(); metrics.RecordPluginProcessingLatency(...,
    time.Since(before))]: the closing half. *)
Definition record_since (ext : string) (tn : TypedName) (before : Z) (w : W) : W :=
  let '(t, w) := now w in RecordPluginProcessingLatency ext tn (time_sub t before) w.

Lemma notified_record_since ext tn t w : notified (record_since ext tn t w) = notified w.
Proof.
  unfold record_since. destruct (now w) as [t' w'] eqn:E.
  pose proof (notified_now w) as En. rewrite E in En. simpl in En.
  unfold RecordPluginProcessingLatency. by rewrite notified_record.
Qed.
End record.

#[export] Hint Rewrite @notified_record @notified_record_since @notified_Notify @notified_now
  using typeclasses eauto : ipp.

(** ** An implementation *)

(** A clock that ticks, the metrics and events logged, and what else the
    plugins draw from the environment: random numbers and fresh UUIDs. *)
Record StdWorld :=
  { clock : positive; metrics : list Metric; events : list Event;
    randoms : list Z; uuids : nat }.

Definition std0 : StdWorld :=
  {| clock := 1; metrics := []; events := []; randoms := []; uuids := 0 |}.

#[export] Program Instance StdWorld_World : World StdWorld := {
  now w := (Zpos (clock w),
            {| clock := Pos.succ (clock w); metrics := metrics w; events := events w;
               randoms := randoms w; uuids := uuids w |});
  record m w := {| clock := clock w; metrics := metrics w ++ [m]; events := events w;
                   randoms := randoms w; uuids := uuids w |};
  Notify e w := {| clock := clock w; metrics := metrics w; events := events w ++ [e];
                   randoms := randoms w; uuids := uuids w |};
  notified := events
}.
Solve Obligations with (intros; simpl; done).
