(* ===== verification/Metrics.v ===== *)
(** The Prometheus collectors behind the metrics of [World]: the collectors of
    pkg/metrics/metrics.go and of the session-affinity scorer, their
    registration, and which series a recording updates. Prometheus is a
    library; what the code relies on is its documented behaviour: registering a
    name twice panics, and so do label values that are not as many as the
    collector's labels and histogram buckets that do not increase. (Label values
    that are not valid UTF-8 panic too; [World] says why they are left out.) *)

From Stdlib Require Import String.
From S2P Require Import Prelude GoFloat GoValue Envoy Message World.

Local Open Scope string_scope.
Local Open Scope list_scope.

(** pkg/common/observability/metrics. *)
Definition HelpMsgWithStability (msg stability : string) : string :=
  "[" +:+ stability +:+ "] " +:+ msg.

Inductive CollectorKind : Type := Counter | Gauge | Histogram (buckets : list float64).

Record Collector := {
  kind : CollectorKind; Subsystem : string; cname : string; Help : string; labels : list string }.

(** [prometheus.BuildFQName] of a subsystem and a name. *)
Definition fqName (c : Collector) : string := Subsystem c +:+ "_" +:+ cname c.

Definition component : string := "ipp".

Definition collector (k : CollectorKind) (name help : string) (ls : list string) : Collector :=
  {| kind := k; Subsystem := component; cname := name; Help := HelpMsgWithStability help "ALPHA";
     labels := ls |}.

(** ** pkg/metrics *)

(** The literal [n / 10^k] of the buckets. *)
Definition literal (k n : Z) : float64 := f_of_decimal false n (- k).

Definition duration_buckets : list float64 := literal 4 <$> [1; 2; 5; 10; 20; 50; 100; 200; 500; 1000]%Z.

Definition ippInfo : Collector :=
  collector Gauge "info" "General information of the current build of IPP." ["commit"; "build_ref"].
Definition successCounter : Collector :=
  collector Counter "success_total" "Count of time the request was processed successfully." [].
Definition bodyFieldNotFoundCounter : Collector :=
  collector Counter "body_field_not_found_total"
    "Count of times a field wasn't found in a request body." ["field"].
Definition bodyFieldEmptyCounter : Collector :=
  collector Counter "body_field_empty_total"
    "Count of times a field was found in a request body but was empty." ["field"].
Definition pluginProcessingLatencies : Collector :=
  collector (Histogram duration_buckets) "plugin_duration_seconds"
    "Plugin processing latency distribution in seconds for each extension point, plugin type and plugin name."
    ["extension_point"; "plugin_type"; "plugin_name"].
Definition modelSelectorE2ELatency : Collector :=
  collector (Histogram duration_buckets) "model_selector_e2e_duration_seconds"
    "End-to-end model selection latency distribution in seconds." [].
Definition modelSelectorAttemptTotal : Collector :=
  collector Counter "model_selector_attempt_total"
    "Count of model selection attempts by status." ["status"].
Definition requestTTFT : Collector :=
  collector (Histogram (literal 2 <$> [5; 10; 20; 50; 100; 200; 500; 1000; 3000]%Z))
    "request_ttft_seconds" "Time to first token distribution in seconds per model." ["model"].

(** The collectors of the session-affinity scorer. *)
Definition sessionCacheHits : Collector :=
  collector Counter "session_affinity_cache_hits_total" "Count of session affinity cache hits." [].
Definition sessionCacheMisses : Collector :=
  collector Counter "session_affinity_cache_misses_total" "Count of session affinity cache misses." [].
Definition sessionCacheSize : Collector :=
  collector Gauge "session_affinity_cache_size"
    "Current number of entries in the session affinity cache." [].
Definition sessionCacheEvictions : Collector :=
  collector Counter "session_affinity_cache_evictions_total"
    "Count of session affinity cache evictions." [].

(** ** Registration *)

(** The registry of the process, by name, and the [sync.Once] of [Register]. *)
Record Registry := { registered : list string; registerMetrics : bool }.

Definition MustRegister (r : Registry) (c : Collector) : res Registry :=
  if bool_decide (fqName c ∈ registered r) then Panic "duplicate metrics collector registration attempted"
  else Ok {| registered := registered r ++ [fqName c]; registerMetrics := registerMetrics r |}.

(** The [init] of the session-affinity package. *)
Definition session_init (r : Registry) : res Registry :=
  foldM MustRegister [sessionCacheHits; sessionCacheMisses; sessionCacheSize; sessionCacheEvictions] r.

Definition own_collectors : list Collector :=
  [ippInfo; successCounter; bodyFieldNotFoundCounter; bodyFieldEmptyCounter; pluginProcessingLatencies;
   modelSelectorE2ELatency; modelSelectorAttemptTotal; requestTTFT].

Definition Register_metrics (customCollectors : list Collector) (r : Registry) : res Registry :=
  if registerMetrics r then Ok r
  else foldM MustRegister (own_collectors ++ customCollectors)
         {| registered := registered r; registerMetrics := true |}.

Lemma MustRegister_all cs r :
  NoDup (registered r ++ (fqName <$> cs)) →
  foldM MustRegister cs r =
    Ok {| registered := registered r ++ (fqName <$> cs); registerMetrics := registerMetrics r |}.
Proof.
  revert r. induction cs as [|c cs IH]; intros r Hnd; simpl.
  { rewrite app_nil_r. by destruct r. }
  simpl in Hnd. assert (fqName c ∉ registered r) as Hc.
  { apply NoDup_app in Hnd as (_ & Hd & _). intros Hin. apply (Hd _ Hin). by left. }
  unfold MustRegister at 1. rewrite bool_decide_eq_false_2 by done.
  rewrite IH; simpl; rewrite <- app_assoc; simpl; done.
Qed.

(** Registration panics only on custom collectors whose names are taken; and
    only the first call registers, so later custom collectors are dropped. *)
Theorem Register_once customs r :
  registerMetrics r = false →
  NoDup (registered r ++ (fqName <$> own_collectors ++ customs)) →
  ∃ r', Register_metrics customs r = Ok r' ∧
    registered r' = registered r ++ (fqName <$> own_collectors ++ customs) ∧
    ∀ customs', Register_metrics customs' r' = Ok r'.
Proof.
  intros Hf Hnd. unfold Register_metrics. rewrite Hf, MustRegister_all by done.
  eexists. split; [done|]. split; [done|]. by intros customs'.
Qed.

Example registers_after_session_init :
  ∃ r r', session_init {| registered := []; registerMetrics := false |} = Ok r ∧
    Register_metrics [] r = Ok r' ∧ length (registered r') = 12%nat.
Proof. eexists _, _. split_and!; vm_compute; reflexivity. Qed.

(** ** Recording *)

(** What is done to a series. *)
Inductive Update : Type := Inc | Set_ (v : float64) | Observe (v : float64).

(** [time.Duration.Seconds]. *)
Definition Seconds (d : Z) : float64 :=
  fadd (f_of_Z (Z.quot d 1000000000)) (f_ratio (Z.rem d 1000000000) 1000000000).

(** The collector a metric is recorded in, its label values, the update. *)
Definition series (m : Metric) : Collector * list string * Update :=
  match m with
  | M_info commit buildRef => (ippInfo, [commit; buildRef], Set_ f1)
  | M_success_total => (successCounter, [], Inc)
  | M_body_field_not_found_total field => (bodyFieldNotFoundCounter, [field], Inc)
  | M_body_field_empty_total field => (bodyFieldEmptyCounter, [field], Inc)
  | M_plugin_duration ext ty name d => (pluginProcessingLatencies, [ext; ty; name], Observe (Seconds d))
  | M_model_selector_e2e d => (modelSelectorE2ELatency, [], Observe (Seconds d))
  | M_model_selector_attempt_total status => (modelSelectorAttemptTotal, [status], Inc)
  | M_request_ttft model d => (requestTTFT, [model], Observe (Seconds d))
  | M_session_affinity_cache_hits_total => (sessionCacheHits, [], Inc)
  | M_session_affinity_cache_misses_total => (sessionCacheMisses, [], Inc)
  | M_session_affinity_cache_size n => (sessionCacheSize, [], Set_ (f_of_Z n))
  end.

(** [WithLabelValues]. *)
Definition WithLabelValues (c : Collector) (vs : list string) : res (string * list string) :=
  if (length vs =? length (labels c))%nat then Ok (fqName c, vs)
  else Panic "inconsistent label cardinality".

(** An update a collector of that kind has. *)
Definition fits (k : CollectorKind) (u : Update) : bool :=
  match k, u with
  | Counter, Inc | Gauge, Set_ _ | Histogram _, Observe _ => true
  | _, _ => false
  end.

Fixpoint increasing (l : list float64) : bool :=
  match l with
  | x :: ((y :: _) as l') => flt x y && increasing l'
  | _ => true
  end.

Definition buckets_ok (c : Collector) : bool :=
  match kind c with Histogram bs => increasing bs | _ => true end.

(** Recording a metric whose labels are valid UTF-8 never panics: it has as many
    values as its collector has labels, the collector's kind has the update, its buckets increase, and it
    is registered once [Register] and the session package's [init] have run. *)
Theorem recording_never_panics m r r' customs :
  session_init r = Ok r' → registerMetrics r' = false →
  NoDup (registered r' ++ (fqName <$> own_collectors ++ customs)) →
  let '(c, vs, u) := series m in
  WithLabelValues c vs = Ok (fqName c, vs) ∧ fits (kind c) u = true ∧ buckets_ok c = true ∧
  ∃ r'', Register_metrics customs r' = Ok r'' ∧ fqName c ∈ registered r''.
Proof.
  intros Hi Hf Hnd. destruct (Register_once _ _ Hf Hnd) as (r'' & HR & Hin & _).
  assert (∀ c, c ∈ [sessionCacheHits; sessionCacheMisses; sessionCacheSize; sessionCacheEvictions] →
    fqName c ∈ registered r') as Hs.
  { intros c Hc. unfold session_init, foldM, MustRegister in Hi.
    repeat (case_bool_decide; [done|]). injection Hi as <-. simpl.
    repeat (apply elem_of_cons in Hc as [->|Hc]; [set_solver|]). by apply not_elem_of_nil in Hc. }
  destruct m; simpl; (split; [done|]); (split; [done|]); (split; [vm_compute; reflexivity|]);
    exists r''; (split; [done|]); rewrite Hin, fmap_app; apply elem_of_app;
    ((right; apply elem_of_app; left; apply list_elem_of_fmap_2; unfold own_collectors; set_solver) ||
     (left; apply Hs; set_solver)).
Qed.
