(* ===== verification/Handlers.v ===== *)
(** pkg/handlers: the ext_proc server. The handlers of request.go and
    response.go as functions on the world and the request context, and the
    receive loop of server.go as a step on the stream's state. *)

From Stdlib Require Import String.
From S2P Require Import Prelude GoFloat GoValue Envoy Message World.

Local Open Scope string_scope.
Local Open Scope list_scope.

Definition contentLengthHeader : string := "Content-Length".
Definition requestIdHeaderKey : string := "x-request-id".
Definition requestPluginExtensionPoint : string := "request".
Definition responsePluginExtensionPoint : string := "response".

(** ** State *)

Section handlers.
Context `{WW : World W} `{MO : MapOrder} `{JT : JsonText} `{GS : GrpcStatus}.

(** A nil [profilePicker] or [eventNotifier] interface panics when called;
    [eventNotifier] is the world's [Notify] when [hasNotifier]. *)
Record Server :=
  { preProcessors : list (RequestProcessor W);
    profilePicker : option (ProfilePicker W);
    profiles : gmap string (Profile W);
    postProcessors : list (ResponseProcessor W);
    responseHeadersPostProcessors : list (ResponseHeadersProcessor W);
    hasNotifier : bool;
    emptyProfile : Profile W }.

Definition NewServer pre picker profs post rhpost : Server :=
  {| preProcessors := pre; profilePicker := picker; profiles := profs;
     postProcessors := post; responseHeadersPostProcessors := rhpost;
     hasNotifier := false; emptyProfile := NewProfile |}.

Definition WithEventNotifier (s : Server) : Server :=
  {| preProcessors := preProcessors s; profilePicker := profilePicker s;
     profiles := profiles s; postProcessors := postProcessors s;
     responseHeadersPostProcessors := responseHeadersPostProcessors s;
     hasNotifier := true; emptyProfile := emptyProfile s |}.

Record RequestContext :=
  { RequestReceivedTimestamp : Z;
    RequestSentTimestamp : Z;
    ResponseFirstChunkTimestamp : Z;
    ResponseCompleteTimestamp : Z;
    ResponseHeadersSent : bool;
    Profile_of : option (Profile W);
    CycleState_of : CycleState;
    Request : InferenceRequest;
    Response : InferenceResponse }.

Definition set_received c t :=
  {| RequestReceivedTimestamp := t; RequestSentTimestamp := RequestSentTimestamp c;
     ResponseFirstChunkTimestamp := ResponseFirstChunkTimestamp c;
     ResponseCompleteTimestamp := ResponseCompleteTimestamp c;
     ResponseHeadersSent := ResponseHeadersSent c; Profile_of := Profile_of c;
     CycleState_of := CycleState_of c; Request := Request c; Response := Response c |}.
Definition set_sent c t :=
  {| RequestReceivedTimestamp := RequestReceivedTimestamp c; RequestSentTimestamp := t;
     ResponseFirstChunkTimestamp := ResponseFirstChunkTimestamp c;
     ResponseCompleteTimestamp := ResponseCompleteTimestamp c;
     ResponseHeadersSent := ResponseHeadersSent c; Profile_of := Profile_of c;
     CycleState_of := CycleState_of c; Request := Request c; Response := Response c |}.
Definition set_first_chunk c t :=
  {| RequestReceivedTimestamp := RequestReceivedTimestamp c;
     RequestSentTimestamp := RequestSentTimestamp c; ResponseFirstChunkTimestamp := t;
     ResponseCompleteTimestamp := ResponseCompleteTimestamp c;
     ResponseHeadersSent := ResponseHeadersSent c; Profile_of := Profile_of c;
     CycleState_of := CycleState_of c; Request := Request c; Response := Response c |}.
Definition set_complete c t :=
  {| RequestReceivedTimestamp := RequestReceivedTimestamp c;
     RequestSentTimestamp := RequestSentTimestamp c;
     ResponseFirstChunkTimestamp := ResponseFirstChunkTimestamp c;
     ResponseCompleteTimestamp := t;
     ResponseHeadersSent := ResponseHeadersSent c; Profile_of := Profile_of c;
     CycleState_of := CycleState_of c; Request := Request c; Response := Response c |}.
Definition set_headers_sent c :=
  {| RequestReceivedTimestamp := RequestReceivedTimestamp c;
     RequestSentTimestamp := RequestSentTimestamp c;
     ResponseFirstChunkTimestamp := ResponseFirstChunkTimestamp c;
     ResponseCompleteTimestamp := ResponseCompleteTimestamp c;
     ResponseHeadersSent := true; Profile_of := Profile_of c;
     CycleState_of := CycleState_of c; Request := Request c; Response := Response c |}.
Definition set_profile c p :=
  {| RequestReceivedTimestamp := RequestReceivedTimestamp c;
     RequestSentTimestamp := RequestSentTimestamp c;
     ResponseFirstChunkTimestamp := ResponseFirstChunkTimestamp c;
     ResponseCompleteTimestamp := ResponseCompleteTimestamp c;
     ResponseHeadersSent := ResponseHeadersSent c; Profile_of := p;
     CycleState_of := CycleState_of c; Request := Request c; Response := Response c |}.
Definition set_cycle_request c cs r :=
  {| RequestReceivedTimestamp := RequestReceivedTimestamp c;
     RequestSentTimestamp := RequestSentTimestamp c;
     ResponseFirstChunkTimestamp := ResponseFirstChunkTimestamp c;
     ResponseCompleteTimestamp := ResponseCompleteTimestamp c;
     ResponseHeadersSent := ResponseHeadersSent c; Profile_of := Profile_of c;
     CycleState_of := cs; Request := r; Response := Response c |}.
Definition set_cycle_response c cs r :=
  {| RequestReceivedTimestamp := RequestReceivedTimestamp c;
     RequestSentTimestamp := RequestSentTimestamp c;
     ResponseFirstChunkTimestamp := ResponseFirstChunkTimestamp c;
     ResponseCompleteTimestamp := ResponseCompleteTimestamp c;
     ResponseHeadersSent := ResponseHeadersSent c; Profile_of := Profile_of c;
     CycleState_of := cs; Request := Request c; Response := r |}.
Definition set_request c r := set_cycle_request c (CycleState_of c) r.
Definition set_response c r := set_cycle_response c (CycleState_of c) r.

Definition NewRequestContext (s : Server) : RequestContext :=
  {| RequestReceivedTimestamp := zero_time; RequestSentTimestamp := zero_time;
     ResponseFirstChunkTimestamp := zero_time; ResponseCompleteTimestamp := zero_time;
     ResponseHeadersSent := false; Profile_of := Some (emptyProfile s);
     CycleState_of := NewCycleState; Request := NewInferenceRequest;
     Response := NewInferenceResponse |}.

(** What a handler returns: the state it leaves, and responses or an error. *)
Definition handled : Type :=
  res (W * RequestContext * (list ProcessingResponse + goerror)).

(** ** Plugin loops *)

Fixpoint runRequestPlugins (reqPlugins : list (RequestProcessor W)) (w : W) (cs : CycleState)
    (request : InferenceRequest) : called W InferenceRequest :=
  match reqPlugins with
  | [] => Ok (w, cs, request, None)
  | reqPlugin :: reqPlugins =>
      let '(before, w) := now w in
      '(w, cs, request, err) ← ProcessRequest reqPlugin w cs request;
      let w := record_since requestPluginExtensionPoint (rp_name reqPlugin) before w in
      match err with
      | Some e => Ok (w, cs, request, Some e)
      | None => runRequestPlugins reqPlugins w cs request
      end
  end.

Fixpoint runResponsePlugins (respPlugins : list (ResponseProcessor W)) (w : W)
    (cs : CycleState) (response : InferenceResponse) : called W InferenceResponse :=
  match respPlugins with
  | [] => Ok (w, cs, response, None)
  | respPlugin :: respPlugins =>
      let '(before, w) := now w in
      '(w, cs, response, err) ← ProcessResponse respPlugin w cs response;
      let w := record_since responsePluginExtensionPoint (rsp_name respPlugin) before w in
      match err with
      | Some e => Ok (w, cs, response, Some e)
      | None => runResponsePlugins respPlugins w cs response
      end
  end.

(** Unlike the other loops, the latency of a failing plugin is not recorded. *)
Fixpoint runResponseHeadersProcessors (hps : list (ResponseHeadersProcessor W)) (w : W)
    (cs : CycleState) (response : InferenceResponse) : called W InferenceResponse :=
  match hps with
  | [] => Ok (w, cs, response, None)
  | hp :: hps =>
      let '(before, w) := now w in
      '(w, cs, response, err) ← ProcessResponseHeaders hp w cs response;
      match err with
      | Some e => Ok (w, cs, response, Some e)
      | None =>
          let w := record_since responsePluginExtensionPoint (rhp_name hp) before w in
          runResponseHeadersProcessors hps w cs response
      end
  end.

Fixpoint runResponseChunkProcessors (processors : list (ResponseChunkProcessor W)) (w : W)
    (cs : CycleState) (response : InferenceResponse) (isFinal : bool) :
    called W InferenceResponse :=
  match processors with
  | [] => Ok (w, cs, response, None)
  | cp :: processors =>
      let '(before, w) := now w in
      '(w, cs, response, err) ← ProcessResponseChunk cp w cs response isFinal;
      let w := record_since responsePluginExtensionPoint (rcp_name cp) before w in
      match err with
      | Some e => Ok (w, cs, response, Some e)
      | None => runResponseChunkProcessors processors w cs response isFinal
      end
  end.

(** ** Requests *)

(** [for _, header := range headers { m.Headers[header.Key] = value }]. *)
Definition capture_headers (headers : option HttpHeaders) (m : InferenceMessage) :
    InferenceMessage :=
  match headers with
  | Some {| Headers_of := Some hs |} =>
      with_headers m (foldl (λ acc h, <[Key h := GetHeaderValue h]> acc) (Headers m) hs)
  | _ => m
  end.

Definition HandleRequestHeaders (w : W) (c : RequestContext) (headers : option HttpHeaders) :
    W * RequestContext * list ProcessingResponse :=
  let '(t, w) := now w in
  let c := set_received c t in
  let c := set_request c (capture_headers headers (Request c)) in
  (w, c, if GetEndOfStream headers then [RequestHeadersResp None] else []).

Definition addStreamedBodyResponse (responses : list ProcessingResponse) (body : bytes) :
    list ProcessingResponse :=
  responses ++ (RequestBodyResp <$> BuildChunkedBodyResponses body true).

(** [s.eventNotifier.Notify(e)]. *)
Definition notify (s : Server) (e : Event) (w : W) : res W :=
  if hasNotifier s then Ok (Notify e w) else Panic "nil EventNotifier".

(** The part of [HandleRequestBody] after the plugins: settle the body and
    its length, notify the data layer, and build the responses. *)
Definition finishRequest (s : Server) (w : W) (c : RequestContext) (requestBodyBytes : bytes) :
    handled :=
  let bodyMutated := BodyMutated (Request c) in
  match (if bodyMutated then json_marshal_map (Body (Request c)) else Some requestBodyBytes) with
  | None => Ok (w, c, inr (ENew "json: unsupported value"))
  | Some out =>
      let c := set_request c (SetHeader (Request c) contentLengthHeader
                                (itoa (Z.of_nat (length out)))) in
      w ← notify s (RequestEvent (Request c) (CycleState_of c)) w;
      let w := RecordSuccessCounter w in
      let '(t, w) := now w in
      let c := set_sent c t in
      let ret := [RequestHeadersResp
                    (Some (header_mutation true (GenerateHeadersMutation (MutatedHeaders (Request c)))
                             (RemovedHeaders (Request c))))] in
      Ok (w, c, inl (addStreamedBodyResponse ret out))
  end.

(** The part of [HandleRequestBody] up to the last plugin: parse the body, run
    the pre-processors, pick a profile, run its request plugins. *)
Definition prepareRequest (s : Server) (w : W) (c : RequestContext)
    (requestBodyBytes : bytes) : res (W * RequestContext * option goerror) :=
  let '(body, bad) := json_unmarshal_map requestBodyBytes (Body (Request c)) in
  let c := set_request c (with_body (Request c) body) in
  if bad then
    Ok (w, c, Some (EError ErrCommon.BadRequest
                      ("failed to parse request body: " +:+ json_error requestBodyBytes)))
  else
    '(w, cs, rq, err) ← runRequestPlugins (preProcessors s) w (CycleState_of c) (Request c);
    let c := set_cycle_request c cs rq in
    match err with
    | Some e => Ok (w, c, Some e)
    | None =>
        match profilePicker s with
        | None => Panic "nil ProfilePicker"
        | Some pp =>
            '(w, cs, rq, (p, err)) ← PickProfile pp w (CycleState_of c) (Request c) (profiles s);
            let c := set_profile (set_cycle_request c cs rq) p in
            match err with
            | Some e => Ok (w, c, Some (EError ErrCommon.Internal
                                          ("failed to pick a profile: " +:+ error_text e)))
            | None =>
                match p with
                | None => Panic "nil Profile"
                | Some p =>
                    '(w, cs, rq, err) ←
                      runRequestPlugins (RequestPlugins p) w (CycleState_of c) (Request c);
                    Ok (w, set_cycle_request c cs rq, err)
                end
            end
        end
    end.

Definition HandleRequestBody (s : Server) (w : W) (c : RequestContext)
    (requestBodyBytes : bytes) : handled :=
  '(w, c, err) ← prepareRequest s w c requestBodyBytes;
  match err with
  | Some e => Ok (w, c, inr e)
  | None => finishRequest s w c requestBodyBytes
  end.

Definition HandleRequestTrailers (w : W) (c : RequestContext) : handled :=
  Ok (w, c, inl [RequestTrailersResp]).

(** ** Responses *)

Definition buildHeadersResponse (c : RequestContext) : option CommonResponse :=
  let mutated := MutatedHeaders (rmsg (Response c)) in
  let removed := RemovedHeaders (rmsg (Response c)) in
  if (size mutated =? 0)%nat && (length removed =? 0)%nat then None
  else Some (header_mutation false (GenerateHeadersMutation mutated) removed).

Definition HandleResponseHeaders (s : Server) (w : W) (c : RequestContext)
    (headers : option HttpHeaders) : handled :=
  let c := set_response c (with_rmsg (Response c)
                             (capture_headers headers (rmsg (Response c)))) in
  '(w, cs, rsp, err) ← runResponseHeadersProcessors (responseHeadersPostProcessors s) w
                         (CycleState_of c) (Response c);
  let c := set_cycle_response c cs rsp in
  match err with
  | Some e => Ok (w, c, inr e)
  | None =>
      Ok (w, c, inl (if GetEndOfStream headers
                     then [ResponseHeadersResp (buildHeadersResponse c)] else []))
  end.

Definition generatePassthroughResponseBodyResponse (c : RequestContext) (body : bytes) :
    list ProcessingResponse :=
  AddStreamedResponseBody [ResponseHeadersResp (buildHeadersResponse c)] body.

(** The part of [HandleResponseBody] after the plugins. *)
Definition finishResponse (w : W) (c : RequestContext) (responseBodyBytes : bytes) : handled :=
  let bodyMutated := BodyMutated (rmsg (Response c)) in
  match (if bodyMutated then json_marshal_map (Body (rmsg (Response c))) else Some []) with
  | None => Ok (w, c, inr (EWrap "failed to marshal mutated response body - "
                             (ENew "json: unsupported value")))
  | Some mutatedBytes =>
      let c := if bodyMutated
               then set_response c (with_rmsg (Response c)
                      (SetHeader (rmsg (Response c)) contentLengthHeader
                         (itoa (Z.of_nat (length mutatedBytes)))))
               else c in
      let ret := [ResponseHeadersResp
                    (Some (header_mutation true
                             (GenerateHeadersMutation (MutatedHeaders (rmsg (Response c))))
                             (RemovedHeaders (rmsg (Response c)))))] in
      Ok (w, c, inl (AddStreamedResponseBody ret
                       (if bodyMutated then mutatedBytes else responseBodyBytes)))
  end.

Definition HandleResponseBody (s : Server) (w : W) (c : RequestContext)
    (responseBodyBytes : bytes) : handled :=
  match Profile_of c with
  | None => Panic "nil Profile"
  | Some p =>
      let hasProfilePlugins := (0 <? length (ResponsePlugins p))%nat in
      let hasPostProcessors := (0 <? length (postProcessors s))%nat in
      if negb hasProfilePlugins && negb hasPostProcessors then
        Ok (w, c, inl (generatePassthroughResponseBodyResponse c responseBodyBytes))
      else
        let '(body, bad) := json_unmarshal_map responseBodyBytes (Body (rmsg (Response c))) in
        let c := set_response c (with_rmsg (Response c) (with_body (rmsg (Response c)) body)) in
        if bad then
          Ok (w, c, inl (generatePassthroughResponseBodyResponse c responseBodyBytes))
        else
          '(w, cs, rsp, err) ←
            (if hasProfilePlugins
             then runResponsePlugins (ResponsePlugins p) w (CycleState_of c) (Response c)
             else Ok (w, CycleState_of c, Response c, None));
          let c := set_cycle_response c cs rsp in
          match err with
          | Some e => Ok (w, c, inr e)
          | None =>
              '(w, cs, rsp, err) ←
                runResponsePlugins (postProcessors s) w (CycleState_of c) (Response c);
              let c := set_cycle_response c cs rsp in
              match err with
              | Some e => Ok (w, c, inr e)
              | None => finishResponse w c responseBodyBytes
              end
          end
  end.

Definition buildStreamedChunkResponse (c : RequestContext) (chunk : bytes)
    (endOfStream : bool) : RequestContext * list ProcessingResponse :=
  let responses := [ResponseBodyResp (streamed chunk endOfStream)] in
  if ResponseHeadersSent c then (c, responses)
  else (set_headers_sent c, ResponseHeadersResp (buildHeadersResponse c) :: responses).

Definition HandleResponseChunk (w : W) (c : RequestContext) (chunkBytes : bytes)
    (endOfStream : bool) : handled :=
  match Profile_of c with
  | None => Panic "nil Profile"
  | Some p =>
      match ResponseChunkProcessors p with
      | [] => let '(c, rs) := buildStreamedChunkResponse c chunkBytes endOfStream in
              Ok (w, c, inl rs)
      | processors =>
          let c := set_response c (ResetChunkState (Response c) (b2s chunkBytes)) in
          '(w, cs, rsp, err) ← runResponseChunkProcessors processors w (CycleState_of c)
                                 (Response c) endOfStream;
          let c := set_cycle_response c cs rsp in
          match err with
          | Some e => Ok (w, c, inr e)
          | None =>
              let outBytes := if ChunkMutated (Response c)
                              then s2b (CurrentChunk (Response c)) else chunkBytes in
              let '(c, rs) := buildStreamedChunkResponse c outBytes endOfStream in
              Ok (w, c, inl rs)
          end
      end
  end.

Definition HandleResponseTrailers (w : W) (c : RequestContext) : handled :=
  Ok (w, c, inl [ResponseTrailersResp]).

(** ** The receive loop *)

(** What [req.Request] holds; [UnknownRequest] is a nil or unknown variant. *)
Inductive ProcessingRequest : Type :=
| RequestHeaders (h : option HttpHeaders)
| RequestBody (body : bytes) (eos : bool)
| RequestTrailers
| ResponseHeaders (h : option HttpHeaders)
| ResponseBody (body : bytes) (eos : bool)
| ResponseTrailers
| UnknownRequest.

(** The outcome of [srv.Recv()]. *)
Inductive Received : Type :=
| RecvMsg (m : ProcessingRequest)
| RecvEOF
| RecvCanceled
| RecvErr (e : goerror).

(** What the environment does in one round of the loop: whether the context
    is done, what [Recv] returns, and whether the [i]-th [Send] succeeds. *)
Record Round :=
  { ctx_done : bool; received : Received; send_ok : nat → bool }.

(** The local variables of [Process]. *)
Record Stream :=
  { reqCtx : RequestContext;
    requestBody : bytes;
    responseBody : bytes;
    requestBodyComplete : bool;
    responseBodyComplete : bool }.

Definition NewStream (s : Server) : Stream :=
  {| reqCtx := NewRequestContext s; requestBody := []; responseBody := [];
     requestBodyComplete := false; responseBodyComplete := false |}.

Definition with_ctx (st : Stream) (c : RequestContext) : Stream :=
  {| reqCtx := c; requestBody := requestBody st; responseBody := responseBody st;
     requestBodyComplete := requestBodyComplete st;
     responseBodyComplete := responseBodyComplete st |}.

Definition on_request_body (s : Server) (w : W) (st : Stream) (body : bytes) (eos : bool) :
    res (W * Stream * (list ProcessingResponse + goerror)) :=
  if requestBodyComplete st then Ok (w, st, inl [])
  else
    let rb := requestBody st ++ body in
    if negb eos then
      Ok (w, {| reqCtx := reqCtx st; requestBody := rb; responseBody := responseBody st;
                requestBodyComplete := false;
                responseBodyComplete := responseBodyComplete st |}, inl [])
    else
      '(w, c, r) ← HandleRequestBody s w (reqCtx st) rb;
      Ok (w, {| reqCtx := c; requestBody := rb; responseBody := responseBody st;
                requestBodyComplete := true;
                responseBodyComplete := responseBodyComplete st |}, r).

(** The end-of-stream part of the response body case: it runs whether or not
    the handler failed. *)
Definition complete_response (s : Server) (w : W) (c : RequestContext) :
    res (W * RequestContext) :=
  let '(t, w) := now w in
  let c := set_complete c t in
  let model := body_string (Request c) "model" in
  let w := RecordRequestTTFT model
             (time_sub (ResponseFirstChunkTimestamp c) (RequestReceivedTimestamp c)) w in
  w ← notify s (ResponseEvent (Request c) (Response c) (CycleState_of c)
        (time_sub (ResponseCompleteTimestamp c) (RequestReceivedTimestamp c))
        (time_sub (ResponseFirstChunkTimestamp c) (RequestSentTimestamp c))) w;
  Ok (w, c).

Definition on_response_body (s : Server) (w : W) (st : Stream) (body : bytes) (eos : bool) :
    res (W * Stream * (list ProcessingResponse + goerror)) :=
  if responseBodyComplete st then Ok (w, st, inl [])
  else
    let '(c, w) := if (ResponseFirstChunkTimestamp (reqCtx st) =? 0)%Z
                   then let '(t, w) := now w in (set_first_chunk (reqCtx st) t, w)
                   else (reqCtx st, w) in
    match Profile_of c with
    | None => Panic "nil Profile"
    | Some p =>
        let rb := if NeedsResponseBuffering p then responseBody st ++ body
                  else responseBody st in
        if NeedsResponseBuffering p && negb eos then
          Ok (w, {| reqCtx := c; requestBody := requestBody st; responseBody := rb;
                    requestBodyComplete := requestBodyComplete st;
                    responseBodyComplete := false |}, inl [])
        else
          '(w, c, r) ← (if NeedsResponseBuffering p
                        then HandleResponseBody s w c rb
                        else HandleResponseChunk w c body eos);
          '(w, c) ← (if (eos : bool) then complete_response s w c else Ok (w, c));
          Ok (w, {| reqCtx := c; requestBody := requestBody st; responseBody := rb;
                    requestBodyComplete := requestBodyComplete st;
                    responseBodyComplete := eos |}, r)
    end.

Definition lift_handled (st : Stream) (h : handled) :
    res (W * Stream * (list ProcessingResponse + goerror)) :=
  '(w, c, r) ← h; Ok (w, with_ctx st c, r).

(** The type switch; [None] is the unknown request type. *)
Definition dispatch (s : Server) (w : W) (st : Stream) (m : ProcessingRequest) :
    option (res (W * Stream * (list ProcessingResponse + goerror))) :=
  match m with
  | RequestHeaders h =>
      let '(w, c, rs) := HandleRequestHeaders w (reqCtx st) h in
      Some (Ok (w, with_ctx st c, inl rs))
  | RequestBody body eos => Some (on_request_body s w st body eos)
  | RequestTrailers => Some (lift_handled st (HandleRequestTrailers w (reqCtx st)))
  | ResponseHeaders h => Some (lift_handled st (HandleResponseHeaders s w (reqCtx st) h))
  | ResponseBody body eos => Some (on_response_body s w st body eos)
  | ResponseTrailers => Some (lift_handled st (HandleResponseTrailers w (reqCtx st)))
  | UnknownRequest => None
  end.

(** [for _, resp := range responses { srv.Send(resp) }]: what was sent, and
    whether every send succeeded. *)
Fixpoint send_all (ok : nat → bool) (i : nat) (rs : list ProcessingResponse) :
    list ProcessingResponse * bool :=
  match rs with
  | [] => ([], true)
  | r :: rs => if ok i then let '(sent, b) := send_all ok (S i) rs in (r :: sent, b)
               else ([], false)
  end.

Definition send_error : goerror :=
  EStatus codes_Unknown "failed to send response back to Envoy".

(** One round of [Process]: the state it leaves, the responses it sent, and
    [Some e] when [Process] returns with the error [e] ([None] for nil). *)
Definition process_step (s : Server) (w : W) (st : Stream) (r : Round) :
    res (W * Stream * list ProcessingResponse * option (option goerror)) :=
  if ctx_done r then Ok (w, st, [], Some (Some (ENew "context canceled")))
  else match received r with
  | RecvEOF | RecvCanceled => Ok (w, st, [], Some None)
  | RecvErr e =>
      Ok (w, st, [], Some (Some (EStatus codes_Unknown
            ("cannot receive stream request: " +:+ error_text e))))
  | RecvMsg m =>
      match dispatch s w st m with
      | None => Ok (w, st, [], Some (Some (EStatus codes_Unknown "unknown request type")))
      | Some h =>
          '(w, st, o) ← h;
          match o with
          | inr err =>
              match BuildErrResponse err with
              | inr e => Ok (w, st, [], Some (Some e))
              | inl resp =>
                  if send_ok r 0 then Ok (w, st, [resp], Some None)
                  else Ok (w, st, [], Some (Some send_error))
              end
          | inl responses =>
              let '(sent, ok) := send_all (send_ok r) 0 responses in
              Ok (w, st, sent, if ok then None else Some (Some send_error))
          end
      end
  end.

(** [Process] over the rounds the environment provides: [None] when it is
    still waiting for the next one. *)
Fixpoint Process_rounds (s : Server) (w : W) (st : Stream) (rounds : list Round) :
    res (W * Stream * list ProcessingResponse * option (option goerror)) :=
  match rounds with
  | [] => Ok (w, st, [], None)
  | r :: rounds =>
      '(w, st, sent, ret) ← process_step s w st r;
      match ret with
      | Some e => Ok (w, st, sent, Some e)
      | None =>
          '(w, st, sent', ret) ← Process_rounds s w st rounds;
          Ok (w, st, sent ++ sent', ret)
      end
  end.

Definition Process (s : Server) (w : W) (rounds : list Round) :=
  Process_rounds s w (NewStream s) rounds.

(** The responses a proxy that keeps reading gets for the messages [ms]. *)
Definition deliver (m : ProcessingRequest) : Round :=
  {| ctx_done := false; received := RecvMsg m; send_ok := λ _, true |}.
End handlers.

Arguments Server : clear implicits.
Arguments RequestContext : clear implicits.
Arguments Stream : clear implicits.
