(* ===== verification/ServerProofs.v ===== *)
(** The correctness of the ext_proc server: what a request or response handler
    answers, when the data layer is notified, and how the receive loop treats
    chunked, duplicated and failing input. *)

From Stdlib Require Import String.
From S2P Require Import Prelude GoFloat GoValue Envoy Message World Handlers.

Local Open Scope string_scope.
Local Open Scope list_scope.
Local Open Scope nat_scope.

(** ** What plugins preserve *)

Section preserve.
Context `{WW : World W}.

(** A plugin method keeps an invariant of the world and the message, whether
    or not it returns an error. *)
Definition call_preserves {M} (I : W → M → Prop)
    (f : W → CycleState → M → called W M) : Prop :=
  ∀ w cs m w' cs' m' e, I w m → f w cs m = Ok (w', cs', m', e) → I w' m'.

(** The framework's own clock readings and metrics keep it. *)
Definition world_stable {M} (I : W → M → Prop) : Prop :=
  ∀ w m, I w m → I (now w).2 m ∧ ∀ x, I (record x w) m.

Lemma stable_record_since {M} (I : W → M → Prop) ext tn t w m :
  world_stable I → I w m → I (record_since ext tn t w) m.
Proof.
  intros HI Hw. unfold record_since, RecordPluginProcessingLatency.
  destruct (HI _ _ Hw) as [H1 _]. destruct (now w) as [t' w'].
  by apply (HI w' m).
Qed.

Lemma stable_notified {M} (L : list Event) :
  world_stable (λ (w : W) (_ : M), notified w = L).
Proof. intros w m <-. split; [apply notified_now | intros; apply notified_record]. Qed.

Lemma stable_message {M} (P : M → Prop) : world_stable (λ (_ : W) m, P m).
Proof. done. Qed.

Section loops.
Context {M : Type} (I : W → M → Prop) (HI : world_stable I).

Lemma loop_preserves {P} (call : P → W → CycleState → M → called W M)
    (loop : list P → W → CycleState → M → called W M) (ext : string) (name : P → TypedName) :
  (∀ w cs m, loop [] w cs m = Ok (w, cs, m, None)) →
  (∀ p ps w cs m, ∃ late, loop (p :: ps) w cs m =
    (let '(before, w) := now w in
     '(w, cs, m, err) ← call p w cs m;
     let w' := record_since ext (name p) before w in
     match err with
     | Some e => Ok (if (late : bool) then w else w', cs, m, Some e)
     | None => loop ps w' cs m
     end)) →
  ∀ ps, Forall (λ p, call_preserves I (call p)) ps → call_preserves I (loop ps).
Proof using HI.
  intros Hnil Hcons ps Hps. induction Hps as [|p ps Hp Hps IH];
    intros w cs m w' cs' m' e Hw; [by rewrite Hnil; intros; simplify_eq|].
  destruct (Hcons p ps w cs m) as [late ->].
  pose proof (proj1 (HI _ _ Hw)) as Hn. destruct (now w) as [before w1]. simpl in Hn.
  intros E. apply mbind_Ok in E. destruct E as ([[[w2 cs2] m2] err] & Hcall & E).
  apply (Hp _ _ _ _ _ _ _ Hn) in Hcall.
  pose proof (stable_record_since I ext (name p) before w2 m2 HI Hcall) as Hr.
  destruct err; simpl in E; [destruct late; injection E as <- <- <- <-; done | by eapply IH].
Qed.
End loops.

Lemma runRequestPlugins_preserves I ps :
  world_stable I → Forall (λ p, call_preserves I (ProcessRequest p)) ps →
  call_preserves I (runRequestPlugins ps).
Proof.
  intros HI. apply (loop_preserves I HI _ _ requestPluginExtensionPoint rp_name); [done|].
  intros. exists false. done.
Qed.

Lemma runResponsePlugins_preserves I ps :
  world_stable I → Forall (λ p, call_preserves I (ProcessResponse p)) ps →
  call_preserves I (runResponsePlugins ps).
Proof.
  intros HI. apply (loop_preserves I HI _ _ responsePluginExtensionPoint rsp_name); [done|].
  intros. exists false. done.
Qed.

Lemma runResponseHeadersProcessors_preserves I ps :
  world_stable I → Forall (λ p, call_preserves I (ProcessResponseHeaders p)) ps →
  call_preserves I (runResponseHeadersProcessors ps).
Proof.
  intros HI. apply (loop_preserves I HI _ _ responsePluginExtensionPoint rhp_name); [done|].
  intros. exists true. done.
Qed.

Lemma runResponseChunkProcessors_preserves I ps fin :
  world_stable I →
  Forall (λ p, call_preserves I (λ w cs m, ProcessResponseChunk p w cs m fin)) ps →
  call_preserves I (λ w cs m, runResponseChunkProcessors ps w cs m fin).
Proof.
  intros HI.
  apply (loop_preserves I HI (λ p w cs m, ProcessResponseChunk p w cs m fin)
           (λ ps w cs m, runResponseChunkProcessors ps w cs m fin)
           responsePluginExtensionPoint rcp_name); [done|].
  intros. exists false. done.
Qed.
End preserve.

Section server.
Context `{WW : World W} `{MO : MapOrder} `{JT : JsonText} `{GS : GrpcStatus}.

(** The plugins a request can run keep [I], whatever profile is picked. *)
Record request_plugins_preserve (I : W → InferenceRequest → Prop) (s : Server W) : Prop :=
  { rpp_pre : Forall (λ p, call_preserves I (ProcessRequest p)) (preProcessors s);
    rpp_pick : ∀ pp w cs m w' cs' m' p e, profilePicker s = Some pp → I w m →
      PickProfile pp w cs m (profiles s) = Ok (w', cs', m', (p, e)) →
      I w' m' ∧
      ∀ q, p = Some q → Forall (λ p, call_preserves I (ProcessRequest p)) (RequestPlugins q) }.

Lemma prepareRequest_preserves I s w c body w' c' e :
  world_stable I → request_plugins_preserve I s →
  I w (with_body (Request c) (json_unmarshal_map body (Body (Request c))).1) →
  prepareRequest s w c body = Ok (w', c', e) → I w' (Request c').
Proof.
  intros HI [Hpre Hpick]. unfold prepareRequest.
  destruct (json_unmarshal_map body _) as [b bad]. intros Hc. simpl in Hc.
  destruct bad; [by intros [= <- <- _]|].
  intros E. apply mbind_Ok in E as ([[[w1 cs1] rq1] e1] & H1 & E).
  apply (runRequestPlugins_preserves I _ HI Hpre _ _ _ _ _ _ _ Hc) in H1.
  destruct e1; [injection E as <- <- _; exact H1|].
  destruct (profilePicker s) as [pp|] eqn:Epp; [|done].
  apply mbind_Ok in E as ([[[w2 cs2] rq2] [p e2]] & H2 & E).
  apply (Hpick _ _ _ _ _ _ _ _ _ eq_refl H1) in H2 as [H2 Hp].
  destruct e2; [injection E as <- <- _; exact H2|]. destruct p as [p|]; [|done].
  apply mbind_Ok in E as ([[[w3 cs3] rq3] e3] & H3 & E).
  apply (runRequestPlugins_preserves I _ HI (Hp _ eq_refl) _ _ _ _ _ _ _ H2) in H3.
  injection E as <- <- _. exact H3.
Qed.

(** [finishRequest] either fails to marshal, leaving everything as it is, or
    answers; the answer carries the settled body. *)
Lemma finishRequest_ok s w c body w' c' r :
  finishRequest s w c body = Ok (w', c', r) →
  (w' = w ∧ c' = c ∧ (∃ e, r = inr e)) ∨
  (∃ out t, c' = set_sent (set_request c
      (SetHeader (Request c) contentLengthHeader (itoa (Z.of_nat (length out))))) t ∧
    (if bodyMutated (Request c) then json_marshal_map (Body (Request c)) else Some body)
      = Some out ∧
    notified w' = notified w ++ [RequestEvent (Request c') (CycleState_of c')] ∧
    r = inl (RequestHeadersResp (Some (header_mutation true
               (GenerateHeadersMutation (mutatedHeaders (Request c')))
               (RemovedHeaders (Request c'))))
             :: (RequestBodyResp <$> BuildChunkedBodyResponses out true))).
Proof.
  unfold finishRequest, BodyMutated.
  destruct (if bodyMutated (Request c) then _ else _) as [out|] eqn:Eo;
    [|intros [= <- <- <-]; left; eauto].
  unfold notify. destruct (hasNotifier s); simpl; [|done].
  match goal with |- context [now ?w] => destruct (now w) as [t w1] eqn:Et end.
  intros [= <- <- <-]. right. exists out, t. split_and!; [done|done| |done].
  match type of Et with now ?w = _ => pose proof (notified_now w) as En end.
  rewrite Et in En. simpl in En. rewrite En. unfold RecordSuccessCounter.
  by rewrite notified_record, notified_Notify.
Qed.

(** ** What the proxy does with the answer *)

(** The proxy removes the named headers, then overwrites or adds the set ones.
    Names are compared as they are spelled, like the keys of the program's header
    map: Envoy sends them in lower case and ignores case itself, so this is what
    it does as long as no two names differ in case only. *)
Definition proxy_apply (h : gmap string string) (m : HeaderMutation) : gmap string string :=
  foldl (λ h o, <[Key (Header o) := b2s (RawValue (Header o))]> h)
    (foldl (λ h k, delete k h) h (RemoveHeaders m)) (SetHeaders m).

Lemma foldl_insert_union (l : list (string * string)) (h : gmap string string) :
  NoDup l.*1 → foldl (λ h kv, <[kv.1 := kv.2]> h) h l = list_to_map l ∪ h.
Proof.
  revert h. induction l as [|[k v] l IH]; intros h; simpl.
  - intros _. by rewrite (left_id_L ∅ (∪)).
  - intros [Hk Hl]%NoDup_cons. rewrite IH by done. simpl.
    apply map_eq. intros j. rewrite !lookup_union.
    destruct (decide (j = k)) as [->|].
    + rewrite !lookup_insert_eq, (not_elem_of_list_to_map_1 l) by done.
      by destruct (h !! k).
    + by rewrite !lookup_insert_ne by done.
Qed.

Lemma proxy_apply_spec clear m h :
  proxy_apply h {| SetHeaders := GenerateHeadersMutation (mutatedHeaders m);
                   RemoveHeaders := RemovedHeaders m |} =
  apply_mutation h (mutatedHeaders m) (removedHeaders m) ∧
  HeaderMutation_of (header_mutation clear (GenerateHeadersMutation (mutatedHeaders m))
                       (RemovedHeaders m)) =
    Some {| SetHeaders := GenerateHeadersMutation (mutatedHeaders m);
            RemoveHeaders := RemovedHeaders m |}.
Proof.
  split; [|done]. unfold proxy_apply, GenerateHeadersMutation. simpl.
  assert (∀ l (h : gmap string string),
    foldl (λ h o, <[Key (Header o) := b2s (RawValue (Header o))]> h) h
      ((λ kv, {| Header := {| Key := kv.1; Value := ""; RawValue := s2b kv.2 |};
                 Append := OVERWRITE_IF_EXISTS_OR_ADD |}) <$> l) =
    foldl (λ h kv, <[kv.1 := kv.2]> h) h l) as Hf.
  { induction l as [|kv l IH]; intros h'; simpl; [done|]. by rewrite IH, b2s_s2b. }
  rewrite Hf, foldl_insert_union by apply NoDup_fst_go_range.
  rewrite list_to_map_go_range. apply map_eq. intros k.
  rewrite lookup_apply_mutation, lookup_union, lookup_foldl_delete.
  assert (bool_decide (k ∈ RemovedHeaders m) = bool_decide (k ∈ removedHeaders m)) as ->.
  { apply bool_decide_ext, elem_of_RemovedHeaders. }
  destruct (mutatedHeaders m !! k), (if bool_decide _ then _ else _); done.
Qed.

(** ** Requests *)

(** C1: A request whose body is handled without error is answered by one
    headers response and the chunks of one body: the marshalled body map when
    a plugin mutated it, and otherwise the request's own bytes, unchanged.
    The chunks respect the 62000-byte limit, concatenate to that body, and
    only the last ends the stream; [Content-Length] is its length. When the
    plugins change the request through its methods, applying the answer's
    header mutation to the headers the proxy holds gives exactly the headers
    the plugins left (names compared as they are spelled). *)
Theorem HandleRequestBody_answer s w c body w' c' rs h0 :
  request_plugins_preserve (λ _ m, tracks h0 m) s → tracks h0 (Request c) →
  HandleRequestBody s w c body = Ok (w', c', inl rs) →
  ∃ out hm chunks,
    rs = RequestHeadersResp (Some hm) :: (RequestBodyResp <$> chunks) ∧
    streams out true chunks ∧
    (if bodyMutated (Request c') then json_marshal_map (Body (Request c')) = Some out
     else out = body) ∧
    Headers (Request c') !! contentLengthHeader = Some (itoa (Z.of_nat (length out))) ∧
    proxy_apply h0 <$> HeaderMutation_of hm = Some (Headers (Request c')).
Proof.
  intros Hpl Hc. unfold HandleRequestBody. intros E.
  apply mbind_Ok in E as ([[w1 c1] e] & H1 & E).
  apply (prepareRequest_preserves (λ _ m, tracks h0 m)) in H1;
    [|apply stable_message|done|by auto with ipp].
  destruct e as [e|]; [done|].
  apply finishRequest_ok in E as [(_ & _ & [e [=]])|(out & t & -> & Hout & _ & [= ->])].
  pose proof (tracks_SetHeader h0 (Request c1) contentLengthHeader
                (itoa (Z.of_nat (length out))) H1) as Ht.
  eexists out, _, _. split_and!; [done|apply BuildChunked_streams| | |].
  - simpl. rewrite bodyMutated_SetHeader, Body_SetHeader.
    destruct (bodyMutated (Request c1)); [done|by injection Hout].
  - simpl. by rewrite Headers_SetHeader, lookup_insert_eq.
  - destruct (proxy_apply_spec true (SetHeader (Request c1) contentLengthHeader
                (itoa (Z.of_nat (length out)))) h0) as [Hp ->].
    simpl. rewrite Hp. by rewrite (tracks_apply _ _ Ht).
Qed.

(** ** Events *)

Definition is_request_event (e : Event) : bool :=
  match e with RequestEvent _ _ => true | _ => false end.
Definition is_response_event (e : Event) : bool :=
  match e with ResponseEvent _ _ _ _ _ => true | _ => false end.

(** A method that does not call [Notify] itself. *)
Definition quiet {M} (f : W → CycleState → M → called W M) : Prop :=
  ∀ L, call_preserves (λ w _, notified w = L) f.

Record quiet_profile (p : Profile W) : Prop :=
  { qp_req : Forall (λ p, quiet (ProcessRequest p)) (RequestPlugins p);
    qp_rsp : Forall (λ p, quiet (ProcessResponse p)) (ResponsePlugins p);
    qp_chunk : Forall (λ p, ∀ fin, quiet (λ w cs m, ProcessResponseChunk p w cs m fin))
                 (ResponseChunkProcessors p) }.

(** The server's plugins leave [Notify] to the server, and its picker picks
    profiles of such plugins. *)
Record quiet_server (s : Server W) : Prop :=
  { qs_pre : Forall (λ p, quiet (ProcessRequest p)) (preProcessors s);
    qs_post : Forall (λ p, quiet (ProcessResponse p)) (postProcessors s);
    qs_hdr : Forall (λ p, quiet (ProcessResponseHeaders p)) (responseHeadersPostProcessors s);
    qs_empty : quiet_profile (emptyProfile s);
    qs_pick : ∀ pp w cs m w' cs' m' p e, profilePicker s = Some pp →
      PickProfile pp w cs m (profiles s) = Ok (w', cs', m', (p, e)) →
      notified w' = notified w ∧ ∀ q, p = Some q → quiet_profile q }.

Lemma quiet_loop {P M} (call : P → W → CycleState → M → called W M) ps L :
  Forall (λ p, quiet (call p)) ps →
  Forall (λ p, call_preserves (λ w _, notified w = L) (call p)) ps.
Proof. intros H. eapply Forall_impl; [exact H|]. intros p Hp. apply Hp. Qed.

(** The context's profile is one of the quiet ones, if it is not nil. *)
Definition quiet_ctx (c : RequestContext W) : Prop :=
  ∀ p, Profile_of c = Some p → quiet_profile p.

Lemma prepareRequest_quiet s w c body w' c' e :
  quiet_server s → quiet_ctx c →
  prepareRequest s w c body = Ok (w', c', e) → notified w' = notified w ∧ quiet_ctx c'.
Proof.
  intros Hs Hc E. split.
  - eapply (prepareRequest_preserves (λ w1 _, notified w1 = notified w));
      [apply stable_notified| |done|exact E]. split.
    + apply quiet_loop, (qs_pre _ Hs).
    + intros pp w1 cs m w2 cs' m' p e' Epp Hw E'.
      destruct (qs_pick _ Hs _ _ _ _ _ _ _ _ _ Epp E') as [Hn Hq].
      split; [congruence|]. intros q Hq'. by apply quiet_loop, qp_req, Hq.
  - revert E. unfold prepareRequest.
    destruct (json_unmarshal_map _ _) as [b bad]. destruct bad; [by intros [= <- <- _]|].
    intros E. apply mbind_Ok in E as ([[[w1 cs1] rq1] e1] & H1 & E).
    destruct e1; [by injection E as <- <- _|].
    destruct (profilePicker s) as [pp|] eqn:Epp; [|done].
    apply mbind_Ok in E as ([[[w2 cs2] rq2] [p e2]] & H2 & E).
    apply (qs_pick _ Hs _ _ _ _ _ _ _ _ _ Epp) in H2 as [_ Hq].
    destruct e2; [by injection E as <- <- _|]. destruct p as [p|]; [|done].
    apply mbind_Ok in E as ([[[w3 cs3] rq3] e3] & H3 & E).
    by injection E as <- <- _.
Qed.

Lemma HandleRequestBody_events s w c body w' c' r :
  quiet_server s → quiet_ctx c →
  HandleRequestBody s w c body = Ok (w', c', r) →
  quiet_ctx c' ∧
  notified w' = notified w ++
    match r with inl _ => [RequestEvent (Request c') (CycleState_of c')] | inr _ => [] end.
Proof.
  intros Hs Hc E. unfold HandleRequestBody in E.
  apply mbind_Ok in E as ([[w1 c1] e] & H1 & E).
  apply (prepareRequest_quiet _ _ _ _ _ _ _ Hs Hc) in H1 as [Hn Hq].
  destruct e as [e|]; [injection E as <- <- <-; by rewrite app_nil_r|].
  apply finishRequest_ok in E as [(-> & -> & e & ->)|(out & t & -> & _ & Hn' & ->)].
  - by rewrite app_nil_r.
  - split; [exact Hq|]. by rewrite Hn', Hn.
Qed.

Lemma HandleResponseBody_events s w c body w' c' r :
  quiet_server s → quiet_ctx c →
  HandleResponseBody s w c body = Ok (w', c', r) →
  quiet_ctx c' ∧ notified w' = notified w.
Proof.
  intros Hs Hc. unfold HandleResponseBody.
  destruct (Profile_of c) as [p|] eqn:Ep; [|done]. pose proof (Hc _ Ep) as Hp.
  destruct (negb _ && negb _); [by intros [= <- <- _]|].
  destruct (json_unmarshal_map _ _) as [b bad]. destruct bad.
  { intros [= <- <- _]. split; [exact Hc|done]. }
  intros E. apply mbind_Ok in E as ([[[w1 cs1] rsp1] e1] & H1 & E).
  assert (notified w1 = notified w) as Hw1.
  { destruct (0 <? length (ResponsePlugins p))%nat; [|by injection H1 as <- _ _ _].
    by apply (runResponsePlugins_preserves (λ w1 _, notified w1 = notified w) _
      (stable_notified _) (quiet_loop _ _ _ (qp_rsp _ Hp))) in H1. }
  destruct e1; [injection E as <- <- _; split; [exact Hc|done]|].
  apply mbind_Ok in E as ([[[w2 cs2] rsp2] e2] & H2 & E).
  apply (runResponsePlugins_preserves (λ w1 _, notified w1 = notified w) _
      (stable_notified _) (quiet_loop _ _ _ (qs_post _ Hs)) _ _ _ _ _ _ _ Hw1) in H2.
  destruct e2; [injection E as <- <- _; split; [exact Hc|done]|].
  revert E. unfold finishResponse.
  destruct (if BodyMutated _ then _ else _); intros [= <- <- _];
    (split; [|done]); [|exact Hc].
  intros q. destruct (BodyMutated _); exact (Hc q).
Qed.

Lemma HandleResponseChunk_events w c body eos w' c' r :
  quiet_ctx c → HandleResponseChunk w c body eos = Ok (w', c', r) →
  quiet_ctx c' ∧ notified w' = notified w.
Proof.
  intros Hc. unfold HandleResponseChunk, buildStreamedChunkResponse.
  destruct (Profile_of c) as [p|] eqn:Ep; [|done]. pose proof (Hc _ Ep) as Hp.
  destruct (ResponseChunkProcessors p) as [|cp cps] eqn:Ecp.
  { destruct (ResponseHeadersSent c); intros [= <- <- _]; split; done. }
  intros E. apply mbind_Ok in E as ([[[w1 cs1] rsp1] e1] & H1 & E).
  pose proof (qp_chunk _ Hp) as Hq. rewrite Ecp in Hq.
  apply (runResponseChunkProcessors_preserves (λ w1 _, notified w1 = notified w) _ eos
    (stable_notified _)) in H1; [|eapply Forall_impl; [exact Hq|]; intros q Hq'; apply Hq'|done].
  destruct e1; [injection E as <- <- _; split; [exact Hc|done]|].
  revert E. simpl. destruct (ResponseHeadersSent c); intros [= <- <- _]; split; done.
Qed.

Lemma complete_response_events s w c w' c' :
  quiet_ctx c → complete_response s w c = Ok (w', c') →
  quiet_ctx c' ∧ ∃ d t, notified w' = notified w ++
    [ResponseEvent (Request c) (Response c) (CycleState_of c) d t].
Proof.
  intros Hc. unfold complete_response, notify.
  destruct (now w) as [t w1] eqn:Et. pose proof (notified_now w) as En. rewrite Et in En.
  destruct (hasNotifier s); [|done]. simpl. intros [= <- <-]. split; [exact Hc|].
  eexists _, _. rewrite notified_Notify. unfold RecordRequestTTFT.
  rewrite notified_record. by rewrite <- En.
Qed.

(** ** The receive loop *)

(** [base] are the events before the stream; since then at most one request
    event, once the request body is complete, and at most one response event,
    once the response body is, were notified, and nothing else. *)
Definition logged (base : list Event) (w : W) (reqDone respDone : bool) : Prop :=
  ∃ L, notified w = base ++ L ∧
    length (List.filter is_request_event L) ≤ Nat.b2n reqDone ∧
    length (List.filter is_response_event L) ≤ Nat.b2n respDone ∧
    Forall (λ e, is_request_event e || is_response_event e) L.

Definition stream_inv (base : list Event) (w : W) (st : Stream W) : Prop :=
  quiet_ctx (reqCtx st) ∧ logged base w (requestBodyComplete st) (responseBodyComplete st).

Lemma logged_same base w w' a b : notified w' = notified w → logged base w a b → logged base w' a b.
Proof. intros E (L & HL & ?). exists L. by rewrite E. Qed.

Lemma logged_append base w w' a b a' b' L :
  logged base w a b → notified w' = notified w ++ L →
  length (List.filter is_request_event L) + Nat.b2n a ≤ Nat.b2n a' →
  length (List.filter is_response_event L) + Nat.b2n b ≤ Nat.b2n b' →
  Forall (λ e, is_request_event e || is_response_event e) L →
  logged base w' a' b'.
Proof.
  intros (L0 & HL0 & Hr & Hs & Hall) E ???. exists (L0 ++ L).
  rewrite !List.filter_app, !length_app, E, HL0, app_assoc.
  split_and!; [done|lia|lia|by apply Forall_app].
Qed.

Lemma on_request_body_inv base s w st body eos w' st' r :
  quiet_server s → stream_inv base w st →
  on_request_body s w st body eos = Ok (w', st', r) → stream_inv base w' st'.
Proof.
  intros Hs [Hc Hl]. unfold on_request_body. destruct st as [c rb rspb d1 d2]; simpl in *.
  destruct d1; [by intros [= <- <- _]|].
  destruct eos; simpl; [|by intros [= <- <- _]].
  intros E. apply mbind_Ok in E as ([[w1 c1] r1] & H1 & [= -> <- _]).
  apply (HandleRequestBody_events _ _ _ _ _ _ _ Hs Hc) in H1 as [Hc1 Hn].
  split; [exact Hc1|]. simpl.
  eapply logged_append; [exact Hl|exact Hn|..]; destruct r1; simpl; try lia;
    repeat constructor.
Qed.

Lemma on_response_body_inv base s w st body eos w' st' r :
  quiet_server s → stream_inv base w st →
  on_response_body s w st body eos = Ok (w', st', r) → stream_inv base w' st'.
Proof.
  intros Hs [Hc Hl]. unfold on_response_body. destruct st as [c rb rspb d1 d2]; simpl in *.
  destruct d2; [by intros [= <- <- _]|].
  destruct (if (ResponseFirstChunkTimestamp c =? 0)%Z then _ else _) as [c1 w1] eqn:E1.
  assert (quiet_ctx c1 ∧ notified w1 = notified w) as [Hc1 Hn1].
  { revert E1. destruct (_ =? 0)%Z; [|by intros [= <- <-]].
    destruct (now w) as [t w2] eqn:Et. intros [= <- <-]. split; [exact Hc|].
    pose proof (notified_now w) as En. by rewrite Et in En. }
  apply (logged_same _ _ _ _ _ Hn1) in Hl. clear E1 Hn1 Hc w c.
  destruct (Profile_of c1) as [p|] eqn:Ep; [|done].
  destruct (NeedsResponseBuffering p && negb eos); [by intros [= <- <- _]|].
  intros E. apply mbind_Ok in E as ([[w2 c2] r2] & H2 & E).
  assert (quiet_ctx c2 ∧ notified w2 = notified w1) as [Hc2 Hn2].
  { destruct (NeedsResponseBuffering p).
    - eapply HandleResponseBody_events; [exact Hs|exact Hc1|exact H2].
    - eapply HandleResponseChunk_events; [exact Hc1|exact H2]. }
  apply (logged_same _ _ _ _ _ Hn2) in Hl.
  apply mbind_Ok in E as ([w3 c3] & H3 & [= -> <- _]). destruct eos.
  - apply (complete_response_events _ _ _ _ _ Hc2) in H3 as (Hc3 & d & t & Hn3).
    split; [exact Hc3|]. simpl.
    eapply logged_append; [exact Hl|exact Hn3|..]; simpl; try lia; repeat constructor.
  - injection H3 as <- <-. split; [exact Hc2|exact Hl].
Qed.

Lemma dispatch_inv base s w st m h w' st' r :
  quiet_server s → stream_inv base w st → dispatch s w st m = Some h →
  h = Ok (w', st', r) → stream_inv base w' st'.
Proof.
  intros Hs Hst. destruct m as [hs|b e| |hs|b e| |]; simpl.
  - unfold HandleRequestHeaders. destruct (now w) as [t w1] eqn:Et.
    pose proof (notified_now w) as En. rewrite Et in En.
    intros [= <-] [= <- <- _]. destruct Hst as [Hc Hl]. split; [exact Hc|].
    by eapply logged_same.
  - intros [= <-]. by apply on_request_body_inv.
  - intros [= <-] [= <- <- _]. exact Hst.
  - intros [= <-] E. unfold lift_handled, HandleResponseHeaders in E.
    apply mbind_Ok in E as ([[w1 c1] r1] & H1 & [= -> <- _]).
    apply mbind_Ok in H1 as ([[[w2 cs2] rsp2] e2] & H2 & H1).
    apply (runResponseHeadersProcessors_preserves (λ w1 _, notified w1 = notified w) _
      (stable_notified _) (quiet_loop _ _ _ (qs_hdr _ Hs)) _ _ _ _ _ _ _ eq_refl) in H2.
    destruct Hst as [Hc Hl].
    destruct e2; injection H1 as <- <- _; (split; [exact Hc|]); by eapply logged_same.
  - intros [= <-]. by apply on_response_body_inv.
  - intros [= <-] [= <- <- _]. exact Hst.
  - done.
Qed.

Lemma process_step_inv base s w st rd w' st' sent ret :
  quiet_server s → stream_inv base w st →
  process_step s w st rd = Ok (w', st', sent, ret) → stream_inv base w' st'.
Proof.
  intros Hs Hst. unfold process_step.
  destruct (ctx_done rd); [by intros [= <- <- _ _]|].
  destruct (received rd) as [m| | |e]; [|by intros [= <- <- _ _]..].
  destruct (dispatch s w st m) as [h|] eqn:Ed; [|by intros [= <- <- _ _]].
  intros E. apply mbind_Ok in E as ([[w1 st1] o] & H1 & E).
  pose proof (dispatch_inv _ _ _ _ _ _ _ _ _ Hs Hst Ed H1) as H.
  destruct o as [rs|e].
  - destruct (send_all (send_ok rd) 0 rs). by injection E as <- <- _ _.
  - destruct (BuildErrResponse e); [destruct (send_ok rd 0)|]; by injection E as <- <- _ _.
Qed.

Lemma Process_rounds_inv base s w st rounds w' st' sent ret :
  quiet_server s → stream_inv base w st →
  Process_rounds s w st rounds = Ok (w', st', sent, ret) → stream_inv base w' st'.
Proof.
  intros Hs. revert w st sent ret.
  induction rounds as [|rd rounds IH]; intros w st sent ret Hst; simpl.
  { by intros [= <- <- _ _]. }
  intros E. apply mbind_Ok in E as ([[[w1 st1] sent1] ret1] & H1 & E).
  apply (process_step_inv base) in H1; [|done|done].
  destruct ret1; [by injection E as <- <- _ _|].
  apply mbind_Ok in E as ([[[w2 st2] sent2] ret2] & H2 & [= -> -> _ _]).
  by apply (IH _ _ _ _ H1) in H2.
Qed.

(** C2: Whatever messages the proxy sends, in whatever order and however
    often, one stream notifies the data layer of at most one request and at
    most one response, and of nothing else. *)
Theorem Process_notifies_at_most_once s w rounds w' st sent ret :
  quiet_server s → Process s w rounds = Ok (w', st, sent, ret) →
  ∃ L, notified w' = notified w ++ L ∧
    length (List.filter is_request_event L) ≤ 1 ∧
    length (List.filter is_response_event L) ≤ 1 ∧
    Forall (λ e, is_request_event e || is_response_event e) L.
Proof.
  intros Hs E. apply (Process_rounds_inv (notified w)) in E as [_ (L & HL & H1 & H2 & H3)]; [|done|].
  - exists L. split_and!; [done| | |done].
    + by destruct (requestBodyComplete st); simpl in *; lia.
    + by destruct (responseBodyComplete st); simpl in *; lia.
  - split; simpl.
    + intros p [= <-]. apply (qs_empty _ Hs).
    + exists []. rewrite app_nil_r. split_and!; simpl; [done|lia|lia|constructor].
Qed.

(** Body chunks that arrive after the end of the stream change nothing. *)
Lemma on_request_body_late s w st body eos :
  requestBodyComplete st = true → on_request_body s w st body eos = Ok (w, st, inl []).
Proof. intros H. unfold on_request_body. by rewrite H. Qed.

(** A body chunk that is delivered again after the end of its stream is
    ignored: the loop sends nothing, changes no state - not the accumulated
    body, not the request or response, not the world - and goes on. *)
Theorem late_chunks_ignored s w st body eos :
  (requestBodyComplete st = true →
    process_step s w st (deliver (RequestBody body eos)) = Ok (w, st, [], None)) ∧
  (responseBodyComplete st = true →
    process_step s w st (deliver (ResponseBody body eos)) = Ok (w, st, [], None)).
Proof.
  split; intros H; unfold process_step; simpl.
  - by rewrite on_request_body_late.
  - unfold on_response_body. by rewrite H.
Qed.

(** The messages that deliver a request body in the pieces [cs] and [last]. *)
Definition body_rounds (cs : list bytes) (last : bytes) : list Round :=
  ((λ b, deliver (RequestBody b false)) <$> cs) ++ [deliver (RequestBody last true)].

Definition with_requestBody (st : Stream W) (b : bytes) : Stream W :=
  {| reqCtx := reqCtx st; requestBody := b; responseBody := responseBody st;
     requestBodyComplete := requestBodyComplete st;
     responseBodyComplete := responseBodyComplete st |}.

Lemma with_requestBody_eq st st' b :
  reqCtx st = reqCtx st' → responseBody st = responseBody st' →
  requestBodyComplete st = requestBodyComplete st' →
  responseBodyComplete st = responseBodyComplete st' →
  with_requestBody st b = with_requestBody st' b.
Proof. destruct st, st'; simpl. by intros -> -> -> ->. Qed.

Lemma Process_body_pieces s w st cs last :
  requestBodyComplete st = false →
  Process_rounds s w st (body_rounds cs last) =
  Process_rounds s w (with_requestBody st (requestBody st ++ mjoin cs))
    [deliver (RequestBody last true)].
Proof.
  revert st. induction cs as [|b cs IH]; intros st Hd.
  - simpl. rewrite app_nil_r. by destruct st.
  - unfold body_rounds. rewrite fmap_cons. cbn [app Process_rounds].
    change (((λ b, deliver (RequestBody b false)) <$> cs) ++ [deliver (RequestBody last true)])
      with (body_rounds cs last).
    unfold process_step at 1. simpl. unfold on_request_body at 1. rewrite Hd. simpl.
    rewrite IH by done. rewrite (with_requestBody_eq _ st) by (simpl; congruence). simpl. rewrite <- app_assoc.
    by destruct (process_step s w _ _) as [[[[? ?] ?] [?|]]|]; simpl.
Qed.

(** C30: How the proxy cuts a request body into chunks does not matter: two
    deliveries of the same bytes leave the same state and get the same
    answers, namely those of one chunk with the whole body. *)
Theorem request_chunking_invariant s w st cs last :
  requestBodyComplete st = false → requestBody st = [] →
  Process_rounds s w st (body_rounds cs last) =
  Process_rounds s w st (body_rounds [] (mjoin cs ++ last)).
Proof.
  intros Hd Hb. rewrite !Process_body_pieces by done. rewrite Hb. simpl.
  unfold process_step. simpl. unfold on_request_body. simpl. rewrite ?Hd, ?Hb. simpl.
  done.
Qed.

(** ** Responses *)

(** A completed response notifies its event once, after the response plugins
    have run: the event carries the response they left. *)
Lemma on_response_body_final_event s w st body w' st' r :
  quiet_server s → quiet_ctx (reqCtx st) → responseBodyComplete st = false →
  on_response_body s w st body true = Ok (w', st', r) →
  responseBodyComplete st' = true ∧
  ∃ d t, notified w' = notified w ++
    [ResponseEvent (Request (reqCtx st')) (Response (reqCtx st'))
       (CycleState_of (reqCtx st')) d t].
Proof.
  intros Hs Hc Hd. unfold on_response_body. rewrite Hd.
  destruct (if (ResponseFirstChunkTimestamp (reqCtx st) =? 0)%Z then _ else _)
    as [c1 w1] eqn:E1.
  assert (quiet_ctx c1 ∧ notified w1 = notified w) as [Hc1 Hn1].
  { revert E1. destruct (_ =? 0)%Z; [|by intros [= <- <-]].
    destruct (now w) as [t w2] eqn:Et. intros [= <- <-]. split; [exact Hc|].
    pose proof (notified_now w) as En. by rewrite Et in En. }
  destruct (Profile_of c1) as [p|]; [|done]. rewrite andb_false_r.
  intros E. apply mbind_Ok in E as ([[w2 c2] r2] & H2 & E).
  assert (quiet_ctx c2 ∧ notified w2 = notified w1) as [Hc2 Hn2].
  { destruct (NeedsResponseBuffering p).
    - eapply HandleResponseBody_events; [exact Hs|exact Hc1|exact H2].
    - eapply HandleResponseChunk_events; [exact Hc1|exact H2]. }
  apply mbind_Ok in E as ([w3 c3] & H3 & [= -> <- _]). split; [done|]. simpl.
  revert H3. unfold complete_response, notify.
  destruct (now w2) as [t w4] eqn:Et. pose proof (notified_now w2) as En. rewrite Et in En.
  destruct (hasNotifier s); [|done]. simpl. intros [= <- <-].
  eexists _, _. rewrite notified_Notify. unfold RecordRequestTTFT.
  rewrite notified_record, <- Hn1, <- Hn2. by rewrite <- En.
Qed.

(** The last chunk of a response notifies the data layer of exactly one
    response event, and does so after the response plugins: the event carries
    the request, response and cycle state they left - also when a plugin
    failed and the client gets an error instead of the response. *)
Theorem response_event_after_plugins s w st body w' st' sent ret :
  quiet_server s → quiet_ctx (reqCtx st) → responseBodyComplete st = false →
  process_step s w st (deliver (ResponseBody body true)) = Ok (w', st', sent, ret) →
  responseBodyComplete st' = true ∧
  ∃ d t, notified w' = notified w ++
    [ResponseEvent (Request (reqCtx st')) (Response (reqCtx st'))
       (CycleState_of (reqCtx st')) d t].
Proof.
  intros Hs Hc Hd. unfold process_step. simpl.
  intros E. apply mbind_Ok in E as ([[w1 st1] o] & H1 & E).
  apply (on_response_body_final_event _ _ _ _ _ _ _ Hs Hc Hd) in H1.
  destruct o as [rs|e].
  - destruct (send_all _ _ rs). by injection E as <- <- _ _.
  - destruct (BuildErrResponse e); by injection E as <- <- _ _.
Qed.

(** The plugins that a buffered response can run keep [I]. *)
Definition response_plugins_preserve (I : W → InferenceResponse → Prop) (s : Server W)
    (c : RequestContext W) : Prop :=
  Forall (λ p, call_preserves I (ProcessResponse p)) (postProcessors s) ∧
  ∀ p, Profile_of c = Some p → Forall (λ p, call_preserves I (ProcessResponse p)) (ResponsePlugins p).

(** Whether plugins see the response: there are some, and its body is a JSON object. *)
Definition plugins_see (s : Server W) (c : RequestContext W) (body : bytes) : bool :=
  match Profile_of c with
  | Some p => ((0 <? length (ResponsePlugins p)) || (0 <? length (postProcessors s)))%nat &&
      negb (json_unmarshal_map body (Body (rmsg (Response c)))).2
  | None => false
  end.

(** What the answer makes of the headers [h] that the proxy holds. *)
Definition proxied (h : gmap string string) (hm : option CommonResponse) : gmap string string :=
  match hm ≫= HeaderMutation_of with Some m => proxy_apply h m | None => h end.

Lemma proxied_mutation h clear m :
  tracks h m → proxied h (Some (header_mutation clear (GenerateHeadersMutation (MutatedHeaders m))
    (RemovedHeaders m))) = Headers m.
Proof.
  intros Ht. unfold proxied, MutatedHeaders. simpl. destruct (proxy_apply_spec clear m h) as [Hp _].
  rewrite Hp. apply (tracks_apply _ _ Ht).
Qed.

Lemma proxied_buildHeadersResponse h (c : RequestContext W) :
  tracks h (rmsg (Response c)) → proxied h (buildHeadersResponse c) = Headers (rmsg (Response c)).
Proof.
  intros Ht. unfold buildHeadersResponse. destruct (_ && _) eqn:E; [|by apply proxied_mutation].
  apply andb_prop in E as [E1%Nat.eqb_eq%map_size_empty_inv E2%Nat.eqb_eq%length_zero_iff_nil].
  simpl. rewrite <- (tracks_apply _ _ Ht). apply map_eq. intros k. unfold MutatedHeaders in E1.
  rewrite lookup_apply_mutation, E1, lookup_empty. rewrite bool_decide_false; [done|].
  rewrite <- elem_of_RemovedHeaders, E2. apply not_elem_of_nil.
Qed.

Lemma finishResponse_ok (w : W) c body w' c' rs :
  finishResponse w c body = Ok (w', c', inl rs) →
  ∃ out, c' = (if bodyMutated (rmsg (Response c))
               then set_response c (with_rmsg (Response c)
                 (SetHeader (rmsg (Response c)) contentLengthHeader (itoa (Z.of_nat (length out)))))
               else c) ∧
    (if bodyMutated (rmsg (Response c)) then json_marshal_map (Body (rmsg (Response c))) = Some out
     else out = body) ∧
    rs = ResponseHeadersResp (Some (header_mutation true
           (GenerateHeadersMutation (MutatedHeaders (rmsg (Response c'))))
           (RemovedHeaders (rmsg (Response c'))))) :: (ResponseBodyResp <$> BuildChunkedBodyResponses out true).
Proof.
  unfold finishResponse, BodyMutated, AddStreamedResponseBody. destruct (bodyMutated _).
  - destruct (json_marshal_map _) as [out|]; [|done]. intros [= _ <- <-]. by exists out.
  - intros [= _ <- <-]. by exists body.
Qed.

(** C13: A buffered response that is answered is answered by one headers
    response and the chunks of one body that ends the stream. When plugins of
    the profile or post-processors see the response and its body is marked as
    mutated after them, that is the marshalled body map, and [Content-Length] is
    its length; when it is not marked, it is the original bytes, and so it is
    when no plugin sees the response because there are none, or because its body
    is not a JSON object.
    When the plugins change the response through its methods, applying the
    answer's header mutation, if it has one, to the headers the proxy holds
    gives exactly the headers the plugins left. *)
Theorem HandleResponseBody_answer s w c body w' c' rs h0 :
  response_plugins_preserve (λ _ m, tracks h0 (rmsg m)) s c → tracks h0 (rmsg (Response c)) →
  HandleResponseBody s w c body = Ok (w', c', inl rs) →
  ∃ out hm chunks,
    rs = ResponseHeadersResp hm :: (ResponseBodyResp <$> chunks) ∧
    streams out true chunks ∧
    (if plugins_see s c body && bodyMutated (rmsg (Response c'))
     then json_marshal_map (Body (rmsg (Response c'))) = Some out ∧
       Headers (rmsg (Response c')) !! contentLengthHeader = Some (itoa (Z.of_nat (length out)))
     else out = body) ∧
    proxied h0 hm = Headers (rmsg (Response c')).
Proof.
  intros [Hpost Hprof] Hc. unfold HandleResponseBody, generatePassthroughResponseBodyResponse,
    AddStreamedResponseBody, plugins_see. destruct (Profile_of c) as [p|] eqn:Ep; [|done].
  rewrite <- negb_orb. destruct (_ || _); simpl.
  2: { intros [= _ <- <-]. eexists body, _, _.
       split_and!; [done|apply BuildChunked_streams|done|by apply proxied_buildHeadersResponse]. }
  destruct (json_unmarshal_map _ _) as [b [|]]; simpl.
  { intros [= _ <- <-]. eexists body, _, _.
    split_and!; [done|apply BuildChunked_streams|done|].
    by apply (proxied_buildHeadersResponse h0 (set_response c _)), tracks_with_body. }
  intros E. apply mbind_Ok in E as ([[[w1 cs1] rsp1] e1] & H1 & E).
  assert (tracks h0 (rmsg rsp1)) as Ht1.
  { assert (tracks h0 (with_body (rmsg (Response c)) b)) as Hb by by apply tracks_with_body.
    revert H1. destruct (0 <? _)%nat; [|by intros [= _ _ <- _]].
    by apply (runResponsePlugins_preserves (λ _ m, tracks h0 (rmsg m)) _ (stable_message _) (Hprof p eq_refl)). }
  destruct e1; [done|]. apply mbind_Ok in E as ([[[w2 cs2] rsp2] e2] & H2 & E).
  apply (runResponsePlugins_preserves (λ _ m, tracks h0 (rmsg m)) _ (stable_message _) Hpost) in H2; [|exact Ht1].
  destruct e2; [done|]. apply finishResponse_ok in E as (out & -> & Hout & ->). simpl in Hout |- *.
  eexists out, _, _. split_and!; [done|apply BuildChunked_streams| |].
  - destruct (bodyMutated (rmsg rsp2)) eqn:Em; simpl.
    + by rewrite bodyMutated_SetHeader, Em, Body_SetHeader, Headers_SetHeader, lookup_insert_eq.
    + by rewrite Em.
  - apply proxied_mutation. destruct (bodyMutated (rmsg rsp2)); [by apply tracks_SetHeader|done].
Qed.

(** The messages that stream a response body. *)
Definition response_rounds (cs : list bytes) (last : bytes) : list Round :=
  ((λ b, deliver (ResponseBody b false)) <$> cs) ++ [deliver (ResponseBody last true)].

(** A profile that neither buffers nor processes chunks. *)
Definition streaming_profile (p : Profile W) : Prop :=
  NeedsResponseBuffering p = false ∧ ResponseChunkProcessors p = [].

Definition ready_to_stream (st : Stream W) : Prop :=
  responseBodyComplete st = false ∧
  ∃ p, Profile_of (reqCtx st) = Some p ∧ streaming_profile p.

Lemma streaming_step s w st body (eos : bool) :
  ready_to_stream st → (eos = true → hasNotifier s = true) →
  ∃ w' st', process_step s w st (deliver (ResponseBody body eos)) =
      Ok (w', st',
          (if ResponseHeadersSent (reqCtx st) then []
           else [ResponseHeadersResp (buildHeadersResponse (reqCtx st))]) ++
          [ResponseBodyResp (streamed body eos)], None) ∧
    ResponseHeadersSent (reqCtx st') = true ∧ responseBodyComplete st' = eos ∧
    (eos = false → ready_to_stream st').
Proof.
  intros (Hd & p & Hp & Hb & Hcp) Hn. unfold process_step. simpl.
  unfold on_response_body. rewrite Hd.
  destruct (if (ResponseFirstChunkTimestamp (reqCtx st) =? 0)%Z then _ else _)
    as [c1 w1] eqn:E1.
  assert (Profile_of c1 = Some p ∧ ResponseHeadersSent c1 = ResponseHeadersSent (reqCtx st) ∧
          buildHeadersResponse c1 = buildHeadersResponse (reqCtx st)) as (Hp1 & Hh1 & Hbr1).
  { revert E1. destruct (_ =? 0)%Z; [destruct (now w)|]; by intros [= <- <-]. }
  rewrite Hp1, Hb. simpl. unfold HandleResponseChunk, buildStreamedChunkResponse.
  rewrite Hp1, Hcp, Hh1. unfold complete_response, notify.
  destruct eos.
  - rewrite Hn by done.
    destruct (ResponseHeadersSent (reqCtx st)) eqn:Eh; simpl;
      destruct (now w1); simpl; rewrite ?Hbr1; eexists _, _; split_and!; done.
  - destruct (ResponseHeadersSent (reqCtx st)) eqn:Eh; simpl; rewrite ?Hbr1;
      eexists _, _; (split_and!; [done|done|done|]); intros _; split; [done| |done|];
      by exists p.
Qed.

Lemma streaming_rounds s w st cs last :
  ready_to_stream st → hasNotifier s = true →
  ∃ w' st', Process_rounds s w st (response_rounds cs last) =
    Ok (w', st',
        (if ResponseHeadersSent (reqCtx st) then []
         else [ResponseHeadersResp (buildHeadersResponse (reqCtx st))]) ++
        (((λ b, ResponseBodyResp (streamed b false)) <$> cs) ++
         [ResponseBodyResp (streamed last true)]), None) ∧
    responseBodyComplete st' = true.
Proof.
  intros Hst Hn. revert w st Hst. induction cs as [|b cs IH]; intros w st Hst.
  - destruct (streaming_step s w st last true Hst) as (w' & st' & E & _ & Hd & _); [done|].
    exists w', st'. cbn [response_rounds fmap list_fmap app Process_rounds].
    unfold response_rounds. simpl. rewrite E. simpl. by rewrite app_nil_r.
  - destruct (streaming_step s w st b false Hst) as (w' & st' & E & Hh & _ & Hr); [done|].
    destruct (IH w' st' (Hr eq_refl)) as (w2 & st2 & E2 & Hd2).
    exists w2, st2. unfold response_rounds. rewrite fmap_cons. cbn [app Process_rounds].
    rewrite E. simpl.
    change (((λ b, deliver (ResponseBody b false)) <$> cs) ++ [deliver (ResponseBody last true)])
      with (response_rounds cs last).
    rewrite E2, Hh. simpl. by rewrite <- app_assoc.
Qed.

(** C12: With a profile that neither buffers nor processes chunks, a response
    streams through unchanged: one headers response before the first chunk,
    then every chunk with its bytes and its end-of-stream flag, in order. *)
Theorem response_streams_through s w st cs last :
  ready_to_stream st → ResponseHeadersSent (reqCtx st) = false → hasNotifier s = true →
  ∃ w' st', Process_rounds s w st (response_rounds cs last) =
    Ok (w', st',
        ResponseHeadersResp (buildHeadersResponse (reqCtx st)) ::
        (((λ b, ResponseBodyResp (streamed b false)) <$> cs) ++
         [ResponseBodyResp (streamed last true)]), None) ∧
    responseBodyComplete st' = true.
Proof.
  intros Hst Hh Hn. pose proof (streaming_rounds s w st cs last Hst Hn) as H. by rewrite Hh in H.
Qed.

(** ** Errors *)

(** A handler error ends the stream. A typed error whose code is one of
    the seven HTTP ones becomes a single immediate response with that status
    and the error's text, and [Process] returns nil; any other error - untyped,
    or a typed one that is wrapped - sends nothing and fails the stream with a
    gRPC status. *)
Theorem handler_error_ends_stream s w st m w' st' e :
  dispatch s w st m = Some (Ok (w', st', inr e)) →
  process_step s w st (deliver m) =
    Ok (w', st', match http_code (ErrCommon.CanonicalCode e) with
                 | Some c => [ImmediateResp c (s2b (error_text e))]
                 | None => []
                 end,
        Some (match http_code (ErrCommon.CanonicalCode e) with
              | Some _ => None
              | None => Some (EStatus (status_Code e)
                                ("failed to handle request: " +:+ error_text e))
              end)).
Proof.
  intros E. unfold process_step. simpl. rewrite E. simpl. unfold BuildErrResponse.
  by destruct (http_code _).
Qed.

(** A request body that is not a JSON object (nor [null]) is answered by a
    single 400 response and ends the stream: no plugin runs, the world is not
    touched, nothing is notified. *)
Theorem malformed_request_is_400 s w st body :
  requestBodyComplete st = false →
  (json_unmarshal_map (requestBody st ++ body) (Body (Request (reqCtx st)))).2 = true →
  ∃ st', process_step s w st (deliver (RequestBody body true)) =
    Ok (w, st', [ImmediateResp 400 (s2b ("inference error: BadRequest - failed to parse request body: "
                   +:+ json_error (requestBody st ++ body)))], Some None).
Proof.
  intros Hd Hbad. unfold process_step. simpl. unfold on_request_body. rewrite Hd. simpl.
  unfold HandleRequestBody, prepareRequest.
  destruct (json_unmarshal_map _ _) as [b bad]. simpl in Hbad. subst bad. simpl.
  eexists. reflexivity.
Qed.
End server.


(** ** Witnesses *)

(** A plugin that labels every request, and a server that picks the one profile
    it has. *)
Definition demo_labeller : RequestProcessor StdWorld :=
  {| rp_name := {| Type_ := "labeller"; Name := "labeller" |};
     ProcessRequest := λ w cs m, Ok (w, cs, SetHeader m "x-tier" "gold", None) |}.

Definition demo_picker : ProfilePicker StdWorld :=
  {| pp_name := {| Type_ := "picker"; Name := "picker" |};
     PickProfile := λ w cs m ps,
       Ok (w, cs, m, match ps !! "default" with
                     | Some p => (Some p, None)
                     | None => (None, Some (ENew "no profile"))
                     end) |}.

Definition demo_profile : Profile StdWorld :=
  {| RequestPlugins := [demo_labeller]; ResponsePlugins := []; ResponseChunkProcessors := [];
     NeedsResponseBuffering := false |}.

Definition demo_server : Server StdWorld :=
  WithEventNotifier (NewServer [demo_labeller] (Some demo_picker) {["default" := demo_profile]} [] []).

Definition demo_body : bytes := s2b "{}".

Definition demo_ctx : RequestContext StdWorld := NewRequestContext demo_server.


Definition answered {A B} (r : res (A * (B + goerror))) : bool :=
  match r with Ok (_, inl _) => true | _ => false end.

Lemma answered_inv {A A' B} (r : res (A * A' * (B + goerror))) :
  answered r = true → ∃ w c rs, r = Ok (w, c, inl rs).
Proof. destruct r as [[[w c] [rs|e]]|]; try done. by exists w, c, rs. Qed.

Definition returned {A} (r : res A) : bool := match r with Ok _ => true | Panic _ => false end.

Lemma returned_inv {A B C D} (r : res (A * B * C * D)) :
  returned r = true → ∃ a b c d, r = Ok (a, b, c, d).
Proof. destruct r as [[[[a b] c] d]|]; try done. by exists a, b, c, d. Qed.

Lemma demo_labeller_preserves (I : StdWorld → InferenceRequest → Prop) :
  (∀ w m, I w m → I w (SetHeader m "x-tier" "gold")) →
  call_preserves I (ProcessRequest demo_labeller).
Proof. intros HI w cs m w' cs' m' e Hm [= <- <- <- <-]. auto. Qed.

Lemma demo_pick w cs m w' cs' m' p e :
  PickProfile demo_picker w cs m (profiles demo_server) = Ok (w', cs', m', (p, e)) →
  w' = w ∧ m' = m ∧ ∀ q, p = Some q → q = demo_profile.
Proof. simpl. rewrite lookup_singleton_eq. intros [= <- <- <- <- <-]. naive_solver. Qed.

Lemma demo_plugins_preserve I :
  (∀ w m, I w m → I w (SetHeader m "x-tier" "gold")) → request_plugins_preserve I demo_server.
Proof.
  intros HI. split.
  - by apply Forall_singleton, demo_labeller_preserves.
  - intros pp w cs m w' cs' m' p e [= <-] Hm (-> & -> & Hq)%demo_pick. split; [done|].
    intros q ->. rewrite (Hq q eq_refl). by apply Forall_singleton, demo_labeller_preserves.
Qed.

Lemma demo_quiet : quiet_server demo_server.
Proof.
  assert (quiet_profile demo_profile) as Hq.
  { split; [|apply Forall_nil_2..]. apply Forall_singleton. intros L.
    by apply demo_labeller_preserves. }
  split; [|apply Forall_nil_2..| |].
  - apply Forall_singleton. intros L. by apply demo_labeller_preserves.
  - split; apply Forall_nil_2.
  - intros pp w cs m w' cs' m' p e [= <-] (-> & _ & Hp)%demo_pick. split; [done|].
    intros q ->. by rewrite (Hp q eq_refl).
Qed.

Lemma HandleRequestBody_answer_witness :
  ∃ w' c' rs out hm chunks,
    HandleRequestBody demo_server std0 demo_ctx demo_body = Ok (w', c', inl rs) ∧
    rs = RequestHeadersResp (Some hm) :: (RequestBodyResp <$> chunks) ∧
    streams out true chunks ∧
    proxy_apply ∅ <$> HeaderMutation_of hm = Some (Headers (Request c')).
Proof.
  destruct (answered_inv (HandleRequestBody demo_server std0 demo_ctx demo_body)) as (w' & c' & rs & E);
    [vm_compute; reflexivity|].
  destruct (HandleRequestBody_answer demo_server std0 demo_ctx demo_body w' c' rs ∅)
    as (out & hm & chunks & Hrs & Hs & _ & _ & Hh).
  - apply demo_plugins_preserve. intros w m. apply tracks_SetHeader.
  - apply (tracks_fresh ∅).
  - exact E.
  - by exists w', c', rs, out, hm, chunks.
Defined.

(** A request, its body twice, and a streamed response. *)
Definition demo_rounds : list Round :=
  [deliver (RequestHeaders None); deliver (RequestBody demo_body true);
   deliver (RequestBody demo_body true); deliver (ResponseBody demo_body false);
   deliver (ResponseBody [] true)].

Lemma Process_notifies_at_most_once_witness :
  ∃ w' st sent ret, Process demo_server std0 demo_rounds = Ok (w', st, sent, ret) ∧
    ∃ L, notified w' = notified std0 ++ L ∧
      length (List.filter is_request_event L) ≤ 1 ∧ length (List.filter is_response_event L) ≤ 1.
Proof.
  destruct (returned_inv (Process demo_server std0 demo_rounds)) as (w' & st & sent & ret & E);
    [vm_compute; reflexivity|].
  destruct (Process_notifies_at_most_once demo_server std0 demo_rounds w' st sent ret)
    as (L & HL & H1 & H2 & _); [apply demo_quiet|exact E|].
  exists w', st, sent, ret. split; [exact E|]. by exists L.
Defined.

Definition demo_stream : Stream StdWorld := NewStream demo_server.

Definition done_stream : Stream StdWorld :=
  {| reqCtx := demo_ctx; requestBody := demo_body; responseBody := demo_body;
     requestBodyComplete := true; responseBodyComplete := true |}.

Lemma late_chunks_ignored_witness :
  process_step demo_server std0 done_stream (deliver (RequestBody demo_body true)) =
    Ok (std0, done_stream, [], None) ∧
  process_step demo_server std0 done_stream (deliver (ResponseBody demo_body true)) =
    Ok (std0, done_stream, [], None).
Proof.
  destruct (late_chunks_ignored demo_server std0 done_stream demo_body true) as [H1 H2].
  split; [by apply H1|by apply H2].
Defined.

Lemma request_chunking_invariant_witness :
  Process_rounds demo_server std0 demo_stream (body_rounds [s2b "{"] (s2b "}")) =
  Process_rounds demo_server std0 demo_stream (body_rounds [] demo_body).
Proof. apply (request_chunking_invariant demo_server std0 demo_stream [s2b "{"] (s2b "}")); reflexivity. Defined.

Lemma response_event_after_plugins_witness :
  ∃ w' st' sent ret, 
    process_step demo_server std0 demo_stream (deliver (ResponseBody demo_body true)) =
      Ok (w', st', sent, ret) ∧
    ∃ d t, notified w' = [ResponseEvent (Request (reqCtx st')) (Response (reqCtx st'))
         (CycleState_of (reqCtx st')) d t].
Proof.
  destruct (returned_inv (process_step demo_server std0 demo_stream
    (deliver (ResponseBody demo_body true)))) as (w' & st' & sent & ret & E);
    [vm_compute; reflexivity|].
  destruct (response_event_after_plugins demo_server std0 demo_stream demo_body w' st' sent ret)
    as (_ & d & t & Hn); [apply demo_quiet| |reflexivity|exact E|].
  - intros p [= <-]. apply (qs_empty _ demo_quiet).
  - exists w', st', sent, ret. split; [exact E|]. by exists d, t.
Defined.

(** A context whose profile has a response plugin that labels the response and
    writes into its body. *)
Definition demo_tagger : ResponseProcessor StdWorld :=
  {| rsp_name := {| Type_ := "tagger"; Name := "tagger" |};
     ProcessResponse := λ w cs m,
       m' ← SetBodyField (SetHeader (rmsg m) "x-tier" "gold") "tier" (AStr "gold");
       Ok (w, cs, with_rmsg m m', None) |}.

Lemma demo_tagger_tracks h0 :
  call_preserves (λ _ m, tracks h0 (rmsg m)) (ProcessResponse demo_tagger).
Proof.
  intros w cs m w' cs' m' e Hm E. apply mbind_Ok in E as (m1 & H1 & [= _ _ <- _]). simpl.
  eapply tracks_SetBodyField; [|exact H1]. by apply tracks_SetHeader.
Qed.

Definition tagged_ctx : RequestContext StdWorld :=
  set_profile demo_ctx (Some {| RequestPlugins := []; ResponsePlugins := [demo_tagger];
    ResponseChunkProcessors := []; NeedsResponseBuffering := true |}).

(** The body with the field that the plugin writes: single quotes stand for double ones. *)
Definition tagged_body : bytes :=
  List.map (λ b, if decide (b = Byte.x27) then Byte.x22 else b) (s2b "{'tier':'gold'}").

(** The client gets that body. *)
Lemma HandleResponseBody_answer_witness :
  ∃ w' c' rs out hm chunks,
    HandleResponseBody demo_server std0 tagged_ctx demo_body = Ok (w', c', inl rs) ∧
    rs = ResponseHeadersResp hm :: (ResponseBodyResp <$> chunks) ∧ streams out true chunks ∧
    out = tagged_body ∧ proxied ∅ hm = Headers (rmsg (Response c')).
Proof.
  assert (match HandleResponseBody demo_server std0 tagged_ctx demo_body with
    | Ok (_, c', inl _) => bool_decide (bodyMutated (rmsg (Response c')) = true ∧
        json_marshal_map (Body (rmsg (Response c'))) = Some tagged_body)
    | _ => false end = true) as H by (vm_compute; reflexivity).
  destruct (HandleResponseBody demo_server std0 tagged_ctx demo_body) as [[[w' c'] [rs|]]|] eqn:E; try discriminate H.
  apply bool_decide_eq_true in H as [Hm Hb].
  destruct (HandleResponseBody_answer demo_server std0 tagged_ctx demo_body w' c' rs ∅)
    as (out & hm & chunks & Hrs & Hs & Hout & Hh).
  - split; [apply Forall_nil_2|]. intros p [= <-]. apply Forall_singleton, demo_tagger_tracks.
  - apply (tracks_fresh ∅).
  - exact E.
  - rewrite Hm, Hb in Hout. destruct Hout as [Hj _]. exists w', c', rs, out, hm, chunks.
    injection Hj as <-. exact (conj eq_refl (conj Hrs (conj Hs (conj eq_refl Hh)))).
Defined.

Lemma response_streams_through_witness :
  ∃ w' st', Process_rounds demo_server std0 demo_stream (response_rounds [s2b "a"; s2b "b"] []) =
    Ok (w', st', [ResponseHeadersResp (buildHeadersResponse demo_ctx);
                  ResponseBodyResp (streamed (s2b "a") false);
                  ResponseBodyResp (streamed (s2b "b") false);
                  ResponseBodyResp (streamed [] true)], None) ∧ responseBodyComplete st' = true.
Proof.
  apply (response_streams_through demo_server std0 demo_stream [s2b "a"; s2b "b"] []);
    [split; [reflexivity|]; by eexists|reflexivity..].
Defined.

Definition bad_body : bytes := s2b "[1]".

(** What a request with a bad body gets from the handler. *)
Definition bad_result := on_request_body demo_server std0 demo_stream bad_body true.

Lemma handler_error_ends_stream_witness :
  ∃ w' st' e, dispatch demo_server std0 demo_stream (RequestBody bad_body true) =
      Some (Ok (w', st', inr e)) ∧
    process_step demo_server std0 demo_stream (deliver (RequestBody bad_body true)) =
      Ok (w', st', [ImmediateResp 400 (s2b (error_text e))], Some None).
Proof.
  assert (∃ w' st' e, bad_result = Ok (w', st', inr e) ∧ http_code (ErrCommon.CanonicalCode e) = Some 400%Z)
    as (w' & st' & e & E & Hc) by (eexists _, _, _; vm_compute; split; reflexivity).
  exists w', st', e. assert (dispatch demo_server std0 demo_stream (RequestBody bad_body true) =
      Some (Ok (w', st', inr e))) as Hd by (simpl; by rewrite <- E).
  split; [exact Hd|].
  pose proof (handler_error_ends_stream demo_server std0 demo_stream (RequestBody bad_body true)
    w' st' e Hd) as Hw. rewrite Hc in Hw. exact Hw.
Defined.

Lemma malformed_request_is_400_witness :
  ∃ st', process_step demo_server std0 demo_stream (deliver (RequestBody bad_body true)) =
      Ok (std0, st', [ImmediateResp 400 (s2b ("inference error: BadRequest - failed to parse request body: "
                     +:+ json_error bad_body))], Some None).
Proof.
  apply (malformed_request_is_400 demo_server std0 demo_stream bad_body); [reflexivity|].
  vm_compute. reflexivity.
Defined.
