(* ===== verification/ServerSpec.v ===== *)
(** The receive loop of pkg/handlers/server.go, specified: for a proxy that
    delivers an exchange in order, [Process] is the straight-line program that
    hands each handler its whole message. *)

From Stdlib Require Import String.
From S2P Require Import Prelude GoFloat GoValue Envoy Message World Handlers ServerProofs.

Local Open Scope string_scope.
Local Open Scope list_scope.

Section spec.
Context {W : Type} `{WW : !World W} `{MO : !MapOrder} `{JT : !JsonText} `{GS : !GrpcStatus}.

(** ** The specification *)

(** What a part of an exchange leaves and sends, and whether it ends the stream. *)
Definition outcome (C : Type) : Type := res (W * C * list ProcessingResponse * option (option goerror)).

Definition and_then {C} (r : outcome C) (k : W → C → outcome C) : outcome C :=
  '(w, c, sent, ret) ← r;
  match ret with
  | Some e => Ok (w, c, sent, Some e)
  | None => '(w, c, sent', ret) ← k w c; Ok (w, c, sent ++ sent', ret)
  end.

(** The responses, or the response an error becomes, which ends the stream. *)
Definition reply (o : list ProcessingResponse + goerror) : list ProcessingResponse * option (option goerror) :=
  match o with
  | inl rs => (rs, None)
  | inr err => match BuildErrResponse err with inl resp => ([resp], Some None) | inr e => ([], Some (Some e)) end
  end.

Definition answer {C} (h : res (W * C * (list ProcessingResponse + goerror))) : outcome C :=
  '(w, c, o) ← h; Ok (w, c, (reply o).1, (reply o).2).

(** The time of the first chunk is taken once. *)
Definition first_chunk (w : W) (c : RequestContext W) : RequestContext W * W :=
  if (ResponseFirstChunkTimestamp c =? 0)%Z
  then let '(t, w) := now w in (set_first_chunk c t, w) else (c, w).

Definition respond (s : Server W) (w : W) (c : RequestContext W) (body : bytes) : handled :=
  let '(c, w) := first_chunk w c in
  '(w, c, o) ← HandleResponseBody s w c body;
  '(w, c) ← complete_response s w c;
  Ok (w, c, o).

(** An exchange: the request's headers and its body, the response's headers
    and its body. *)
Definition exchange_spec (s : Server W) (w : W) (h : option HttpHeaders) (body : bytes)
    (rh : option HttpHeaders) (rbody : bytes) : outcome (RequestContext W) :=
  let '(w, c, rs) := HandleRequestHeaders w (NewRequestContext s) h in
  and_then (answer (Ok (w, c, inl rs))) (λ w c,
  and_then (answer (HandleRequestBody s w c body)) (λ w c,
  and_then (answer (HandleResponseHeaders s w c rh)) (λ w c,
  answer (respond s w c rbody)))).

(** ** The messages *)

Definition exchange_rounds (h : option HttpHeaders) (cs : list bytes) (last : bytes)
    (rh : option HttpHeaders) (rcs : list bytes) (rlast : bytes) : list Round :=
  deliver (RequestHeaders h) :: body_rounds cs last ++ deliver (ResponseHeaders rh) :: response_rounds rcs rlast.

(** Every profile that is picked buffers the response. *)
Definition buffers (s : Server W) : Prop :=
  ∀ pp w cs m w' cs' m' p e, profilePicker s = Some pp →
    PickProfile pp w cs m (profiles s) = Ok (w', cs', m', (Some p, e)) → NeedsResponseBuffering p = true.

(** ** The loop refines it *)

Lemma send_all_true rs i : send_all (λ _, true) i rs = (rs, true).
Proof. revert i. induction rs as [|r rs IH]; intros i; simpl; [done|]. by rewrite IH. Qed.

Lemma step_answers s w st m h :
  dispatch s w st m = Some h → process_step s w st (deliver m) = answer h.
Proof.
  intros E. unfold process_step. simpl. rewrite E. destruct h as [[[w1 st1] [rs|e]]|]; simpl; [|by destruct (BuildErrResponse e)|done].
  by rewrite send_all_true.
Qed.

Lemma rounds_cons s w st r rs :
  Process_rounds s w st (r :: rs) = and_then (process_step s w st r) (λ w st, Process_rounds s w st rs).
Proof. done. Qed.

Lemma and_then_assoc {C} (r : outcome C) k k' :
  and_then (and_then r k) k' = and_then r (λ w c, and_then (k w c) k').
Proof.
  destruct r as [[[[w c] sent] [e|]]|]; simpl; [done| |done].
  destruct (k w c) as [[[[w1 c1] sent1] [e1|]]|]; simpl; [done| |done].
  destruct (k' w1 c1) as [[[[w2 c2] sent2] ret2]|]; simpl; [|done]. by rewrite app_assoc.
Qed.

Lemma and_then_ext {C} (r : outcome C) k k' : (∀ w c, k w c = k' w c) → and_then r k = and_then r k'.
Proof. intros H. destruct r as [[[[w c] sent] [e|]]|]; simpl; [done|by rewrite H|done]. Qed.

Lemma rounds_app s w st rs rs' :
  Process_rounds s w st (rs ++ rs') = and_then (Process_rounds s w st rs) (λ w st, Process_rounds s w st rs').
Proof.
  revert w st. induction rs as [|r rs IH]; intros w st.
  - simpl. by destruct (Process_rounds s w st rs') as [[[[? ?] ?] ?]|].
  - cbn [app]. rewrite !rounds_cons, and_then_assoc. apply and_then_ext. intros w1 c1. apply IH.
Qed.

Lemma rounds_one s w st r : Process_rounds s w st [r] = process_step s w st r.
Proof.
  rewrite rounds_cons. destruct (process_step s w st r) as [[[[w1 st1] sent] [e|]]|]; simpl; [done| |done].
  by rewrite app_nil_r.
Qed.

(** The stream's variables other than the context are not observable. *)
Definition ctx_of (r : outcome (Stream W)) : outcome (RequestContext W) :=
  '(w, st, sent, ret) ← r; Ok (w, reqCtx st, sent, ret).

Lemma first_chunk_twice w c : first_chunk (first_chunk w c).2 (first_chunk w c).1 = first_chunk w c.
Proof.
  unfold first_chunk. destruct (Z.eqb_spec (ResponseFirstChunkTimestamp c) 0) as [E|E].
  - pose proof (now_positive w). destruct (now w) as [t w1]. simpl in *.
    by rewrite (proj2 (Z.eqb_neq t 0)) by lia.
  - simpl. by rewrite (proj2 (Z.eqb_neq _ 0)) by done.
Qed.

Lemma first_chunk_profile w c : Profile_of (first_chunk w c).1 = Profile_of c.
Proof. unfold first_chunk. destruct (_ =? 0)%Z; [|done]. by destruct (now w). Qed.

(** A piece of a buffered response, and the last one. *)
Definition buffered_piece (w : W) (st : Stream W) (b : bytes) : Stream W :=
  {| reqCtx := (first_chunk w (reqCtx st)).1; requestBody := requestBody st; responseBody := responseBody st ++ b;
     requestBodyComplete := requestBodyComplete st; responseBodyComplete := false |}.

Lemma on_response_piece s w st b p :
  responseBodyComplete st = false → Profile_of (reqCtx st) = Some p → NeedsResponseBuffering p = true →
  on_response_body s w st b false = Ok ((first_chunk w (reqCtx st)).2, buffered_piece w st b, inl []).
Proof.
  intros Hd Hp Hn. unfold on_response_body, buffered_piece. rewrite Hd.
  pose proof (first_chunk_profile w (reqCtx st)) as Hpf. fold (first_chunk w (reqCtx st)).
  destruct (first_chunk w (reqCtx st)) as [c1 w1]. simpl in *. by rewrite Hpf, Hp, Hn.
Qed.

Lemma on_response_last s w st b p :
  responseBodyComplete st = false → Profile_of (reqCtx st) = Some p → NeedsResponseBuffering p = true →
  ctx_of (answer (on_response_body s w st b true)) = answer (respond s w (reqCtx st) (responseBody st ++ b)).
Proof.
  intros Hd Hp Hn. unfold on_response_body, respond. rewrite Hd.
  pose proof (first_chunk_profile w (reqCtx st)) as Hpf. fold (first_chunk w (reqCtx st)).
  destruct (first_chunk w (reqCtx st)) as [c1 w1]. simpl in *. rewrite Hpf, Hp, Hn. simpl.
  destruct (HandleResponseBody s w1 c1 _) as [[[w2 c2] o]|]; simpl; [|done].
  by destruct (complete_response s w2 c2) as [[w3 c3]|].
Qed.

(** A response in pieces, buffered. *)
Lemma buffered_response s w st cs last p :
  responseBodyComplete st = false → Profile_of (reqCtx st) = Some p → NeedsResponseBuffering p = true →
  ctx_of (Process_rounds s w st (response_rounds cs last)) =
    answer (respond s w (reqCtx st) (responseBody st ++ mjoin cs ++ last)).
Proof.
  intros Hd Hp Hn. revert w st Hd Hp. induction cs as [|b cs IH]; intros w st Hd Hp.
  - unfold response_rounds. cbn [fmap list_fmap app mjoin list_join]. rewrite rounds_one.
    rewrite (step_answers _ _ _ (ResponseBody last true) _ eq_refl). by apply (on_response_last _ _ _ _ p).
  - unfold response_rounds. rewrite fmap_cons. cbn [app]. rewrite rounds_cons. fold (response_rounds cs last).
    rewrite (step_answers _ _ _ (ResponseBody b false) _ eq_refl).
    rewrite (on_response_piece _ _ _ _ p) by done. simpl.
    pose proof (IH (first_chunk w (reqCtx st)).2 (buffered_piece w st b) eq_refl) as IHb. simpl in IHb.
    rewrite first_chunk_profile in IHb. specialize (IHb Hp).
    transitivity (ctx_of (Process_rounds s (first_chunk w (reqCtx st)).2 (buffered_piece w st b) (response_rounds cs last))).
    { by destruct (Process_rounds _ _ _ _) as [[[[? ?] ?] ?]|]. }
    rewrite IHb, <- !app_assoc. unfold respond. by rewrite first_chunk_twice.
Qed.

(** A request that is answered has a profile the picker picked, and no
    response yet. *)
Lemma HandleRequestBody_picks s w c body w' c' rs :
  HandleRequestBody s w c body = Ok (w', c', inl rs) →
  Response c' = Response c ∧
  ∃ pp w1 cs1 m1 w2 cs2 m2 p e, profilePicker s = Some pp ∧
    PickProfile pp w1 cs1 m1 (profiles s) = Ok (w2, cs2, m2, (Some p, e)) ∧ Profile_of c' = Some p.
Proof.
  intros E. apply mbind_Ok in E as ([[w1 c1] e1] & H1 & E). destruct e1; [done|].
  assert (Response c1 = Response c ∧
    ∃ pp w1 cs1 m1 w2 cs2 m2 p e, profilePicker s = Some pp ∧
    PickProfile pp w1 cs1 m1 (profiles s) = Ok (w2, cs2, m2, (Some p, e)) ∧ Profile_of c1 = Some p) as Hc1.
  { revert H1. unfold prepareRequest. destruct (json_unmarshal_map _ _) as [b []]; [done|].
    intros E1. apply mbind_Ok in E1 as ([[[w2 cs2] rq2] [e2|]] & _ & E1); [done|].
    destruct (profilePicker s) as [pp|] eqn:Epp; [|done].
    apply mbind_Ok in E1 as ([[[w3 cs3] rq3] [p e3]] & H3 & E1). destruct e3; [done|]. destruct p as [p|]; [|done].
    apply mbind_Ok in E1 as ([[[w4 cs4] rq4] e4] & _ & E1). injection E1 as _ <- _.
    split; [done|]. by eexists pp, _, _, _, _, _, _, p, _. }
  apply finishRequest_ok in E as [(_ & _ & [e [=]])|(out & t & -> & _ & _ & _)]. exact Hc1.
Qed.

Lemma HandleRequestBody_buffers s w c body w' c' rs :
  buffers s → HandleRequestBody s w c body = Ok (w', c', inl rs) →
  ∃ p, Profile_of c' = Some p ∧ NeedsResponseBuffering p = true.
Proof.
  intros Hb (_ & pp & w1 & cs1 & m1 & w2 & cs2 & m2 & p & e & Epp & E & Hp)%HandleRequestBody_picks.
  exists p. split; [done|]. by eapply Hb.
Qed.

Lemma HandleResponseHeaders_profile s w c h w' c' o :
  HandleResponseHeaders s w c h = Ok (w', c', o) → Profile_of c' = Profile_of c.
Proof.
  unfold HandleResponseHeaders. intros E.
  apply mbind_Ok in E as ([[[w1 cs1] rsp1] [e1|]] & _ & E); by injection E as _ <- _.
Qed.

(** One handler: [mk] puts its context into the stream. *)
Lemma ctx_step (h : handled) (mk : RequestContext W → Stream W) k k' :
  (∀ c, reqCtx (mk c) = c) →
  (∀ w c rs, h = Ok (w, c, inl rs) → ctx_of (k w (mk c)) = k' w c) →
  ctx_of (and_then (answer ('(w, c, o) ← h; Ok (w, mk c, o))) k) = and_then (answer h) k'.
Proof.
  intros Hmk Hk. destruct h as [[[w c] [rs|e]]|]; simpl; [|by destruct (BuildErrResponse e); simpl; rewrite Hmk|done].
  rewrite <- (Hk w c rs eq_refl). by destruct (k w (mk c)) as [[[[w1 c1] sent1] ret1]|].
Qed.

(** *** The stages of an exchange that succeeds *)

Lemma and_then_ok {C} (r : outcome C) k w c sent :
  and_then r k = Ok (w, c, sent, None) →
  ∃ w1 c1 s1 s2, r = Ok (w1, c1, s1, None) ∧ k w1 c1 = Ok (w, c, s2, None) ∧ sent = s1 ++ s2.
Proof.
  destruct r as [[[[w1 c1] s1] [e|]]|]; simpl; [done| |done].
  destruct (k w1 c1) as [[[[w2 c2] s2] ret]|] eqn:E; simpl; [|done]. intros [= -> -> <- ->].
  by exists w1, c1, s1, s2.
Qed.

Lemma answer_ok {C} (h : res (W * C * (list ProcessingResponse + goerror))) w c sent :
  answer h = Ok (w, c, sent, None) → h = Ok (w, c, inl sent).
Proof.
  destruct h as [[[w1 c1] [rs|e]]|]; simpl; [by intros [= -> -> ->]| |done].
  by destruct (BuildErrResponse e).
Qed.

Lemma exchange_stages s w h cs last rh rcs rlast w' st sent :
  Process s w (exchange_rounds h cs last rh rcs rlast) = Ok (w', st, sent, None) →
  ∃ w1 c1 rs1 w2 c2 rs2 w3 rs3 st3 rs4,
    HandleRequestHeaders w (NewRequestContext s) h = (w1, c1, rs1) ∧
    HandleRequestBody s w1 c1 (mjoin cs ++ last) = Ok (w2, c2, inl rs2) ∧
    HandleResponseHeaders s w2 c2 rh = Ok (w3, reqCtx st3, inl rs3) ∧
    responseBody st3 = [] ∧ responseBodyComplete st3 = false ∧
    Process_rounds s w3 st3 (response_rounds rcs rlast) = Ok (w', st, rs4, None) ∧
    sent = rs1 ++ rs2 ++ rs3 ++ rs4.
Proof.
  unfold Process, exchange_rounds. rewrite rounds_cons.
  rewrite (step_answers _ _ _ (RequestHeaders h) (let '(w, c, rs) := HandleRequestHeaders w (NewRequestContext s) h in
    Ok (w, with_ctx (NewStream s) c, inl rs))) by (simpl; by destruct (HandleRequestHeaders _ _ _) as [[? ?] ?]).
  destruct (HandleRequestHeaders w (NewRequestContext s) h) as [[w1 c1] rs1].
  intros (w1' & st1 & s1 & s1' & [= <- <- <-]%answer_ok & E & ->)%and_then_ok.
  rewrite rounds_app, Process_body_pieces in E by done. cbn [requestBody with_ctx NewStream app] in E.
  rewrite rounds_one, (step_answers _ _ _ (RequestBody last true) _ eq_refl) in E.
  apply and_then_ok in E as (w2 & st2 & rs2 & s2' & E2%answer_ok & E & ->).
  apply mbind_Ok in E2 as ([[w2' c2] o2] & E2 & [= -> <- ->]).
  rewrite rounds_cons, (step_answers _ _ _ (ResponseHeaders rh) _ eq_refl) in E.
  apply and_then_ok in E as (w3 & st3 & rs3 & rs4 & E3%answer_ok & E & ->).
  apply mbind_Ok in E3 as ([[w3' c3] o3] & E3 & [= -> <- ->]).
  eexists w1, c1, rs1, w2, c2, rs2, w3, rs3, (with_ctx _ c3), rs4.
  split_and!; [reflexivity|exact E2|exact E3| | |exact E|done]; done.
Qed.

(** C20: the receive loop runs an exchange straight. When the picked profile
    buffers responses and the proxy delivers an exchange in order, in whatever
    pieces, [Process] does what the specification does: hand each handler its
    whole message, once and in order; send the responses of each; turn the
    first error into its response and stop; and, however the response's handler
    ends, take the time of its first chunk once and notify the response once. *)
Theorem exchange_refines_spec s w h cs last rh rcs rlast :
  buffers s →
  ctx_of (Process s w (exchange_rounds h cs last rh rcs rlast)) =
    exchange_spec s w h (mjoin cs ++ last) rh (mjoin rcs ++ rlast).
Proof.
  intros Hb. unfold Process, exchange_rounds, exchange_spec. rewrite rounds_cons.
  rewrite (step_answers _ _ _ (RequestHeaders h) (let '(w, c, rs) := HandleRequestHeaders w (NewRequestContext s) h in
    Ok (w, with_ctx (NewStream s) c, inl rs))) by (simpl; by destruct (HandleRequestHeaders _ _ _) as [[? ?] ?]).
  destruct (HandleRequestHeaders w (NewRequestContext s) h) as [[w1 c1] rs1].
  apply (ctx_step (Ok (w1, c1, inl rs1)) (with_ctx (NewStream s))); [done|]. intros w2 c2 rs2 [= <- <- <-].
  rewrite rounds_app, Process_body_pieces by done. cbn [requestBody with_ctx NewStream app]. rewrite rounds_one.
  rewrite (step_answers _ _ _ (RequestBody last true) _ eq_refl).
  apply (ctx_step _ (λ c, {| reqCtx := c; requestBody := mjoin cs ++ last; responseBody := [];
    requestBodyComplete := true; responseBodyComplete := false |})); [done|]. intros w3 c3 rs3 E3.
  destruct (HandleRequestBody_buffers _ _ _ _ _ _ _ Hb E3) as (p & Hp & Hn).
  rewrite rounds_cons, (step_answers _ _ _ (ResponseHeaders rh) _ eq_refl).
  apply (ctx_step _ (with_ctx _)); [done|]. intros w4 c4 rs4 E4.
  etrans; [apply (buffered_response _ _ _ _ _ p); [done| |done]|done].
  simpl. by rewrite (HandleResponseHeaders_profile _ _ _ _ _ _ _ E4).
Qed.
End spec.

(** ** Witness *)

Definition buffering_server : Server StdWorld :=
  WithEventNotifier (NewServer [demo_labeller] (Some demo_picker)
    {["default" := {| RequestPlugins := []; ResponsePlugins := [demo_tagger]; ResponseChunkProcessors := [];
                      NeedsResponseBuffering := true |}]} [] []).

Lemma buffering_server_buffers : buffers buffering_server.
Proof. intros pp w cs m w' cs' m' p e [= <-]. simpl. rewrite lookup_singleton_eq. by intros [= _ _ _ <- _]. Qed.

Lemma exchange_refines_spec_witness :
  ∃ w' c sent,
    exchange_spec buffering_server std0 None demo_body None demo_body = Ok (w', c, sent, None) ∧
    ctx_of (Process buffering_server std0 (exchange_rounds None [s2b "{"] (s2b "}") None [s2b "{"; s2b "}"] [])) =
      Ok (w', c, sent, None) ∧ length sent = 4.
Proof.
  pose proof (exchange_refines_spec buffering_server std0 None [s2b "{"] (s2b "}") None [s2b "{"; s2b "}"] []
    buffering_server_buffers) as H.
  change (mjoin [s2b "{"] ++ s2b "}") with demo_body in H.
  change (mjoin [s2b "{"; s2b "}"] ++ []) with demo_body in H.
  assert (match exchange_spec buffering_server std0 None demo_body None demo_body with
    | Ok (_, _, sent, None) => (length sent =? 4)%nat | _ => false end = true) as Hok by (vm_compute; reflexivity).
  destruct (exchange_spec buffering_server std0 None demo_body None demo_body) as [[[[w' c] sent] [e|]]|];
    try discriminate Hok. exists w', c, sent. split; [reflexivity|]. split; [exact H|]. by apply Nat.eqb_eq.
Defined.
