(* ===== verification/ServerSafety.v ===== *)
(** The ext_proc server adds no panic of its own: which panics [Process] can
    have (pkg/handlers), and the built-in configuration as the case where
    there is none. *)

From Stdlib Require Import String.
From S2P Require Import Prelude GoFloat GoValue Envoy Message World Handlers.

Local Open Scope string_scope.
Local Open Scope list_scope.

Section safety.
Context `{WW : World W} `{MO : MapOrder} `{JT : JsonText} `{GS : GrpcStatus}.

(** A plugin method that returns whatever message of [I] it is called with,
    and leaves one of [I]; it may fail. *)
Definition calm {M} (I : M → Prop) (f : W → CycleState → M → called W M) : Prop :=
  ∀ w cs m, I m → ∃ w' cs' m' err, f w cs m = Ok (w', cs', m', err) ∧ I m'.

Definition returns {M} (f : W → CycleState → M → called W M) : Prop := calm (λ _, True) f.

(** The bodies that request plugins can be given: those of [Q]. *)
Definition calm_request_plugin (Q : option (gmap string any) → Prop) (q : RequestProcessor W) : Prop :=
  calm (λ m, Q (Body m)) (ProcessRequest q).

Record calm_profile (Q : option (gmap string any) → Prop) (p : Profile W) : Prop :=
  { calm_request : Forall (calm_request_plugin Q) (RequestPlugins p);
    calm_response : Forall (λ q, returns (ProcessResponse q)) (ResponsePlugins p);
    calm_chunk : Forall (λ q, ∀ fin, returns (λ w cs m, ProcessResponseChunk q w cs m fin))
                   (ResponseChunkProcessors p) }.

(** Every interface is set, its methods return, and the profile picker returns
    one of the profiles or an error, as its contract says. *)
Record calm_server (Q : option (gmap string any) → Prop) (s : Server W) : Prop :=
  { calm_notifier : hasNotifier s = true;
    calm_pre : Forall (calm_request_plugin Q) (preProcessors s);
    calm_picker : ∃ pp, profilePicker s = Some pp ∧ ∀ w cs rq, Q (Body rq) → ∃ w' cs' rq' p err,
      PickProfile pp w cs rq (profiles s) = Ok (w', cs', rq', (p, err)) ∧ Q (Body rq') ∧
      (err = None → ∃ n q, p = Some q ∧ profiles s !! n = Some q);
    calm_profiles : ∀ n p, profiles s !! n = Some p → calm_profile Q p;
    calm_empty : calm_profile Q (emptyProfile s);
    calm_post : Forall (λ q, returns (ProcessResponse q)) (postProcessors s);
    calm_headers : Forall (λ q, returns (ProcessResponseHeaders q)) (responseHeadersPostProcessors s) }.

(** A loop over plugins that return, returns. *)
Lemma calm_loop {P M} (I : M → Prop) (call : P → W → CycleState → M → called W M)
    (loop : list P → W → CycleState → M → called W M) (ext : string) (name : P → TypedName) :
  (∀ w cs m, loop [] w cs m = Ok (w, cs, m, None)) →
  (∀ p ps w cs m, ∃ late, loop (p :: ps) w cs m =
    (let '(before, w) := now w in
     '(w, cs, m, err) ← call p w cs m;
     let w' := record_since ext (name p) before w in
     match err with
     | Some e => Ok (if (late : bool) then w else w', cs, m, Some e)
     | None => loop ps w' cs m
     end)) →
  ∀ ps, Forall (λ p, calm I (call p)) ps → calm I (loop ps).
Proof.
  intros Hnil Hcons ps Hps. induction Hps as [|p ps Hp _ IH]; intros w cs m Hm;
    [rewrite Hnil; by eexists _, _, _, _|].
  destruct (Hcons p ps w cs m) as [late ->]. destruct (now w) as [before w1].
  destruct (Hp w1 cs m Hm) as (w2 & cs2 & m2 & [e|] & -> & Hm2); cbn [mbind res_bind]; [|by apply IH].
  by eexists _, _, _, _.
Qed.

Lemma calm_runRequestPlugins Q ps :
  Forall (calm_request_plugin Q) ps → calm (λ m, Q (Body m)) (runRequestPlugins ps).
Proof.
  apply (calm_loop _ ProcessRequest _ requestPluginExtensionPoint rp_name); [done|].
  intros. by exists false.
Qed.

Lemma calm_runResponsePlugins ps :
  Forall (λ q, returns (ProcessResponse q)) ps → returns (runResponsePlugins ps).
Proof.
  apply (calm_loop _ ProcessResponse _ responsePluginExtensionPoint rsp_name); [done|].
  intros. by exists false.
Qed.

Lemma calm_runResponseHeadersProcessors ps :
  Forall (λ q, returns (ProcessResponseHeaders q)) ps → returns (runResponseHeadersProcessors ps).
Proof.
  apply (calm_loop _ ProcessResponseHeaders _ responsePluginExtensionPoint rhp_name); [done|].
  intros. by exists true.
Qed.

Lemma calm_runResponseChunkProcessors ps fin :
  Forall (λ q, ∀ fin, returns (λ w cs m, ProcessResponseChunk q w cs m fin)) ps →
  returns (λ w cs m, runResponseChunkProcessors ps w cs m fin).
Proof.
  intros Hps.
  apply (calm_loop _ (λ q w cs m, ProcessResponseChunk q w cs m fin)
    (λ ps w cs m, runResponseChunkProcessors ps w cs m fin) responsePluginExtensionPoint rcp_name);
    [done|intros; by exists false|]. eapply Forall_impl; [exact Hps|]. intros q Hq. apply Hq.
Qed.

Section server.
Context (Q : option (gmap string any) → Prop) (s : Server W) (Hs : calm_server Q s).

Definition has_calm_profile (c : RequestContext W) : Prop :=
  ∃ p, Profile_of c = Some p ∧ calm_profile Q p.

(** A document that is decoded into a body of [Q], if it is. *)
Definition readable (body : bytes) : Prop := ∀ i b, json_unmarshal_map body i = (b, false) → Q b.

(** A handler returns, and the profile of its context stays usable unless it
    reports an error. *)
Definition handles (h : handled (W := W)) : Prop :=
  ∃ w c r, h = Ok (w, c, r) ∧ ((∃ rs, r = inl rs) → has_calm_profile c).

Lemma finishRequest_handles w c body : has_calm_profile c → handles (finishRequest s w c body).
Proof using Hs.
  intros Hc. unfold finishRequest. destruct (if BodyMutated _ then _ else _) as [out|].
  - unfold notify. rewrite (calm_notifier Q s Hs). cbn [mbind res_bind].
    match goal with |- context [now ?w] => destruct (now w) as [t w1] end.
    eexists _, _, _. by split.
  - eexists _, _, _. by split.
Qed.

(** What is left of a call once its result is known. *)
Ltac go_on H := edestruct H as (? & ? & ? & err & -> & ?); [first [exact I|eassumption]|];
  cbn [mbind res_bind]; destruct err as [?|]; [by eexists _, _, _; split; [|intros [? [=]]]|].

Lemma HandleRequestBody_handles w c body :
  has_calm_profile c → readable body → handles (HandleRequestBody s w c body).
Proof using Hs.
  intros Hc Hb. unfold HandleRequestBody, prepareRequest.
  destruct (json_unmarshal_map body _) as [b bad] eqn:Eb.
  destruct bad; [by eexists _, _, _; split; [|intros [? [=]]]|]. apply Hb in Eb.
  go_on (calm_runRequestPlugins Q _ (calm_pre Q s Hs)).
  destruct (calm_picker Q s Hs) as (pp & -> & Hpp).
  edestruct Hpp as (w2 & cs2 & rq2 & p & err & -> & Hrq & Hp); [eassumption|]; cbn [mbind res_bind].
  destruct err as [e|]; [by eexists _, _, _; split; [|intros [? [=]]]|].
  destruct (Hp eq_refl) as (n & q & -> & Hq). apply (calm_profiles Q s Hs) in Hq.
  go_on (calm_runRequestPlugins Q _ (calm_request Q q Hq)).
  apply finishRequest_handles. by exists q.
Qed.

Lemma HandleResponseHeaders_handles w c h :
  has_calm_profile c → handles (HandleResponseHeaders s w c h).
Proof using Hs.
  intros Hc. unfold HandleResponseHeaders.
  go_on (calm_runResponseHeadersProcessors _ (calm_headers Q s Hs)). by eexists _, _, _.
Qed.

Lemma finishResponse_handles w c body : has_calm_profile c → handles (finishResponse w c body).
Proof.
  intros Hc. unfold finishResponse. destruct (if BodyMutated _ then _ else _) as [out|];
    (eexists _, _, _; split; [reflexivity|]); [|by intros [? [=]]].
  intros _. by destruct (BodyMutated _).
Qed.

Lemma HandleResponseBody_handles w c body :
  has_calm_profile c → handles (HandleResponseBody s w c body).
Proof using Hs.
  intros Hc. pose proof Hc as (p & Hp & Hcalm). unfold HandleResponseBody. rewrite Hp.
  destruct (_ && _); [by eexists _, _, _|].
  destruct (json_unmarshal_map body _) as [b bad]. destruct bad; [by eexists _, _, _|].
  assert (returns (λ w cs m, if (0 <? length (ResponsePlugins p))%nat
    then runResponsePlugins (ResponsePlugins p) w cs m else Ok (w, cs, m, None))) as Hfirst.
  { intros w' cs m _. destruct (_ <? _)%nat; [|by eexists _, _, _, _].
    by apply calm_runResponsePlugins; [apply (calm_response Q)|]. }
  go_on Hfirst. go_on (calm_runResponsePlugins _ (calm_post Q s Hs)). by apply finishResponse_handles.
Qed.

Lemma HandleResponseChunk_handles w c chunk eos :
  has_calm_profile c → handles (HandleResponseChunk w c chunk eos).
Proof.
  intros Hc. pose proof Hc as (p & Hp & Hcalm). unfold HandleResponseChunk. rewrite Hp.
  pose proof (calm_runResponseChunkProcessors _ eos (calm_chunk Q p Hcalm)) as Hps.
  unfold buildStreamedChunkResponse.
  destruct (ResponseChunkProcessors p) as [|q qs].
  - destruct (ResponseHeadersSent c); by eexists _, _, _.
  - go_on Hps. destruct (ResponseHeadersSent _); by eexists _, _, _.
Qed.

(** The same for the messages of the receive loop. *)
Definition steps (r : res (W * Stream W * (list ProcessingResponse + goerror))) : Prop :=
  ∃ w st o, r = Ok (w, st, o) ∧ ((∃ rs, o = inl rs) → has_calm_profile (reqCtx st)).

Lemma steps_handles st h : handles h → steps (lift_handled st h).
Proof. intros (w & c & r & -> & Hc). by eexists _, _, _. Qed.

Lemma on_request_body_steps w st body eos :
  has_calm_profile (reqCtx st) →
  (requestBodyComplete st = false → eos = true → readable (requestBody st ++ body)) →
  steps (on_request_body s w st body eos).
Proof using Hs.
  intros Hc Hb. unfold on_request_body. destruct (requestBodyComplete st); [by eexists _, _, _|].
  destruct eos; cbn [negb]; [|by eexists _, _, _].
  destruct (HandleRequestBody_handles w (reqCtx st) (requestBody st ++ body) Hc (Hb eq_refl eq_refl))
    as (w1 & c1 & r & -> & Hc1). by eexists _, _, _.
Qed.

Lemma complete_response_returns w c : ∃ w' t, complete_response s w c = Ok (w', set_complete c t).
Proof using Hs.
  unfold complete_response. destruct (now w) as [t w1]. unfold notify.
  rewrite (calm_notifier Q s Hs). by eexists _, t.
Qed.

Lemma on_response_body_steps w st body eos :
  has_calm_profile (reqCtx st) → steps (on_response_body s w st body eos).
Proof using Hs.
  intros Hc. unfold on_response_body. destruct (responseBodyComplete st); [by eexists _, _, _|].
  match goal with |- context [if ?b then ?x else ?y] =>
    assert (has_calm_profile (if b then x else y).1) as Hc1
      by (destruct b; [destruct (now w)|]; exact Hc);
    destruct (if b then x else y) as [c w1] end.
  simpl in Hc1. pose proof Hc1 as (p & -> & _).
  destruct (NeedsResponseBuffering p && negb eos); [by eexists _, _, _|].
  match goal with |- context [mbind _ ?m] => assert (handles m) as (w2 & c2 & r & -> & Hc2) end.
  { destruct (NeedsResponseBuffering p);
      [by apply HandleResponseBody_handles|by apply HandleResponseChunk_handles]. }
  cbn [mbind res_bind]. destruct eos; [|by eexists _, _, _].
  destruct (complete_response_returns w2 c2) as (w3 & t & ->). by eexists _, _, _.
Qed.

(** The body of the request that the rounds deliver, after what has arrived. *)
Fixpoint handled_body (arrived : bytes) (rounds : list Round) : option bytes :=
  match rounds with
  | [] => None
  | r :: rounds =>
      match received r with
      | RecvMsg (RequestBody b true) => Some (arrived ++ b)
      | RecvMsg (RequestBody b false) => handled_body (arrived ++ b) rounds
      | _ => handled_body arrived rounds
      end
  end.

(** If the request's body is still to be handled, it will be readable. *)
Definition will_read (st : Stream W) (rounds : list Round) : Prop :=
  requestBodyComplete st = false → ∀ body, handled_body (requestBody st) rounds = Some body → readable body.

Lemma dispatch_steps w st m h :
  has_calm_profile (reqCtx st) →
  (∀ b, m = RequestBody b true → requestBodyComplete st = false → readable (requestBody st ++ b)) →
  dispatch s w st m = Some h → steps h.
Proof using Hs.
  intros Hc Hb. destruct m; simpl.
  - unfold HandleRequestHeaders. destruct (now w) as [t w1]. intros [= <-]. by eexists _, _, _.
  - intros [= <-]. apply on_request_body_steps; [done|]. intros Hd ->. by apply Hb.
  - intros [= <-]. by eexists _, _, _.
  - intros [= <-]. by apply steps_handles, HandleResponseHeaders_handles.
  - intros [= <-]. by apply on_response_body_steps.
  - intros [= <-]. by eexists _, _, _.
  - done.
Qed.

Lemma process_step_returns w st r rounds :
  has_calm_profile (reqCtx st) → will_read st (r :: rounds) →
  ∃ w' st' sent ret, process_step s w st r = Ok (w', st', sent, ret) ∧
    (ret = None → has_calm_profile (reqCtx st')).
Proof using Hs.
  intros Hc Hb. unfold will_read in Hb. cbn [handled_body] in Hb.
  unfold process_step. destruct (ctx_done r); [by eexists _, _, _, _|].
  destruct (received r) as [m| | |e]; [|by eexists _, _, _, _..].
  destruct (dispatch s w st m) as [h|] eqn:E; [|by eexists _, _, _, _].
  assert (∀ b, m = RequestBody b true → requestBodyComplete st = false → readable (requestBody st ++ b)) as Hm
    by (intros b -> Hd; by apply Hb).
  destruct (dispatch_steps w st m h Hc Hm E) as (w1 & st1 & [rs|e] & -> & H1); cbn [mbind res_bind].
  - destruct (send_all _ _ _) as [sent [|]]; eexists _, _, _, _; (split; [done|]); [|done].
    intros _. apply H1. by exists rs.
  - destruct (BuildErrResponse e); [destruct (send_ok r 0)|]; by eexists _, _, _, _.
Qed.

(** A round consumes its message. *)
Lemma process_step_consumes w st r rounds w' st' sent :
  process_step s w st r = Ok (w', st', sent, None) → will_read st (r :: rounds) → will_read st' rounds.
Proof.
  unfold process_step. destruct (ctx_done r); [done|]. destruct (received r) as [m| | |e] eqn:Er; [|done..].
  destruct (dispatch s w st m) as [h|] eqn:E; [|done].
  destruct h as [[[w1 st1] [rs|e]]|]; cbn [mbind res_bind]; [| |done].
  2:{ destruct (BuildErrResponse e); [destruct (send_ok r 0)|]; done. }
  destruct (send_all _ _ _) as [sent1 []]; intros [= -> -> _]. unfold will_read. cbn [handled_body]. rewrite Er.
  destruct m as [hs|b eos| |hs|b eos| |]; simpl in E.
  - destruct (HandleRequestHeaders w (reqCtx st) hs) as [[w2 c2] rs2]. by injection E as _ <- _.
  - injection E as E. revert E. unfold on_request_body. destruct (requestBodyComplete st) eqn:Ed.
    { intros [= _ <- _]. by rewrite Ed. }
    destruct eos; cbn [negb]; [|by intros [= _ <- _]].
    intros ([[w2 c2] r2] & _ & [= _ <- _])%mbind_Ok. done.
  - by injection E as _ <- _.
  - injection E as E. apply mbind_Ok in E as ([[w2 c2] r2] & _ & [= _ <- _]). done.
  - injection E as E. revert E. unfold on_response_body. destruct (responseBodyComplete st); [by intros [= _ <- _]|].
    destruct (if (_ =? 0)%Z then _ else _) as [c1 w2]. destruct (Profile_of c1) as [p|]; [|done].
    destruct (NeedsResponseBuffering p && negb eos); [by intros [= _ <- _]|].
    intros ([[w3 c3] r3] & _ & E)%mbind_Ok. by apply mbind_Ok in E as ([w4 c4] & _ & [= _ <- _]).
  - by injection E as _ <- _.
  - done.
Qed.

Lemma Process_rounds_return w st rounds :
  has_calm_profile (reqCtx st) → will_read st rounds →
  ∃ w' st' sent ret, Process_rounds s w st rounds = Ok (w', st', sent, ret).
Proof using Hs.
  revert w st. induction rounds as [|r rounds IH]; intros w st Hc Hb; [by eexists _, _, _, _|]. cbn [Process_rounds].
  destruct (process_step_returns w st r rounds Hc Hb) as (w1 & st1 & sent & [e|] & E & H1);
    rewrite E; cbn [mbind res_bind]; [by eexists _, _, _, _|].
  apply (process_step_consumes _ _ _ _ _ _ _ E) in Hb.
  destruct (IH w1 st1 (H1 eq_refl) Hb) as (w2 & st2 & sent2 & ret & ->). by eexists _, _, _, _.
Qed.

Lemma new_stream_calm : has_calm_profile (reqCtx (NewStream s)).
Proof using Hs. exists (emptyProfile s). split; [done|apply (calm_empty Q), Hs]. Qed.
End server.

(** C3: the server panics only where a plugin does. When the notifier and
    the profile picker are set, the picker returns one of the profiles or an
    error, and no plugin method panics on the bodies of a set [Q], then neither
    does the stream while the request's body decodes into [Q], if it does:
    whatever messages arrive in whatever order - bodies before headers, a
    response before its request, unknown messages, malformed bodies - and
    whatever fails, [Process] handles every round it is given until it
    returns. (Recording a metric is taken not to panic, which asks that no
    plugin puts a model name in a request that is not valid UTF-8.) *)
Theorem process_panics_only_in_plugins Q s w rounds :
  calm_server Q s → (∀ body, handled_body [] rounds = Some body → readable Q body) →
  ∃ w' st' sent ret, Process s w rounds = Ok (w', st', sent, ret).
Proof.
  intros Hs Hb. apply (Process_rounds_return Q s Hs); [by apply new_stream_calm|by intros _].
Qed.
End safety.
