(* ===== verification/BodyProofs.v ===== *)
(** The bodies the server sends (pkg/handlers) mean what the plugins left: a
    mutated body decodes to the plugins' body map, and its Content-Length is a
    decimal number that reads as its length. *)

From Stdlib Require Import Strings.Byte String.
From S2P Require Import Prelude GoFloat GoValue Decimals JsonProofs JsonClean Envoy Message World Handlers ServerProofs.

Local Open Scope string_scope.
Local Open Scope list_scope.
Local Open Scope nat_scope.

(** ** Decimal numbers *)

(** [strconv.Itoa] prints a number that reads as itself. *)
Lemma itoa_digits z :
  (0 ≤ z ≤ max_int64)%Z →
  Forall (λ b, is_digit b = true) (s2b (itoa z)) ∧ digits_val (s2b (itoa z)) = z.
Proof.
  intros Hz. unfold itoa. destruct (Z.ltb_spec z 0); [lia|]. rewrite s2b_b2s.
  destruct (decide (z = 0%Z)) as [-> | Hz0]; [split; [by repeat constructor|by vm_compute]|].
  destruct (digits_spells z) as (_ & Hds & Hval & _); [|done]. split; [lia|].
  apply Z.le_lt_trans with (10 ^ 20)%Z; [unfold max_int64, two63 in Hz; lia|]. apply Z.pow_lt_mono_r; lia.
Qed.

(** ** What is sent *)

(** The body the proxy assembles from the responses. *)
Definition body_part (r : ProcessingResponse) : option bytes :=
  match r with
  | RequestBodyResp c | ResponseBodyResp c => Some (chunk_body c)
  | _ => None
  end.

Definition body_sent (rs : list ProcessingResponse) : bytes := mjoin (omap body_part rs).

Lemma body_sent_chunks hdr wrap chunks :
  body_part hdr = None → (∀ c, body_part (wrap c) = Some (chunk_body c)) →
  body_sent (hdr :: (wrap <$> chunks)) = mjoin (chunk_body <$> chunks).
Proof.
  intros Hh Hw. unfold body_sent. cbn [omap list_omap]. rewrite Hh. f_equal.
  induction chunks as [|c cs IH]; [done|]. cbn. by rewrite Hw, IH.
Qed.

Section bodies.
Context `{WW : World W} `{MO : MapOrder} `{JT : JsonText} `{GS : GrpcStatus}.

(** The body decodes to the message's map and its length header is right. *)
Definition arrives (m : InferenceMessage) (out : bytes) : Prop :=
  json_unmarshal_map out None = (Body m, false) ∧
  ∃ v, Headers m !! contentLengthHeader = Some v ∧
    Forall (λ b, is_digit b = true) (s2b v) ∧ digits_val (s2b v) = Z.of_nat (length out).

Lemma arrives_marshalled m out :
  (∀ b, Body m = Some b → clean_body b) → json_marshal_map (Body m) = Some out →
  Headers m !! contentLengthHeader = Some (itoa (Z.of_nat (length out))) →
  (Z.of_nat (length out) ≤ max_int64)%Z → arrives m out.
Proof.
  intros Hc Hj Hh Hl. split; [by apply json_map_roundtrip|]. eexists. split; [exact Hh|].
  apply itoa_digits. lia.
Qed.

(** The fields of a body that are not those of the document it was decoded
    from: what the plugins wrote. *)
Definition writes_clean (m m' : option (gmap string any)) : Prop :=
  ∀ b k v, m' = Some b → b !! k = Some v → (m ≫= lookup k) ≠ Some v →
    valid_utf8 k = true ∧ clean v = true ∧ (Z.of_nat (height v) < 10000)%Z.

Lemma writes_clean_body m m' :
  (∀ b, m = Some b → clean_body b) → writes_clean m m' → ∀ b, m' = Some b → clean_body b.
Proof.
  intros Hm Hw b Hb k v Hk. apply dec_stable. intros Hn. apply Hn, (Hw b); [done..|]. intros E.
  destruct m as [b0|]; [|done]. by apply Hn, (Hm b0).
Qed.

(** What the plugins are given: the body that was decoded. *)
Lemma prepareRequest_decodes s w c body w' c' :
  prepareRequest s w c body = Ok (w', c', None) →
  ∃ b, json_unmarshal_map body (Body (Request c)) = (b, false).
Proof. unfold prepareRequest. destruct (json_unmarshal_map _ _) as [b []]; [done|by exists b]. Qed.

(** C4: a mutated body arrives. When plugins changed the body of a request or
    of a buffered response, the chunks the server sends concatenate to a
    document that decodes, by encoding/json, to exactly the body map the
    plugins left - whatever characters its strings contain, escaped or not,
    and however deep it nests, up to the decoder's own limit. Nothing is asked
    of the document that came in, whatever its numbers and its escapes were:
    only a field the plugins wrote has to hold UTF-8 strings and finite
    numbers. And Content-Length is a decimal number that reads as the length
    of the document sent. *)
Theorem mutated_body_arrives s w c body w' c' rs :
  (Z.of_nat (length (body_sent rs)) ≤ max_int64)%Z →
  (HandleRequestBody s w c body = Ok (w', c', inl rs) → bodyMutated (Request c') = true →
   (∀ b, Body (Request c) = Some b → clean_body b) →
   writes_clean (json_unmarshal_map body (Body (Request c))).1 (Body (Request c')) →
   arrives (Request c') (body_sent rs)) ∧
  (HandleResponseBody s w c body = Ok (w', c', inl rs) → bodyMutated (rmsg (Response c')) = true →
   bodyMutated (rmsg (Response c)) = false →
   (∀ b, Body (rmsg (Response c)) = Some b → clean_body b) →
   writes_clean (json_unmarshal_map body (Body (rmsg (Response c)))).1 (Body (rmsg (Response c'))) →
   arrives (rmsg (Response c')) (body_sent rs)).
Proof.
  intros Hlen. split.
  - unfold HandleRequestBody. intros E Hm Hc Hw. apply mbind_Ok in E as ([[w1 c1] e] & Ep & E).
    destruct e as [e|]; [done|]. apply prepareRequest_decodes in Ep as [b Eb].
    rewrite Eb in Hw. pose proof (writes_clean_body _ _ (unmarshal_clean _ _ _ Hc Eb) Hw) as Hb.
    apply finishRequest_ok in E as [(_ & _ & [e [=]])|(out & t & -> & Hout & _ & [= ->])].
    destruct (BuildChunked_streams out true) as [Hchunks _].
    rewrite body_sent_chunks, Hchunks in * by done.
    cbn [Request set_sent set_request set_cycle_request] in *.
    rewrite bodyMutated_SetHeader in Hm. rewrite Hm in Hout. rewrite Body_SetHeader in Hb.
    apply arrives_marshalled; rewrite ?Body_SetHeader; [done|done| |done].
    by rewrite Headers_SetHeader, lookup_insert_eq.
  - unfold HandleResponseBody. intros E Hm Hno Hc Hw. destruct (Profile_of c) as [p|]; [|done].
    destruct (negb _ && negb _); [injection E as _ <- _; congruence|].
    destruct (json_unmarshal_map _ _) as [b bad] eqn:Eb.
    destruct bad; [injection E as _ <- _; simpl in Hm; congruence|].
    pose proof (writes_clean_body _ _ (unmarshal_clean _ _ _ Hc Eb) Hw) as Hb.
    apply mbind_Ok in E as ([[[w1 cs1] rsp1] [e1|]] & _ & E); [done|].
    apply mbind_Ok in E as ([[[w2 cs2] rsp2] [e2|]] & _ & E); [done|].
    revert E. unfold finishResponse, BodyMutated. cbn [Response set_cycle_response set_response].
    destruct (bodyMutated (rmsg rsp2)) eqn:Em.
    2: { intros [= _ <- _]. simpl in Hm. congruence. }
    destruct (json_marshal_map (Body (rmsg rsp2))) as [out|] eqn:Ej; [|done]. intros [= _ <- <-].
    destruct (BuildChunked_streams out true) as [Hchunks _].
    unfold AddStreamedResponseBody in *. cbn [app] in *.
    rewrite body_sent_chunks, Hchunks in * by done.
    cbn [Response set_cycle_response set_response rmsg with_rmsg] in *. rewrite Body_SetHeader in Hb.
    apply arrives_marshalled; rewrite ?Body_SetHeader; [done|done| |done].
    by rewrite Headers_SetHeader, lookup_insert_eq.
Qed.
End bodies.
