(* ===== verification/Adapters.v ===== *)
(** pkg/framework/plugins/requesthandling/basemodelextractor: the store that
    maps LoRA adapters to base models, the reconciler that feeds it from
    ConfigMaps, and the plugin that reads it. The store is shown to implement a
    table of ConfigMaps, for the event sequences it supports; what happens
    outside of them is shown on the code as it is. *)

From Stdlib Require Import String.
From S2P Require Import Prelude GoFloat GoValue Envoy Message World.

Local Open Scope string_scope.
Local Open Scope list_scope.

Definition baseModelKey : string := "baseModel".
Definition adaptersKey : string := "adapters".
Definition ippManagedLabel : string := "inference.llm-d.ai/ipp-managed".
Definition BaseModelHeader : string := "X-Gateway-Base-Model-Name".
Definition BaseModelToHeaderPluginType : string := "base-model-to-header".
Definition modelField : string := "model".

Abbreviation NamespacedName := (string * string)%type.

(** The fields of a [corev1.ConfigMap] the package uses. *)
Record ConfigMap :=
  { cm_Namespace : string; cm_Name : string; cm_Labels : gmap string string;
    cm_Data : gmap string string; cm_Deleting : bool }.

Definition zero_ConfigMap : ConfigMap :=
  {| cm_Namespace := ""; cm_Name := ""; cm_Labels := ∅; cm_Data := ∅; cm_Deleting := false |}.

Definition cm_key (cm : ConfigMap) : NamespacedName := (cm_Namespace cm, cm_Name cm).

(** sigs.k8s.io/yaml: a document as a list of strings, or the text of an error. *)
Class Yaml : Type := { yaml_strings : string → list string + string }.

(** ** The store *)

Record AdaptersStore :=
  { loraAdapterToBaseModel : gmap string string;
    configmapAdapters : gmap NamespacedName (gset string);
    baseModels : gmap string Z }.

Definition NewAdaptersStore : AdaptersStore :=
  {| loraAdapterToBaseModel := ∅; configmapAdapters := ∅; baseModels := ∅ |}.

Definition parseBaseModelFromConfigMap (cm : ConfigMap) : string + goerror :=
  match cm_Data cm !! baseModelKey with
  | Some b => if String.eqb (trim_space b) ""
              then inr (ENew "missing or empty baseModel in configmap")
              else inl (trim_space b)
  | None => inr (ENew "missing or empty baseModel in configmap")
  end.

(** The loop over the parsed list: trims, skips empty entries. *)
Definition collect_adapters (l : list string) : gset string :=
  foldl (λ s a, let t := trim_space a in if String.eqb t "" then s else s ∪ {[t]}) ∅ l.

Section store.
Context `{MO : MapOrder} `{YL : Yaml}.

Definition parseConfigMap (cm : ConfigMap) : (string * gset string) + goerror :=
  match parseBaseModelFromConfigMap cm with
  | inr _ => inr (ENew ("failed to parse configmap " +:+ cm_Namespace cm +:+ "/" +:+ cm_Name cm))
  | inl baseModel =>
      match cm_Data cm !! adaptersKey with
      | Some raw =>
          if String.eqb (trim_space raw) "" then inl (baseModel, ∅)
          else match yaml_strings raw with
               | inr e => inr (EWrap "failed to parse adapters: " (ENew e))
               | inl l => inl (baseModel, collect_adapters l)
               end
      | None => inl (baseModel, ∅)
      end
  end.

Definition configMapUpdateOrAddIfNotExist (st : AdaptersStore) (cm : ConfigMap) :
    AdaptersStore * option goerror :=
  match parseConfigMap cm with
  | inr e => (st, Some (EWrap "failed to parse configmap - " e))
  | inl (baseModel, newAdapters) =>
      let existingAdapters := default ∅ (configmapAdapters st !! cm_key cm) in
      let configmapExist := bool_decide (is_Some (configmapAdapters st !! cm_key cm)) in
      let adaptersToRemove := existingAdapters ∖ newAdapters in
      let lora := foldl (λ m a, <[a := baseModel]> m) (loraAdapterToBaseModel st)
                    (range_set newAdapters) in
      let lora := foldl (λ m a, delete a m) lora (range_set adaptersToRemove) in
      let counts :=
        if configmapExist then baseModels st
        else match baseModels st !! baseModel with
             | Some count => <[baseModel := wrap64 (count + 1)]> (baseModels st)
             | None => <[baseModel := 1%Z]> (baseModels st)
             end in
      ({| loraAdapterToBaseModel := lora;
          configmapAdapters := <[cm_key cm := newAdapters]> (configmapAdapters st);
          baseModels := counts |}, None)
  end.

(** Reading an absent key of [baseModels] gives 0. *)
Definition configMapDelete (st : AdaptersStore) (cm : ConfigMap) : AdaptersStore :=
  match configmapAdapters st !! cm_key cm with
  | None => st
  | Some adapters =>
      let lora := foldl (λ m a, delete a m) (loraAdapterToBaseModel st) (range_set adapters) in
      let cms := delete (cm_key cm) (configmapAdapters st) in
      let counts :=
        match parseBaseModelFromConfigMap cm with
        | inr _ => baseModels st
        | inl baseModel =>
            let count := default 0%Z (baseModels st !! baseModel) in
            if (count =? 1)%Z then delete baseModel (baseModels st)
            else <[baseModel := wrap64 (count - 1)]> (baseModels st)
        end in
      {| loraAdapterToBaseModel := lora; configmapAdapters := cms; baseModels := counts |}
  end.

Definition getBaseModel (st : AdaptersStore) (modelName : string) : string :=
  let trimmedModelName := trim_space modelName in
  match loraAdapterToBaseModel st !! trimmedModelName with
  | Some baseModel => baseModel
  | None => match baseModels st !! trimmedModelName with
            | Some _ => trimmedModelName
            | None => ""
            end
  end.

(** ** The reconciler *)

Definition hasIPPManagedLabel (cm : ConfigMap) : bool :=
  bool_decide (cm_Labels cm !! ippManagedLabel = Some "true").

Inductive ConfigMapEvent : Type :=
| CreateEvent (obj : ConfigMap)
| UpdateEvent (old new : ConfigMap)
| DeleteEvent (obj : ConfigMap)
| GenericEvent (obj : ConfigMap).

(** Which events reach the reconciler. *)
Definition ippManagedPredicate (e : ConfigMapEvent) : bool :=
  match e with
  | CreateEvent o | DeleteEvent o | GenericEvent o => hasIPPManagedLabel o
  | UpdateEvent old new => hasIPPManagedLabel old || hasIPPManagedLabel new
  end.

(** controller-runtime's [client.Reader.Get]: what it leaves in the object it
    is given, and its error. *)
Inductive GetError : Type :=
| GetNotFound
| GetFailed (e : goerror).

(** [apierrors.IsNotFound(err)]. *)
Definition is_get_not_found (err : option GetError) : bool :=
  match err with Some GetNotFound => true | _ => false end.

Definition Reader : Type := NamespacedName → ConfigMap → ConfigMap * option GetError.

Definition Reconcile (get : Reader) (st : AdaptersStore) (req : NamespacedName) :
    AdaptersStore * option goerror :=
  let '(configmap, err) := get req zero_ConfigMap in
  match err with
  | Some (GetFailed e) => (st, Some (EWrap "unable to get ConfigMap - " e))
  | _ =>
      if is_get_not_found err || cm_Deleting configmap
         || negb (hasIPPManagedLabel configmap)
      then (configMapDelete st configmap, None)
      else match configMapUpdateOrAddIfNotExist st configmap with
           | (st, Some e) => (st, Some (EWrap "failed to add or update ConfigMap - " e))
           | (st, None) => (st, None)
           end
  end.

(** ** The plugin *)

(** [ProcessRequest] reads the store the world holds at that moment. *)
Definition BaseModelToHeader_ProcessRequest {W} (store : W → AdaptersStore) (w : W)
    (cs : CycleState) (request : InferenceRequest) : called W InferenceRequest :=
  match body_lookup request modelField with
  | None => Ok (w, cs, request, None)
  | Some rawFieldValue =>
      let targetModel := sprintf_v rawFieldValue in
      let baseModel := getBaseModel (store w) targetModel in
      Ok (w, cs, SetHeader request BaseModelHeader baseModel, None)
  end.

Definition BaseModelToHeaderPlugin {W} (store : W → AdaptersStore) (name : string) :
    RequestProcessor W :=
  {| rp_name := {| Type_ := BaseModelToHeaderPluginType; Name := name |};
     ProcessRequest := BaseModelToHeader_ProcessRequest store |}.
End store.

(** ** The table the store implements

    A table gives each ConfigMap its base model and adapters. *)

Abbreviation Table := (gmap NamespacedName (string * gset string)).

(** How many ConfigMaps of the table name the base model [b]. *)
Definition base_count (tbl : Table) (b : string) : nat :=
  size (filter (λ kv, kv.2.1 = b) tbl).

(** Adapter [a] belongs to base model [b]. *)
Definition serves (tbl : Table) (a b : string) : Prop :=
  ∃ k A, tbl !! k = Some (b, A) ∧ a ∈ A.

(** What a lookup of [m] should answer. *)
Definition resolves (tbl : Table) (m b : string) : Prop :=
  serves tbl m b ∨
  ((∀ b', ¬ serves tbl m b') ∧
   ((0 < base_count tbl m)%nat ∧ b = m ∨ base_count tbl m = 0%nat ∧ b = "")).

(** No adapter is claimed by two ConfigMaps. *)
Definition disjoint_table (tbl : Table) : Prop :=
  ∀ k1 k2 b1 b2 A1 A2, tbl !! k1 = Some (b1, A1) → tbl !! k2 = Some (b2, A2) →
    k1 ≠ k2 → A1 ## A2.

(** The simulation relation. *)
Record implements (st : AdaptersStore) (tbl : Table) : Prop :=
  { impl_cms : configmapAdapters st = snd <$> tbl;
    impl_lora : ∀ a b, loraAdapterToBaseModel st !! a = Some b ↔ serves tbl a b;
    impl_base : ∀ b, baseModels st !! b =
      if (base_count tbl b =? 0)%nat then None else Some (Z.of_nat (base_count tbl b));
    impl_disjoint : disjoint_table tbl }.

Lemma base_count_insert_new tbl k b A b' :
  tbl !! k = None →
  base_count (<[k := (b, A)]> tbl) b' = ((if decide (b = b') then 1 else 0) + base_count tbl b')%nat.
Proof.
  intros Hk. unfold base_count. rewrite map_filter_insert. simpl.
  destruct (decide (b = b')); [|by rewrite delete_id].
  rewrite map_size_insert_None; [done|]. apply map_lookup_filter_None. by left.
Qed.

Lemma base_count_delete tbl k b A b' :
  tbl !! k = Some (b, A) →
  base_count tbl b' = ((if decide (b = b') then 1 else 0) + base_count (delete k tbl) b')%nat.
Proof.
  intros Hk. rewrite <- (insert_delete_id tbl k (b, A) Hk) at 1.
  apply base_count_insert_new, lookup_delete_eq.
Qed.

Lemma base_count_insert_same tbl k b A A' b' :
  tbl !! k = Some (b, A') → base_count (<[k := (b, A)]> tbl) b' = base_count tbl b'.
Proof.
  intros Hk. rewrite <- (insert_delete_eq tbl k (b, A)).
  rewrite base_count_insert_new by apply lookup_delete_eq.
  symmetry. by apply (base_count_delete _ _ _ A').
Qed.

Lemma base_count_le tbl b : (base_count tbl b ≤ size tbl)%nat.
Proof. unfold base_count. apply map_subseteq_size, map_filter_subseteq. Qed.

Lemma implements_new : implements NewAdaptersStore ∅.
Proof.
  split; simpl; [done| | |].
  - intros a b. rewrite lookup_empty. split; [done|]. by intros (? & ? & ? & ?).
  - done.
  - by intros ???????.
Qed.

Section refinement.
Context `{MO : MapOrder} `{YL : Yaml}.

(** The ConfigMap takes no adapter of another one, and keeps its base model. *)
Definition fits (tbl : Table) (k : NamespacedName) (b : string) (A : gset string) : Prop :=
  (∀ k' b' A', tbl !! k' = Some (b', A') → k' ≠ k → A ## A') ∧
  (∀ b' A', tbl !! k = Some (b', A') → b' = b) ∧
  (Z.of_nat (size tbl) < max_int64)%Z.

Lemma update_lora_lookup (m : gmap string string) (A B : gset string) (b a : string) :
  A ## B →
  foldl (λ m a, delete a m) (foldl (λ m a, <[a := b]> m) m (range_set A)) (range_set B) !! a =
  if decide (a ∈ A) then Some b else if decide (a ∈ B) then None else m !! a.
Proof.
  intros Hd. rewrite lookup_foldl_delete, lookup_foldl_insert_const.
  repeat case_bool_decide; repeat case_decide; rewrite ?elem_of_range_set in *; set_solver.
Qed.

Lemma update_base_counts st tbl k b A b' :
  implements st tbl → fits tbl k b A →
  (if bool_decide (is_Some (configmapAdapters st !! k)) then baseModels st
   else match baseModels st !! b with
        | Some count => <[b := wrap64 (count + 1)]> (baseModels st)
        | None => <[b := 1%Z]> (baseModels st)
        end) !! b' =
  if (base_count (<[k := (b, A)]> tbl) b' =? 0)%nat then None
  else Some (Z.of_nat (base_count (<[k := (b, A)]> tbl) b')).
Proof.
  intros [Hc _ Hb _] (_ & Hsame & Hsz). rewrite Hc, lookup_fmap.
  destruct (tbl !! k) as [[b0 A0]|] eqn:Hk; simpl.
  - pose proof (Hsame _ _ eq_refl) as ->.
    by rewrite (base_count_insert_same _ _ _ _ _ _ Hk).
  - rewrite (base_count_insert_new _ _ _ _ _ Hk). pose proof (base_count_le tbl b).
    destruct (decide (b = b')) as [<-|Hne].
    + rewrite Hb. destruct (Nat.eqb_spec (base_count tbl b) 0) as [->|?];
        rewrite lookup_insert_eq; [done|].
      rewrite wrap64_small
        by (revert Hsz; unfold in_int64, max_int64, min_int64, two63; lia).
      simpl. f_equal. lia.
    + simpl. rewrite <- Hb. destruct (baseModels st !! b); by rewrite lookup_insert_ne.
Qed.

Lemma update_implements st tbl cm b A :
  implements st tbl → parseConfigMap cm = inl (b, A) → fits tbl (cm_key cm) b A →
  ∃ st', configMapUpdateOrAddIfNotExist st cm = (st', None) ∧
    implements st' (<[cm_key cm := (b, A)]> tbl).
Proof.
  intros Himp Hp Hfit. unfold configMapUpdateOrAddIfNotExist. rewrite Hp.
  eexists. split; [reflexivity|]. pose proof Himp as [Hc Hl Hb Hd].
  pose proof Hfit as (Hdis & Hsame & _). set (k := cm_key cm) in *.
  split; simpl.
  - by rewrite Hc, fmap_insert.
  - intros a b'. rewrite update_lora_lookup by set_solver.
    rewrite Hc, lookup_fmap. unfold serves.
    destruct (decide (a ∈ A)) as [Ha|Ha].
    { split; [intros [= <-]; exists k, A; by rewrite lookup_insert_eq|].
      intros (k' & A' & Hk' & Ha'). destruct (decide (k' = k)) as [->|Hne].
      - rewrite lookup_insert_eq in Hk'. congruence.
      - rewrite lookup_insert_ne in Hk' by done. set_solver. }
    destruct (decide _) as [Hr|Hr].
    { split; [done|]. intros (k' & A' & Hk' & Ha').
      destruct (decide (k' = k)) as [->|Hne].
      - rewrite lookup_insert_eq in Hk'. congruence.
      - rewrite lookup_insert_ne in Hk' by done.
        destruct (tbl !! k) as [[b0 A0]|] eqn:Hk; simpl in Hr; [|set_solver].
        pose proof (Hd _ _ _ _ _ _ Hk' Hk Hne). set_solver. }
    rewrite Hl. unfold serves. split; intros (k' & A' & Hk' & Ha').
    + destruct (decide (k' = k)) as [->|Hne].
      * rewrite Hk' in Hr. simpl in Hr. set_solver.
      * exists k', A'. by rewrite lookup_insert_ne.
    + destruct (decide (k' = k)) as [->|Hne].
      * rewrite lookup_insert_eq in Hk'. congruence.
      * rewrite lookup_insert_ne in Hk' by done. by exists k', A'.
  - intros b'. by apply update_base_counts.
  - intros k1 k2 b1 b2 A1 A2 H1 H2 Hne.
    destruct (decide (k1 = k)) as [->|?]; destruct (decide (k2 = k)) as [->|?]; try done;
      rewrite ?lookup_insert_eq, ?lookup_insert_ne in H1 by done;
      rewrite ?lookup_insert_eq, ?lookup_insert_ne in H2 by done; simplify_eq;
      [set_solver | symmetry; set_solver | by eapply Hd].
Qed.

Lemma delete_implements st tbl cm b A :
  implements st tbl → tbl !! cm_key cm = Some (b, A) →
  parseBaseModelFromConfigMap cm = inl b → (Z.of_nat (size tbl) < max_int64)%Z →
  implements (configMapDelete st cm) (delete (cm_key cm) tbl).
Proof.
  intros [Hc Hl Hb Hd] Hk Hp Hsz. unfold configMapDelete. set (k := cm_key cm) in *.
  assert (configmapAdapters st !! k = Some A) as Hck by (by rewrite Hc, lookup_fmap, Hk).
  rewrite Hck, Hp. split; simpl.
  - by rewrite Hc, fmap_delete.
  - intros a b'. rewrite lookup_foldl_delete. unfold serves.
    case_bool_decide as Ha; rewrite elem_of_range_set in Ha.
    + split; [done|]. intros (k' & A' & Hk' & Ha').
      apply lookup_delete_Some in Hk' as [Hne Hk'].
      pose proof (Hd _ _ _ _ _ _ Hk' Hk (not_eq_sym Hne)). set_solver.
    + rewrite Hl. unfold serves. split; intros (k' & A' & Hk' & Ha').
      * exists k', A'. split; [|done]. apply lookup_delete_Some.
        split; [intros <-; congruence | done].
      * apply lookup_delete_Some in Hk' as [? ?]. by exists k', A'.
  - intros b'. pose proof (base_count_delete _ _ _ _ b' Hk) as Hcnt.
    pose proof (base_count_delete _ _ _ _ b Hk) as Hcb.
    rewrite decide_True in Hcb by done. rewrite Hb. pose proof (base_count_le tbl b).
    destruct (Nat.eqb_spec (base_count tbl b) 0) as [|_]; [lia|]. simpl.
    destruct (decide (b = b')) as [<-|Hne].
    + destruct (Z.eqb_spec (Z.of_nat (base_count tbl b)) 1).
      * rewrite lookup_delete_eq. by replace (base_count (delete k tbl) b) with 0%nat by lia.
      * rewrite lookup_insert_eq, wrap64_small
          by (revert Hsz; unfold in_int64, max_int64, min_int64, two63; lia).
        destruct (Nat.eqb_spec (base_count (delete k tbl) b) 0); [lia|]. f_equal. lia.
    + simpl in Hcnt. rewrite <- Hcnt, <- Hb.
      case_match; [by rewrite lookup_delete_ne | by rewrite lookup_insert_ne].
  - intros k1 k2 b1 b2 A1 A2 H1%lookup_delete_Some H2%lookup_delete_Some. naive_solver.
Qed.

Lemma delete_absent st cm :
  configmapAdapters st !! cm_key cm = None → configMapDelete st cm = st.
Proof. unfold configMapDelete. by intros ->. Qed.

Lemma getBaseModel_resolves st tbl m b :
  implements st tbl → getBaseModel st m = b ↔ resolves tbl (trim_space m) b.
Proof.
  intros [_ Hl Hb _]. unfold getBaseModel, resolves.
  destruct (loraAdapterToBaseModel st !! trim_space m) as [b'|] eqn:E.
  { split; [intros <-; left; by apply Hl|]. intros [Hs%Hl|[Hn _]]; [congruence|].
    destruct (Hn b'). by apply Hl. }
  assert (∀ b', ¬ serves tbl (trim_space m) b') as Hn by (intros b' Hs%Hl; congruence).
  rewrite Hb. destruct (Nat.eqb_spec (base_count tbl (trim_space m)) 0).
  - split; [intros <-; right; split; [done|by right] | naive_solver lia].
  - split; [intros <-; right; split; [done|left; split; [lia|done]] | naive_solver lia].
Qed.

(** ** Runs of the reconciler *)

(** [Get] finds the object. *)
Definition found (cm : ConfigMap) : Reader := λ _ _, (cm, None).

(** The reconciler called once for each of [cms], each found as given. *)
Definition reconcile_all (cms : list ConfigMap) (st : AdaptersStore) : AdaptersStore :=
  foldl (λ st cm, (Reconcile (found cm) st (cm_key cm)).1) st cms.

(** The object is to be forgotten: deleted, or no longer labelled. *)
Definition unmanaged (cm : ConfigMap) : bool := cm_Deleting cm || negb (hasIPPManagedLabel cm).

Definition table_step (tbl : Table) (cm : ConfigMap) : Table :=
  if unmanaged cm then delete (cm_key cm) tbl
  else match parseConfigMap cm with
       | inl v => <[cm_key cm := v]> tbl
       | inr _ => tbl
       end.

(** The events the store supports: a ConfigMap keeps its base model, also in
    the object seen when it goes, and no two claim an adapter. *)
Definition supported (tbl : Table) (cm : ConfigMap) : Prop :=
  if unmanaged cm
  then (Z.of_nat (size tbl) < max_int64)%Z ∧
       ∀ b A, tbl !! cm_key cm = Some (b, A) → parseBaseModelFromConfigMap cm = inl b
  else ∀ b A, parseConfigMap cm = inl (b, A) → fits tbl (cm_key cm) b A.

Fixpoint supported_run (tbl : Table) (cms : list ConfigMap) : Prop :=
  match cms with
  | [] => True
  | cm :: cms => supported tbl cm ∧ supported_run (table_step tbl cm) cms
  end.

Lemma Reconcile_found st cm :
  (Reconcile (found cm) st (cm_key cm)).1 =
  if unmanaged cm then configMapDelete st cm
  else (configMapUpdateOrAddIfNotExist st cm).1.
Proof.
  unfold Reconcile, unmanaged, found. simpl.
  destruct (cm_Deleting cm || negb (hasIPPManagedLabel cm)); [done|].
  by destruct (configMapUpdateOrAddIfNotExist st cm) as [? [?|]].
Qed.

Lemma Reconcile_implements st tbl cm :
  implements st tbl → supported tbl cm →
  implements (Reconcile (found cm) st (cm_key cm)).1 (table_step tbl cm).
Proof.
  intros Hi Hs. rewrite Reconcile_found. unfold supported, table_step in *.
  destruct (unmanaged cm).
  - destruct Hs as [Hsz Hs]. destruct (tbl !! cm_key cm) as [[b A]|] eqn:Hk.
    + eapply delete_implements; eauto.
    + rewrite delete_id, delete_absent by (rewrite ?(impl_cms _ _ Hi), ?lookup_fmap, ?Hk; done).
      done.
  - destruct (parseConfigMap cm) as [[b A]|e] eqn:Hp.
    + destruct (update_implements _ _ _ _ _ Hi Hp (Hs _ _ eq_refl)) as (st' & -> & ?). done.
    + unfold configMapUpdateOrAddIfNotExist. by rewrite Hp.
Qed.

Lemma reconcile_all_implements cms st tbl :
  implements st tbl → supported_run tbl cms →
  implements (reconcile_all cms st) (foldl table_step tbl cms).
Proof.
  revert st tbl. induction cms as [|cm cms IH]; intros st tbl Hi; [done|].
  intros [Hs Hr]. simpl. apply IH; [by apply Reconcile_implements | done].
Qed.

(** C9: the adapters store implements the table of ConfigMaps. After any
    sequence of reconciled ConfigMaps that each keep their base model and
    share no adapter, looking a model up gives the base model of the
    ConfigMap that lists it, the name itself when some ConfigMap has it as
    base model, and the empty string otherwise - and no other answer. *)
Theorem reconciler_refines_table cms m b :
  supported_run ∅ cms →
  getBaseModel (reconcile_all cms NewAdaptersStore) m = b ↔
  resolves (foldl table_step ∅ cms) (trim_space m) b.
Proof.
  intros Hr. apply getBaseModel_resolves, reconcile_all_implements;
    [apply implements_new | done].
Qed.

(** C38: changes the store does not follow. A ConfigMap that changes its base
    model leaves the new one unknown to lookups, unless another ConfigMap
    registered it, and the old one registered. Reconciling a ConfigMap that is
    gone changes nothing: [Get] leaves the object it was given zero, so the
    deletion looks for the ConfigMap with the empty name. And deleting one of
    two ConfigMaps that list an adapter removes the adapter although the other
    one still lists it. *)
Theorem unsupported_changes_are_missed st :
  (∀ cm b A b0 A0, configmapAdapters st !! cm_key cm = Some A0 →
     parseConfigMap cm = inl (b, A) → trim_space b = b →
     baseModels st !! b = None → loraAdapterToBaseModel st !! b = None → b ∉ A →
     is_Some (baseModels st !! b0) →
     ∃ st', configMapUpdateOrAddIfNotExist st cm = (st', None) ∧
       getBaseModel st' b = "" ∧ is_Some (baseModels st' !! b0)) ∧
  (∀ req, configmapAdapters st !! ("", "") = None →
     Reconcile (λ _ obj, (obj, Some GetNotFound)) st req = (st, None)) ∧
  (∀ cm k A A' a, configmapAdapters st !! cm_key cm = Some A → a ∈ A →
     k ≠ cm_key cm → configmapAdapters st !! k = Some A' → a ∈ A' →
     loraAdapterToBaseModel (configMapDelete st cm) !! a = None ∧
     configmapAdapters (configMapDelete st cm) !! k = Some A').
Proof.
  split_and!.
  - intros cm b A b0 A0 Hk Hp Ht Hb Hl HA H0. unfold configMapUpdateOrAddIfNotExist.
    rewrite Hp, Hk. simpl. eexists. split; [reflexivity|]. split; [|done].
    unfold getBaseModel. simpl.
    rewrite Ht, Hb, lookup_foldl_delete, lookup_foldl_insert_const, Hl.
    rewrite (bool_decide_eq_false_2 (b ∈ range_set A)) by (by rewrite elem_of_range_set).
    by case_bool_decide.
  - intros req H. unfold Reconcile. simpl. by rewrite delete_absent.
  - intros cm k A A' a Hk Ha Hne Hk' Ha'. unfold configMapDelete. rewrite Hk. simpl.
    rewrite lookup_delete_ne, lookup_foldl_delete, bool_decide_eq_true_2
      by (done || by rewrite elem_of_range_set). done.
Qed.
End refinement.

(** ** Concrete runs *)

Definition one_adapter_yaml : Yaml := {| yaml_strings := λ s, inl [s] |}.

Definition cm_of (name base adapters : string) (del : bool) : ConfigMap :=
  {| cm_Namespace := "default"; cm_Name := name;
     cm_Labels := {[ippManagedLabel := "true"]};
     cm_Data := <[baseModelKey := base]> {[adaptersKey := adapters]};
     cm_Deleting := del |}.

Definition llama_cms : list ConfigMap :=
  [cm_of "a" "llama" "fr" false; cm_of "a" "llama" "fr" true; cm_of "b" "llama" " it " false].

Lemma supported_first YL tbl cm :
  unmanaged cm = false → tbl = ∅ → @supported YL tbl cm.
Proof.
  unfold supported. intros -> ->. intros b A _. split_and!; [done|done|].
  rewrite map_size_empty. done.
Qed.

Lemma llama_supported : @supported_run one_adapter_yaml ∅ llama_cms.
Proof.
  simpl. split_and!; [by apply supported_first| | |done].
  - split; [vm_compute; done|]. intros b A H.
    change (@table_step _ _ _) with (@table_step one_adapter_yaml ∅ (cm_of "a" "llama" "fr" false)) in H.
    unfold table_step in H. simpl unmanaged in H. cbv iota in H.
    vm_compute in H. injection H as <- _. vm_compute. done.
  - apply supported_first; [done|]. vm_compute. done.
Qed.

Lemma reconciler_refines_table_witness :
  getBaseModel (@reconcile_all _ one_adapter_yaml llama_cms NewAdaptersStore) " it" = "llama" ∧
  resolves (foldl (@table_step one_adapter_yaml) ∅ llama_cms) (trim_space " it") "llama".
Proof.
  split; [vm_compute; done|].
  apply (@reconciler_refines_table _ one_adapter_yaml llama_cms " it" "llama" llama_supported).
  vm_compute. done.
Defined.

Definition llama_store : AdaptersStore :=
  @reconcile_all _ one_adapter_yaml [cm_of "a" "llama" "fr" false] NewAdaptersStore.

Definition shared_store : AdaptersStore :=
  @reconcile_all _ one_adapter_yaml
    [cm_of "a" "llama" "fr" false; cm_of "b" "llama" "fr" false] NewAdaptersStore.

Lemma unsupported_changes_are_missed_witness :
  (∃ st', @configMapUpdateOrAddIfNotExist _ one_adapter_yaml llama_store
            (cm_of "a" "qwen" "fr" false) = (st', None) ∧
     getBaseModel st' "qwen" = "" ∧ is_Some (baseModels st' !! "llama")) ∧
  (@Reconcile _ one_adapter_yaml (λ _ obj, (obj, Some GetNotFound)) llama_store ("default", "a")
     = (llama_store, None) ∧ getBaseModel llama_store "fr" = "llama") ∧
  loraAdapterToBaseModel (configMapDelete shared_store (cm_of "a" "llama" "fr" true)) !! "fr" = None.
Proof.
  split; [|split; [split; [|vm_compute; reflexivity]|]].
  - refine (proj1 (@unsupported_changes_are_missed _ one_adapter_yaml llama_store)
      (cm_of "a" "qwen" "fr" false) "qwen" {["fr"]} "llama" {["fr"]} _ _ _ _ _ _ _);
      vm_compute; try done; by eexists.
  - refine (proj1 (proj2 (@unsupported_changes_are_missed _ one_adapter_yaml llama_store))
      ("default", "a") _). vm_compute. done.
  - refine (proj1 (proj2 (proj2 (@unsupported_changes_are_missed _ one_adapter_yaml shared_store))
      (cm_of "a" "llama" "fr" true) ("default", "b") {["fr"]} {["fr"]} "fr" _ _ _ _ _)); vm_compute; done.
Defined.
