(* ===== verification/Datalayer.v ===== *)
(** The data layer's store: pkg/framework/interface/datalayer (attribute maps,
    models, the [Datastore] interface), the values kept in attributes (pricing,
    modelgroups, accumulator, and the request counts of
    plugins/datalayer/requestmetadata), and pkg/datastore/inmemory.

    A [Model] is a pointer: a request keeps using the models it was given after
    they are deleted from the store. The in-memory store is therefore a heap of
    model objects and a map from names to pointers. The plugins are modelled
    and verified against the class [Datastore]; the in-memory store is an
    instance of it. *)

From Stdlib Require Import String.
From S2P Require Import Prelude GoFloat GoValue Envoy Message World.

Local Open Scope string_scope.
Local Open Scope list_scope.

(** github.com/caio/go-tdigest/v5: the quantile digest of the cost samples. *)
Class TDigest : Type := {
  tdigest : Type;
  td_New : float64 → tdigest + goerror;
  td_Add : tdigest → float64 → tdigest + goerror;
  td_Clone : tdigest → tdigest
}.

Definition CostDigestAttributeKey : string := "cost_digest".
Definition GroupsAttributeKey : string := "model_groups".
Definition TokenPricesAttributeKey : string := "token_prices".
Definition RequestMetadataAttributeKey : string := "request-metadata".

(** ** Attribute values *)

Record ModelPriceShape := { InputPerMillion : float64; OutputPerMillion : float64 }.
Record TokenPrices := { InputTokenPrice : float64; OutputTokenPrice : float64 }.

Definition million : float64 := f_of_Z 1000000.

Definition ToTokenPrices (s : ModelPriceShape) : TokenPrices :=
  {| InputTokenPrice := fdiv (InputPerMillion s) million;
     OutputTokenPrice := fdiv (OutputPerMillion s) million |}.

Abbreviation Groups := (list string).

Definition Groups_Contains (g : Groups) (name : string) : bool :=
  existsb (λ x, String.eqb x name) g.

Record RequestMetadataCount := { Requests : Z; Tokens : Z }.

Section datalayer.
Context `{TD : TDigest}.

(** The types that implement [Cloneable]. *)
Inductive Cloneable : Type :=
| CTokenPrices (p : TokenPrices)
| CGroups (g : Groups)
| CRequestMetadataCount (r : RequestMetadataCount)
| CCostDigest (d : tdigest).

Definition Clone (v : Cloneable) : Cloneable :=
  match v with
  | CTokenPrices p => CTokenPrices {| InputTokenPrice := InputTokenPrice p;
                                      OutputTokenPrice := OutputTokenPrice p |}
  | CGroups g => CGroups g
  | CRequestMetadataCount r => CRequestMetadataCount r
  | CCostDigest d => CCostDigest (td_Clone d)
  end.

Definition as_token_prices (v : Cloneable) : option TokenPrices :=
  match v with CTokenPrices p => Some p | _ => None end.
Definition as_groups (v : Cloneable) : option Groups :=
  match v with CGroups g => Some g | _ => None end.
Definition as_request_count (v : Cloneable) : option RequestMetadataCount :=
  match v with CRequestMetadataCount r => Some r | _ => None end.
Definition as_cost_digest (v : Cloneable) : option tdigest :=
  match v with CCostDigest d => Some d | _ => None end.

(** ** Attribute maps *)

Abbreviation Attributes := (gmap string Cloneable).

Definition NewAttributes : Attributes := ∅.

(** [None] is the nil value. *)
Definition Put (key : string) (value : option Cloneable) (a : Attributes) : Attributes :=
  if String.eqb key "" then a
  else match value with
       | None => a
       | Some v => <[key := v]> a
       end.

Definition Get (a : Attributes) (key : string) : option Cloneable := Clone <$> a !! key.

Definition DeleteAttr (key : string) (a : Attributes) : Attributes := delete key a.

Definition Keys `{MapOrder} (a : Attributes) : list string := (go_range a).*1.

(** The copy stores the values themselves, not clones of them. *)
Definition CloneAttributes `{MapOrder} (a : Attributes) : Attributes :=
  foldl (λ c kv, Put kv.1 (Some kv.2) c) NewAttributes (go_range a).

(** [ReadAttributeKey[T]], with the type assertion to [T]. The error texts,
    which quote the key and name the types, are not modelled. *)
Definition ReadAttributeKey {T} (assert : Cloneable → option T) (a : Attributes)
    (key : string) : T + goerror :=
  match Get a key with
  | None => inr (ENew "attribute not found")
  | Some raw => match assert raw with
                | Some v => inl v
                | None => inr (ENew "unexpected type for key")
                end
  end.

Lemma Clone_token_prices p : Clone (CTokenPrices p) = CTokenPrices p.
Proof. by destruct p. Qed.

Lemma Get_Put k v a : k ≠ "" → Get (Put k (Some v) a) k = Some (Clone v).
Proof.
  intros Hk. unfold Get, Put. destruct (String.eqb_spec k ""); [done|].
  by rewrite lookup_insert_eq.
Qed.

Lemma Get_Put_ne k k' v a : k ≠ k' → Get (Put k v a) k' = Get a k'.
Proof.
  intros Hk. unfold Get, Put. destruct (String.eqb k ""); [done|].
  destruct v; [|done]. by rewrite lookup_insert_ne.
Qed.

Lemma CloneAttributes_eq `{MapOrder} a : a !! "" = None → CloneAttributes a = a.
Proof.
  intros Hne. unfold CloneAttributes.
  assert (∀ l (c : Attributes), (∀ kv, kv ∈ l → kv.1 ≠ "") → NoDup l.*1 →
    foldl (λ c kv, Put kv.1 (Some kv.2) c) c l = list_to_map l ∪ c) as Hfold.
  { induction l as [|[k v] l IH]; intros c Hl Hnd; simpl.
    - by rewrite map_empty_union.
    - apply NoDup_cons in Hnd as [Hni Hnd].
      rewrite IH; [|intros kv Hkv; apply Hl; by right|done].
      unfold Put. simpl. destruct (String.eqb_spec k "") as [->|_].
      { destruct (Hl ("", v)); [by left|done]. }
      rewrite <- insert_union_r by (by apply not_elem_of_list_to_map_1).
      by rewrite insert_union_l. }
  rewrite Hfold; [unfold NewAttributes; by rewrite map_union_empty, list_to_map_go_range
                 | |apply NoDup_fst_go_range].
  intros [k v] Hkv Hk. simpl in Hk. subst. apply elem_of_go_range in Hkv. congruence.
Qed.

(** ** The Datastore interface *)

Abbreviation Ptr := positive.

(** The operations of [datalayer.Datastore] and of the models it hands out,
    on a state [S] that holds the store. [view] is what the store contains by
    name, [current s n p] says that [p] is the model the store has for [n]. *)
Class Datastore (S : Type) : Type := {
  GetOrCreateModel : string → S → Ptr * S;
  DeleteModel : string → S → S;
  GetModels : (Ptr → bool) → S → list Ptr;
  GetName : S → Ptr → string;
  GetAttributes : S → Ptr → Attributes;
  update_attributes : (Attributes → Attributes) → Ptr → S → S;

  store_ok : S → Prop;
  current : S → string → Ptr → Prop;
  view : S → gmap string Attributes;

  current_view s n p : store_ok s → current s n p →
    GetName s p = n ∧ view s !! n = Some (GetAttributes s p);
  view_current s n : store_ok s → is_Some (view s !! n) → ∃ p, current s n p;
  current_unique s n p p' : current s n p → current s n p' → p = p';
  GetOrCreateModel_spec s n p s' : store_ok s → GetOrCreateModel n s = (p, s') →
    store_ok s' ∧ current s' n p ∧
    view s' = match view s !! n with Some _ => view s | None => <[n := NewAttributes]> (view s) end;
  DeleteModel_spec s n : store_ok s →
    store_ok (DeleteModel n s) ∧ view (DeleteModel n s) = delete n (view s) ∧
    ∀ p, GetName (DeleteModel n s) p = GetName s p;
  GetModels_spec s P : store_ok s →
    NoDup (GetModels P s) ∧
    ∀ p, p ∈ GetModels P s ↔ (∃ n, current s n p) ∧ P p = true;
  update_spec s f n p : store_ok s → current s n p →
    store_ok (update_attributes f p s) ∧ current (update_attributes f p s) n p ∧
    view (update_attributes f p s) = alter f n (view s)
}.

Definition AllModelsPredicate : Ptr → bool := λ _, true.

(** ** The in-memory store *)

Record ModelObject := { m_name : string; m_attributes : Attributes }.

Definition NewModel (name : string) : ModelObject :=
  {| m_name := name; m_attributes := NewAttributes |}.

Record Store :=
  { heap : gmap Ptr ModelObject; models : gmap string Ptr; next : Ptr }.

Definition NewDatastore : Store := {| heap := ∅; models := ∅; next := 1 |}.

Definition store_GetOrCreateModel (name : string) (s : Store) : Ptr * Store :=
  match models s !! name with
  | Some m => (m, s)
  | None => (next s, {| heap := <[next s := NewModel name]> (heap s);
                        models := <[name := next s]> (models s);
                        next := Pos.succ (next s) |})
  end.

Definition store_DeleteModel (name : string) (s : Store) : Store :=
  {| heap := heap s; models := delete name (models s); next := next s |}.

Definition store_GetModels `{MapOrder} (predicate : Ptr → bool) (s : Store) : list Ptr :=
  base.filter (λ p, predicate p = true) (go_range (models s)).*2.

(** [m.GetName()], [m.GetAttributes()]. *)
Definition object (s : Store) (p : Ptr) : ModelObject := default (NewModel "") (heap s !! p).

Definition store_update (f : Attributes → Attributes) (p : Ptr) (s : Store) : Store :=
  {| heap := alter (λ m, {| m_name := m_name m; m_attributes := f (m_attributes m) |}) p (heap s);
     models := models s; next := next s |}.

(** Every name points to an allocated object of that name. *)
Definition store_wf (s : Store) : Prop :=
  (∀ n p, models s !! n = Some p → ∃ m, heap s !! p = Some m ∧ m_name m = n) ∧
  (∀ p, is_Some (heap s !! p) → (p < next s)%positive).

Definition store_view (s : Store) : gmap string Attributes :=
  (λ p, m_attributes (object s p)) <$> models s.

Lemma store_wf_new : store_wf NewDatastore.
Proof. split; simpl; [done|]. intros p. rewrite lookup_empty. by intros [? ?]. Qed.

Lemma store_wf_inj s n n' p :
  store_wf s → models s !! n = Some p → models s !! n' = Some p → n = n'.
Proof.
  intros [Hw _] H H'. destruct (Hw _ _ H) as (m & Hm & <-).
  destruct (Hw _ _ H') as (m' & Hm' & <-). congruence.
Qed.

Lemma store_next_fresh s p m : store_wf s → heap s !! p = Some m → p ≠ next s.
Proof. intros [_ Hn] Hp ->. specialize (Hn (next s) (mk_is_Some _ _ Hp)). lia. Qed.

Lemma store_GetOrCreateModel_spec s n p s' :
  store_wf s → store_GetOrCreateModel n s = (p, s') →
  store_wf s' ∧ models s' !! n = Some p ∧
  store_view s' = match store_view s !! n with
                  | Some _ => store_view s
                  | None => <[n := NewAttributes]> (store_view s)
                  end.
Proof.
  intros Hwf. unfold store_GetOrCreateModel, store_view. rewrite lookup_fmap.
  destruct (models s !! n) as [q|] eqn:E; intros [= <- <-]; simpl; [done|].
  split_and!; [|by rewrite lookup_insert_eq|].
  - split; simpl.
    + intros n' p'. destruct (decide (n' = n)) as [->|Hne].
      * rewrite lookup_insert_eq. intros [= <-]. exists (NewModel n).
        by rewrite lookup_insert_eq.
      * rewrite lookup_insert_ne by done. intros Hp'.
        destruct (proj1 Hwf _ _ Hp') as (m & Hm & Hmn). exists m.
        pose proof (store_next_fresh _ _ _ Hwf Hm). by rewrite lookup_insert_ne.
    + intros p'. destruct (decide (p' = next s)) as [->|Hne]; [lia|].
      rewrite lookup_insert_ne by done. intros H. pose proof (proj2 Hwf _ H). lia.
  - rewrite fmap_insert. unfold object at 1. simpl. rewrite lookup_insert_eq. simpl. f_equal.
    apply map_fmap_ext. intros n' p' Hp'.
    destruct (proj1 Hwf _ _ Hp') as (m & Hm & _).
    pose proof (store_next_fresh _ _ _ Hwf Hm). unfold object. simpl.
    by rewrite lookup_insert_ne.
Qed.

Lemma store_update_spec s f n p :
  store_wf s → models s !! n = Some p →
  store_wf (store_update f p s) ∧ store_view (store_update f p s) = alter f n (store_view s).
Proof.
  intros Hwf Hp. split.
  - split; simpl.
    + intros n' p' Hp'. destruct (proj1 Hwf _ _ Hp') as (m & Hm & Hmn).
      destruct (decide (p = p')) as [->|];
        [rewrite lookup_alter_eq|rewrite lookup_alter_ne by done]; rewrite Hm; naive_solver.
    + intros p' H. apply (proj2 Hwf). destruct (decide (p = p')) as [->|].
      * rewrite lookup_alter_eq in H. by rewrite fmap_is_Some in H.
      * by rewrite lookup_alter_ne in H.
  - unfold store_view. simpl. apply map_eq. intros n'.
    destruct (proj1 Hwf _ _ Hp) as (m & Hm & _).
    destruct (decide (n' = n)) as [->|Hne].
    + rewrite lookup_alter_eq, !lookup_fmap, Hp. simpl. unfold object. simpl.
      by rewrite lookup_alter_eq, Hm.
    + rewrite lookup_alter_ne by done. rewrite !lookup_fmap.
      destruct (models s !! n') as [p'|] eqn:E; simpl; [|done]. unfold object. simpl.
      rewrite lookup_alter_ne; [done|]. intros <-. by destruct (store_wf_inj _ _ _ _ Hwf E Hp).
Qed.

Lemma store_GetModels_spec `{MapOrder} s P :
  store_wf s →
  NoDup (store_GetModels P s) ∧
  ∀ p, p ∈ store_GetModels P s ↔ (∃ n, models s !! n = Some p) ∧ P p = true.
Proof.
  intros Hwf. split.
  - apply NoDup_filter, NoDup_fmap_2_strong.
    + intros [n p] [n' p'] H1 H2 ?. simpl in *. subst. apply elem_of_go_range in H1, H2.
      by rewrite (store_wf_inj _ _ _ _ Hwf H1 H2).
    + rewrite go_range_perm. apply NoDup_map_to_list.
  - intros p. unfold store_GetModels. rewrite list_elem_of_filter, list_elem_of_fmap.
    split.
    + intros (HP & [n p'] & -> & Hin%elem_of_go_range). eauto.
    + intros ((n & Hn) & HP). split; [done|]. exists (n, p).
      split; [done|]. by apply elem_of_go_range.
Qed.

#[export] Program Instance Store_Datastore `{MapOrder} : Datastore Store := {
  GetOrCreateModel := store_GetOrCreateModel;
  DeleteModel := store_DeleteModel;
  GetModels := store_GetModels;
  GetName s p := m_name (object s p);
  GetAttributes s p := m_attributes (object s p);
  update_attributes := store_update;
  store_ok := store_wf;
  current s n p := models s !! n = Some p;
  view := store_view
}.
Next Obligation.
  intros MO s n p Hwf Hp. simpl in *. destruct (proj1 Hwf _ _ Hp) as (m & Hm & Hn). unfold store_view.
  rewrite lookup_fmap, Hp. simpl. unfold object. rewrite Hm. by split.
Qed.
Next Obligation. intros MO s n _ H. unfold store_view in H. by rewrite lookup_fmap, fmap_is_Some in H. Qed.
Next Obligation. intros MO s n p p' H H'. simpl in *. congruence. Qed.
Next Obligation. intros MO s n p s'. apply store_GetOrCreateModel_spec. Qed.
Next Obligation.
  intros MO s n Hwf. split; [split|split; [by apply fmap_delete|done]].
  - simpl. intros n' p [_ Hp]%lookup_delete_Some. by apply Hwf.
  - by apply Hwf.
Qed.
Next Obligation. intros MO s P. apply store_GetModels_spec. Qed.
Next Obligation.
  intros MO s f n p Hwf Hp. destruct (store_update_spec s f n p Hwf Hp) as [H1 H2].
  split; [exact H1|split; [exact Hp|exact H2]].
Qed.
End datalayer.

Abbreviation Ptr := positive.
Abbreviation Attributes := (gmap string Cloneable).
