(* ===== verification/Extractors.v ===== *)
(** pkg/framework/plugins/datalayer: the extractors that turn request and
    response events into model attributes (requestmetadata,
    requestcostmetadata) and the datasource that keeps the store in step with
    the models file (modelconfigcollector). All three are stated and verified
    against the class [Datastore]. *)

From Stdlib Require Import Strings.Byte String.
From S2P Require Import Prelude GoFloat GoValue Envoy Message World Datalayer.

Local Open Scope string_scope.
Local Open Scope list_scope.

(** [m.Body[key].(float64)], the zero value when the assertion fails. *)
Definition body_float (m : InferenceMessage) (key : string) : float64 :=
  match body_lookup m key with
  | Some v => default f0 (as_float v)
  | None => f0
  end.

(** ** Publishing attributes *)

Section publish.
Context `{TD : TDigest} {S : Type} `{DS : !Datastore S}.

(** [ds.GetOrCreateModel(model).GetAttributes().Put(key, value)]. *)
Definition publish (key : string) (s : S) (mv : string * Cloneable) : S :=
  let '(p, s) := GetOrCreateModel mv.1 s in update_attributes (Put key (Some mv.2)) p s.

Lemma publish_spec key s m v :
  store_ok s →
  store_ok (publish key s (m, v)) ∧
  view (publish key s (m, v)) =
    <[m := Put key (Some v) (default NewAttributes (view s !! m))]> (view s).
Proof.
  intros Hok. unfold publish. simpl. destruct (GetOrCreateModel m s) as [p s1] eqn:E.
  destruct (GetOrCreateModel_spec _ _ _ _ Hok E) as (Hok1 & Hc & Hv).
  destruct (update_spec s1 (Put key (Some v)) m p Hok1 Hc) as (? & _ & ->).
  split; [done|]. rewrite Hv. apply map_eq. intros m'.
  destruct (decide (m' = m)) as [->|Hne].
  - rewrite lookup_alter_eq, lookup_insert_eq.
    destruct (view s !! m) eqn:Em; [by rewrite Em|by rewrite lookup_insert_eq].
  - rewrite lookup_alter_ne, lookup_insert_ne by done.
    destruct (view s !! m); [done|by rewrite lookup_insert_ne].
Qed.

Lemma publish_all_spec key (l : list (string * Cloneable)) s :
  store_ok s → NoDup l.*1 →
  store_ok (foldl (publish key) s l) ∧
  ∀ m, view (foldl (publish key) s l) !! m =
    match (list_to_map l : gmap string Cloneable) !! m with
    | Some v => Some (Put key (Some v) (default NewAttributes (view s !! m)))
    | None => view s !! m
    end.
Proof.
  revert s. induction l as [|[k v] l IH]; intros s Hok Hnd; simpl; [done|].
  apply NoDup_cons in Hnd as [Hni Hnd].
  destruct (publish_spec key s k v Hok) as [Hok1 Hv1].
  destruct (IH _ Hok1 Hnd) as [Hok2 Hv2]. split; [done|]. intros m. rewrite Hv2, Hv1.
  destruct (decide (m = k)) as [->|Hne].
  - rewrite not_elem_of_list_to_map_1 by done. by rewrite !lookup_insert_eq.
  - by rewrite !lookup_insert_ne.
Qed.

(** The attribute a store has for a model name. *)
Definition attr (s : S) (m key : string) : option Cloneable := view s !! m ≫= (.!! key).

Lemma attr_publish_all key l s m key' :
  store_ok s → NoDup l.*1 → key ≠ "" →
  attr (foldl (publish key) s l) m key' =
    match (list_to_map l : gmap string Cloneable) !! m with
    | Some v => if String.eqb key key' then Some v else attr s m key'
    | None => attr s m key'
    end.
Proof.
  intros Hok Hnd Hkey. unfold attr.
  destruct (publish_all_spec key l s Hok Hnd) as [_ Hv]. rewrite Hv.
  destruct (list_to_map l !! m) as [v|]; [|done]. simpl. unfold Put.
  destruct (String.eqb_spec key ""); [done|].
  destruct (String.eqb_spec key key') as [<-|?]; [by rewrite lookup_insert_eq|].
  rewrite lookup_insert_ne by done. by destruct (view s !! m); simpl.
Qed.
End publish.

(** ** requestmetadata *)

Module RequestMetadata.

Definition PluginType : string := "request-metadata-extractor".

Definition floorDecrement (v delta : Z) : Z :=
  let v := wrap64 (v - delta) in if (v <? 0)%Z then 0%Z else v.

Record RequestMetadataExtractor :=
  { typedName : TypedName; counters : gmap string RequestMetadataCount }.

Definition NewRequestMetadataExtractor : RequestMetadataExtractor :=
  {| typedName := {| Type_ := PluginType; Name := PluginType |}; counters := ∅ |}.

Definition WithName (e : RequestMetadataExtractor) (name : string) : RequestMetadataExtractor :=
  {| typedName := {| Type_ := Type_ (typedName e); Name := name |}; counters := counters e |}.

(** Reading an absent counter gives the zero value. *)
Definition zero_count : RequestMetadataCount := {| Requests := 0; Tokens := 0 |}.

Section extract.
Context `{GA : GoArch}.

(** What one event does to the counter of its model. *)
Definition incremented (maxTokens : float64) (c : RequestMetadataCount) : RequestMetadataCount :=
  {| Requests := wrap64 (Requests c + 1); Tokens := wrap64 (Tokens c + f_to_int64 maxTokens) |}.

Definition decremented (maxTokens : float64) (c : RequestMetadataCount) : RequestMetadataCount :=
  {| Requests := floorDecrement (Requests c) 1;
     Tokens := floorDecrement (Tokens c) (f_to_int64 maxTokens) |}.

(** The body of the loop, on [e.counters] and [updated]. *)
Definition count_event (st : gmap string RequestMetadataCount * gmap string RequestMetadataCount)
    (ev : Event) : gmap string RequestMetadataCount * gmap string RequestMetadataCount :=
  let step (request : InferenceRequest) (f : float64 → RequestMetadataCount → RequestMetadataCount) :=
    let model := body_string request "model" in
    if String.eqb model "" then st
    else
      let maxTokens := body_float request "max_tokens" in
      let c := f maxTokens (default zero_count (st.1 !! model)) in
      (<[model := c]> st.1, <[model := c]> st.2) in
  match ev with
  | RequestEvent request _ => step request incremented
  | ResponseEvent request _ _ _ _ => step request decremented
  | OtherEvent _ _ => st
  end.

Context `{TD : TDigest} `{MO : MapOrder} {S : Type} `{DS : !Datastore S}.

Definition Extract (e : RequestMetadataExtractor) (s : S) (events : list Event) :
    RequestMetadataExtractor * S :=
  let '(cs, updated) := foldl count_event (counters e, ∅) events in
  ({| typedName := typedName e; counters := cs |},
   foldl (publish RequestMetadataAttributeKey) s
     (prod_map id CRequestMetadataCount <$> go_range updated)).

(** The batches the processor delivers, one [Extract] each. *)
Definition Extract_batches (e : RequestMetadataExtractor) (s : S) (batches : list (list Event)) :
    RequestMetadataExtractor * S :=
  foldl (λ es batch, Extract es.1 es.2 batch) (e, s) batches.

(** *** The counts an observer of the events keeps *)

(** What an event says about requests of model [m]: one more, one less, with
    its token budget. *)
Definition about (m : string) (ev : Event) : option (bool * Z) :=
  match ev with
  | RequestEvent rq _ =>
      if String.eqb (body_string rq "model") m
      then Some (true, f_to_int64 (body_float rq "max_tokens")) else None
  | ResponseEvent rq _ _ _ _ =>
      if String.eqb (body_string rq "model") m
      then Some (false, f_to_int64 (body_float rq "max_tokens")) else None
  | OtherEvent _ _ => None
  end.

(** Requests and tokens in flight, in exact arithmetic, never below zero. *)
Definition observe (m : string) (rt : Z * Z) (ev : Event) : Z * Z :=
  match about m ev with
  | Some (true, t) => (rt.1 + 1, rt.2 + t)
  | Some (false, t) => (Z.max 0 (rt.1 - 1), Z.max 0 (rt.2 - t))
  | None => rt
  end%Z.

Definition in_flight (m : string) (events : list Event) : Z * Z :=
  foldl (observe m) (0, 0)%Z events.

Definition mentions (m : string) (events : list Event) : bool :=
  existsb (λ ev, bool_decide (is_Some (about m ev))) events.

Definition count_pair (c : RequestMetadataCount) : Z * Z := (Requests c, Tokens c).

Lemma count_event_lookup st ev m :
  m ≠ "" →
  (count_event st ev).1 !! m =
    match about m ev with
    | Some (true, _) => Some (incremented (match ev with RequestEvent rq _ => body_float rq "max_tokens" | _ => f0 end) (default zero_count (st.1 !! m)))
    | Some (false, _) => Some (decremented (match ev with ResponseEvent rq _ _ _ _ => body_float rq "max_tokens" | _ => f0 end) (default zero_count (st.1 !! m)))
    | None => st.1 !! m
    end ∧
  (count_event st ev).2 !! m =
    match about m ev with
    | Some _ => (count_event st ev).1 !! m
    | None => st.2 !! m
    end.
Proof.
  intros Hm. destruct ev as [rq cs|rq rsp cs d t|? ?]; simpl; [| |done].
  all: destruct (String.eqb_spec (body_string rq "model") m) as [->|Hne];
    [destruct (String.eqb_spec m ""); [done|]; simpl; by rewrite !lookup_insert_eq
    |destruct (String.eqb _ ""); simpl; [done|by rewrite !lookup_insert_ne]].
Qed.

(** [updated] holds the counters the batch touched. *)
Lemma count_events_updated evs st m :
  m ≠ "" →
  (foldl count_event st evs).2 !! m =
    if mentions m evs then (foldl count_event st evs).1 !! m else st.2 !! m.
Proof.
  intros Hm. induction evs as [|ev evs IH] using rev_ind; [done|].
  rewrite !foldl_app. simpl. unfold mentions in *. rewrite existsb_app. simpl.
  destruct (count_event_lookup (foldl count_event st evs) ev m Hm) as [H1 H2].
  rewrite H2, orb_false_r. destruct (about m ev) as [[[] t]|]; simpl;
    rewrite ?orb_true_r, ?orb_false_r; [done|done|]. by rewrite IH, H1.
Qed.

Lemma count_events_untouched evs st m :
  m ≠ "" → mentions m evs = false → (foldl count_event st evs).1 !! m = st.1 !! m.
Proof.
  intros Hm. induction evs as [|ev evs IH] using rev_ind; [done|].
  rewrite !foldl_app. simpl. unfold mentions in *. rewrite existsb_app. simpl.
  intros [Hevs Hev]%orb_false_iff. rewrite orb_false_r in Hev.
  destruct (count_event_lookup (foldl count_event st evs) ev m Hm) as [-> _].
  destruct (about m ev); [done|]. by apply IH.
Qed.

(** The first component does not depend on the second one. *)
Lemma count_event_fst cs u u' ev : (count_event (cs, u) ev).1 = (count_event (cs, u') ev).1.
Proof. destruct ev; simpl; [| |done]; by case_match. Qed.

Lemma count_events_fst evs cs u u' :
  (foldl count_event (cs, u) evs).1 = (foldl count_event (cs, u') evs).1.
Proof.
  revert cs u u'. induction evs as [|ev evs IH]; intros cs u u'; simpl; [done|].
  pose proof (count_event_fst cs u u' ev) as E.
  destruct (count_event (cs, u) ev) as [a b], (count_event (cs, u') ev) as [a' b'].
  simpl in E. subst. apply IH.
Qed.

Definition counts (e : RequestMetadataExtractor) (m : string) : Z * Z :=
  count_pair (default zero_count (counters e !! m)).

Definition bounded_tokens (B : Z) (evs : list Event) : Prop :=
  Forall (λ ev, ∀ m b t, about m ev = Some (b, t) → (0 ≤ t ≤ B)%Z) evs.

(** The machine counters follow the exact ones while these fit in 64 bits. *)
Lemma counts_in_flight B evs m :
  m ≠ "" → (1 ≤ B)%Z → bounded_tokens B evs → (Z.of_nat (length evs) * B ≤ max_int64)%Z →
  let c := count_pair (default zero_count ((foldl count_event (∅, ∅) evs).1 !! m)) in
  c = in_flight m evs ∧
  (0 ≤ c.1 ≤ Z.of_nat (length evs))%Z ∧ (0 ≤ c.2 ≤ Z.of_nat (length evs) * B)%Z.
Proof.
  intros Hm HB. unfold in_flight.
  induction evs as [|ev evs IH] using rev_ind; intros Hb Hlen; [done|].
  apply Forall_app in Hb as [Hb Hev]. inversion_clear Hev as [|? ? Hev' _].
  rewrite length_app in *. simpl in *. rewrite !foldl_app. simpl.
  destruct (IH Hb) as (Heq & H1 & H2); [nia|]. clear IH.
  destruct (count_event_lookup (foldl count_event (∅, ∅) evs) ev m Hm) as [-> _].
  rewrite <- Heq. unfold observe.
  destruct (about m ev) as [[b t]|] eqn:Ea; [|split; [done|nia]].
  pose proof (Hev' _ _ _ Ea) as Ht.
  set (c := default zero_count _) in *. unfold count_pair in *. simpl in *.
  assert (∀ z, (0 ≤ z)%Z → (z ≤ max_int64)%Z → wrap64 z = z) as Hw
    by (intros; apply wrap64_small; unfold in_int64, min_int64, two63; lia).
  assert (∀ z, (- max_int64 ≤ z ≤ max_int64)%Z → wrap64 z = z) as Hw'
    by (intros; apply wrap64_small; unfold in_int64, min_int64, max_int64, two63 in *; lia).
  destruct ev as [rq cs|rq rsp cs d tt|? ?]; simpl in Ea; [| |done];
    destruct (String.eqb _ m); simplify_eq; simpl.
  - rewrite !Hw by nia. split; [done|nia].
  - unfold floorDecrement. rewrite !Hw' by nia.
    destruct (Z.ltb_spec (Requests c - 1) 0);
      destruct (Z.ltb_spec (Tokens c - f_to_int64 (body_float rq "max_tokens")) 0);
      (split; [f_equal; lia|nia]).
Qed.

Lemma count_events_mentioned evs st m :
  m ≠ "" → mentions m evs = true → is_Some ((foldl count_event st evs).1 !! m).
Proof.
  intros Hm. induction evs as [|ev evs IH] using rev_ind; [done|].
  rewrite foldl_app. simpl. unfold mentions in *. rewrite existsb_app. simpl.
  destruct (count_event_lookup (foldl count_event st evs) ev m Hm) as [-> _].
  destruct (about m ev) as [[[] t]|]; simpl; [done|done|]. rewrite orb_false_r. apply IH.
Qed.

Lemma NoDup_fst_go_range_map {V V'} (f : V → V') (u : gmap string V) :
  NoDup (prod_map id f <$> go_range u).*1.
Proof.
  rewrite <- list_fmap_compose. rewrite (list_fmap_ext _ fst); [apply NoDup_fst_go_range|].
  by intros ? [].
Qed.

Lemma Extract_ok e s evs : store_ok s → store_ok (Extract e s evs).2.
Proof.
  intros Hok. unfold Extract. destruct (foldl count_event (counters e, ∅) evs) as [cs u].
  apply publish_all_spec; [done|apply NoDup_fst_go_range_map].
Qed.

Lemma Extract_counters e s evs :
  counters (Extract e s evs).1 = (foldl count_event (counters e, ∅) evs).1.
Proof. unfold Extract. by destruct (foldl count_event (counters e, ∅) evs). Qed.

Lemma Extract_attr e s evs m :
  store_ok s → m ≠ "" →
  attr (Extract e s evs).2 m RequestMetadataAttributeKey =
    if mentions m evs
    then Some (CRequestMetadataCount (default zero_count (counters (Extract e s evs).1 !! m)))
    else attr s m RequestMetadataAttributeKey.
Proof.
  intros Hok Hm. rewrite Extract_counters. unfold Extract.
  pose proof (count_events_updated evs (counters e, ∅) m Hm) as Hu.
  pose proof (count_events_mentioned evs (counters e, ∅) m Hm) as Hs.
  destruct (foldl count_event (counters e, ∅) evs) as [cs u]. simpl in *.
  rewrite attr_publish_all; [|done|apply NoDup_fst_go_range_map|done].
  rewrite list_to_map_fmap, list_to_map_go_range, lookup_fmap, Hu.
  destruct (mentions m evs); [|done]. by destruct (Hs eq_refl) as [c ->].
Qed.

(** Extracting touches no other attribute and drops no model. *)
Lemma Extract_other_attr e s evs m key :
  store_ok s → key ≠ RequestMetadataAttributeKey →
  attr (Extract e s evs).2 m key = attr s m key.
Proof.
  intros Hok Hk. unfold Extract. destruct (foldl count_event (counters e, ∅) evs) as [cs u].
  simpl. rewrite attr_publish_all; [|done|apply NoDup_fst_go_range_map|done].
  destruct (String.eqb_spec RequestMetadataAttributeKey key); [congruence|]. by case_match.
Qed.

Lemma Extract_keeps e s evs m :
  store_ok s → is_Some (view s !! m) → is_Some (view (Extract e s evs).2 !! m).
Proof.
  intros Hok Hm. unfold Extract. destruct (foldl count_event (counters e, ∅) evs) as [cs u].
  simpl. destruct (publish_all_spec RequestMetadataAttributeKey
    (prod_map id CRequestMetadataCount <$> go_range u) s Hok (NoDup_fst_go_range_map _ _))
    as [_ ->]. by case_match.
Qed.

Lemma Extract_batches_ok e s batches : store_ok s → store_ok (Extract_batches e s batches).2.
Proof.
  revert e s. induction batches as [|b bs IH]; intros e s Hok; simpl; [done|].
  unfold Extract_batches. simpl. destruct (Extract e s b) as [e' s'] eqn:E.
  apply IH. replace s' with (Extract e s b).2 by (by rewrite E). by apply Extract_ok.
Qed.

Lemma Extract_batches_app e s bs1 bs2 :
  Extract_batches e s (bs1 ++ bs2) =
  Extract_batches (Extract_batches e s bs1).1 (Extract_batches e s bs1).2 bs2.
Proof. unfold Extract_batches. rewrite foldl_app. by destruct (foldl _ (e, s) bs1). Qed.

(** Batching does not change the counters. *)
Lemma Extract_batches_counters e s bs :
  counters (Extract_batches e s bs).1 = (foldl count_event (counters e, ∅) (mjoin bs)).1.
Proof.
  induction bs as [|b bs IH] using rev_ind; [done|].
  rewrite Extract_batches_app, join_app, foldl_app. simpl. rewrite app_nil_r.
  unfold Extract_batches at 1. simpl. rewrite Extract_counters, IH.
  destruct (foldl count_event (counters e, ∅) (mjoin bs)) as [cs u]. apply count_events_fst.
Qed.

Lemma Extract_batches_attr e s bs m :
  store_ok s → m ≠ "" →
  attr (Extract_batches e s bs).2 m RequestMetadataAttributeKey =
    if mentions m (mjoin bs)
    then Some (CRequestMetadataCount
                 (default zero_count (counters (Extract_batches e s bs).1 !! m)))
    else attr s m RequestMetadataAttributeKey.
Proof.
  intros Hok Hm. induction bs as [|b bs IH] using rev_ind; [done|].
  rewrite Extract_batches_app, join_app. simpl. rewrite app_nil_r.
  pose proof (Extract_batches_ok e s bs Hok) as Hok'.
  destruct (Extract_batches e s bs) as [e' s']. simpl in *.
  unfold Extract_batches. simpl. destruct (Extract e' s' b) as [e2 s2] eqn:E.
  pose proof (Extract_attr e' s' b m Hok' Hm) as Ha. rewrite E in Ha. simpl in *.
  rewrite Ha, IH. unfold mentions. rewrite existsb_app.
  destruct (existsb _ b) eqn:Eb; [by rewrite orb_true_r|]. rewrite orb_false_r.
  pose proof (Extract_counters e' s' b) as Hc. rewrite E in Hc. simpl in Hc.
  destruct (existsb _ (mjoin bs)); [|done]. do 3 f_equal. rewrite Hc.
  symmetry. apply (count_events_untouched b (counters e', ∅) m Hm Eb).
Qed.

(** C25: the in-flight counts a scorer reads are right. Whatever batches the
    events arrive in, after them the store has, for every model they mention,
    the number of requests and tokens in flight that an observer of the
    whole sequence counts in exact arithmetic; the 64-bit counters do not
    wrap as long as the token budgets fit. *)
Theorem published_counts_in_flight B name s batches m :
  store_ok s → m ≠ "" → (1 ≤ B)%Z → bounded_tokens B (mjoin batches) →
  (Z.of_nat (length (mjoin batches)) * B ≤ max_int64)%Z →
  mentions m (mjoin batches) = true →
  ∃ c, attr (Extract_batches (WithName NewRequestMetadataExtractor name) s batches).2 m
         RequestMetadataAttributeKey = Some (CRequestMetadataCount c) ∧
    (Requests c, Tokens c) = in_flight m (mjoin batches) ∧ (0 ≤ Requests c)%Z.
Proof.
  intros Hok Hm HB Hb Hlen Hment. rewrite Extract_batches_attr, Hment by done.
  eexists. split; [reflexivity|]. rewrite Extract_batches_counters.
  destruct (counts_in_flight B _ m Hm HB Hb Hlen) as (Heq & H1 & _).
  split; [exact Heq|exact (proj1 H1)].
Qed.
End extract.

End RequestMetadata.

(** ** requestcostmetadata *)

Module RequestCost.

Definition PluginType : string := "model-cost-extractor".
Definition defaultCompression : float64 := f_of_Z 200.
Definition second : Z := 1000000000.
Definition defaultFlushIntervalDuration : Z := 5 * second.

(** Two fields that must both be positive numbers. *)
Definition extract_pair (kp kc : string) (usage : list (string * any)) : option (float64 * float64) :=
  match obj_lookup kp usage ≫= as_float with
  | None => None
  | Some prompt =>
      if fle prompt f0 then None
      else match obj_lookup kc usage ≫= as_float with
           | None => None
           | Some completion => if fle completion f0 then None else Some (prompt, completion)
           end
  end.

Definition extractOpenAI := extract_pair "prompt_tokens" "completion_tokens".
Definition extractAnthropic := extract_pair "input_tokens" "output_tokens".
Definition extractGoogle := extract_pair "promptTokenCount" "candidatesTokenCount".

Definition extractTokenCounts (response : InferenceResponse) : option (float64 * float64) :=
  let body := rmsg response in
  match body_lookup body "usageMetadata" ≫= as_object with
  | Some um => extractGoogle um
  | None =>
      match body_lookup body "usage" ≫= as_object with
      | Some usage =>
          match obj_lookup "prompt_tokens" usage with
          | Some _ => extractOpenAI usage
          | None => match obj_lookup "input_tokens" usage with
                    | Some _ => extractAnthropic usage
                    | None => None
                    end
          end
      | None => None
      end
  end.

Section extract.
Context `{TD : TDigest} `{MO : MapOrder} {S : Type} `{DS : !Datastore S}.

Record modelCostAccumulator := { digest : tdigest; lastFlush : Z }.

Record RequestCostMetadataExtractor :=
  { typedName : TypedName;
    state : gmap string modelCostAccumulator;
    compression : float64;
    flushInterval : Z }.

Definition NewRequestCostMetadataExtractor (compression : float64) (flushInterval : Z) :
    RequestCostMetadataExtractor :=
  {| typedName := {| Type_ := PluginType; Name := PluginType |}; state := ∅;
     compression := compression; flushInterval := flushInterval |}.

(** The quotes that [%q] puts around the arguments are left out of the texts. *)
Definition ExtractorFactory (name : string) (parameters : bytes) :
    RequestCostMetadataExtractor + goerror :=
  match dec_params (λ o,
          c ← dec_field dec_float "compression" defaultCompression o;
          d ← dec_field dec_str "flushIntervalDuration" "5s" o; Some (c, d)) parameters with
  | None => inr (EWrap ("failed to parse parameters for plugin " +:+ name +:+ ": ")
                   (ENew "json: cannot unmarshal parameters"))
  | Some (compression, d) =>
      match ParseDuration d with
      | None => inr (EWrap ("invalid flushIntervalDuration " +:+ d +:+ " for plugin " +:+ name +:+ ": ")
                       (ENew "time: invalid duration"))
      | Some flushInterval =>
          if (flushInterval <? 0)%Z
          then inr (ENew ("invalid flushIntervalDuration " +:+ d +:+ " for plugin " +:+ name
                          +:+ ": must be >= 0"))
          else inl {| typedName := {| Type_ := PluginType; Name := name |}; state := ∅;
                      compression := compression; flushInterval := flushInterval |}
      end
  end.

Definition with_state (e : RequestCostMetadataExtractor) st :=
  {| typedName := typedName e; state := st; compression := compression e;
     flushInterval := flushInterval e |}.

(** Creates the model when the store does not have it. *)
Definition lookupTokenPrices (model : string) (s : S) : option TokenPrices * S :=
  let '(p, s) := GetOrCreateModel model s in
  (Get (GetAttributes s p) TokenPricesAttributeKey ≫= as_token_prices, s).

(** The accumulator, and the extractor's state with it. *)
Definition getOrCreateAccumulator (compression : float64) (model : string) (now : Z)
    (st : gmap string modelCostAccumulator) :
    option (modelCostAccumulator * gmap string modelCostAccumulator) :=
  match st !! model with
  | Some acc => Some (acc, st)
  | None => match td_New compression with
            | inr _ => None
            | inl d => let acc := {| digest := d; lastFlush := now |} in
                       Some (acc, <[model := acc]> st)
            end
  end.

(** [acc.digest.Add(cost)], in place. *)
Definition add_sample (compression : float64) (now : Z)
    (st : gmap string modelCostAccumulator) (sample : string * float64) :
    gmap string modelCostAccumulator * bool :=
  match getOrCreateAccumulator compression sample.1 now st with
  | None => (st, false)
  | Some (acc, st) =>
      match td_Add (digest acc) sample.2 with
      | inr _ => (st, false)
      | inl d => (<[sample.1 := {| digest := d; lastFlush := lastFlush acc |}]> st, true)
      end
  end.

Definition sample_cost (tp : TokenPrices) (pc : float64 * float64) : float64 :=
  (pc.1 * InputTokenPrice tp + pc.2 * OutputTokenPrice tp)%float.

(** The locals of the loop: the accumulators, the store, the models updated
    in the batch and the cached prices. *)
Record batch :=
  { b_state : gmap string modelCostAccumulator; b_store : S;
    updated : gset string; tokenPricesCache : gmap string TokenPrices }.

Definition extract_event (compression : float64) (now : Z) (b : batch) (ev : Event) : batch :=
  match ev with
  | ResponseEvent request response _ _ _ =>
      match body_lookup request "model" ≫= as_string with
      | None => b
      | Some model =>
          if String.eqb model "" then b
          else
            let '(tp, s, cache) :=
              match tokenPricesCache b !! model with
              | Some tp => (Some tp, b_store b, tokenPricesCache b)
              | None => match lookupTokenPrices model (b_store b) with
                        | (None, s) => (None, s, tokenPricesCache b)
                        | (Some tp, s) => (Some tp, s, <[model := tp]> (tokenPricesCache b))
                        end
              end in
            let skip := {| b_state := b_state b; b_store := s; updated := updated b;
                           tokenPricesCache := cache |} in
            match tp with
            | None => skip
            | Some tp =>
                match extractTokenCounts response with
                | None => skip
                | Some pc =>
                    let '(st, added) :=
                      add_sample compression now (b_state b) (model, sample_cost tp pc) in
                    {| b_state := st; b_store := s;
                       updated := if added then updated b ∪ {[model]} else updated b;
                       tokenPricesCache := cache |}
                end
            end
      end
  | _ => b
  end.

(** [flushInterval] of 0 publishes on every batch. *)
Definition due (flushInterval now : Z) (acc : modelCostAccumulator) : bool :=
  negb ((0 <? flushInterval)%Z && (time_sub now (lastFlush acc) <? flushInterval)%Z).

Definition flush_model (flushInterval now : Z) (es : gmap string modelCostAccumulator * S)
    (model : string) : gmap string modelCostAccumulator * S :=
  match es.1 !! model with
  | None => es
  | Some acc =>
      if due flushInterval now acc
      then (<[model := {| digest := digest acc; lastFlush := now |}]> es.1,
            publish CostDigestAttributeKey es.2 (model, CCostDigest (td_Clone (digest acc))))
      else es
  end.

(** [now] is [time.Now()] at entry. *)
Definition Extract (now : Z) (e : RequestCostMetadataExtractor) (s : S) (events : list Event) :
    RequestCostMetadataExtractor * S :=
  let b := foldl (extract_event (compression e) now)
             {| b_state := state e; b_store := s; updated := ∅; tokenPricesCache := ∅ |} events in
  let '(st, s) := foldl (flush_model (flushInterval e) now) (b_state b, b_store b)
                    (range_set (updated b)) in
  (with_state e st, s).

(** *** The samples of a batch *)

Definition price_of (v : gmap string Attributes) (m : string) : option TokenPrices :=
  match v !! m with
  | Some a => match a !! TokenPricesAttributeKey with
              | Some c => as_token_prices c
              | None => None
              end
  | None => None
  end.

(** The sample an event contributes, under the prices the store has. *)
Definition sample_of (v : gmap string Attributes) (ev : Event) : option (string * float64) :=
  match ev with
  | ResponseEvent request response _ _ _ =>
      m ← body_lookup request "model" ≫= as_string;
      if String.eqb m "" then None
      else tp ← price_of v m; pc ← extractTokenCounts response; Some (m, sample_cost tp pc)
  | _ => None
  end.

(** Adding the samples one after the other. *)
Definition add_samples (compression : float64) (now : Z) st (l : list (string * float64)) :=
  foldl (λ st x, (add_sample compression now st x).1) st l.

(** The models with a sample the digest accepted. *)
Fixpoint accepted (compression : float64) (now : Z) st (l : list (string * float64)) :
    gset string :=
  match l with
  | [] => ∅
  | x :: l => let '(st, added) := add_sample compression now st x in
              (if added then {[x.1]} else ∅) ∪ accepted compression now st l
  end.

Lemma lookupTokenPrices_spec m s tp s' :
  store_ok s → lookupTokenPrices m s = (tp, s') →
  store_ok s' ∧ tp = price_of (view s) m ∧
  (∀ m', price_of (view s') m' = price_of (view s) m') ∧
  (∀ m' key, attr s' m' key = attr s m' key).
Proof.
  intros Hok. unfold lookupTokenPrices. destruct (GetOrCreateModel m s) as [p s1] eqn:E.
  intros [= <- <-]. destruct (GetOrCreateModel_spec _ _ _ _ Hok E) as (Hok1 & Hc & Hv).
  destruct (current_view _ _ _ Hok1 Hc) as [_ Hp].
  assert (∀ m', price_of (view s1) m' = price_of (view s) m') as Hpr.
  { intros m'. unfold price_of. rewrite Hv. destruct (view s !! m) eqn:Em; [done|].
    destruct (decide (m' = m)) as [->|]; [by rewrite lookup_insert_eq, Em|].
    by rewrite lookup_insert_ne. }
  split_and!; [done| |done|].
  2:{ intros m' key. unfold attr. rewrite Hv. destruct (view s !! m) eqn:Em; [done|].
      destruct (decide (m' = m)) as [->|]; [by rewrite lookup_insert_eq, Em|].
      by rewrite lookup_insert_ne. }
  rewrite <- Hpr. unfold price_of, Get. rewrite Hp. simpl.
  destruct (GetAttributes s1 p !! TokenPricesAttributeKey) as [v|]; [|done]. simpl.
  destruct v; simpl; [|done..]. by destruct p0.
Qed.

(** The loop's invariant: the cache agrees with the store, whose prices stay
    what they were. *)
Record batch_inv (s : S) (b : batch) : Prop :=
  { bi_ok : store_ok (b_store b);
    bi_price : ∀ m, price_of (view (b_store b)) m = price_of (view s) m;
    bi_attr : ∀ m key, attr (b_store b) m key = attr s m key;
    bi_cache : ∀ m tp, tokenPricesCache b !! m = Some tp → price_of (view s) m = Some tp }.

Lemma extract_event_spec c t s b ev :
  batch_inv s b →
  batch_inv s (extract_event c t b ev) ∧
  (b_state (extract_event c t b ev), updated (extract_event c t b ev)) =
    match sample_of (view s) ev with
    | Some x => let '(st, added) := add_sample c t (b_state b) x in
                (st, if added then updated b ∪ {[x.1]} else updated b)
    | None => (b_state b, updated b)
    end.
Proof.
  intros Hb. destruct ev as [|rq rsp cs d tt|]; simpl; [done| |done].
  destruct (body_lookup rq "model" ≫= as_string) as [m|]; simpl; [|done].
  destruct (String.eqb m ""); [done|].
  destruct (tokenPricesCache b !! m) as [tp|] eqn:Ec.
  - rewrite (bi_cache _ _ Hb _ _ Ec). simpl.
    destruct (extractTokenCounts rsp) as [pc|]; simpl; [|by destruct Hb].
    destruct (add_sample c t (b_state b) _) as [st a]. simpl. by destruct Hb.
  - destruct (lookupTokenPrices m (b_store b)) as [tp s1] eqn:El.
    destruct (lookupTokenPrices_spec _ _ _ _ (bi_ok _ _ Hb) El) as (Hok & Htp & Hpr & Hat).
    rewrite (bi_price _ _ Hb) in Htp. subst tp.
    assert (∀ m', price_of (view s1) m' = price_of (view s) m') as Hpr'
      by (intros; rewrite Hpr; apply Hb).
    assert (∀ m' key, attr s1 m' key = attr s m' key) as Hat'
      by (intros; rewrite Hat; apply Hb).
    destruct (price_of (view s) m) as [tp|] eqn:Ep; simpl;
      [|split; [split; [done|done|done|apply Hb]|done]].
    assert (∀ m0 tp0, <[m := tp]> (tokenPricesCache b) !! m0 = Some tp0 →
      price_of (view s) m0 = Some tp0) as Hc.
    { intros m0 tp0. destruct (decide (m0 = m)) as [->|].
      - rewrite lookup_insert_eq. congruence.
      - rewrite lookup_insert_ne by done. apply Hb. }
    destruct (extractTokenCounts rsp) as [pc|]; simpl; [|done].
    destruct (add_sample c t (b_state b) _) as [st a]. done.
Qed.

Lemma extract_events_spec c t s b evs :
  batch_inv s b →
  let b' := foldl (extract_event c t) b evs in
  let l := omap (sample_of (view s)) evs in
  batch_inv s b' ∧ b_state b' = add_samples c t (b_state b) l ∧
  updated b' = updated b ∪ accepted c t (b_state b) l.
Proof.
  revert b. induction evs as [|ev evs IH]; intros b Hb; simpl; [by rewrite union_empty_r_L|].
  destruct (extract_event_spec c t s b ev Hb) as [Hb1 Hs1].
  destruct (IH _ Hb1) as (Hb2 & Hs2 & Hu2). split; [done|]. rewrite Hs2, Hu2.
  destruct (sample_of (view s) ev) as [x|]; simpl; [|by injection Hs1 as -> ->].
  unfold add_samples. simpl.
  destruct (add_sample c t (b_state b) x) as [st a]; injection Hs1 as -> ->. simpl.
  split; [done|]. destruct a; set_solver.
Qed.

Lemma flush_model_digest f t es m :
  digest <$> (flush_model f t es m).1 = digest <$> es.1.
Proof.
  unfold flush_model. destruct (es.1 !! m) as [acc|] eqn:E; [|done].
  destruct (due f t acc); [|done]. simpl. rewrite fmap_insert. simpl.
  apply insert_id. by rewrite lookup_fmap, E.
Qed.

Lemma flush_all_digest f t es ms :
  digest <$> (foldl (flush_model f t) es ms).1 = digest <$> es.1.
Proof.
  revert es. induction ms as [|m ms IH]; intros es; simpl; [done|].
  by rewrite IH, flush_model_digest.
Qed.

(** C26: the digest of each model is the digest of exactly the samples of
    its responses: for every batch, extracting it adds to each model's
    digest, in order, prompt tokens times input price plus completion
    tokens times output price of every response event that names the model,
    has usable token counts and a priced model - the per-batch price cache,
    the flushes and models created on the way change nothing. *)
Theorem digests_hold_the_samples now e s events :
  store_ok s →
  digest <$> state (Extract now e s events).1 =
  digest <$> add_samples (compression e) now (state e) (omap (sample_of (view s)) events).
Proof.
  intros Hok. unfold Extract.
  destruct (extract_events_spec (compression e) now s
    {| b_state := state e; b_store := s; updated := ∅; tokenPricesCache := ∅ |} events)
    as (_ & Hs & _); [by split|].
  set (b := foldl _ _ events) in *.
  pose proof (flush_all_digest (flushInterval e) now (b_state b, b_store b)
                (range_set (updated b))) as Hd.
  destruct (foldl _ (b_state b, b_store b) _) as [st s']. simpl in *. by rewrite Hd, Hs.
Qed.

Lemma flush_all_spec f t ms st s :
  store_ok s → NoDup ms →
  store_ok (foldl (flush_model f t) (st, s) ms).2 ∧
  ∀ m, attr (foldl (flush_model f t) (st, s) ms).2 m CostDigestAttributeKey =
    match st !! m with
    | Some acc => if bool_decide (m ∈ ms) && due f t acc
                  then Some (CCostDigest (td_Clone (digest acc)))
                  else attr s m CostDigestAttributeKey
    | None => attr s m CostDigestAttributeKey
    end.
Proof.
  revert st s. induction ms as [|m0 ms IH]; intros st s Hok Hnd.
  { simpl. split; [done|]. intros m. by destruct (st !! m). }
  apply NoDup_cons in Hnd as [Hni Hnd]. simpl. unfold flush_model at 2 4. simpl.
  assert (∀ m, m ≠ m0 → bool_decide (m ∈ m0 :: ms) = bool_decide (m ∈ ms)) as Hmem
    by (intros; apply bool_decide_ext; set_solver).
  destruct (st !! m0) as [acc|] eqn:E; [destruct (due f t acc) eqn:Ed|].
  - destruct (publish_spec CostDigestAttributeKey s m0 (CCostDigest (td_Clone (digest acc))) Hok)
      as [Hok1 _].
    pose proof (attr_publish_all CostDigestAttributeKey
      [(m0, CCostDigest (td_Clone (digest acc)))] s) as Ha.
    destruct (IH (<[m0 := {| digest := digest acc; lastFlush := t |}]> st) _ Hok1 Hnd)
      as [Hok2 Hv]. split; [done|]. intros m. rewrite Hv. simpl in Ha.
    destruct (decide (m = m0)) as [->|Hne].
    + rewrite lookup_insert_eq, E, bool_decide_eq_false_2, bool_decide_eq_true_2 by set_solver.
      simpl. rewrite Ed, Ha by (done || apply NoDup_singleton). by rewrite lookup_insert_eq.
    + rewrite lookup_insert_ne, Hmem by done.
      rewrite Ha by (done || apply NoDup_singleton). by rewrite lookup_insert_ne.
  - destruct (IH st s Hok Hnd) as [Hok2 Hv]. split; [done|]. intros m. rewrite Hv.
    destruct (decide (m = m0)) as [->|Hne]; [by rewrite E, Ed, !andb_false_r|by rewrite Hmem].
  - destruct (IH st s Hok Hnd) as [Hok2 Hv]. split; [done|]. intros m. rewrite Hv.
    destruct (decide (m = m0)) as [->|Hne]; [by rewrite E|by rewrite Hmem].
Qed.

Lemma NoDup_range_set (u : gset string) : NoDup (range_set u).
Proof. apply NoDup_fst_go_range. Qed.

(** A batch without samples changes no digest and publishes nothing. *)
Lemma Extract_no_samples now e s events :
  store_ok s → omap (sample_of (view s)) events = [] →
  digest <$> state (Extract now e s events).1 = digest <$> state e ∧
  ∀ m, attr (Extract now e s events).2 m CostDigestAttributeKey = attr s m CostDigestAttributeKey.
Proof.
  intros Hok Hl. unfold Extract.
  destruct (extract_events_spec (compression e) now s
    {| b_state := state e; b_store := s; updated := ∅; tokenPricesCache := ∅ |} events)
    as (Hb & Hs & Hu); [by split|].
  set (b := foldl _ _ events) in *. rewrite Hl in *. simpl in Hs, Hu.
  pose proof (flush_all_digest (flushInterval e) now (b_state b, b_store b)
                (range_set (updated b))) as Hd.
  destruct (flush_all_spec (flushInterval e) now (range_set (updated b)) (b_state b) (b_store b)
    (bi_ok _ _ Hb) (NoDup_range_set _)) as [_ Hv].
  destruct (foldl _ (b_state b, b_store b) _) as [st' s']. simpl in *. split; [by rewrite Hd, Hs|].
  intros m. rewrite Hv, (bi_attr _ _ Hb). destruct (b_state b !! m); [|done].
  rewrite bool_decide_eq_false_2; [done|]. rewrite elem_of_range_set, Hu. set_solver.
Qed.

(** Cost snapshots are published when they are due and only then: after
    a batch, a model that got a sample and was last flushed at least an
    interval ago (or whenever the interval is 0) has a clone of its digest,
    the batch included, as attribute; every other model's snapshot is the
    one it had. *)
Theorem snapshots_are_published now e s events m :
  store_ok s →
  let l := omap (sample_of (view s)) events in
  let st := add_samples (compression e) now (state e) l in
  attr (Extract now e s events).2 m CostDigestAttributeKey =
    match st !! m with
    | Some acc =>
        if bool_decide (m ∈ accepted (compression e) now (state e) l) &&
           due (flushInterval e) now acc
        then Some (CCostDigest (td_Clone (digest acc)))
        else attr s m CostDigestAttributeKey
    | None => attr s m CostDigestAttributeKey
    end.
Proof.
  intros Hok l st. unfold Extract.
  destruct (extract_events_spec (compression e) now s
    {| b_state := state e; b_store := s; updated := ∅; tokenPricesCache := ∅ |} events)
    as (Hb & Hs & Hu); [by split|].
  set (b := foldl _ _ events) in *. simpl in Hs, Hu.
  destruct (flush_all_spec (flushInterval e) now (range_set (updated b)) (b_state b) (b_store b)
    (bi_ok _ _ Hb) (NoDup_range_set _)) as [_ Hv].
  destruct (foldl _ (b_state b, b_store b) _) as [st' s']. simpl in *.
  rewrite Hv, Hs, (bi_attr _ _ Hb). fold l st. destruct (st !! m) as [acc|]; [|done].
  rewrite (bool_decide_ext _ (m ∈ accepted (compression e) now (state e) l)); [done|].
  rewrite elem_of_range_set, Hu. fold l. set_solver.
Qed.
End extract.

End RequestCost.

(** ** modelconfigcollector *)

Module ModelConfig.

Definition PluginType : string := "model-config-datasource".

Record ModelConfiguration := { mc_Name : string; Pricing : ModelPriceShape }.
Record ModelGroupConfig := { mg_Name : string; mg_Models : list string }.
Record ModelsConfig := { Models : list ModelConfiguration; ModelGroups : list ModelGroupConfig }.

Definition free : ModelPriceShape := {| InputPerMillion := f0; OutputPerMillion := f0 |}.

Definition dec_price : decoder ModelPriceShape := dec_struct (λ o,
  i ← dec_field dec_float "input_per_million" f0 o;
  x ← dec_field dec_float "output_per_million" f0 o;
  Some {| InputPerMillion := i; OutputPerMillion := x |}).

Definition dec_model : decoder ModelConfiguration := dec_struct (λ o,
  n ← dec_field dec_str "name" "" o;
  p ← dec_field dec_price "pricing" free o;
  Some {| mc_Name := n; Pricing := p |}).

Definition dec_group : decoder ModelGroupConfig := dec_struct (λ o,
  n ← dec_field dec_str "name" "" o;
  l ← dec_field (dec_list dec_str) "models" [] o;
  Some {| mg_Name := n; mg_Models := l |}).

Definition dec_models_config : decoder ModelsConfig := dec_struct (λ o,
  ms ← dec_field (dec_list dec_model) "models" [] o;
  gs ← dec_field (dec_list dec_group) "groups" [] o;
  Some {| Models := ms; ModelGroups := gs |}).

(** The file system the factory asks: [filepath.Abs], and whether [os.Stat]
    finds a directory. *)
Class Files (W : Type) : Type := {
  filepath_Abs : string → W → string + goerror;
  stat_IsDir : string → W → bool + goerror
}.

Record ModelConfigDataSource := { typedName : TypedName; absModelsPath : string }.

Definition NewModelConfigDataSource (name modelsPath : string) : ModelConfigDataSource :=
  {| typedName := {| Type_ := PluginType; Name := name |}; absModelsPath := modelsPath |}.

(** Without parameters there is nothing to unmarshal, which is an error. *)
Definition DatasourceFactory `{Files W} (name : string) (rawCfg : bytes) (w : W) :
    ModelConfigDataSource + goerror :=
  match json_decode rawCfg ≫= dec_struct (λ o, dec_field dec_str "modelsPath" "" o) with
  | None => inr (ENew "json: cannot unmarshal parameters")
  | Some path =>
      if String.eqb path "" then inr (ENew "modelsPath is required")
      else match filepath_Abs path w with
           | inr err => inr (EWrap ("failed to resolve modelsPath " +:+ path +:+ ": ") err)
           | inl absPath =>
               match stat_IsDir absPath w with
               | inr err => inr err
               | inl true => inr (ENew "modelsPath must be a file, not a directory")
               | inl false => inl (NewModelConfigDataSource name absPath)
               end
           end
  end.

(** The names of the groups of each model, in the order of the groups. *)
Definition add_member (g : string) (membership : gmap string Groups) (modelName : string) :
    gmap string Groups :=
  if String.eqb modelName "" then membership
  else <[modelName := default [] (membership !! modelName) ++ [g]]> membership.

Definition add_group (membership : gmap string Groups) (g : ModelGroupConfig) :
    gmap string Groups :=
  if String.eqb (mg_Name g) "" || (length (mg_Models g) =? 0)%nat then membership
  else foldl (add_member (mg_Name g)) membership (mg_Models g).

Definition memberships (groups : list ModelGroupConfig) : gmap string Groups :=
  foldl add_group ∅ groups.

Section sync.
Context `{TD : TDigest} {S : Type} `{DS : !Datastore S}.

Definition valid_entry (m : ModelConfiguration) : bool :=
  negb (String.eqb (mc_Name m) "") &&
  negb (flt (InputPerMillion (Pricing m)) f0 || flt (OutputPerMillion (Pricing m)) f0).

Definition register (membership : gmap string Groups) (m : ModelConfiguration) (s : S) : S :=
  let '(mdl, s) := GetOrCreateModel (mc_Name m) s in
  let s := update_attributes (Put TokenPricesAttributeKey
             (Some (CTokenPrices (ToTokenPrices (Pricing m))))) mdl s in
  match membership !! mc_Name m with
  | Some groups => update_attributes (Put GroupsAttributeKey (Some (CGroups groups))) mdl s
  | None => update_attributes (DeleteAttr GroupsAttributeKey) mdl s
  end.

(** The models loop, on the store and [desired]. ([invalid] only chooses
    between two log messages.) *)
Definition sync_entry (membership : gmap string Groups) (sd : S * gset string)
    (m : ModelConfiguration) : S * gset string :=
  if valid_entry m then (register membership m sd.1, sd.2 ∪ {[mc_Name m]}) else sd.

(** The last loop: what the file no longer lists goes. *)
Definition prune (desired : gset string) (s : S) : S :=
  foldl (λ s model, let modelName := GetName s model in
                    if bool_decide (modelName ∈ desired) then s else DeleteModel modelName s)
    s (GetModels AllModelsPredicate s).

Definition sync_config (cfg : ModelsConfig) (s : S) : S :=
  let membership := memberships (ModelGroups cfg) in
  let '(s, desired) := foldl (sync_entry membership) (s, ∅) (Models cfg) in
  prune desired s.

(** [data] is what reading the file gives, [None] an error. *)
Definition syncModels (data : option bytes) (s : S) : S * option goerror :=
  match data with
  | None => (s, Some (ENew "open: no such file or directory"))
  | Some data =>
      match json_decode data ≫= dec_models_config with
      | None => (s, Some (ENew "json: cannot unmarshal"))
      | Some cfg => (sync_config cfg s, None)
      end
  end.

(** *** The watcher *)

(** What the [select] of the watch loop can receive. *)
Inductive Signal : Type :=
| StopSignal
| ContextDone
| EventsClosed
| ErrorsClosed
| WatchError
(** an event: the absolute path of its file, and its operations *)
| WatchEvent (absEvent : option string) (write create remove rename : bool).

(** One round: the store, and whether the loop goes on. *)
Definition watch_step (absModelsPath : string) (s : S) (sig : Signal) (data : option bytes) :
    S * bool :=
  match sig with
  | StopSignal | ContextDone | EventsClosed | ErrorsClosed => (s, false)
  | WatchError => (s, true)
  | WatchEvent None _ _ _ _ => (s, true)
  | WatchEvent (Some absEvent) write create remove rename =>
      if negb (String.eqb absEvent absModelsPath) then (s, true)
      else if write || create then ((syncModels data s).1, true)
      else (s, true)
  end.

(** *** What the file says *)

(** The prices of the last valid entry of a name. *)
Definition listed_price (ms : list ModelConfiguration) (n : string) : option ModelPriceShape :=
  foldl (λ acc m, if valid_entry m && String.eqb (mc_Name m) n then Some (Pricing m) else acc)
    None ms.

(** The attributes a sync gives a model; the others stay. *)
Definition configured (price : ModelPriceShape) (groups : option Groups) (a : Attributes) :
    Attributes :=
  match groups with
  | Some g => <[GroupsAttributeKey := CGroups g]>
                (<[TokenPricesAttributeKey := CTokenPrices (ToTokenPrices price)]> a)
  | None => delete GroupsAttributeKey
              (<[TokenPricesAttributeKey := CTokenPrices (ToTokenPrices price)]> a)
  end.

Lemma configured_twice p1 p2 g a : configured p2 g (configured p1 g a) = configured p2 g a.
Proof.
  apply map_eq. intros k. unfold configured. destruct g; simpl;
    rewrite ?lookup_delete, !lookup_insert, ?lookup_delete, ?lookup_insert;
    by repeat destruct (decide _).
Qed.

Lemma register_spec mb m s :
  store_ok s →
  store_ok (register mb m s) ∧
  view (register mb m s) =
    <[mc_Name m := configured (Pricing m) (mb !! mc_Name m)
                     (default NewAttributes (view s !! mc_Name m))]> (view s).
Proof.
  intros Hok. unfold register. destruct (GetOrCreateModel (mc_Name m) s) as [p s1] eqn:E.
  destruct (GetOrCreateModel_spec _ _ _ _ Hok E) as (Hok1 & Hc1 & Hv1).
  destruct (update_spec s1 (Put TokenPricesAttributeKey
    (Some (CTokenPrices (ToTokenPrices (Pricing m))))) _ p Hok1 Hc1) as (Hok2 & Hc2 & Hv2).
  set (s2 := update_attributes _ p s1) in *.
  assert (∀ f, alter f (mc_Name m) (view s2) =
    <[mc_Name m := f (<[TokenPricesAttributeKey := CTokenPrices (ToTokenPrices (Pricing m))]>
      (default NewAttributes (view s !! mc_Name m)))]> (view s)) as Halt.
  { intros f. rewrite Hv2, Hv1. apply map_eq. intros n.
    destruct (decide (n = mc_Name m)) as [->|Hne].
    - rewrite !lookup_alter_eq, lookup_insert_eq.
      destruct (view s !! mc_Name m) eqn:Em; [by rewrite Em|by rewrite lookup_insert_eq].
    - rewrite !lookup_alter_ne, lookup_insert_ne by done.
      destruct (view s !! mc_Name m); [done|by rewrite lookup_insert_ne]. }
  destruct (mb !! mc_Name m) as [g|]; simpl.
  - destruct (update_spec s2 (Put GroupsAttributeKey (Some (CGroups g))) _ p Hok2 Hc2)
      as (Hok3 & _ & Hv3). split; [done|]. by rewrite Hv3, Halt.
  - destruct (update_spec s2 (DeleteAttr GroupsAttributeKey) _ p Hok2 Hc2)
      as (Hok3 & _ & Hv3). split; [done|]. by rewrite Hv3, Halt.
Qed.

Lemma sync_entries_spec mb ms s :
  store_ok s →
  let sd := foldl (sync_entry mb) (s, ∅) ms in
  store_ok sd.1 ∧
  ∀ n, (n ∈ sd.2 ↔ is_Some (listed_price ms n)) ∧
    view sd.1 !! n = match listed_price ms n with
                     | Some p => Some (configured p (mb !! n) (default NewAttributes (view s !! n)))
                     | None => view s !! n
                     end.
Proof.
  intros Hok. induction ms as [|m ms IH] using rev_ind.
  { simpl. split; [done|]. intros n. split; [|done].
    split; [set_solver|by intros [? ?]]. }
  rewrite foldl_app. simpl in *. destruct IH as [Hok1 IH].
  set (sd := foldl _ (s, ∅) ms) in *. unfold sync_entry, listed_price. fold listed_price.
  destruct (valid_entry m) eqn:Hv; simpl.
  2:{ split; [done|]. intros n. rewrite foldl_app. simpl. rewrite Hv. simpl. apply IH. }
  destruct (register_spec mb m sd.1 Hok1) as [Hok2 Hv2]. split; [done|]. intros n.
  rewrite foldl_app. simpl. rewrite Hv, Hv2. simpl. fold (listed_price ms n).
  destruct (IH n) as [Hd Hn].
  destruct (String.eqb_spec (mc_Name m) n) as [<-|Hne].
  - split; [set_solver|]. rewrite lookup_insert_eq, Hn.
    destruct (listed_price ms (mc_Name m)); [|done]. simpl. by rewrite configured_twice.
  - split; [set_solver|]. by rewrite lookup_insert_ne.
Qed.

Lemma prune_list_spec (desired : gset string) l (s : S) :
  store_ok s →
  let s' := foldl (λ s model, let modelName := GetName s model in
                     if bool_decide (modelName ∈ desired) then s
                     else DeleteModel modelName s) s l in
  store_ok s' ∧
  ∀ n, view s' !! n = if bool_decide (n ∉ desired ∧ n ∈ GetName s <$> l) then None
                      else view s !! n.
Proof.
  revert s. induction l as [|p l IH]; intros s Hok; simpl.
  { split; [done|]. intros n. case_bool_decide; [set_solver|done]. }
  case_bool_decide as Hd.
  - destruct (IH s Hok) as [Hok1 Hv]. split; [done|]. intros n. rewrite Hv.
    repeat case_bool_decide; set_solver.
  - destruct (DeleteModel_spec s (GetName s p) Hok) as (Hok1 & Hv1 & Hn1).
    destruct (IH _ Hok1) as [Hok2 Hv]. split; [done|]. intros n. rewrite Hv, Hv1.
    rewrite (list_fmap_ext _ (GetName s) l) by (intros; apply Hn1).
    destruct (decide (n = GetName s p)) as [->|Hne].
    + rewrite lookup_delete_eq. repeat case_bool_decide; set_solver.
    + rewrite lookup_delete_ne by done. repeat case_bool_decide; set_solver.
Qed.

Lemma prune_spec (desired : gset string) s :
  store_ok s →
  store_ok (prune desired s) ∧
  ∀ n, view (prune desired s) !! n = if bool_decide (n ∈ desired) then view s !! n else None.
Proof.
  intros Hok. unfold prune.
  destruct (prune_list_spec desired (GetModels AllModelsPredicate s) s Hok) as [Hok1 Hv].
  split; [done|]. intros n. rewrite Hv.
  destruct (GetModels_spec s AllModelsPredicate Hok) as [_ Hin].
  case_bool_decide as H1; case_bool_decide as H2; [naive_solver|done|done|].
  destruct (view s !! n) as [a|] eqn:En; [|done]. exfalso. apply H1. split; [done|].
  destruct (view_current s n Hok) as [p Hp]; [by rewrite En|].
  apply list_elem_of_fmap. exists p. split; [|apply Hin; eauto].
  by destruct (current_view _ _ _ Hok Hp) as [-> _].
Qed.

(** C27: a sync makes the store match the file. Afterwards the models of the
    store are exactly the names with a valid entry; each has the per-token
    prices of its last valid entry and the groups that list it (no group
    attribute when none does), and keeps every other attribute it had; a
    file that cannot be read or parsed changes nothing. *)
Theorem sync_matches_file data s s' err :
  store_ok s → syncModels data s = (s', err) →
  store_ok s' ∧
  match (data ≫= json_decode) ≫= dec_models_config with
  | None => s' = s ∧ is_Some err
  | Some cfg =>
      err = None ∧
      ∀ n, view s' !! n =
        match listed_price (Models cfg) n with
        | Some p => Some (configured p (memberships (ModelGroups cfg) !! n)
                           (default NewAttributes (view s !! n)))
        | None => None
        end
  end.
Proof.
  intros Hok. unfold syncModels. destruct data as [data|]; simpl.
  2:{ intros [= <- <-]. done. }
  destruct (json_decode data ≫= dec_models_config) as [cfg|]; intros [= <- <-]; [|done].
  unfold sync_config.
  destruct (sync_entries_spec (memberships (ModelGroups cfg)) (Models cfg) s Hok) as [Hok1 Hv].
  destruct (foldl _ (s, ∅) (Models cfg)) as [s1 desired]. simpl in *.
  destruct (prune_spec desired s1 Hok1) as [Hok2 Hp]. split; [done|]. split; [done|].
  intros n. rewrite Hp. destruct (Hv n) as [Hd ->].
  destruct (listed_price (Models cfg) n); case_bool_decide; naive_solver.
Qed.
End sync.

End ModelConfig.

(** ** Concrete runs *)

(** A digest that keeps its samples. *)
#[export] Instance list_digest : TDigest | 100 :=
  {| tdigest := list float64; td_New := λ _, inl []; td_Add := λ d x, inl (d ++ [x]);
     td_Clone := λ d, d |}.

Definition req_of (model : string) (tokens : Z) : InferenceRequest :=
  with_body NewInferenceRequest
    (Some (<["model" := AStr model]> {["max_tokens" := ANum (f_of_Z tokens)]})).

Definition rsp_of (prompt completion : Z) : InferenceResponse :=
  with_rmsg NewInferenceResponse (with_body newInferenceMessage
    (Some {["usage" := AObj [("completion_tokens", ANum (f_of_Z completion));
                             ("prompt_tokens", ANum (f_of_Z prompt))]]})).

Definition batches_llama : list (list Event) :=
  [[RequestEvent (req_of "llama" 10) ∅; RequestEvent (req_of "llama" 20) ∅];
   [ResponseEvent (req_of "llama" 10) (rsp_of 3 4) ∅ 0 0]].

Lemma published_counts_in_flight_witness :
  ∃ c, attr (RequestMetadata.Extract_batches
          (RequestMetadata.WithName RequestMetadata.NewRequestMetadataExtractor "counts")
          (NewDatastore) batches_llama).2 "llama"
          RequestMetadataAttributeKey = Some (CRequestMetadataCount c) ∧
    (Requests c, Tokens c) = RequestMetadata.in_flight "llama" (mjoin batches_llama) ∧
    (0 ≤ Requests c)%Z.
Proof.
  apply (RequestMetadata.published_counts_in_flight 20 "counts"
           NewDatastore batches_llama "llama").
  - apply store_wf_new.
  - done.
  - done.
  - unfold RequestMetadata.bounded_tokens. simpl.
    repeat (apply Forall_cons_2); [..|apply Forall_nil_2];
      intros m b t H; unfold RequestMetadata.about in H;
      (destruct (String.eqb _ m); [|discriminate]); injection H as <- <-; vm_compute; split;
      discriminate.
  - vm_compute. discriminate.
  - done.
Defined.

Definition priced_store : Store :=
  publish TokenPricesAttributeKey NewDatastore
    ("llama", CTokenPrices {| InputTokenPrice := f1; OutputTokenPrice := f1 |}).

Lemma priced_store_ok : store_ok priced_store.
Proof. apply publish_spec, store_wf_new. Qed.

Definition cost_extractor : RequestCost.RequestCostMetadataExtractor :=
  RequestCost.NewRequestCostMetadataExtractor RequestCost.defaultCompression 0.

Lemma digests_hold_the_samples_witness :
  RequestCost.digest <$> RequestCost.state
    (RequestCost.Extract 5 cost_extractor priced_store (mjoin batches_llama)).1 =
  {["llama" := [f_of_Z 7]]}.
Proof.
  etransitivity.
  - apply (RequestCost.digests_hold_the_samples 5 cost_extractor priced_store
             (mjoin batches_llama) priced_store_ok).
  - vm_compute. done.
Defined.

Lemma snapshots_are_published_witness :
  attr (RequestCost.Extract 5 cost_extractor priced_store (mjoin batches_llama)).2 "llama"
    CostDigestAttributeKey = Some (CCostDigest [f_of_Z 7]).
Proof.
  etransitivity.
  - apply (RequestCost.snapshots_are_published 5 cost_extractor priced_store
             (mjoin batches_llama) "llama" priced_store_ok).
  - vm_compute. done.
Defined.

Definition models_file : bytes :=
  s2b (b2s (List.map (λ b, if decide (b = Byte.x27) then Byte.x22 else b) (s2b
    "{'models': [{'name': 'llama', 'pricing': {'input_per_million': 1000000}}], 'groups': [{'name': 'fast', 'models': ['llama']}]}"))).

Lemma sync_matches_file_witness :
  let s' := (ModelConfig.syncModels (Some models_file) priced_store).1 in
  store_ok s' ∧ attr s' "llama" GroupsAttributeKey = Some (CGroups ["fast"]).
Proof.
  split; [|vm_compute; done].
  destruct (ModelConfig.syncModels (Some models_file) priced_store) as [s' err] eqn:E.
  exact (proj1 (ModelConfig.sync_matches_file (Some models_file) priced_store s' err
                  priced_store_ok E)).
Defined.
