(* ===== verification/ModelSelector.v ===== *)
(** Model selection: the plugin interfaces of
    pkg/framework/interface/modelselector, the pipeline and selector of
    pkg/modelselector, and the request plugin that runs them
    (plugins/requesthandling/modelselector).

    Models are the pointers the store hands out. A plugin can change what its
    receiver and arguments reach: the world, the cycle state and the request,
    which the loops thread through. *)

From Corelib Require Import SpecFloat.
From Stdlib Require Import Strings.Byte String.
From S2P Require Import Prelude GoFloat GoValue Envoy Message World Datalayer.

Local Open Scope string_scope.
Local Open Scope list_scope.

Definition filterExtensionPoint : string := "ModelSelectorFilter".
Definition scorerExtensionPoint : string := "ModelSelectorScorer".
Definition pickerExtensionPoint : string := "ModelSelectorPicker".
Definition ModelSelectorPluginType : string := "model-selector".
Definition SelectedModelCycleStateKey : string := "model-selector/selected-model".

(** [%f]: the exact value rounded half to even at six decimals. *)
Definition format_f6 (x : float64) : string :=
  match x with
  | S754_nan => "NaN"
  | S754_infinity s => if s then "-Inf" else "+Inf"
  | S754_zero s => if s then "-0.000000" else "0.000000"
  | S754_finite s m e =>
      let num := (Zpos m * 1000000 * 2 ^ Z.max 0 e)%Z in
      let den := (2 ^ Z.max 0 (- e))%Z in
      let q := (num / den)%Z in
      let r := (num - q * den)%Z in
      let q := if (2 * r <? den)%Z then q
               else if (den <? 2 * r)%Z then (q + 1)%Z
               else if Z.even q then q else (q + 1)%Z in
      let frac := s2b (itoa (q mod 1000000)) in
      (if s then "-" else "") +:+ itoa (q / 1000000) +:+ "." +:+
        b2s (replicate (6 - length frac) Byte.x30 ++ frac)
  end.

Definition enforceScoreRange (score : float64) : float64 :=
  if flt score f0 then f0 else if flt f1 score then f1 else score.

Section selector.
Context {W : Type}.

(** ** Interfaces *)

Record ScoredModel := { sm_Model : Ptr; Score : float64 }.

(** A nil [TargetModel] is [None]. *)
Record PipelineRunResult := { TargetModel : option Ptr }.

Record Filter :=
  { f_name : TypedName;
    runFilter : W → CycleState → InferenceRequest → list Ptr →
      res (W * CycleState * InferenceRequest * list Ptr) }.

Record Scorer :=
  { s_name : TypedName;
    runScore : W → CycleState → InferenceRequest → list Ptr →
      res (W * CycleState * InferenceRequest * gmap Ptr float64) }.

(** A nil result is [None]. *)
Record Picker :=
  { p_name : TypedName;
    runPick : W → CycleState → list ScoredModel →
      res (W * CycleState * option PipelineRunResult) }.

(** A plugin and the interfaces its type implements. *)
Record Plugin :=
  { pl_name : TypedName; as_filter : option Filter; as_scorer : option Scorer;
    as_picker : option Picker }.

(** The scorer a [WeightedScorer] wraps is a plugin that may implement more. *)
Record WeightedScorer := { ws_plugin : Plugin; ws_Scorer : Scorer; weight : float64 }.

Definition NewWeightedScorer (plug : Plugin) (scorer : Scorer) (weight : float64) :
    WeightedScorer :=
  {| ws_plugin := plug; ws_Scorer := scorer; weight := weight |}.

Definition Weight (s : WeightedScorer) : float64 := weight s.

(** ** The pipeline *)

Record ModelSelectorPipeline :=
  { filters : list Filter; scorers : list WeightedScorer; picker : option Picker }.

Definition NewModelSelectorPipeline : ModelSelectorPipeline :=
  {| filters := []; scorers := []; picker := None |}.

Definition WithPicker (p : ModelSelectorPipeline) (pk : Picker) : ModelSelectorPipeline :=
  {| filters := filters p; scorers := scorers p; picker := Some pk |}.

(** What is passed to [AddPlugins]: a plain plugin or a weighted scorer. *)
Inductive PluginObject : Type :=
| Plain (p : Plugin)
| Weighted (w : WeightedScorer).

(** The validation loop: the new filters, scorers and picker, or the error. *)
Fixpoint collect (registered : option Picker) (objs : list PluginObject)
    (fs : list Filter) (ss : list WeightedScorer) (pk : option Picker) :
    (list Filter * list WeightedScorer * option Picker) + goerror :=
  match objs with
  | [] => inl (fs, ss, pk)
  | obj :: objs =>
      match match obj with
            | Weighted w => inl (ws_plugin w, ss ++ [w])
            | Plain p =>
                match as_scorer p with
                | Some s => inr (ENew ("failed to register scorer '" +:+ TypedName_String (s_name s)
                    +:+ "' without a weight. use NewWeightedScorer to register a scorer"))
                | None => inl (p, ss)
                end
            end with
      | inr e => inr e
      | inl (plug, ss) =>
          let fs := match as_filter plug with Some f => fs ++ [f] | None => fs end in
          match as_picker plug with
          | None => collect registered objs fs ss pk
          | Some k =>
              match (match pk with Some q => Some q | None => registered end) with
              | Some existing =>
                  inr (ENew ("failed to set '" +:+ TypedName_String (p_name k)
                    +:+ "' as picker, already have a registered picker plugin '"
                    +:+ TypedName_String (p_name existing) +:+ "'"))
              | None => collect registered objs fs ss (Some k)
              end
          end
      end
  end.

Definition AddPlugins (p : ModelSelectorPipeline) (objs : list PluginObject) :
    ModelSelectorPipeline * option goerror :=
  match collect (picker p) objs [] [] None with
  | inr e => (p, Some e)
  | inl (fs, ss, pk) =>
      ({| filters := filters p ++ fs; scorers := scorers p ++ ss;
          picker := match pk with Some k => Some k | None => picker p end |}, None)
  end.

Definition Pipeline_String (p : ModelSelectorPipeline) : string :=
  let filterNames := (λ f, TypedName_String (f_name f)) <$> filters p in
  let scorerNames := (λ s, TypedName_String (s_name (ws_Scorer s)) +:+ ": "
                           +:+ format_f6 (Weight s)) <$> scorers p in
  let pickerName := match picker p with Some k => TypedName_String (p_name k) | None => "<none>" end in
  "{Filters: [" +:+ String.concat ", " filterNames +:+ "], Scorers: ["
    +:+ String.concat ", " scorerNames +:+ "], Picker: " +:+ pickerName +:+ "}".

Context `{TD : TDigest} `{WW : !World W} `{DS : !Datastore W} `{MO : MapOrder}.

Fixpoint runFilters (fs : list Filter) (w : W) (cs : CycleState) (request : InferenceRequest)
    (models : list Ptr) : res (W * CycleState * InferenceRequest * list Ptr) :=
  match fs with
  | [] => Ok (w, cs, request, models)
  | f :: fs =>
      let '(before, w) := now w in
      '(w, cs, request, models) ← runFilter f w cs request models;
      let w := record_since filterExtensionPoint (f_name f) before w in
      match models with
      | [] => Ok (w, cs, request, [])
      | _ => runFilters fs w cs request models
      end
  end.

Definition runFilterPlugins (p : ModelSelectorPipeline) := runFilters (filters p).

(** [sm.Score += d]. *)
Definition add_score (d : float64) (sm : ScoredModel) : ScoredModel :=
  {| sm_Model := sm_Model sm; Score := fadd (Score sm) d |}.

(** One scorer's scores added to the map. *)
Definition apply_scores (w : W) (weight : float64) (scores : gmap Ptr float64)
    (scoredModels : gmap string ScoredModel) : gmap string ScoredModel :=
  foldl (λ m ps, alter (add_score (fmul (enforceScoreRange ps.2) weight)) (GetName w ps.1) m)
    scoredModels (go_range scores).

Fixpoint runScorers (ss : list WeightedScorer) (w : W) (cs : CycleState)
    (request : InferenceRequest) (models : list Ptr) (scoredModels : gmap string ScoredModel) :
    res (W * CycleState * InferenceRequest * gmap string ScoredModel) :=
  match ss with
  | [] => Ok (w, cs, request, scoredModels)
  | s :: ss =>
      let '(before, w) := now w in
      '(w, cs, request, scores) ← runScore (ws_Scorer s) w cs request models;
      let w := record_since scorerExtensionPoint (s_name (ws_Scorer s)) before w in
      runScorers ss w cs request models (apply_scores w (Weight s) scores scoredModels)
  end.

(** The map of scored models, all at 0, before the scorers run. *)
Definition init_scores (w : W) (models : list Ptr) : gmap string ScoredModel :=
  foldl (λ m p, <[GetName w p := {| sm_Model := p; Score := f0 |}]> m) ∅ models.

Definition runScorerPlugins (p : ModelSelectorPipeline) (w : W) (cs : CycleState)
    (request : InferenceRequest) (models : list Ptr) :
    res (W * CycleState * InferenceRequest * gmap string ScoredModel) :=
  runScorers (scorers p) w cs request models (init_scores w models).

(** Calling a nil picker panics. *)
Definition runPickerPlugin (p : ModelSelectorPipeline) (w : W) (cs : CycleState)
    (scoredModelMap : gmap string ScoredModel) :
    res (W * CycleState * option PipelineRunResult) :=
  match picker p with
  | None => Panic "nil Picker"
  | Some k =>
      let '(before, w) := now w in
      '(w, cs, result) ← runPick k w cs (go_range scoredModelMap).*2;
      Ok (record_since pickerExtensionPoint (p_name k) before w, cs, result)
  end.

Definition Run (p : ModelSelectorPipeline) (w : W) (cs : CycleState) (request : InferenceRequest)
    (candidateModels : list Ptr) :
    res (W * CycleState * InferenceRequest * (option PipelineRunResult + goerror)) :=
  '(w, cs, request, models) ← runFilterPlugins p w cs request candidateModels;
  match models with
  | [] => Ok (w, cs, request,
              inr (EError ErrCommon.ResourceExhausted "no models available after filtering"))
  | _ =>
      '(w, cs, request, weightedScorePerModel) ← runScorerPlugins p w cs request models;
      '(w, cs, result) ← runPickerPlugin p w cs weightedScorePerModel;
      Ok (w, cs, request, inl result)
  end.

(** ** The selector *)

(** The deferred recording of the attempt. *)
Definition record_attempt (selectStart : Z) (err : option goerror) (w : W) : W :=
  let '(t, w) := now w in
  RecordModelSelectorAttempt err (RecordModelSelectorE2ELatency (time_sub t selectStart) w).

Definition Select (p : ModelSelectorPipeline) (w : W) (cs : CycleState)
    (request : InferenceRequest) (candidateModels : list Ptr) :
    res (W * CycleState * InferenceRequest * (Ptr + goerror)) :=
  let '(selectStart, w) := now w in
  match candidateModels with
  | [] =>
      let err := ENew "no candidate models provided" in
      Ok (record_attempt selectStart (Some err) w, cs, request, inr err)
  | _ =>
      '(w, cs, request, r) ← Run p w cs request candidateModels;
      match r with
      | inr err => Ok (record_attempt selectStart (Some err) w, cs, request, inr err)
      | inl (Some {| TargetModel := Some m |}) =>
          Ok (record_attempt selectStart None w, cs, request, inl m)
      | inl _ =>
          let err := ENew "model selection returned no result" in
          Ok (record_attempt selectStart (Some err) w, cs, request, inr err)
      end
  end.

(** ** The request plugin *)

Definition ModelSelector_ProcessRequest (p : ModelSelectorPipeline) (w : W) (cs : CycleState)
    (request : InferenceRequest) : called W InferenceRequest :=
  let candidateModels := GetModels AllModelsPredicate w in
  match candidateModels with
  | [] => Ok (w, cs, request, Some (ENew "no candidate models available in datastore"))
  | _ =>
      '(w, cs, request, r) ← Select p w cs request candidateModels;
      match r with
      | inr err => Ok (w, cs, request, Some err)
      | inl m =>
          let selectedName := GetName w m in
          request ← SetBodyField request "model" (AStr selectedName);
          Ok (w, Write cs SelectedModelCycleStateKey (AStr selectedName), request, None)
      end
  end.

Definition ModelSelectorPlugin (name : string) (p : ModelSelectorPipeline) : RequestProcessor W :=
  {| rp_name := {| Type_ := ModelSelectorPluginType; Name := name |};
     ProcessRequest := ModelSelector_ProcessRequest p |}.
End selector.

Arguments Filter : clear implicits.
Arguments Scorer : clear implicits.
Arguments Picker : clear implicits.
Arguments Plugin : clear implicits.
Arguments WeightedScorer : clear implicits.
Arguments ModelSelectorPipeline : clear implicits.
Arguments PluginObject : clear implicits.

(** ** Facts *)

(** Reading the clock and recording metrics leave the models alone. *)
Class StoreStable (W : Type) `{TD : TDigest} `{!World W} `{!Datastore W} : Prop := {
  name_now : ∀ (w : W) p, GetName (now w).2 p = GetName w p;
  name_record : ∀ m (w : W) p, GetName (record m w) p = GetName w p;
  attributes_now : ∀ (w : W) p, GetAttributes (now w).2 p = GetAttributes w p
}.

Section facts.
Context {W : Type} `{TD : TDigest} `{WW : !World W} `{DS : !Datastore W} `{MO : MapOrder}.
Context `{SS : !StoreStable W}.

(** The plugin behind an object, and the scorer it registers. *)
Definition plugin_of (o : PluginObject W) : Plugin W :=
  match o with Plain q => q | Weighted w => ws_plugin w end.
Definition weighted_of (o : PluginObject W) : option (WeightedScorer W) :=
  match o with Weighted w => Some w | Plain _ => None end.

Lemma collect_spec reg objs fs ss pk fs' ss' pk' :
  collect reg objs fs ss pk = inl (fs', ss', pk') → pk = None ∨ reg = None →
  fs' = fs ++ omap (λ o, as_filter (plugin_of o)) objs ∧
  ss' = ss ++ omap weighted_of objs ∧
  (∀ q, Plain q ∈ objs → as_scorer q = None) ∧
  option_list reg ++ option_list pk ++ omap (λ o, as_picker (plugin_of o)) objs =
    option_list (match pk' with Some k => Some k | None => reg end).
Proof.
  revert fs ss pk. induction objs as [|o objs IH]; intros fs ss pk; simpl.
  - intros [= <- <- <-] Hpk. rewrite !app_nil_r. split_and!; [done|done|set_solver|].
    destruct pk, reg; naive_solver.
  - destruct o as [q|w]; simpl; [destruct (as_scorer q) eqn:Eq; [done|]|].
    all: destruct (as_picker _) as [k|];
      [destruct pk; [done|]; destruct reg; [done|]; intros H _; assert (Hpk := I)
      |intros H Hpk].
    all: apply IH in H as (-> & -> & Hs & Hk); [|by auto].
    all: destruct (as_filter _); simpl; rewrite <- ?app_assoc; simpl.
    all: split_and!; [done|done| |exact Hk]; intros q' [|]%elem_of_cons; naive_solver.
Qed.

(** Adding plugins is all or nothing. When [AddPlugins] fails, the
    pipeline is the one it was; when it succeeds, every weighted scorer and
    every filter among the plugins is appended in order, no scorer came
    without a weight, and the picker is the one picker there is: a
    registered picker is never replaced. *)
Theorem AddPlugins_all_or_nothing (p p' : ModelSelectorPipeline W) objs err :
  AddPlugins p objs = (p', err) →
  match err with
  | Some _ => p' = p
  | None =>
      filters p' = filters p ++ omap (λ o, as_filter (plugin_of o)) objs ∧
      scorers p' = scorers p ++ omap weighted_of objs ∧
      (∀ q, Plain q ∈ objs → as_scorer q = None) ∧
      option_list (picker p) ++ omap (λ o, as_picker (plugin_of o)) objs = option_list (picker p')
  end.
Proof.
  unfold AddPlugins.
  destruct (collect (picker p) objs [] [] None) as [[[fs ss] pk]|e] eqn:E;
    intros [= <- <-]; [|done].
  by destruct (collect_spec _ _ _ _ _ _ _ _ E (or_introl eq_refl)) as (-> & -> & ? & ?).
Qed.

(** ** Lawful plugins *)

Definition same_names (w w' : W) : Prop := ∀ p, GetName w' p = GetName w p.

(** A filter only drops models. *)
Definition lawful_filter (f : Filter W) : Prop :=
  ∀ w cs rq ms w' cs' rq' ms', runFilter f w cs rq ms = Ok (w', cs', rq', ms') →
    ms' ⊆ ms ∧ same_names w w'.

(** A scorer computes a score for each model from the state. *)
Definition lawful_scorer (s : Scorer W) : Prop :=
  ∀ w cs rq ms w' cs' rq' sc, runScore s w cs rq ms = Ok (w', cs', rq', sc) → same_names w w'.

(** A picker picks one of the models it is given. *)
Definition lawful_picker (k : Picker W) : Prop :=
  ∀ w cs sms w' cs' m, runPick k w cs sms = Ok (w', cs', Some {| TargetModel := Some m |}) →
    m ∈ sm_Model <$> sms ∧ same_names w w'.

Record lawful (p : ModelSelectorPipeline W) : Prop :=
  { lawful_filters : Forall lawful_filter (filters p);
    lawful_scorers : Forall (λ s, lawful_scorer (ws_Scorer s)) (scorers p);
    lawful_pick : ∀ k, picker p = Some k → lawful_picker k }.

Lemma same_names_now w : same_names w (now w).2.
Proof. intros p. apply name_now. Qed.

Lemma same_names_record_since ext tn t w : same_names w (record_since ext tn t w).
Proof.
  intros p. unfold record_since. pose proof (name_now w p) as H. destruct (now w) as [t' w'].
  unfold RecordPluginProcessingLatency. by rewrite name_record.
Qed.

Lemma runFilters_spec fs w cs rq ms w' cs' rq' ms' :
  Forall lawful_filter fs → runFilters fs w cs rq ms = Ok (w', cs', rq', ms') →
  ms' ⊆ ms ∧ same_names w w'.
Proof.
  intros Hfs. revert w cs rq ms. induction Hfs as [|f fs Hf _ IH]; intros w cs rq ms; simpl.
  { by intros [= <- <- <- <-]. }
  pose proof (same_names_now w) as Hn. destruct (now w) as [t w0]. simpl in Hn.
  intros ([[[w1 cs1] rq1] ms1] & E1 & H)%mbind_Ok. apply Hf in E1 as [Hsub Hn1].
  pose proof (same_names_record_since filterExtensionPoint (f_name f) t w1) as Hn2.
  destruct ms1 as [|m ms1].
  - injection H as <- <- <- <-. split; [set_solver|]. intros p. by rewrite Hn2, Hn1, Hn.
  - apply IH in H as [Hsub' Hn3]. split; [by etrans|]. intros p. by rewrite Hn3, Hn2, Hn1, Hn.
Qed.

(** The entries of the score map keep their models. *)
Definition scored_models (m : gmap string ScoredModel) : gmap string Ptr := sm_Model <$> m.

Lemma alter_add_models d n m : scored_models (alter (add_score d) n m) = scored_models m.
Proof.
  apply map_eq. intros n'. unfold scored_models. rewrite !lookup_fmap, lookup_alter.
  destruct (decide (n = n')) as [->|]; [|done]. by destruct (m !! n').
Qed.

Lemma apply_scores_models w wt sc m : scored_models (apply_scores w wt sc m) = scored_models m.
Proof.
  unfold apply_scores. generalize (go_range sc). intros l. revert m.
  induction l as [|[p x] l IH]; intros m; simpl; [done|]. by rewrite IH, alter_add_models.
Qed.

Lemma runScorers_spec ss w cs rq ms m w' cs' rq' m' :
  Forall (λ s, lawful_scorer (ws_Scorer s)) ss →
  runScorers ss w cs rq ms m = Ok (w', cs', rq', m') →
  scored_models m' = scored_models m ∧ same_names w w'.
Proof.
  intros Hss. revert w cs rq m. induction Hss as [|s ss Hs _ IH]; intros w cs rq m; simpl.
  { by intros [= <- <- <- <-]. }
  pose proof (same_names_now w) as Hn. destruct (now w) as [t w0]. simpl in Hn.
  intros ([[[w1 cs1] rq1] sc1] & E1 & H)%mbind_Ok. apply Hs in E1 as Hn1.
  pose proof (same_names_record_since scorerExtensionPoint (s_name (ws_Scorer s)) t w1) as Hn2.
  apply IH in H as [Hm Hn3]. rewrite Hm, apply_scores_models. split; [done|].
  intros p. by rewrite Hn3, Hn2, Hn1, Hn.
Qed.

Lemma init_scores_models w ms n p :
  scored_models (init_scores w ms) !! n = Some p → p ∈ ms ∧ GetName w p = n.
Proof.
  unfold init_scores. induction ms as [|q ms IH] using rev_ind; [done|].
  rewrite foldl_app. simpl. unfold scored_models in *. rewrite fmap_insert, lookup_insert. simpl.
  destruct (decide _) as [<-|]; [intros [= ->]; set_solver|]. intros H%IH. set_solver.
Qed.

Lemma Run_spec p w cs rq ms w' cs' rq' m :
  lawful p → Run p w cs rq ms = Ok (w', cs', rq', inl (Some {| TargetModel := Some m |})) →
  m ∈ ms ∧ same_names w w'.
Proof.
  intros [Hf Hs Hk]. unfold Run.
  intros ([[[w1 cs1] rq1] ms1] & E1 & H)%mbind_Ok.
  apply (runFilters_spec _ _ _ _ _ _ _ _ _ Hf) in E1 as [Hsub Hn1].
  destruct ms1 as [|m1 ms1]; [done|].
  apply mbind_Ok in H as ([[[w2 cs2] rq2] sm2] & E2 & H).
  apply (runScorers_spec _ _ _ _ _ _ _ _ _ _ Hs) in E2 as [Hsm Hn2].
  apply mbind_Ok in H as ([[w3 cs3] r3] & E3 & H). injection H as <- <- <- ->.
  unfold runPickerPlugin in E3. destruct (picker p) as [k|]; [|done].
  pose proof (same_names_now w2) as Hnw. destruct (now w2) as [t w20]. simpl in Hnw.
  apply mbind_Ok in E3 as ([[w4 cs4] r4] & E4 & H). injection H as <- <- ->.
  apply (Hk k eq_refl) in E4 as [Hin Hn4]. split.
  - apply Hsub. rewrite !list_elem_of_fmap in Hin. setoid_rewrite list_elem_of_fmap in Hin.
    destruct Hin as (sm & -> & [n sm'] & -> & Hin%elem_of_go_range).
    apply (init_scores_models w1 _ n). unfold runScorerPlugins in *.
    rewrite <- Hsm. unfold scored_models. by rewrite lookup_fmap, Hin.
  - intros q. rewrite same_names_record_since. by rewrite Hn4, Hnw, Hn2, Hn1.
Qed.

Lemma Select_spec p w cs rq ms w' cs' rq' m :
  lawful p → Select p w cs rq ms = Ok (w', cs', rq', inl m) → m ∈ ms ∧ same_names w w'.
Proof.
  intros Hp. unfold Select. pose proof (same_names_now w) as Hn.
  destruct (now w) as [t w0]. simpl in Hn. destruct ms as [|m0 ms]; [done|].
  intros ([[[w1 cs1] rq1] r] & E & H)%mbind_Ok.
  destruct r as [[[[m1|]]|]|]; [|done..]. injection H as <- <- <- <-.
  apply (Run_spec _ _ _ _ _ _ _ _ _ Hp) in E as [Hin Hn1]. split; [done|]. intros q.
  unfold record_attempt. pose proof (name_now w1 q) as Hq. destruct (now w1) as [t1 w2].
  unfold RecordModelSelectorAttempt, RecordModelSelectorE2ELatency. simpl in Hq.
  by rewrite !name_record, Hq, Hn1, Hn.
Qed.

(** C8: model selection sends the request to a model of the store. When the
    model-selector plugin returns without an error, the request's model field
    and the cycle state hold the name of one of the models the store
    had when the request came - whatever lawful filters, scorers and picker
    are configured. *)
Theorem selected_model_is_in_store p w cs rq w' cs' rq' :
  store_ok w → lawful p →
  ModelSelector_ProcessRequest p w cs rq = Ok (w', cs', rq', None) →
  ∃ n, is_Some (view w !! n) ∧
    body_lookup rq' "model" = Some (AStr n) ∧ bodyMutated rq' = true ∧
    ReadCycleStateKey as_string cs' SelectedModelCycleStateKey = inl n.
Proof.
  intros Hok Hp. unfold ModelSelector_ProcessRequest.
  destruct (GetModels AllModelsPredicate w) as [|p0 ps] eqn:Eg; [done|]. rewrite <- Eg.
  intros ([[[w1 cs1] rq1] r] & E & H)%mbind_Ok. destruct r as [m|]; [|done].
  apply (Select_spec _ _ _ _ _ _ _ _ _ Hp) in E as [Hin Hn].
  apply mbind_Ok in H as (rq2 & Es & H). injection H as <- <- <-.
  apply (proj2 (GetModels_spec w AllModelsPredicate Hok)) in Hin as [[n Hc] _].
  destruct (current_view _ _ _ Hok Hc) as [Hname Hv].
  unfold SetBodyField in Es. destruct (Body rq1) as [b|] eqn:Eb; [|done]. injection Es as <-.
  exists n. unfold body_lookup, ReadCycleStateKey, Read, Write. simpl.
  rewrite !lookup_insert_eq, Hn, Hname. split_and!; [by rewrite Hv|done..].
Qed.
End facts.
