(* ===== verification/Pickers.v ===== *)
(** plugins/modelselector/picker: the shared random source and shuffle, and
    the max-score, random and weighted-random pickers. The Go library's
    [rand.Shuffle], [slices.SortStableFunc], [slices.SortFunc] and
    [cmp.Compare] are modelled as they work; the random draws, [math.Pow] and
    the order in which [SortFunc] leaves equal elements of long slices are
    parameters. *)

From Corelib Require Import SpecFloat.
From Stdlib Require Import String.
From S2P Require Import Prelude GoFloat GoValue Envoy Message World Datalayer ModelSelector.

Local Open Scope string_scope.
Local Open Scope list_scope.

(** ** The environment *)

(** The random source: [uint64n n] draws from [0, n), [Float64] from [0, 1). *)
Class Rand (W : Type) : Type := {
  uint64n : Z → W → Z * W;
  Float64 : W → float64 * W;
  uint64n_range n w : (0 < n)%Z → (0 ≤ (uint64n n w).1 < n)%Z
}.

Class MathPow : Type := { math_Pow : float64 → float64 → float64 }.

(** ** Sorting *)

Section sort.
Context {A : Type} (cmp : A → A → Z).

(** Insert [x] after the last element that is not greater than it: what one
    round of the insertion sort does to the sorted part before it. *)
Fixpoint insert_back (x : A) (rev_sorted : list A) : list A :=
  match rev_sorted with
  | [] => [x]
  | y :: l => if (cmp x y <? 0)%Z then y :: insert_back x l else x :: y :: l
  end.

(** The sorted part is kept reversed: its last element comes first. *)
Definition insertion_sort (l : list A) : list A :=
  reverse (foldl (λ acc x, insert_back x acc) [] l).

(** On the elements that satisfy [P], [cmp] comes from a total preorder. *)
Record preorder_cmp (P : A → Prop) : Prop :=
  { cmp_trans x y z : P x → P y → P z →
      (cmp x y <= 0)%Z → (cmp y z <= 0)%Z → (cmp x z <= 0)%Z;
    cmp_asym x y : P x → P y → (cmp x y < 0)%Z ↔ ¬ (cmp y x <= 0)%Z }.

Lemma insert_back_perm x l : insert_back x l ≡ₚ x :: l.
Proof.
  induction l as [|y l IH]; simpl; [done|]. destruct (cmp x y <? 0)%Z; [|done].
  rewrite IH. constructor.
Qed.

Lemma insertion_sort_perm l : insertion_sort l ≡ₚ l.
Proof.
  unfold insertion_sort. rewrite reverse_Permutation.
  assert (∀ l acc, foldl (λ acc x, insert_back x acc) acc l ≡ₚ l ++ acc) as H.
  { clear. induction l as [|x l IH]; intros acc; simpl; [done|].
    rewrite IH, insert_back_perm. by rewrite Permutation_middle. }
  by rewrite H, app_nil_r.
Qed.

(** No element comes after one it is smaller than. *)
Definition ge_cmp (y x : A) : Prop := (cmp x y <= 0)%Z.

Lemma insert_back_sorted P x l :
  preorder_cmp P → P x → Forall P l → StronglySorted ge_cmp l →
  StronglySorted ge_cmp (insert_back x l).
Proof.
  intros Hc Hx HP Hs. revert HP. induction Hs as [|y l Hl IH Hy]; intros HP; simpl;
    [by repeat constructor|].
  apply Forall_cons in HP as [Hy' HP].
  destruct (Z.ltb_spec (cmp x y) 0) as [Hlt|Hge].
  - constructor; [by apply IH|]. rewrite insert_back_perm. constructor; [|done].
    unfold ge_cmp. lia.
  - assert (cmp y x <= 0)%Z as Hyx.
    { destruct (decide (cmp y x <= 0)%Z) as [|Hn]; [done|]. apply (cmp_asym P Hc) in Hn; [lia|done..]. }
    constructor; [by constructor|]. constructor; [done|].
    apply Forall_forall. intros z Hz. rewrite Forall_forall in HP, Hy. unfold ge_cmp in *.
    apply (cmp_trans P Hc z y x); auto.
Qed.

Lemma StronglySorted_snoc {B} (R : B → B → Prop) l x :
  StronglySorted R l → Forall (λ y, R y x) l → StronglySorted R (l ++ [x]).
Proof.
  induction 1 as [|y l Hl IH Hy]; intros Hx; simpl; [by repeat constructor|].
  apply Forall_cons in Hx as [Hyx Hx]. constructor; [by apply IH|].
  apply Forall_app. by split; [|constructor].
Qed.

Lemma StronglySorted_reverse {B} (R : B → B → Prop) l :
  StronglySorted R l → StronglySorted (flip R) (reverse l).
Proof.
  induction 1 as [|y l Hl IH Hy]; [by constructor|]. rewrite reverse_cons.
  apply StronglySorted_snoc; [done|]. by apply Forall_reverse.
Qed.

Lemma insertion_sort_sorted P l :
  preorder_cmp P → Forall P l → StronglySorted (λ x y, cmp x y <= 0)%Z (insertion_sort l).
Proof.
  intros Hc HP. unfold insertion_sort. apply (StronglySorted_reverse ge_cmp).
  assert (∀ l acc, Forall P l → Forall P acc → StronglySorted ge_cmp acc →
    StronglySorted ge_cmp (foldl (λ acc x, insert_back x acc) acc l)) as H.
  { clear l HP. induction l as [|x l IH]; intros acc Hl Hacc Ha; simpl; [done|].
    apply Forall_cons in Hl as [Hx Hl]. apply IH; [done| |by eapply insert_back_sorted].
    rewrite insert_back_perm. by constructor. }
  apply H; [done|constructor..].
Qed.
End sort.

(** [slices.SortStableFunc] is determined by stability when [cmp] is a
    preorder. *)
Definition SortStableFunc {A} (cmp : A → A → Z) (l : list A) : list A := insertion_sort cmp l.

(** [slices.SortFunc] sorts up to 12 elements by insertion; longer slices by
    pattern-defeating quicksort, which is left open. *)
Class PdqSort : Type := {
  pdqsort : ∀ {A}, (A → A → Z) → list A → list A;
  pdqsort_perm {A} (cmp : A → A → Z) l : pdqsort cmp l ≡ₚ l;
  pdqsort_sorted {A} (cmp : A → A → Z) P l :
    preorder_cmp cmp P → Forall P l → StronglySorted (λ x y, cmp x y <= 0)%Z (pdqsort cmp l)
}.

#[export] Program Instance pdqsort_std : PdqSort | 100 := {
  pdqsort := @insertion_sort
}.
Next Obligation. intros. apply insertion_sort_perm. Qed.
Next Obligation. intros. by eapply insertion_sort_sorted. Qed.

Definition SortFunc `{PdqSort} {A} (cmp : A → A → Z) (l : list A) : list A :=
  if (length l <=? 12)%nat then insertion_sort cmp l else pdqsort cmp l.

Lemma SortFunc_perm `{PdqSort} {A} (cmp : A → A → Z) l : SortFunc cmp l ≡ₚ l.
Proof. unfold SortFunc. case_match; [apply insertion_sort_perm|apply pdqsort_perm]. Qed.

Lemma SortFunc_sorted `{PdqSort} {A} (cmp : A → A → Z) P l :
  preorder_cmp cmp P → Forall P l → StronglySorted (λ x y, cmp x y <= 0)%Z (SortFunc cmp l).
Proof.
  intros. unfold SortFunc. case_match; [by eapply insertion_sort_sorted|by eapply pdqsort_sorted].
Qed.

(** [cmp.Compare] on floats: a NaN is less than every number. *)
Definition cmp_Compare (x y : float64) : Z :=
  match is_nan x, is_nan y with
  | true, true => 0
  | true, false => -1
  | false, true => 1
  | false, false => if flt x y then -1 else if flt y x then 1 else 0
  end%Z.

(** ** The shuffle *)

Section shuffle.
Context {W : Type} `{RD : !Rand W}.

(** [l[i], l[j] = l[j], l[i]]. *)
Definition swap {A} (i j : nat) (l : list A) : list A :=
  match l !! i, l !! j with
  | Some x, Some y => <[j := x]> (<[i := y]> l)
  | _, _ => l
  end.

(** [for i := n - 1; i > 0; i-- { j := uint64n(i + 1); swap(i, j) }], from [i]. *)
Fixpoint shuffle_loop {A} (i : nat) (w : W) (l : list A) : W * list A :=
  match i with
  | O => (w, l)
  | S i' =>
      let '(j, w) := uint64n (Z.of_nat i + 1) w in
      shuffle_loop i' w (swap i (Z.to_nat j) l)
  end.

Definition ShuffleScoredModels (w : W) (scoredModels : list ScoredModel) :
    W * list ScoredModel :=
  shuffle_loop (length scoredModels - 1) w scoredModels.

Lemma swap_perm {A} i j (l : list A) : swap i j l ≡ₚ l.
Proof.
  unfold swap. destruct (l !! i) as [x|] eqn:Ei; [|done].
  destruct (l !! j) as [y|] eqn:Ej; [|done].
  destruct (decide (i = j)) as [->|Hne].
  - assert (x = y) as -> by congruence. by rewrite !list_insert_id by (rewrite ?list_insert_id; done).
  - apply lookup_lt_Some in Ei as Hi. apply lookup_lt_Some in Ej as Hj.
    apply Permutation_inj. split; [by rewrite !length_insert|].
    exists (λ k, if decide (k = i) then j else if decide (k = j) then i else k).
    split; [intros a b; repeat case_decide; congruence|].
    intros k. destruct (decide (k = j)) as [->|Hj'];
      [rewrite list_lookup_insert_eq by (by rewrite length_insert)
      |rewrite list_lookup_insert_ne by done;
       destruct (decide (k = i)) as [->|Hi'];
       [rewrite list_lookup_insert_eq by done|rewrite list_lookup_insert_ne by done]];
      repeat case_decide; congruence.
Qed.

Lemma length_swap {A} i j (l : list A) : length (swap i j l) = length l.
Proof. by rewrite swap_perm. Qed.

Lemma shuffle_loop_perm {A} i w (l : list A) : (shuffle_loop i w l).2 ≡ₚ l.
Proof.
  revert w l. induction i as [|i IH]; intros w l; simpl; [done|].
  destruct (uint64n _ w) as [j w']. by rewrite IH, swap_perm.
Qed.
End shuffle.

(** ** The pickers *)

Section pickers.
Context {W : Type} `{RD : !Rand W} `{MP : MathPow} `{PQ : PdqSort}.

(** The first element of a slice; an empty one panics. *)
Definition first_model (l : list Ptr) : res PipelineRunResult :=
  match l with
  | [] => Panic "index out of range [0] with length 0"
  | m :: _ => Ok {| TargetModel := Some m |}
  end.

Definition MaxScorePickerType : string := "max-score-picker".

(** Highest score first. *)
Definition compare_scores (i j : ScoredModel) : Z :=
  (if flt (Score j) (Score i) then -1 else if flt (Score i) (Score j) then 1 else 0)%Z.

Definition MaxScore_Pick (w : W) (cs : CycleState) (scoredModels : list ScoredModel) :
    res (W * CycleState * option PipelineRunResult) :=
  let '(w, scoredModels) := ShuffleScoredModels w scoredModels in
  r ← first_model (sm_Model <$> SortStableFunc compare_scores scoredModels);
  Ok (w, cs, Some r).

Definition MaxScorePicker (name : string) : Picker W :=
  {| p_name := {| Type_ := MaxScorePickerType; Name := name |}; runPick := MaxScore_Pick |}.

Definition RandomPickerType : string := "random-picker".

Definition Random_Pick (w : W) (cs : CycleState) (scoredModels : list ScoredModel) :
    res (W * CycleState * option PipelineRunResult) :=
  let '(w, scoredModels) := ShuffleScoredModels w scoredModels in
  r ← first_model (sm_Model <$> scoredModels);
  Ok (w, cs, Some r).

Definition RandomPicker (name : string) : Picker W :=
  {| p_name := {| Type_ := RandomPickerType; Name := name |}; runPick := Random_Pick |}.

Definition WeightedRandomPickerType : string := "weighted-random-picker".

Record weightedScoredModel := { wm_model : ScoredModel; key : float64 }.

Definition tiny : float64 := f_ratio 1 10000000000.

(** The sampling keys, drawing for the models with a positive score. *)
Fixpoint assign_keys (w : W) (l : list ScoredModel) : W * list weightedScoredModel :=
  match l with
  | [] => (w, [])
  | m :: l =>
      if fle (Score m) f0 then
        let '(w, ks) := assign_keys w l in (w, {| wm_model := m; key := f0 |} :: ks)
      else
        let '(u, w) := Float64 w in
        let u := if feq u f0 then tiny else u in
        let '(w, ks) := assign_keys w l in
        (w, {| wm_model := m; key := math_Pow u (fdiv f1 (Score m)) |} :: ks)
  end.

Definition compare_keys (a b : weightedScoredModel) : Z := cmp_Compare (key b) (key a).

Definition WeightedRandom_Pick (w : W) (cs : CycleState) (scoredModels : list ScoredModel) :
    res (W * CycleState * option PipelineRunResult) :=
  if negb (existsb (λ m, flt f0 (Score m)) scoredModels) then Random_Pick w cs scoredModels
  else
    let '(w, weightedModels) := assign_keys w scoredModels in
    r ← first_model ((λ k, sm_Model (wm_model k)) <$> SortFunc compare_keys weightedModels);
    Ok (w, cs, Some r).

Definition WeightedRandomPicker (name : string) : Picker W :=
  {| p_name := {| Type_ := WeightedRandomPickerType; Name := name |};
     runPick := WeightedRandom_Pick |}.

(** *** What they pick *)

Definition not_nan (m : ScoredModel) : Prop := is_nan (Score m) = false.

Lemma compare_scores_le x y :
  not_nan x → not_nan y → (compare_scores x y <= 0)%Z ↔ fle (Score y) (Score x) = true.
Proof.
  unfold compare_scores, not_nan. intros Hx Hy. rewrite fle_not_flt by done.
  destruct (flt (Score y) (Score x)) eqn:E1; [apply flt_asym in E1; rewrite E1|];
    destruct (flt (Score x) (Score y)); simpl; split; intros; try lia; done.
Qed.

Lemma compare_scores_preorder : preorder_cmp compare_scores not_nan.
Proof.
  split.
  - intros x y z Hx Hy Hz. rewrite !compare_scores_le by done. intros H1 H2.
    by eapply fle_trans.
  - intros x y Hx Hy. rewrite compare_scores_le, fle_not_flt by done. unfold compare_scores.
    destruct (flt (Score y) (Score x)); simpl; [split; [by intros _|done]|].
    destruct (flt _ _); (split; [lia|intros []; done]).
Qed.

Lemma ShuffleScoredModels_perm w l : (ShuffleScoredModels w l).2 ≡ₚ l.
Proof. apply shuffle_loop_perm. Qed.

Lemma first_model_ok l r : first_model l = Ok r ↔ ∃ m l', l = m :: l' ∧ r = {| TargetModel := Some m |}.
Proof. destruct l; simpl; naive_solver. Qed.

Lemma max_score_spec w cs sms :
  sms ≠ [] → Forall not_nan sms →
  ∃ w' sm, MaxScore_Pick w cs sms = Ok (w', cs, Some {| TargetModel := Some (sm_Model sm) |}) ∧
    sm ∈ sms ∧ Forall (λ sm', fle (Score sm') (Score sm) = true) sms.
Proof.
  intros Hne Hnan. unfold MaxScore_Pick.
  pose proof (ShuffleScoredModels_perm w sms) as Hp.
  destruct (ShuffleScoredModels w sms) as [w' l]. simpl in Hp.
  pose proof (insertion_sort_perm compare_scores l) as Hs.
  assert (Forall not_nan l) as Hl by (by rewrite Hp).
  pose proof (insertion_sort_sorted compare_scores not_nan l compare_scores_preorder Hl) as Hsort.
  unfold SortStableFunc.
  destruct (insertion_sort compare_scores l) as [|sm l'] eqn:E.
  { rewrite Hp in Hs. by apply Permutation_nil_l in Hs. }
  exists w', sm. split; [done|]. rewrite Hp in Hs.
  split; [rewrite <- Hs; by left|]. rewrite <- Hs in Hnan |- *.
  apply Forall_cons in Hnan as [Hsm Hl'].
  inversion_clear Hsort as [|? ? _ Hhd]. constructor; [by apply fle_refl|].
  rewrite Forall_forall in Hl', Hhd |- *. intros sm' Hin.
  apply compare_scores_le; auto.
Qed.

(** The max-score picker picks a best model. On any non-empty list of
    candidates without NaN scores, and whatever the random draws, it returns
    a candidate whose score no other candidate exceeds. *)
Theorem max_score_picks_a_maximum w cs sms :
  sms ≠ [] → Forall not_nan sms →
  ∃ w' sm, MaxScore_Pick w cs sms = Ok (w', cs, Some {| TargetModel := Some (sm_Model sm) |}) ∧
    sm ∈ sms ∧ Forall (λ sm', fle (Score sm') (Score sm) = true) sms.
Proof. apply max_score_spec. Qed.

(** *** The random picker reaches every candidate *)

(** The draws are [js], one for each swap. *)
Fixpoint draws (w : W) (i : nat) (js : list nat) : Prop :=
  match i, js with
  | O, [] => True
  | S i', j :: js => (uint64n (Z.of_nat i + 1) w).1 = Z.of_nat j ∧
                     draws (uint64n (Z.of_nat i + 1) w).2 i' js
  | _, _ => False
  end.

(** What the draws do to a list. *)
Fixpoint swaps {A} (i : nat) (js : list nat) (l : list A) : list A :=
  match i, js with
  | S i', j :: js => swaps i' js (swap i j l)
  | _, _ => l
  end.

Lemma shuffle_loop_swaps {A} i w js (l : list A) :
  draws w i js → (shuffle_loop i w l).2 = swaps i js l.
Proof.
  revert w js l. induction i as [|i IH]; intros w [|j js] l; simpl; try done.
  intros [Hj Hd]. destruct (uint64n _ w) as [z w']. simpl in *. subst.
  rewrite Nat2Z.id. by apply IH.
Qed.

(** Draws in range. *)
Fixpoint valid (i : nat) (js : list nat) : Prop :=
  match i, js with
  | O, [] => True
  | S i', j :: js => (j ≤ i)%nat ∧ valid i' js
  | _, _ => False
  end.

(** Later swaps stay below. *)
Lemma swaps_above {A} i js (l : list A) k :
  (i < k)%nat → valid i js → swaps i js l !! k = l !! k.
Proof.
  revert js l. induction i as [|i IH]; intros [|j js] l Hk; simpl; try done.
  intros [Hj Hv]. rewrite IH by (lia || done).
  unfold swap. destruct (l !! S i), (l !! j); [|done..].
  by rewrite !list_lookup_insert_ne by lia.
Qed.

Lemma lookup_swap_left {A} i j (l : list A) :
  (i < length l)%nat → (j < length l)%nat → swap i j l !! i = l !! j.
Proof.
  intros Hi Hj. unfold swap.
  destruct (lookup_lt_is_Some_2 l i Hi) as [x Ex], (lookup_lt_is_Some_2 l j Hj) as [y Ey].
  rewrite Ex, Ey. destruct (decide (i = j)) as [->|Hne].
  - rewrite list_lookup_insert_eq by (by rewrite length_insert). congruence.
  - by rewrite list_lookup_insert_ne, list_lookup_insert_eq by done.
Qed.

Lemma lookup_swap_above {A} i j (l : list A) k :
  (j ≤ i < k)%nat → swap i j l !! k = l !! k.
Proof.
  intros Hk. unfold swap. destruct (l !! i), (l !! j); [|done..].
  by rewrite !list_lookup_insert_ne by lia.
Qed.

Lemma perm_same_tail {A} (l l' : list A) :
  l' ≡ₚ l → (∀ k, (0 < k)%nat → l !! k = l' !! k) → l = l'.
Proof.
  intros Hp Ht. destruct l as [|x l], l' as [|y l'].
  - done.
  - by apply Permutation_nil_r in Hp.
  - by apply Permutation_nil_l in Hp.
  - assert (l = l') as -> by (apply list_eq; intros k; apply (Ht (S k)); lia).
    f_equal. by apply (Permutation_app_inv_r l' [y] [x]), Permutation_singleton_inj in Hp.
Qed.

(** Exactly one choice of draws gives each rearrangement. *)
Lemma swaps_unique {A} i (l l' : list A) :
  NoDup l → l' ≡ₚ l → (i < length l)%nat → (∀ k, (i < k)%nat → l !! k = l' !! k) →
  ∃ js, valid i js ∧ swaps i js l = l' ∧
    ∀ js', valid i js' → swaps i js' l = l' → js' = js.
Proof.
  revert l. induction i as [|i IH]; intros l Hnd Hp Hi Hagree.
  { exists []. simpl. split_and!; [done|by apply perm_same_tail|by intros []]. }
  pose proof (Permutation_length Hp) as Hlen.
  destruct (lookup_lt_is_Some_2 l' (S i)) as [y Hy]; [lia|].
  assert (y ∈ l) as [j Hj]%list_elem_of_lookup by (rewrite <- Hp; by eapply list_elem_of_lookup_2).
  assert (j ≤ S i)%nat as Hji.
  { destruct (decide (j ≤ S i)%nat) as [|Hn]; [done|]. exfalso.
    rewrite (Hagree j) in Hj by lia. apply Hn.
    rewrite (NoDup_lookup l' j (S i) y); [done|by rewrite Hp|done..]. }
  pose proof (lookup_lt_Some _ _ _ Hj) as Hjl.
  destruct (IH (swap (S i) j l)) as (js & Hv & Hs & Hu).
  - by rewrite swap_perm.
  - by rewrite swap_perm.
  - rewrite length_swap. lia.
  - intros k Hk. destruct (decide (k = S i)) as [->|].
    + rewrite lookup_swap_left by done. congruence.
    + rewrite lookup_swap_above by lia. apply Hagree. lia.
  - exists (j :: js). split_and!; [done..|].
    intros [|j' js'] Hv' Hs'; [done|]. simpl in Hv', Hs'. destruct Hv' as [Hj' Hv'].
    assert (j' = j) as ->; [|by rewrite (Hu js')].
    apply (NoDup_lookup l j' j y); [done| |done].
    rewrite <- (lookup_swap_left (S i)) by lia.
    rewrite <- (swaps_above i js') by (lia || done). by rewrite Hs'.
Qed.

(** C36: the shuffle is fair. For any list of distinct candidates and any
    rearrangement of it there is exactly one sequence of in-range draws that
    makes the shuffle return that rearrangement: with independent uniform
    draws every order of the candidates, and so every winner of a tie, is
    equally likely. *)
Theorem shuffle_is_fair (sms l' : list ScoredModel) :
  NoDup sms → sms ≠ [] → l' ≡ₚ sms →
  ∃ js, valid (length sms - 1) js ∧
    (∀ w, draws w (length sms - 1) js → (ShuffleScoredModels w sms).2 = l') ∧
    (∀ js' w, valid (length sms - 1) js' → draws w (length sms - 1) js' →
      (ShuffleScoredModels w sms).2 = l' → js' = js).
Proof.
  intros Hnd Hne Hp.
  assert (0 < length sms)%nat as Hlen by (destruct sms; [done|simpl; lia]).
  destruct (swaps_unique (length sms - 1) sms l' Hnd Hp) as (js & Hv & Hs & Hu); [lia| |].
  - intros k Hk. rewrite !lookup_ge_None_2; [done|rewrite Hp; lia|lia].
  - exists js. split_and!; [done| |].
    + intros w Hd. unfold ShuffleScoredModels. by rewrite (shuffle_loop_swaps _ _ js).
    + intros js' w Hv' Hd'. unfold ShuffleScoredModels. rewrite (shuffle_loop_swaps _ _ js') by done.
      by apply Hu.
Qed.

(** *** The weighted-random picker *)

Lemma assign_keys_models w l : wm_model <$> (assign_keys w l).2 = l.
Proof.
  revert w. induction l as [|m l IH]; intros w; simpl; [done|].
  destruct (fle (Score m) f0).
  - specialize (IH w). destruct (assign_keys w l). simpl in *. by f_equal.
  - destruct (Float64 w) as [u w1]. specialize (IH w1). destruct (assign_keys w1 l).
    simpl in *. by f_equal.
Qed.

(** The key of a zero-score model is 0. *)
Lemma assign_keys_zero w l k :
  k ∈ (assign_keys w l).2 → fle (Score (wm_model k)) f0 = true → key k = f0.
Proof.
  revert w. induction l as [|m l IH]; intros w; simpl; [set_solver|].
  destruct (fle (Score m) f0) eqn:Em.
  - specialize (IH w). destruct (assign_keys w l). simpl.
    intros [->|]%elem_of_cons; auto.
  - destruct (Float64 w) as [u w1]. specialize (IH w1). destruct (assign_keys w1 l).
    simpl. intros [->|]%elem_of_cons; [simpl; congruence|auto].
Qed.

Definition key_number (k : weightedScoredModel) : Prop := is_nan (key k) = false.

Lemma compare_keys_le a b :
  key_number a → key_number b → (compare_keys a b <= 0)%Z ↔ fle (key b) (key a) = true.
Proof.
  unfold compare_keys, cmp_Compare, key_number. intros Ha Hb. rewrite Ha, Hb.
  rewrite fle_not_flt by done.
  destruct (flt (key b) (key a)) eqn:E1; [apply flt_asym in E1; rewrite E1|];
    destruct (flt (key a) (key b)); simpl; split; intros; try lia; done.
Qed.

Lemma compare_keys_preorder : preorder_cmp compare_keys key_number.
Proof.
  split.
  - intros x y z Hx Hy Hz. rewrite !compare_keys_le by done. intros H1 H2.
    by eapply fle_trans.
  - intros x y Hx Hy. rewrite compare_keys_le, fle_not_flt by done.
    unfold compare_keys, cmp_Compare. rewrite Hx, Hy.
    destruct (flt (key y) (key x)); simpl; [split; [by intros _|done]|].
    destruct (flt _ _); (split; [lia|intros []; done]).
Qed.

(** The weighted-random picker leaves out models without a score. When
    some model has a positive score and a positive sampling key, and no key
    is NaN, the model it returns is a candidate with a positive score and
    the greatest key. *)
Theorem weighted_random_excludes_zero w cs sms :
  Forall key_number (assign_keys w sms).2 →
  Exists (λ k, flt f0 (Score (wm_model k)) = true ∧ flt f0 (key k) = true) (assign_keys w sms).2 →
  Forall not_nan sms →
  ∃ k, k ∈ (assign_keys w sms).2 ∧
    WeightedRandom_Pick w cs sms =
      Ok ((assign_keys w sms).1, cs, Some {| TargetModel := Some (sm_Model (wm_model k)) |}) ∧
    wm_model k ∈ sms ∧ flt f0 (Score (wm_model k)) = true ∧
    Forall (λ k', fle (key k') (key k) = true) (assign_keys w sms).2.
Proof.
  intros Hnum Hex Hnan. unfold WeightedRandom_Pick.
  pose proof (assign_keys_models w sms) as Hmod. pose proof (assign_keys_zero w sms) as Hz.
  destruct (assign_keys w sms) as [w' ks]. simpl in *.
  apply Exists_exists in Hex as (kp & Hkp & Hsp & Hpos).
  assert (wm_model kp ∈ sms) as Hin by (rewrite <- Hmod; by apply list_elem_of_fmap_2).
  assert (existsb (λ m, flt f0 (Score m)) sms = true) as ->
    by (apply existsb_exists; exists (wm_model kp); by rewrite <- list_elem_of_In).
  simpl. pose proof (SortFunc_perm compare_keys ks) as Hp.
  pose proof (SortFunc_sorted compare_keys key_number ks compare_keys_preorder Hnum) as Hsort.
  destruct (SortFunc compare_keys ks) as [|k ks'].
  { apply Permutation_nil_l in Hp. subst. set_solver. }
  assert (k ∈ ks) as Hk by (rewrite <- Hp; by left).
  assert (Forall (λ k', fle (key k') (key k) = true) ks) as Hmax.
  { rewrite <- Hp in Hnum |- *. apply Forall_cons in Hnum as [Hnk Hnks].
    inversion_clear Hsort as [|? ? _ Hhd]. constructor; [by apply fle_refl|].
    rewrite Forall_forall in Hnks, Hhd |- *. intros k' Hk'. apply compare_keys_le; auto. }
  exists k. split_and!; [done|done| | |done].
  { rewrite <- Hmod. by apply list_elem_of_fmap_2. }
  destruct (flt f0 (Score (wm_model k))) eqn:Es; [done|]. exfalso.
  rewrite Forall_forall in Hnan. apply (proj1 (Forall_forall _ _)) with (x := kp) in Hmax; [|done].
  rewrite (Hz k Hk) in Hmax.
  - rewrite fle_not_flt, Hpos in Hmax; [done| |done]. rewrite Forall_forall in Hnum. by apply Hnum.
  - rewrite fle_not_flt, Es; [done| |done]. apply Hnan. rewrite <- Hmod.
    by apply list_elem_of_fmap_2.
Qed.

(** A model with score 0 can win. The picker gives such a model the key
    0 to leave it out, but [math.Pow] also returns 0 when a small positive
    score makes the exponent large: then the first of the two candidates
    wins, here the one with score 0. *)
Theorem underflow_lets_zero_score_win w cs a b :
  fle (Score a) f0 = true → flt f0 (Score b) = true → fle (Score b) f0 = false →
  (let u := (Float64 w).1 in
   math_Pow (if feq u f0 then tiny else u) (fdiv f1 (Score b)) = f0) →
  WeightedRandom_Pick w cs [a; b] =
    Ok ((Float64 w).2, cs, Some {| TargetModel := Some (sm_Model a) |}).
Proof.
  intros Ha Hb Hb' Hpow. unfold WeightedRandom_Pick. simpl.
  rewrite Hb, orb_true_r. simpl. rewrite Ha, Hb'. destruct (Float64 w) as [u w']. simpl in *.
  by rewrite Hpow.
Qed.
End pickers.

(** ** Concrete runs *)

(** Draws from a list of numbers, 0 when it is used up. *)
#[export] Program Instance StdWorld_Rand : Rand StdWorld := {
  uint64n n w :=
    (match randoms w with [] => 0 | r :: _ => r mod (Z.max n 1) end%Z,
     {| clock := clock w; metrics := metrics w; events := events w;
        randoms := tail (randoms w); uuids := uuids w |});
  Float64 w :=
    (f_half, {| clock := clock w; metrics := metrics w; events := events w;
                randoms := tail (randoms w); uuids := uuids w |})
}.
Next Obligation.
  intros n w Hn. simpl. destruct (randoms w) as [|r l]; [lia|].
  rewrite Z.max_l by lia. apply Z.mod_pos_bound. lia.
Qed.

(** Powers of one half: [0.5 ^ y] underflows to 0 from [y = 1075] on. *)
#[export] Instance half_pow : MathPow | 100 :=
  { math_Pow x y := if feq x f_half && fle (f_of_Z 1076) y then f0 else f_half }.

Definition scored (p : Ptr) (n d : Z) : ScoredModel := {| sm_Model := p; Score := f_ratio n d |}.

Definition three_models : list ScoredModel := [scored 1 1 2; scored 2 3 4; scored 3 0 1].

Lemma three_not_nan : Forall not_nan three_models.
Proof. repeat (apply Forall_cons_2); [..|apply Forall_nil_2]; vm_compute; reflexivity. Qed.

Lemma max_score_picks_a_maximum_witness :
  ∃ w' sm, MaxScore_Pick std0 ∅ three_models =
      Ok (w', ∅, Some {| TargetModel := Some (sm_Model sm) |}) ∧
    sm ∈ three_models ∧ Forall (λ sm', fle (Score sm') (Score sm) = true) three_models.
Proof. apply (max_score_picks_a_maximum std0 ∅ three_models); [done|apply three_not_nan]. Defined.

Lemma shuffle_is_fair_witness :
  ∃ js, valid 2 js ∧
    (∀ w : StdWorld, draws w 2 js →
       (ShuffleScoredModels w three_models).2 = reverse three_models) ∧
    (∀ js' (w : StdWorld), valid 2 js' → draws w 2 js' →
       (ShuffleScoredModels w three_models).2 = reverse three_models → js' = js).
Proof.
  apply (shuffle_is_fair three_models (reverse three_models)).
  - repeat (apply NoDup_cons_2; [set_solver|]). apply NoDup_nil_2.
  - done.
  - apply reverse_Permutation.
Defined.

Lemma weighted_random_excludes_zero_witness :
  ∃ k, k ∈ (assign_keys std0 three_models).2 ∧
    WeightedRandom_Pick std0 ∅ three_models =
      Ok ((assign_keys std0 three_models).1, ∅,
          Some {| TargetModel := Some (sm_Model (wm_model k)) |}) ∧
    wm_model k ∈ three_models ∧ flt f0 (Score (wm_model k)) = true ∧
    Forall (λ k', fle (key k') (key k) = true) (assign_keys std0 three_models).2.
Proof.
  apply (weighted_random_excludes_zero std0 ∅ three_models).
  - vm_compute. repeat (apply Forall_cons_2); [..|apply Forall_nil_2]; reflexivity.
  - vm_compute. apply Exists_cons_hd. split; reflexivity.
  - apply three_not_nan.
Defined.

Lemma underflow_lets_zero_score_win_witness :
  WeightedRandom_Pick std0 ∅ [scored 1 0 1; scored 2 1 2000] =
    Ok ((Float64 std0).2, ∅, Some {| TargetModel := Some 1%positive |}).
Proof.
  apply (underflow_lets_zero_score_win std0 ∅ (scored 1 0 1) (scored 2 1 2000));
    vm_compute; reflexivity.
Defined.
