(* ===== verification/SelectorPlugins.v ===== *)
(** plugins/modelselector/filter and scorer: the model-group filter and the
    cost, costguard, in-flight requests and session-affinity scorers. Session
    affinity is also a response processor. *)

From Corelib Require Import SpecFloat.
From Stdlib Require Import Strings.Byte String.
From S2P Require Import Prelude GoFloat GoValue Decimals FloatOrder Envoy Message World Datalayer ModelSelector.

Local Open Scope string_scope.
Local Open Scope list_scope.

(** Both constructions fail the same way: parameters that do not parse. *)
Definition bad_parameters (prefix : string) (raw : bytes) : goerror :=
  EWrap prefix (ENew "json: cannot unmarshal parameters").

(** ** filter/modelgroup *)

Definition ModelGroupFilterType : string := "model-group-name-filter".
Definition requestModelField : string := "model".
Definition autoPrefix : string := "auto".
Definition autoGroupSeparator : string := "/".

Section plugins.
Context {W : Type} `{TD : TDigest} `{WW : !World W} `{DS : !Datastore W} `{MO : MapOrder}.

Definition group_member (w : W) (groupName : string) (m : Ptr) : bool :=
  match Get (GetAttributes w m) GroupsAttributeKey with
  | None => false
  | Some groups => match as_groups groups with
                   | Some g => Groups_Contains g groupName
                   | None => false
                   end
  end.

Definition first_named (w : W) (requested : string) (models : list Ptr) : list Ptr :=
  match List.find (λ m, String.eqb (GetName w m) requested) models with
  | Some m => [m]
  | None => []
  end.

(** A missing field and [null] are both nil. *)
Definition ModelGroup_select (w : W) (request : InferenceRequest) (models : list Ptr) :
    list Ptr :=
  let raw := default ANil (body_lookup request requestModelField) in
  match (match raw with ANil => Some "" | _ => as_string raw end) with
  | None => []
  | Some requested =>
      if String.eqb requested "" || String.eqb requested autoPrefix then models
      else
        let autoGroupPrefix := autoPrefix +:+ autoGroupSeparator in
        if negb (has_prefix requested autoGroupPrefix) then first_named w requested models
        else
          let groupName := trim_prefix requested autoGroupPrefix in
          if String.eqb groupName "" then []
          else base.filter (λ m, group_member w groupName m = true) models
  end.

Definition ModelGroup_Filter (w : W) (cs : CycleState) (request : InferenceRequest)
    (models : list Ptr) : res (W * CycleState * InferenceRequest * list Ptr) :=
  Ok (w, cs, request, ModelGroup_select w request models).

Definition ModelGroupFilter (name : string) : Filter W :=
  {| f_name := {| Type_ := ModelGroupFilterType; Name := name |}; runFilter := ModelGroup_Filter |}.

(** ** scorer/costaware *)

Definition CostScorerType : string := "cost-scorer".

(** The input price behind a type assertion, which panics on a model without
    prices. *)
Definition input_price (w : W) (m : Ptr) : res float64 :=
  match Get (GetAttributes w m) TokenPricesAttributeKey ≫= as_token_prices with
  | Some p => Ok (InputTokenPrice p)
  | None => Panic "interface conversion: not *pricing.TokenPrices"
  end.

Definition sum_prices (w : W) (models : list Ptr) : res float64 :=
  foldM (λ sum m, price ← input_price w m; Ok (fadd sum price)) models f0.

(** One score for every model. *)
Definition score_all (x : float64) (models : list Ptr) : gmap Ptr float64 :=
  foldl (λ s m, <[m := x]> s) ∅ models.

Definition Cost_scores (w : W) (models : list Ptr) : res (gmap Ptr float64) :=
  match models with
  | [m] => Ok {[m := f_half]}
  | _ =>
      sumPrices ← sum_prices w models;
      if feq sumPrices f0 then Ok (score_all f1 models)
      else foldM (λ s m, price ← input_price w m;
                         Ok (<[m := fsub f1 (fdiv price sumPrices)]> s)) models ∅
  end.

Definition CostScorer (name : string) : Scorer W :=
  {| s_name := {| Type_ := CostScorerType; Name := name |};
     runScore w cs request models := s ← Cost_scores w models; Ok (w, cs, request, s) |}.

(** ** scorer/inflightrequests *)

Definition InflightRequestsScorerType : string := "inflight-requests-scorer".

Definition inflightRequestCount (w : W) (model : Ptr) : Z :=
  match Get (GetAttributes w model) RequestMetadataAttributeKey ≫= as_request_count with
  | Some rc => Requests rc
  | None => 0%Z
  end.

Definition count_range (w : W) (models : list Ptr) : Z * Z :=
  foldl (λ mm m, let count := inflightRequestCount w m in
                 (if (count <? mm.1)%Z then count else mm.1,
                  if (mm.2 <? count)%Z then count else mm.2))
    (max_int64, min_int64) models.

Definition Inflight_scores (w : W) (models : list Ptr) : gmap Ptr float64 :=
  let '(minCount, maxCount) := count_range w models in
  foldl (λ s m,
    <[m := if (maxCount =? minCount)%Z then f1
           else fdiv (f_of_Z (wrap64 (maxCount - inflightRequestCount w m)))
                     (f_of_Z (wrap64 (maxCount - minCount)))]> s) ∅ models.

Definition InflightRequestsScorer (name : string) : Scorer W :=
  {| s_name := {| Type_ := InflightRequestsScorerType; Name := name |};
     runScore w cs request models := Ok (w, cs, request, Inflight_scores w models) |}.
End plugins.

(** ** scorer/costguard *)

Module CostGuard.

Definition PluginType : string := "costguard".
(** The constant [z95 * z95], exactly 3.8416. *)
Definition z95_squared : float64 := f_ratio 38416 10000.

Record Config :=
  { Epsilon : float64; Alpha : float64; Lambda : float64; WindowDuration : string;
    PercentileMarginError : float64 }.

Definition defaults : Config :=
  {| Epsilon := f_ratio 1 10; Alpha := f_ratio 95 100; Lambda := f1; WindowDuration := "2h";
     PercentileMarginError := f_ratio 3 100 |}.

Definition dec_config : list (string * any) → option Config := λ o,
  e ← dec_field dec_float "epsilon" (Epsilon defaults) o;
  a ← dec_field dec_float "alpha" (Alpha defaults) o;
  l ← dec_field dec_float "lambda" (Lambda defaults) o;
  d ← dec_field dec_str "windowDuration" (WindowDuration defaults) o;
  m ← dec_field dec_float "percentileMarginError" (PercentileMarginError defaults) o;
  Some {| Epsilon := e; Alpha := a; Lambda := l; WindowDuration := d;
          PercentileMarginError := m |}.

Record CostGuardScorer :=
  { typedName : TypedName; epsilon : float64; alpha : float64; lambda : float64;
    sampleThreshold_of : option Z; windowDuration : Z }.

(** [uint64(math.Ceil(...))]; [None] when the value is not a uint64, which
    the conversion leaves to the implementation. *)
Definition sampleThreshold (alpha w : float64) : option Z :=
  match f_ceil (fdiv (fmul (fmul z95_squared alpha) (fsub f1 alpha)) (fmul w w)) with
  | Some z => if ((0 <=? z) && (z <? 2 * two63))%Z then Some z else None
  | None => None
  end.

Definition NewCostGuardScorer (epsilon alpha lambda : float64) (windowDuration : Z)
    (percentileMarginError : float64) : CostGuardScorer :=
  {| typedName := {| Type_ := PluginType; Name := PluginType |};
     epsilon := epsilon; alpha := alpha; lambda := lambda;
     sampleThreshold_of := sampleThreshold alpha percentileMarginError;
     windowDuration := windowDuration |}.

Definition WithName (s : CostGuardScorer) (name : string) : CostGuardScorer :=
  {| typedName := {| Type_ := Type_ (typedName s); Name := name |};
     epsilon := epsilon s; alpha := alpha s; lambda := lambda s;
     sampleThreshold_of := sampleThreshold_of s; windowDuration := windowDuration s |}.

Definition ScorerFactory (name : string) (rawParameters : bytes) : CostGuardScorer + goerror :=
  match dec_params dec_config rawParameters with
  | None => inr (bad_parameters ("costguard " +:+ name +:+ ": failed to parse parameters: ") rawParameters)
  | Some config =>
      if flt (Epsilon config) f0 || flt f1 (Epsilon config)
      then inr (ENew "costguard: epsilon must be in [0, 1]")
      else if fle (Alpha config) f0 || fle f1 (Alpha config)
      then inr (ENew "costguard: alpha must be in (0, 1)")
      else if flt (Lambda config) f0
      then inr (ENew "costguard: lambda must be >= 0")
      else if fle (PercentileMarginError config) f0 || fle f1 (PercentileMarginError config)
      then inr (ENew "costguard: percentileMarginError must be in (0, 1)")
      else match ParseDuration (WindowDuration config) with
           | None => inr (ENew "costguard: invalid windowDuration")
           | Some windowDuration =>
               if (windowDuration <=? 0)%Z
               then inr (ENew "costguard: windowDuration must be > 0")
               else inl (WithName (NewCostGuardScorer (Epsilon config) (Alpha config)
                           (Lambda config) windowDuration (PercentileMarginError config)) name)
           end
  end.

Definition neutralScore : float64 := f_half.

Definition scorer_of {W : Type} (s : CostGuardScorer) : Scorer W :=
  {| s_name := typedName s;
     runScore w cs request models := Ok (w, cs, request, score_all neutralScore models) |}.

End CostGuard.

(** ** scorer/sessionaffinity *)

(** github.com/hashicorp/golang-lru's expirable cache of session to model name,
    and github.com/google/uuid, as parts of the world. A cache belongs to the
    plugin instance that made it and is known by its name, which instantiation
    keeps unique. An entry just added is found. *)
Class SessionCache (W : Type) `{!World W} : Type := {
  lru_Get : string → string → W → option string * W;
  lru_Add : string → string → string → W → W;
  lru_Len : string → W → Z;
  uuid_New : W → string * W;
  lru_Get_Add c k v m w : (lru_Get c k (record m (lru_Add c k v w))).1 = Some v;
  uuid_New_nonempty w : (uuid_New w).1 ≠ ""
}.

Module SessionAffinity.

Definition PluginType : string := "session-affinity".
Definition defaultMaxSessions : Z := 10000.
Definition defaultTTL : Z := 3600 * 1000000000.
Definition defaultSessionIDKey : string := "x-session-id".
Definition cycleStateSessionIDKey : string := "session-affinity/session-id".
Definition responseModelField : string := "model".
Definition noOpinionScore : float64 := f0.
Definition preferredScore : float64 := f1.

Record SessionAffinityScorer :=
  { typedName : TypedName; sessionIDKey : string; maxSessions : Z; ttl : Z }.

Definition ScorerFactory (name : string) (rawParameters : bytes) :
    SessionAffinityScorer + goerror :=
  match dec_params (λ o,
          k ← dec_field dec_str "sessionIdKey" "" o;
          m ← dec_field dec_int "maxSessions" 0%Z o;
          t ← dec_field dec_int "ttlSeconds" 0%Z o; Some (k, m, t)) rawParameters with
  | None => inr (bad_parameters "failed to parse parameters for session-affinity plugin: " rawParameters)
  | Some (k, m, t) =>
      inl {| typedName := {| Type_ := PluginType; Name := name |};
             sessionIDKey := if String.eqb k "" then defaultSessionIDKey else k;
             maxSessions := if (m <=? 0)%Z then defaultMaxSessions else m;
             ttl := if (0 <? t)%Z then wrap64 (t * 1000000000) else defaultTTL |}
  end.

Section session.
Context {W : Type} `{TD : TDigest} `{WW : !World W} `{DS : !Datastore W} `{SC : !SessionCache W}.

Definition session_scores (w : W) (previousModel : string) (models : list Ptr) :
    gmap Ptr float64 :=
  foldl (λ s m, <[m := if String.eqb (GetName w m) previousModel then preferredScore
                       else noOpinionScore]> s) ∅ models.

Definition runScore (s : SessionAffinityScorer) (w : W) (cs : CycleState)
    (request : InferenceRequest) (models : list Ptr) :
    res (W * CycleState * InferenceRequest * gmap Ptr float64) :=
  let sessionID := default "" (Headers request !! sessionIDKey s) in
  if String.eqb sessionID "" then Ok (w, cs, request, score_all noOpinionScore models)
  else
    let cs := Write cs cycleStateSessionIDKey (AStr sessionID) in
    let '(previousModel, w) := lru_Get (Name (typedName s)) sessionID w in
    match previousModel with
    | None => Ok (record M_session_affinity_cache_misses_total w, cs, request,
                  score_all noOpinionScore models)
    | Some previousModel =>
        let w := record M_session_affinity_cache_hits_total w in
        Ok (w, cs, request, session_scores w previousModel models)
    end.

Definition ProcessResponse (s : SessionAffinityScorer) (w : W) (cs : CycleState)
    (response : InferenceResponse) : called W InferenceResponse :=
  let modelName := body_string (rmsg response) responseModelField in
  if String.eqb modelName "" then Ok (w, cs, response, None)
  else
    let '(sessionID, w) :=
      match ReadCycleStateKey as_string cs cycleStateSessionIDKey with
      | inl sessionID => (sessionID, w)
      | inr _ => uuid_New w
      end in
    let w := lru_Add (Name (typedName s)) sessionID modelName w in
    let w := record (M_session_affinity_cache_size (lru_Len (Name (typedName s)) w)) w in
    Ok (w, cs, with_rmsg response (SetHeader (rmsg response) (sessionIDKey s) sessionID), None).

Definition scorer_of (s : SessionAffinityScorer) : Scorer W :=
  {| s_name := typedName s; ModelSelector.runScore := runScore s |}.

Definition processor_of (s : SessionAffinityScorer) : ResponseProcessor W :=
  {| rsp_name := typedName s; Message.ProcessResponse := ProcessResponse s |}.
End session.

End SessionAffinity.

(** ** Facts *)

Section facts.
Context {W : Type} `{TD : TDigest} `{WW : !World W} `{DS : !Datastore W} `{MO : MapOrder}.

(** A loop that stores one value per model. *)
Lemma lookup_foldl_insert {V} (f : Ptr → V) (ms : list Ptr) (s : gmap Ptr V) m :
  foldl (λ s m, <[m := f m]> s) s ms !! m = if decide (m ∈ ms) then Some (f m) else s !! m.
Proof.
  revert s. induction ms as [|m0 ms IH]; intros s; simpl;
    [by destruct (decide (m ∈ [])); [set_solver|]|].
  rewrite IH, lookup_insert.
  destruct (decide (m ∈ ms)), (decide (m ∈ m0 :: ms)), (decide (m0 = m)); set_solver.
Qed.

Lemma lookup_score_all x ms m :
  score_all x ms !! m = if decide (m ∈ ms) then Some x else None.
Proof. unfold score_all. by rewrite (lookup_foldl_insert (λ _, x)). Qed.

(** *** The model-group filter *)

(** What the request's model field asks for. *)
Definition wanted (w : W) (request : InferenceRequest) (m : Ptr) : Prop :=
  match default ANil (body_lookup request requestModelField) with
  | ANil => True
  | AStr s =>
      s = "" ∨ s = "auto" ∨
      (has_prefix s "auto/" = false ∧ GetName w m = s) ∨
      (has_prefix s "auto/" = true ∧ trim_prefix s "auto/" ≠ "" ∧
       ∃ g, GetAttributes w m !! GroupsAttributeKey = Some (CGroups g) ∧
            trim_prefix s "auto/" ∈ g)
  | _ => False
  end.

Lemma group_member_spec w name m :
  group_member w name m = true ↔
  ∃ g, GetAttributes w m !! GroupsAttributeKey = Some (CGroups g) ∧ name ∈ g.
Proof.
  unfold group_member, Get. destruct (GetAttributes w m !! GroupsAttributeKey) as [c|];
    simpl; [|naive_solver].
  destruct c as [p|g|r|d]; simpl; [naive_solver| |naive_solver..].
  unfold Groups_Contains. rewrite existsb_exists. split.
  - intros (x & Hx & ->%String.eqb_eq). exists g. split; [done|]. by apply list_elem_of_In.
  - intros (g' & [= <-] & Hin). exists name. split; [by apply list_elem_of_In|].
    apply String.eqb_refl.
Qed.

Lemma first_named_spec w s ms m :
  NoDup (GetName w <$> ms) → m ∈ first_named w s ms ↔ m ∈ ms ∧ GetName w m = s.
Proof.
  intros Hnd. unfold first_named. destruct (List.find _ ms) as [m'|] eqn:E.
  - apply List.find_some in E as [Hin Heq%String.eqb_eq]. rewrite <- list_elem_of_In in Hin.
    rewrite list_elem_of_singleton. split; [by intros ->|]. intros [Hm Hs].
    apply list_elem_of_lookup in Hin as [i Hi]. apply list_elem_of_lookup in Hm as [j Hj].
    assert (i = j) as ->; [|congruence].
    apply (NoDup_lookup _ i j s Hnd); rewrite list_lookup_fmap, ?Hi, ?Hj; simpl; congruence.
  - split; [set_solver|]. intros [Hm Hs]. apply list_elem_of_In in Hm.
    pose proof (List.find_none _ _ E _ Hm) as Hn. simpl in Hn. by rewrite Hs, String.eqb_refl in Hn.
Qed.

Lemma group_filter_spec w request ms :
  NoDup (GetName w <$> ms) →
  let ms' := ModelGroup_select w request ms in
  sublist ms' ms ∧ ∀ m, m ∈ ms' ↔ m ∈ ms ∧ wanted w request m.
Proof.
  intros Hnd. unfold ModelGroup_select, wanted.
  destruct (default ANil (body_lookup request requestModelField)) as [|b|x|s|l|o]; simpl.
  1: split; [done|naive_solver].
  1,2,4,5: split; [apply sublist_nil_l|]; intros m; rewrite elem_of_nil; naive_solver.
  destruct (String.eqb_spec s "") as [->|Hs]; [split; [done|naive_solver]|].
  destruct (String.eqb_spec s autoPrefix) as [->|Ha]; [split; [done|naive_solver]|]. simpl.
  change (autoPrefix +:+ autoGroupSeparator) with "auto/".
  destruct (has_prefix s "auto/") eqn:Hp; simpl.
  - destruct (String.eqb_spec (trim_prefix s "auto/") "") as [He|He].
    + split; [apply sublist_nil_l|]. rewrite He. set_solver.
    + split; [apply sublist_filter|]. intros m.
      rewrite list_elem_of_filter, group_member_spec. naive_solver.
  - split.
    + unfold first_named. destruct (List.find _ ms) as [m'|] eqn:E; [|apply sublist_nil_l].
      apply List.find_some in E as [Hin _]. by apply singleton_sublist_l, list_elem_of_In.
    + intros m. rewrite first_named_spec by done. naive_solver.
Qed.

(** The model-group filter keeps exactly the models the request asks
    for: all of them when the model field is absent, null, empty or "auto";
    the members of the group for "auto/<group>"; the model of that name
    otherwise; none for a field that is not a string, an empty group or an
    unknown name. It keeps their order and never adds one. *)
Theorem model_group_filter_exact w cs request ms :
  NoDup (GetName w <$> ms) →
  ∃ ms', ModelGroup_Filter w cs request ms = Ok (w, cs, request, ms') ∧
    sublist ms' ms ∧ ∀ m, m ∈ ms' ↔ m ∈ ms ∧ wanted w request m.
Proof. intros Hnd. eexists. split; [reflexivity|]. by apply group_filter_spec. Qed.

(** *** The cost scorer *)

Definition price (w : W) (m : Ptr) : option TokenPrices :=
  Get (GetAttributes w m) TokenPricesAttributeKey ≫= as_token_prices.

Definition priced (w : W) (m : Ptr) : Prop := is_Some (price w m).

Definition input_price_of (w : W) (m : Ptr) : float64 :=
  match price w m with Some p => InputTokenPrice p | None => f0 end.

Definition total_price (w : W) (ms : list Ptr) : float64 :=
  foldl (λ s m, fadd s (input_price_of w m)) f0 ms.

Lemma input_price_priced w m : priced w m → input_price w m = Ok (input_price_of w m).
Proof.
  unfold priced, input_price, input_price_of, price.
  destruct (Get _ _ ≫= as_token_prices); [done|]. by intros [? ?].
Qed.

Lemma input_price_unpriced w m : ¬ priced w m → ∃ why, input_price w m = Panic why.
Proof.
  unfold priced, input_price, price. destruct (Get _ _ ≫= as_token_prices); [|eauto].
  intros []. eauto.
Qed.

Lemma foldM_priced {A} (g : A → Ptr → float64 → A) w ms a :
  Forall (priced w) ms →
  foldM (λ s m, price ← input_price w m; Ok (g s m price)) ms a =
    Ok (foldl (λ s m, g s m (input_price_of w m)) a ms).
Proof.
  intros Hms. revert a. induction Hms as [|m ms Hm _ IH]; intros a; simpl; [done|].
  rewrite input_price_priced by done. simpl. apply IH.
Qed.

Lemma foldM_unpriced {A} (g : A → Ptr → float64 → A) w ms a m :
  m ∈ ms → ¬ priced w m →
  ∃ why, foldM (λ s m, price ← input_price w m; Ok (g s m price)) ms a = Panic why.
Proof.
  intros Hin Hm. revert a. induction ms as [|m0 ms IH]; intros a; [set_solver|]. simpl.
  destruct (decide (priced w m0)) as [Hp|Hp].
  - rewrite input_price_priced by done. simpl. apply IH. set_solver.
  - destruct (input_price_unpriced w m0 Hp) as [why ->]. eauto.
Qed.

Lemma Cost_scores_many w ms :
  (∀ m, ms ≠ [m]) →
  Cost_scores w ms = (sumPrices ← sum_prices w ms;
    if feq sumPrices f0 then Ok (score_all f1 ms)
    else foldM (λ s m, price ← input_price w m;
                       Ok (<[m := fsub f1 (fdiv price sumPrices)]> s)) ms ∅).
Proof. destruct ms as [|m [|m' l]]; intros H; [done|by destruct (H m)|done]. Qed.

Lemma cost_scores_priced w ms :
  (∀ m, ms ≠ [m]) → Forall (priced w) ms →
  ∃ sc, Cost_scores w ms = Ok sc ∧ ∀ m, sc !! m =
    if decide (m ∈ ms)
    then Some (if feq (total_price w ms) f0 then f1
               else fsub f1 (fdiv (input_price_of w m) (total_price w ms)))
    else None.
Proof.
  intros Hl Hp. rewrite (Cost_scores_many _ _ Hl). unfold sum_prices.
  rewrite (foldM_priced (λ s _ p, fadd s p)) by done. simpl. fold (total_price w ms).
  destruct (feq (total_price w ms) f0).
  - eexists. split; [done|]. intros m. apply lookup_score_all.
  - rewrite (foldM_priced (λ s m p, <[m := fsub f1 (fdiv p (total_price w ms))]> s)) by done.
    eexists. split; [done|]. intros m.
    by rewrite (lookup_foldl_insert (λ m, fsub f1 (fdiv (input_price_of w m) (total_price w ms)))).
Qed.

Lemma cost_scores_unpriced w ms :
  (∀ m, ms ≠ [m]) → Exists (λ m, ¬ priced w m) ms → ∃ why, Cost_scores w ms = Panic why.
Proof.
  intros Hl (m & Hin & Hm)%Exists_exists. rewrite (Cost_scores_many _ _ Hl). unfold sum_prices.
  destruct (foldM_unpriced (λ s _ p, fadd s p) w ms f0 m Hin Hm) as [why ->]. eauto.
Qed.

(** The cost scorer on all branches. A single candidate scores one
    half; otherwise, when every candidate has prices, each scores 1 when they
    are all free and 1 minus its share of the total input price when not,
    and a candidate without prices makes the scorer panic. *)
Theorem cost_scorer_spec w ms :
  match ms with
  | [m] => Cost_scores w ms = Ok {[m := f_half]}
  | _ =>
      (Forall (priced w) ms →
       ∃ sc, Cost_scores w ms = Ok sc ∧ ∀ m, sc !! m =
         if decide (m ∈ ms)
         then Some (if feq (total_price w ms) f0 then f1
                    else fsub f1 (fdiv (input_price_of w m) (total_price w ms)))
         else None) ∧
      (Exists (λ m, ¬ priced w m) ms → ∃ why, Cost_scores w ms = Panic why)
  end.
Proof.
  destruct ms as [|m [|m' ms]]; [|done|];
    (split; [by apply cost_scores_priced|by apply cost_scores_unpriced]).
Qed.

(** *** The in-flight requests scorer *)

Lemma count_range_spec w ms :
  Forall (λ m, in_int64 (inflightRequestCount w m)) ms → ms ≠ [] →
  let mm := count_range w ms in
  (∃ m, m ∈ ms ∧ inflightRequestCount w m = mm.1) ∧
  (∃ m, m ∈ ms ∧ inflightRequestCount w m = mm.2) ∧
  Forall (λ m, mm.1 ≤ inflightRequestCount w m ≤ mm.2)%Z ms.
Proof.
  unfold count_range. intros Hb Hne. induction ms as [|m ms IH] using rev_ind; [done|].
  clear Hne. apply Forall_app in Hb as [Hb Hm]. inversion_clear Hm as [|? ? Hm' _].
  rewrite foldl_app. simpl. destruct (decide (ms = [])) as [->|Hne].
  { simpl. unfold in_int64 in Hm'. set (c := inflightRequestCount w m) in *.
    assert ((if (c <? max_int64)%Z then c else max_int64) = c) as Hmin
      by (destruct (Z.ltb_spec c max_int64); lia).
    assert ((if (min_int64 <? c)%Z then c else min_int64) = c) as Hmax
      by (destruct (Z.ltb_spec min_int64 c); lia).
    rewrite Hmin, Hmax. split; [|split]; [exists m; set_solver..|].
    repeat constructor; unfold c; lia. }
  destruct (IH Hb Hne) as ((m1 & Hm1 & E1) & (m2 & Hm2 & E2) & Hall).
  destruct (foldl _ _ ms) as [mn mx]. simpl in *. split; [|split].
  - destruct (Z.ltb_spec (inflightRequestCount w m) mn); [exists m|exists m1]; set_solver.
  - destruct (Z.ltb_spec mx (inflightRequestCount w m)); [exists m|exists m2]; set_solver.
  - apply Forall_app. split.
    + eapply Forall_impl; [exact Hall|]. intros m' Hm''. simpl in *.
      destruct (Z.ltb_spec (inflightRequestCount w m) mn),
        (Z.ltb_spec mx (inflightRequestCount w m)); lia.
    + repeat constructor; destruct (Z.ltb_spec (inflightRequestCount w m) mn),
        (Z.ltb_spec mx (inflightRequestCount w m)); lia.
Qed.

(** The in-flight scorer prefers idle models. For any non-empty list of
    candidates with fewer than 2^53 requests in flight each, every candidate
    gets a score; one with the fewest requests gets exactly 1, and one with
    the most gets exactly 0 unless all have the same number. *)
Theorem inflight_scorer_extremes w ms m :
  Forall (λ m, 0 ≤ inflightRequestCount w m < 2 ^ 53)%Z ms → m ∈ ms →
  is_Some (Inflight_scores w ms !! m) ∧
  (Forall (λ m', inflightRequestCount w m ≤ inflightRequestCount w m')%Z ms →
   Inflight_scores w ms !! m = Some f1) ∧
  (Forall (λ m', inflightRequestCount w m' ≤ inflightRequestCount w m)%Z ms →
   Exists (λ m', inflightRequestCount w m' ≠ inflightRequestCount w m) ms →
   Inflight_scores w ms !! m = Some f0).
Proof.
  intros Hb Hin. assert (ms ≠ []) as Hne by (intros ->; by apply not_elem_of_nil in Hin).
  assert (Forall (λ m, in_int64 (inflightRequestCount w m)) ms) as Hb'.
  { eapply Forall_impl; [exact Hb|]. intros m' Hm'. simpl in Hm'.
    unfold in_int64, min_int64, max_int64, two63. lia. }
  destruct (count_range_spec w ms Hb' Hne) as ((m1 & Hm1 & E1) & (m2 & Hm2 & E2) & Hall).
  unfold Inflight_scores. destruct (count_range w ms) as [mn mx]. simpl in *.
  rewrite Forall_forall in Hb, Hall.
  pose proof (Hb _ Hm1) as B1. pose proof (Hb _ Hm2) as B2. pose proof (Hall _ Hin) as Hm.
  rewrite (lookup_foldl_insert (λ m, if (mx =? mn)%Z then f1 else
    fdiv (f_of_Z (wrap64 (mx - inflightRequestCount w m))) (f_of_Z (wrap64 (mx - mn))))).
  rewrite decide_True by done.
  assert (∀ z, (0 ≤ z < 2 ^ 53)%Z → wrap64 z = z) as Hw
    by (intros; apply wrap64_small; unfold in_int64, min_int64, max_int64, two63; lia).
  rewrite !Hw by lia. split_and!.
  - by destruct (mx =? mn)%Z.
  - intros Hmin. rewrite Forall_forall in Hmin. pose proof (Hmin _ Hm1).
    assert (inflightRequestCount w m = mn) as -> by lia.
    destruct (Z.eqb_spec mx mn); [done|].
    destruct (f_of_Z_finite (mx - mn)) as (mm & e & ->); [lia|]. by rewrite fdiv_self.
  - intros Hmax (m' & Hm' & Hneq)%Exists_exists. rewrite Forall_forall in Hmax.
    pose proof (Hmax _ Hm2). pose proof (Hall _ Hm').
    assert (inflightRequestCount w m = mx) as Heq by lia. rewrite Heq in *.
    destruct (Z.eqb_spec mx mn); [lia|]. rewrite Z.sub_diag.
    destruct (f_of_Z_finite (mx - mn)) as (mm & e & ->); [lia|]. done.
Qed.

(** *** Scores are shares *)

(** What the pipeline wants of a scorer: every candidate has a score between 0
    and 1, which clamping leaves alone, and a better candidate's is not less. *)
Definition rates (ms : list Ptr) (better : Ptr → Ptr → Prop) (scores : gmap Ptr float64) : Prop :=
  ∀ m, m ∈ ms → ∃ x, scores !! m = Some x ∧ fle f0 x = true ∧ fle x f1 = true ∧ enforceScoreRange x = x ∧
    ∀ m' x', m' ∈ ms → scores !! m' = Some x' → better m m' → fle x' x = true.

Lemma rates_shares ms better scores f :
  (∀ m, m ∈ ms → scores !! m = Some (f m)) →
  (∀ m, m ∈ ms → amount (f m) ∧ (units (f m) ≤ units f1)%Z) →
  (∀ m m', m ∈ ms → m' ∈ ms → better m m' → fle (f m') (f m) = true) → rates ms better scores.
Proof.
  intros Hs Hf Hb m Hm. exists (f m). destruct (Hf m Hm) as [Ha H1]. destruct amount_f1 as [Hf1 _].
  assert (fle f0 (f m) = true) as H0 by (apply fle_units; [done|done|by apply units_nonneg]).
  assert (fle (f m) f1 = true) as H1' by (by apply fle_units).
  split_and!; [by apply Hs|done|done| |].
  - unfold enforceScoreRange. rewrite fle_not_flt in H0, H1' by (done || by apply amount_not_nan).
    apply negb_true_iff in H0, H1'. by rewrite H0, H1'.
  - intros m' x' Hm' Hx' Hbm. rewrite Hs in Hx' by done. injection Hx' as <-. by apply Hb.
Qed.

Lemma total_price_above w ms :
  Forall (λ m, amount (input_price_of w m)) ms →
  (amount (total_price w ms) ∨ total_price w ms = S754_infinity false) ∧
  ∀ m, m ∈ ms → fle (input_price_of w m) (total_price w ms) = true.
Proof.
  unfold total_price. intros Hms. induction ms as [|m ms IH] using rev_ind.
  { split; [by left|]. intros m Hm. by apply not_elem_of_nil in Hm. }
  apply Forall_app in Hms as [Hms Hm%Forall_inv]. rewrite foldl_app. simpl.
  destruct (IH Hms) as [Ht Hall].
  destruct (fadd_above _ _ Hm Ht) as (Ht' & Hle & Hle'). split; [done|].
  intros m' [Hm'|Hm']%elem_of_app; [|by apply list_elem_of_singleton in Hm' as ->].
  eapply fle_trans; [by apply Hall|done].
Qed.

(** One minus the share [p] has of the total [t]. *)
Definition unshared (t p : float64) : float64 := if feq t f0 then f1 else fsub f1 (fdiv p t).

Lemma unshared_one t p : t = S754_infinity false → amount p → unshared t p = f1.
Proof. intros -> Hp. by destruct p as [[]|[]| |[] m e]. Qed.

Lemma unshared_ok t p :
  amount t ∨ t = S754_infinity false → amount p → fle p t = true →
  amount (unshared t p) ∧ (units (unshared t p) ≤ units f1)%Z.
Proof.
  intros [Ht|Ht] Hp Hle; [|rewrite unshared_one by done; by destruct amount_f1].
  apply fle_units in Hle; [|done..]. unfold unshared.
  destruct (feq t f0) eqn:E; [by destruct amount_f1|]. pose proof (units_pos t Ht E).
  destruct (fdiv_share p t) as [Hs H1]; [done..|]. by apply fsub_share.
Qed.

Lemma unshared_mono t p p' :
  amount t ∨ t = S754_infinity false → amount p → amount p' → fle p' t = true → fle p p' = true →
  fle (unshared t p') (unshared t p) = true.
Proof.
  intros [Ht|Ht] Hp Hp' Hle' Hle; [|by rewrite !unshared_one].
  apply fle_units in Hle, Hle'; [|done..]. unfold unshared.
  destruct (feq t f0) eqn:E; [by apply fle_refl|]. pose proof (units_pos t Ht E).
  assert (units p ≤ units t)%Z as Hlt by lia.
  destruct (fdiv_share p t) as [Hs H1]; [done..|]. destruct (fdiv_share p' t) as [Hs' H1']; [done..|].
  apply fsub_mono; [done..| |done]. apply fle_units; [done..|]. by apply fdiv_mono.
Qed.

Lemma cost_scores_rate w ms :
  Forall (λ m, priced w m ∧ amount (input_price_of w m)) ms →
  ∃ sc, Cost_scores w ms = Ok sc ∧
    rates ms (λ m m', fle (input_price_of w m) (input_price_of w m') = true) sc.
Proof.
  intros [Hp Ha]%Forall_and. assert ((∃ m, ms = [m]) ∨ ∀ m, ms ≠ [m]) as [[m0 ->]|Hn]
    by (destruct ms as [|m [|m' ms]]; [right|left|right]; eauto; done).
  - eexists. split; [done|]. apply (rates_shares _ _ _ (λ _, f_half)).
    + intros m ->%list_elem_of_singleton. apply lookup_singleton_eq.
    + intros _ _. split; [by vm_compute; intuition|]. by apply fle_units.
    + intros _ _ _ _ _. by apply fle_refl.
  - destruct (cost_scores_priced w ms) as (sc & E & Hsc); [done..|].
    exists sc. split; [done|]. destruct (total_price_above w ms Ha) as [Ht Hle]. rewrite Forall_forall in Ha.
    apply (rates_shares _ _ _ (λ m, unshared (total_price w ms) (input_price_of w m))).
    + intros m Hm. by rewrite Hsc, decide_True.
    + intros m Hm. apply unshared_ok; auto.
    + intros m m' Hm Hm' Hb. apply unshared_mono; auto.
Qed.

Lemma inflight_scores_rate w ms :
  Forall (λ m, 0 ≤ inflightRequestCount w m ≤ max_int64)%Z ms →
  rates ms (λ m m', inflightRequestCount w m ≤ inflightRequestCount w m')%Z (Inflight_scores w ms).
Proof.
  intros Hb m0 Hm0. revert m0 Hm0. destruct ms as [|m1 ms]; [by intros m0 ?%not_elem_of_nil|].
  assert (Forall (λ m, in_int64 (inflightRequestCount w m)) (m1 :: ms)) as Hb'.
  { eapply Forall_impl; [exact Hb|]. intros m Hm. simpl in Hm. unfold in_int64, min_int64, max_int64, two63 in *. lia. }
  destruct (count_range_spec w _ Hb' ltac:(done)) as ((a & Ha & Ea) & (b & Hbm & Eb) & Hall).
  unfold Inflight_scores. destruct (count_range w (m1 :: ms)) as [mn mx]. simpl in Ea, Eb, Hall.
  rewrite Forall_forall in Hb, Hall. pose proof (Hb _ Ha). pose proof (Hb _ Hbm).
  assert (∀ z, (0 ≤ z ≤ max_int64)%Z → wrap64 z = z) as Hw
    by (intros; apply wrap64_small; unfold in_int64, min_int64, max_int64, two63 in *; lia).
  apply (rates_shares _ _ _ (λ m, if (mx =? mn)%Z then f1 else
    fdiv (f_of_Z (wrap64 (mx - inflightRequestCount w m))) (f_of_Z (wrap64 (mx - mn))))).
  - intros m Hm. by rewrite (lookup_foldl_insert (λ m, if (mx =? mn)%Z then f1 else
      fdiv (f_of_Z (wrap64 (mx - inflightRequestCount w m))) (f_of_Z (wrap64 (mx - mn))))), decide_True.
  - intros m Hm. destruct (Z.eqb_spec mx mn); [by destruct amount_f1|].
    specialize (Hb _ Hm). specialize (Hall _ Hm). simpl in *. rewrite !Hw by lia.
    apply fdiv_share; [apply f_of_Z_amount; lia|apply f_of_Z_amount; lia|apply f_of_Z_pos; lia|apply f_of_Z_mono; lia].
  - intros m m' Hm Hm' Hle. destruct (Z.eqb_spec mx mn); [by apply fle_refl|].
    pose proof (Hb _ Hm). pose proof (Hall _ Hm). pose proof (Hb _ Hm'). pose proof (Hall _ Hm'). simpl in *.
    rewrite !Hw by lia.
    apply fdiv_mono; [apply f_of_Z_amount; lia|apply f_of_Z_amount; lia|apply f_of_Z_amount; lia
      |apply f_of_Z_pos; lia|apply f_of_Z_mono; lia].
Qed.

(** C24: scores are shares, and they rank the candidates. When the input
    prices are non-negative numbers the cost scorer gives every candidate a
    score between 0 and 1, and the cheaper of two candidates never the lower
    one - also for many candidates, tiny and huge prices, and a sum of prices
    that overflows to infinity, rounding included. The in-flight scorer does
    the same for the idler of two candidates, whatever their counts, which are
    non-negative 64-bit integers. *)
Theorem scores_are_shares w ms :
  (Forall (λ m, priced w m ∧ amount (input_price_of w m)) ms →
   ∃ sc, Cost_scores w ms = Ok sc ∧
     rates ms (λ m m', fle (input_price_of w m) (input_price_of w m') = true) sc) ∧
  (Forall (λ m, 0 ≤ inflightRequestCount w m ≤ max_int64)%Z ms →
   rates ms (λ m m', inflightRequestCount w m ≤ inflightRequestCount w m')%Z (Inflight_scores w ms)).
Proof. split; [apply cost_scores_rate|apply inflight_scores_rate]. Qed.

(** *** Session affinity *)

Context `{SC : !SessionCache W}.

Lemma lookup_session_scores w name ms m :
  SessionAffinity.session_scores w name ms !! m =
    if decide (m ∈ ms)
    then Some (if String.eqb (GetName w m) name then f1 else f0) else None.
Proof.
  unfold SessionAffinity.session_scores.
  by rewrite (lookup_foldl_insert (λ m, if String.eqb (GetName w m) name
    then SessionAffinity.preferredScore else SessionAffinity.noOpinionScore)).
Qed.

(** Sessions stick. After the response of a request has been processed,
    the session id it carries back (the client's own, or a fresh one) leads
    the next request that presents it to the model that answered: that
    model scores 1 and every other candidate 0. *)
Theorem session_sticks s w cs response w' cs' response' cs2 request ms :
  SessionAffinity.ProcessResponse s w cs response = Ok (w', cs', response', None) →
  body_string (rmsg response) "model" ≠ "" →
  ReadCycleStateKey as_string cs SessionAffinity.cycleStateSessionIDKey ≠ inl "" →
  Headers request !! SessionAffinity.sessionIDKey s =
    Headers (rmsg response') !! SessionAffinity.sessionIDKey s →
  ∃ w2 cs3 sc, SessionAffinity.runScore s w' cs2 request ms = Ok (w2, cs3, request, sc) ∧
    ∀ m, sc !! m =
      if decide (m ∈ ms)
      then Some (if String.eqb (GetName w2 m) (body_string (rmsg response) "model")
                 then f1 else f0)
      else None.
Proof.
  unfold SessionAffinity.ProcessResponse. intros H Hmodel Hcs Hhdr.
  change SessionAffinity.responseModelField with "model" in H.
  destruct (String.eqb_spec (body_string (rmsg response) "model") "") as [|_]; [done|].
  set (p := match ReadCycleStateKey as_string cs _ with inl i => _ | inr _ => _ end) in H.
  destruct p as [sid w1] eqn:Ep. injection H as <- <- <-.
  assert (sid ≠ "") as Hsid.
  { unfold p in Ep. destruct (ReadCycleStateKey _ _ _); [congruence|]. intros ->.
    apply (uuid_New_nonempty w). by rewrite Ep. }
  simpl in Hhdr. rewrite Headers_SetHeader, lookup_insert_eq in Hhdr.
  unfold SessionAffinity.runScore. rewrite Hhdr. simpl.
  destruct (String.eqb_spec sid ""); [done|].
  set (c := Name (SessionAffinity.typedName s)) in *.
  pose proof (lru_Get_Add c sid (body_string (rmsg response) "model")
    (M_session_affinity_cache_size
       (lru_Len c (lru_Add c sid (body_string (rmsg response) "model") w1))) w1) as Hget.
  destruct (lru_Get c sid _) as [prev w2]. simpl in Hget. subst prev.
  eexists _, _, _. split; [reflexivity|]. intros m. apply lookup_session_scores.
Qed.
End facts.
