(* ===== verification/SelectorProofs.v ===== *)
(** Model selection put together: what a pipeline of the repository's own
    filter, scorers and picker selects, which errors the proxy sees when it
    selects nothing, and what the extractors do to it. *)

From Stdlib Require Import String.
From S2P Require Import Prelude GoFloat GoValue Envoy Message World Datalayer Extractors.
From S2P Require Import ModelSelector Pickers SelectorPlugins.

Local Open Scope string_scope.
Local Open Scope list_scope.

(** ** The score a pipeline gives *)

Section totals.
Context {W : Type} `{TD : TDigest} `{WW : !World W} `{DS : !Datastore W} `{MO : MapOrder}.

(** The states of a selection: reading the clock and recording metrics stay
    among them, and in all of them the models are the same. *)
Record steady (I : W → Prop) : Prop :=
  { steady_now w : I w → I (now w).2;
    steady_record m w : I w → I (record m w);
    steady_models w w' p : I w → I w' →
      GetName w' p = GetName w p ∧ GetAttributes w' p = GetAttributes w p }.

Variables (I : W → Prop) (HI : steady I) (rq : InferenceRequest) (candidates : list Ptr).

(** For this request the scorer always returns the scores [f] gives for the
    candidates that are left. *)
Definition scores_by (s : Scorer W) (f : list Ptr → gmap Ptr float64) : Prop :=
  ∀ w cs ms, I w → ms ⊆ candidates →
    ∃ w' cs', runScore s w cs rq ms = Ok (w', cs', rq, f ms) ∧ I w' ∧
      dom (f ms) ⊆ list_to_set ms.

(** One more clamped, weighted score. *)
Definition add_weighted (ms : list Ptr) (p : Ptr) (acc : float64)
    (sf : WeightedScorer W * (list Ptr → gmap Ptr float64)) : float64 :=
  match sf.2 ms !! p with
  | Some x => fadd acc (fmul (enforceScoreRange x) (Weight sf.1))
  | None => acc
  end.

(** The weighted sum of a model's scores, in the order of the scorers. *)
Definition total (sfs : list (WeightedScorer W * (list Ptr → gmap Ptr float64)))
    (ms : list Ptr) (p : Ptr) : float64 :=
  foldl (add_weighted ms p) f0 sfs.

Definition names_distinct (w : W) (ms : list Ptr) : Prop := NoDup (GetName w <$> ms).

Lemma names_distinct_inj w ms p q :
  names_distinct w ms → p ∈ ms → q ∈ ms → GetName w p = GetName w q → p = q.
Proof.
  intros Hnd Hp Hq Heq. apply list_elem_of_lookup in Hp as [i Hi].
  apply list_elem_of_lookup in Hq as [j Hj].
  assert (i = j) as ->; [|congruence].
  apply (NoDup_lookup _ i j (GetName w p) Hnd); rewrite list_lookup_fmap, ?Hi, ?Hj; simpl; congruence.
Qed.

Lemma names_distinct_sublist w l1 l2 :
  sublist l1 l2 → names_distinct w l2 → names_distinct w l1.
Proof.
  unfold names_distinct. induction 1 as [|x l1 l2 Hs IH|x l1 l2 Hs IH]; simpl; [done| |].
  - intros [Hx Hnd]%NoDup_cons. apply NoDup_cons. split; [|auto]. contradict Hx.
    apply list_elem_of_fmap in Hx as (y & -> & Hy). apply list_elem_of_fmap_2.
    by apply (elem_of_submseteq l1); [|apply sublist_submseteq].
  - intros [_ Hnd]%NoDup_cons. auto.
Qed.

(** Adding a map of scores does not depend on the order it is visited in. *)
Lemma apply_scores_lookup w wt sc ms (m : gmap string ScoredModel) p :
  names_distinct w ms → dom sc ⊆ list_to_set ms → p ∈ ms →
  apply_scores w wt sc m !! GetName w p =
    match sc !! p with
    | Some x => add_score (fmul (enforceScoreRange x) wt) <$> m !! GetName w p
    | None => m !! GetName w p
    end.
Proof.
  intros Hnd Hdom Hp. unfold apply_scores.
  assert (∀ (l : list (Ptr * float64)) (m : gmap string ScoredModel),
    (∀ q x, (q, x) ∈ l → q ∈ ms) → NoDup l.*1 →
    foldl (λ m ps, alter (add_score (fmul (enforceScoreRange ps.2) wt)) (GetName w ps.1) m) m l
      !! GetName w p =
    match (list_to_map l : gmap Ptr float64) !! p with
    | Some x => add_score (fmul (enforceScoreRange x) wt) <$> m !! GetName w p
    | None => m !! GetName w p
    end) as Hl.
  { clear m. induction l as [|[q x] l IH]; intros m Hms Hl; simpl; [done|].
    apply NoDup_cons in Hl as [Hni Hl].
    rewrite IH by (done || intros; eapply Hms; by right).
    destruct (decide (q = p)) as [->|Hne].
    - rewrite not_elem_of_list_to_map_1 by done. by rewrite lookup_insert_eq, lookup_alter_eq.
    - rewrite lookup_insert_ne, lookup_alter_ne; [done| |done].
      intros Heq. apply Hne. eapply names_distinct_inj; [done|eapply Hms; by left|done..]. }
  rewrite Hl.
  - by rewrite list_to_map_go_range.
  - intros q x Hq%elem_of_go_range. apply elem_of_dom_2 in Hq. set_solver.
  - apply NoDup_fst_go_range.
Qed.

Lemma steady_distinct w w' ms : I w → I w' → names_distinct w ms → names_distinct w' ms.
Proof using HI.
  unfold names_distinct. intros Hw Hw'.
  rewrite (list_fmap_ext (GetName w') (GetName w)); [done|]. intros _ p _. by apply HI.
Qed.

Lemma steady_record_since ext tn t w : I w → I (record_since ext tn t w).
Proof using HI.
  intros Hw. unfold record_since. apply HI in Hw. destruct (now w) as [t' w']. by apply HI.
Qed.

Lemma runScorers_totals sfs w cs ms (m : gmap string ScoredModel) acc :
  I w → ms ⊆ candidates → names_distinct w ms →
  Forall (λ sf, scores_by (ws_Scorer sf.1) sf.2) sfs →
  (∀ p, p ∈ ms → m !! GetName w p = Some {| sm_Model := p; Score := acc p |}) →
  ∃ w' cs' m', runScorers sfs.*1 w cs rq ms m = Ok (w', cs', rq, m') ∧ I w' ∧
    dom m' = dom m ∧
    ∀ p, p ∈ ms → m' !! GetName w p =
      Some {| sm_Model := p; Score := foldl (add_weighted ms p) (acc p) sfs |}.
Proof using HI.
  intros Hw Hms Hnd Hsfs. revert w Hw cs m acc Hnd.
  induction Hsfs as [|[s f] sfs Hs _ IH]; intros w Hw cs m acc Hnd Hm; simpl.
  { exists w, cs, m. by split_and!. }
  pose proof (steady_now I HI w Hw) as Hw0. destruct (now w) as [t w0]. simpl in Hw0.
  destruct (Hs w0 cs ms Hw0 Hms) as (w1 & cs1 & E1 & Hw1 & Hdom). simpl in E1. rewrite E1. simpl.
  pose proof (steady_record_since scorerExtensionPoint (s_name (ws_Scorer s)) t w1 Hw1) as Hw2.
  set (w2 := record_since _ _ _ w1) in *.
  assert (∀ p, GetName w2 p = GetName w p) as Hn by (intros p; by apply HI).
  pose proof (steady_distinct _ _ _ Hw Hw2 Hnd) as Hnd2.
  destruct (IH w2 Hw2 cs1 (apply_scores w2 (Weight s) (f ms) m)
    (λ p, add_weighted ms p (acc p) (s, f)) Hnd2) as (w3 & cs3 & m3 & E3 & Hw3 & Hd3 & Hm3).
  { intros p Hp. rewrite (apply_scores_lookup w2 _ _ ms) by done. rewrite Hn, Hm by done.
    unfold add_weighted. simpl. by destruct (f ms !! p). }
  exists w3, cs3, m3. split; [done|]. split; [done|]. split.
  - rewrite Hd3. unfold apply_scores. generalize (go_range (f ms)). intros l. clear.
    revert m. induction l as [|x l IH]; intros m; simpl; [done|]. by rewrite IH, dom_alter_L.
  - intros p Hp. rewrite <- Hn. by rewrite Hm3.
Qed.

Lemma init_scores_lookup w ms p :
  names_distinct w ms → p ∈ ms →
  init_scores w ms !! GetName w p = Some {| sm_Model := p; Score := f0 |}.
Proof.
  unfold init_scores, names_distinct. induction ms as [|q ms IH] using rev_ind; [set_solver|].
  rewrite fmap_app, foldl_app. simpl. intros Hnd%NoDup_app Hp. destruct Hnd as (Hnd & Hd & _).
  apply elem_of_app in Hp as [Hp|Hp%list_elem_of_singleton]; [|subst; by rewrite lookup_insert_eq].
  rewrite lookup_insert_ne; [by apply IH|]. intros Heq. apply (Hd (GetName w p)); [|set_solver].
  by apply list_elem_of_fmap_2.
Qed.

Lemma init_scores_dom w ms : dom (init_scores w ms) = list_to_set (GetName w <$> ms).
Proof.
  unfold init_scores. induction ms as [|q ms IH] using rev_ind; [done|].
  rewrite foldl_app, fmap_app, list_to_set_app_L. simpl. rewrite dom_insert_L, IH. set_solver.
Qed.

(** The list the picker is given: each candidate once, with its total. *)
Lemma scored_list_spec w ms (m : gmap string ScoredModel) tot :
  dom m = list_to_set (GetName w <$> ms) →
  (∀ p, p ∈ ms → m !! GetName w p = Some {| sm_Model := p; Score := tot p |}) →
  ∀ sm, sm ∈ (go_range m).*2 ↔ ∃ p, p ∈ ms ∧ sm = {| sm_Model := p; Score := tot p |}.
Proof.
  intros Hd Hm sm. rewrite list_elem_of_fmap. split.
  - intros ([n sm'] & -> & Hin%elem_of_go_range). simpl.
    pose proof (elem_of_dom_2 _ _ _ Hin) as Hn. rewrite Hd in Hn.
    apply elem_of_list_to_set, list_elem_of_fmap in Hn as (p & -> & Hp).
    exists p. split; [done|]. rewrite Hm in Hin by done. congruence.
  - intros (p & Hp & ->). exists (GetName w p, {| sm_Model := p; Score := tot p |}).
    split; [done|]. apply elem_of_go_range. by apply Hm.
Qed.

(** ** The repository's pipeline *)

Context `{RD : !Rand W}.

Definition group_pipeline (fname pname : string) (ss : list (WeightedScorer W)) :
    ModelSelectorPipeline W :=
  {| filters := [ModelGroupFilter fname]; scorers := ss; picker := Some (MaxScorePicker pname) |}.

Lemma wanted_steady w w' p : I w → I w' → wanted w' rq p ↔ wanted w rq p.
Proof using HI.
  intros Hw Hw'. destruct (steady_models I HI w w' p Hw Hw') as [Hn Ha].
  unfold wanted. destruct (default ANil _); try done. by rewrite Hn, Ha.
Qed.

Lemma runPicker_max k w cs (m : gmap string ScoredModel) :
  (∃ sm, sm ∈ (go_range m).*2) → Forall not_nan (go_range m).*2 →
  ∀ p, picker p = Some (MaxScorePicker k) →
  ∃ w' sm, runPickerPlugin p w cs m =
      Ok (w', cs, Some {| TargetModel := Some (sm_Model sm) |}) ∧
    sm ∈ (go_range m).*2 ∧
    Forall (λ sm', fle (Score sm') (Score sm) = true) (go_range m).*2.
Proof.
  intros (sm0 & Hsm0) Hnan p Hp. unfold runPickerPlugin. rewrite Hp.
  destruct (now w) as [t w0].
  destruct (max_score_spec w0 cs (go_range m).*2) as (w1 & sm & E & Hin & Hmax);
    [by intros E; rewrite E in Hsm0; apply not_elem_of_nil in Hsm0|done|].
  simpl. rewrite E. simpl. eexists _, sm. split_and!; [done..|]. done.
Qed.

(** What the pipeline of the group filter, scorers that always answer and the
    max-score picker returns. *)
Lemma group_pipeline_best fname pname sfs w cs :
  I w → names_distinct w candidates →
  Forall (λ sf, scores_by (ws_Scorer sf.1) sf.2) sfs →
  Exists (wanted w rq) candidates →
  (∀ kept p, kept ⊆ candidates → p ∈ kept → is_nan (total sfs kept p) = false) →
  ∃ w' cs' p kept,
    Run (group_pipeline fname pname sfs.*1) w cs rq candidates =
      Ok (w', cs', rq, inl (Some {| TargetModel := Some p |})) ∧
    (∀ q, q ∈ kept ↔ q ∈ candidates ∧ wanted w rq q) ∧ p ∈ kept ∧
    Forall (λ q, fle (total sfs kept q) (total sfs kept p) = true) kept.
Proof using HI.
  intros Hw Hnd Hsfs (p0 & Hp0 & Hw0)%Exists_exists Hnan.
  pose proof (steady_now I HI w Hw) as Hwn. unfold Run, runFilterPlugins. simpl.
  destruct (now w) as [t w0]. simpl in *.
  pose proof (steady_distinct _ _ _ Hw Hwn Hnd) as Hnd0.
  destruct (group_filter_spec w0 rq candidates Hnd0) as [Hsub Hkept].
  assert (∀ q, q ∈ ModelGroup_select w0 rq candidates ↔ q ∈ candidates ∧ wanted w rq q) as Hkept'
    by (intros q; by rewrite Hkept, (wanted_steady w w0)).
  set (kept := ModelGroup_select w0 rq candidates) in *.
  assert (kept ⊆ candidates) as Hks by (intros q [? _]%Hkept; done).
  pose proof (steady_record_since filterExtensionPoint (f_name (ModelGroupFilter fname)) t w0 Hwn)
    as Hw1. simpl in Hw1. set (w1 := record_since _ _ _ w0) in *.
  assert (names_distinct w1 kept) as Hnd1.
  { apply (steady_distinct w0); [done..|]. by eapply names_distinct_sublist. }
  assert (p0 ∈ kept) as Hp0k by (by apply Hkept').
  destruct (runScorers_totals sfs w1 cs kept (init_scores w1 kept) (λ _, f0) Hw1 Hks Hnd1 Hsfs)
    as (w2 & cs2 & m2 & E2 & _ & Hd2 & Hm2); [intros p Hp; by apply init_scores_lookup|].
  rewrite init_scores_dom in Hd2.
  pose proof (scored_list_spec w1 kept m2 (total sfs kept) Hd2 Hm2) as Hlist.
  destruct (runPicker_max pname w2 cs2 m2) with (p := group_pipeline fname pname sfs.*1)
    as (w3 & sm & E3 & Hsm & Hmax); [| |done|].
  { eexists. apply Hlist. by exists p0. }
  { apply Forall_forall. intros sm (p & Hp & ->)%Hlist. by apply Hnan. }
  apply Hlist in Hsm as (p & Hp & ->). exists w3, cs2, p, kept. split_and!; [|done|done|].
  - clearbody kept. destruct kept as [|k0 ks]; [by apply not_elem_of_nil in Hp0k|].
    simpl. unfold runScorerPlugins, group_pipeline in *. simpl in *. rewrite E2. simpl. by rewrite E3.
  - apply Forall_forall. intros q Hq.
    apply (proj1 (Forall_forall _ _)) with (x := {| sm_Model := q; Score := total sfs kept q |}) in Hmax;
      [done|]. apply Hlist. by exists q.
Qed.

(** C6: the pipeline serves the best model the request asks for. With the
    model-group filter, any scorers that always answer and the max-score
    picker, whenever some candidate is one the request asks for and no total is
    NaN - as when weights are finite and scores between 0 and 1 - the pipeline
    returns a candidate the request asks for, and no other such candidate
    has a greater sum of clamped, weighted scores - whatever the order maps
    are visited in, the random draws and the state the scorers keep. *)
Theorem pipeline_serves_the_best fname pname sfs w cs :
  I w → names_distinct w candidates →
  Forall (λ sf, scores_by (ws_Scorer sf.1) sf.2) sfs →
  Exists (wanted w rq) candidates →
  (∀ kept p, kept ⊆ candidates → p ∈ kept → is_nan (total sfs kept p) = false) →
  ∃ w' cs' p kept,
    Run (group_pipeline fname pname sfs.*1) w cs rq candidates =
      Ok (w', cs', rq, inl (Some {| TargetModel := Some p |})) ∧
    (∀ q, q ∈ kept ↔ q ∈ candidates ∧ wanted w rq q) ∧ p ∈ kept ∧
    Forall (λ q, fle (total sfs kept q) (total sfs kept p) = true) kept.
Proof using HI. apply group_pipeline_best. Qed.

(** *** The repository's scorers are scorers of that kind *)

Lemma dom_foldl_insert (f : Ptr → float64) ms :
  dom (foldl (λ s m, <[m := f m]> s) (∅ : gmap Ptr float64) ms) ⊆ list_to_set ms.
Proof.
  intros p [x Hx]%elem_of_dom. rewrite lookup_foldl_insert in Hx.
  destruct (decide (p ∈ ms)); [set_solver|done].
Qed.

Lemma inflight_scores_by name w0 :
  I w0 → scores_by (InflightRequestsScorer name) (Inflight_scores w0).
Proof using HI.
  intros Hw0 w cs ms Hw _. exists w, cs.
  assert (∀ m, inflightRequestCount w m = inflightRequestCount w0 m) as Hc.
  { intros m. unfold inflightRequestCount. by rewrite (proj2 (steady_models I HI w0 w m Hw0 Hw)). }
  assert (count_range w ms = count_range w0 ms) as Hr.
  { unfold count_range. generalize (max_int64, min_int64). clear -Hc.
    induction ms as [|m ms IH]; intros mm; simpl; [done|]. by rewrite Hc, IH. }
  split; [|split; [done|]].
  - simpl. do 2 f_equal. unfold Inflight_scores. rewrite Hr. destruct (count_range w0 ms) as [mn mx].
    generalize (∅ : gmap Ptr float64). clear -Hc.
    induction ms as [|m ms IH]; intros s; simpl; [done|]. by rewrite Hc, IH.
  - unfold Inflight_scores. destruct (count_range w0 ms). apply dom_foldl_insert.
Qed.

Lemma costguard_scores_by (s : CostGuard.CostGuardScorer) :
  scores_by (CostGuard.scorer_of s) (score_all CostGuard.neutralScore).
Proof.
  intros w cs ms Hw _. exists w, cs. split; [done|]. split; [done|]. apply dom_foldl_insert.
Qed.

(** ** Sessions

    A selection among whose states the session's entry stays in the cache. *)

Context `{SC : !SessionCache W}.

(** What the cache [c] holds for the session [sid]. *)
Definition entry (c sid : string) (w : W) : option string := (lru_Get c sid w).1.

(** In the states [I], reading the clock, recording metrics and looking the
    session up neither expires nor evicts its entry. *)
Record keeps_entry (c sid : string) : Prop :=
  { keep_now w : I w → entry c sid (now w).2 = entry c sid w;
    keep_record m w : I w → entry c sid (record m w) = entry c sid w;
    keep_Get w : I w → I (lru_Get c sid w).2 ∧ entry c sid (lru_Get c sid w).2 = entry c sid w }.

Definition with_entry (c sid model : string) (w : W) : Prop := I w ∧ entry c sid w = Some model.
End totals.

Section sessions.
Context {W : Type} `{TD : TDigest} `{WW : !World W} `{DS : !Datastore W} `{MO : MapOrder}
  `{RD : !Rand W} `{SC : !SessionCache W}.
Variables (I : W → Prop) (HI : steady I) (rq : InferenceRequest) (candidates : list Ptr).

Lemma with_entry_steady c sid model : keeps_entry I c sid → steady (with_entry I c sid model).
Proof using HI.
  intros Hk. split.
  - intros w [Hw He]. split; [by apply HI|]. by rewrite (keep_now _ _ _ Hk).
  - intros m w [Hw He]. split; [by apply HI|]. by rewrite (keep_record _ _ _ Hk).
  - intros w w' p [Hw _] [Hw' _]. by apply HI.
Qed.

(** The scorer of session affinity, for a request of the session. *)
Lemma session_scores_by s sid model w0 :
  keeps_entry I (Name (SessionAffinity.typedName s)) sid → I w0 → sid ≠ "" →
  Headers rq !! SessionAffinity.sessionIDKey s = Some sid →
  scores_by (with_entry I (Name (SessionAffinity.typedName s)) sid model) rq candidates
    (SessionAffinity.scorer_of s) (SessionAffinity.session_scores w0 model).
Proof using HI.
  intros Hk Hw0 Hsid Hhdr w cs ms [Hw He] Hms. simpl. unfold SessionAffinity.runScore.
  rewrite Hhdr. simpl. destruct (String.eqb_spec sid ""); [done|].
  destruct (keep_Get _ _ _ Hk w Hw) as [Hw2 He2]. unfold entry in He, He2.
  destruct (lru_Get _ sid w) as [prev w2]. simpl in *. subst prev.
  eexists _, _. split.
  - do 2 f_equal. unfold SessionAffinity.session_scores.
    assert (∀ m, GetName (record M_session_affinity_cache_hits_total w2) m = GetName w0 m) as Hn.
    { intros m. apply (steady_models I HI); [done|by apply HI]. }
    generalize (∅ : gmap Ptr float64). clear -Hn.
    induction ms as [|m ms IH]; intros sc; simpl; [done|]. by rewrite Hn, IH.
  - pose proof (keep_record _ _ _ Hk M_session_affinity_cache_hits_total w2 Hw2) as Hr.
    unfold entry in Hr. split; [split; [by apply HI|by unfold entry; rewrite Hr]|].
    unfold SessionAffinity.session_scores. eapply dom_foldl_insert; exact HI.
Qed.

(** The entry that processing a response leaves. *)
Lemma processed_entry s w0 cs0 response w1 cs1 response' sid :
  SessionAffinity.ProcessResponse s w0 cs0 response = Ok (w1, cs1, response', None) →
  body_string (rmsg response) "model" ≠ "" →
  Headers (rmsg response') !! SessionAffinity.sessionIDKey s = Some sid →
  entry (Name (SessionAffinity.typedName s)) sid w1 = Some (body_string (rmsg response) "model").
Proof.
  unfold SessionAffinity.ProcessResponse. change SessionAffinity.responseModelField with "model".
  intros H Hmodel Hhdr. destruct (String.eqb_spec (body_string (rmsg response) "model") "") as [|_]; [done|].
  destruct (match ReadCycleStateKey as_string cs0 _ with inl i => _ | inr _ => _ end) as [sid' w'].
  injection H as <- <- <-. simpl in Hhdr. rewrite Headers_SetHeader, lookup_insert_eq in Hhdr.
  injection Hhdr as ->. unfold entry. apply lru_Get_Add.
Qed.

Lemma flt_strict x y : flt x y = true → is_nan x = false ∧ is_nan y = false ∧ fle y x = false.
Proof.
  intros H. assert (is_nan x = false ∧ is_nan y = false) as [Hx Hy]
    by (by apply flt_key in H as (? & ? & _)).
  split_and!; [done..|]. by rewrite fle_not_flt, H.
Qed.

(** One scorer's weighted score. *)
Definition weighted (wt x : float64) : float64 := fadd f0 (fmul (enforceScoreRange x) wt).

(** C35: sessions are served by the model that answered them. Let session
    affinity process a response that names its model, and let a request that
    asks for a group with that model carry back the session id that it put into
    the response's headers, later, while the cache still has the session's
    entry. Then a pipeline with session affinity as its scorer, at any weight by
    which 1 counts more than 0, selects the model that answered, whatever else
    the request may be served by. *)
Theorem sessions_are_served_by_their_model s w0 cs0 response w1 cs1 response' sid plug wt fname
    pname w cs p :
  SessionAffinity.ProcessResponse s w0 cs0 response = Ok (w1, cs1, response', None) →
  let model := body_string (rmsg response) "model" in
  let cache := Name (SessionAffinity.typedName s) in
  model ≠ "" → sid ≠ "" →
  Headers (rmsg response') !! SessionAffinity.sessionIDKey s = Some sid →
  Headers rq !! SessionAffinity.sessionIDKey s = Some sid →
  I w → keeps_entry I cache sid → entry cache sid w = entry cache sid w1 →
  names_distinct w candidates → p ∈ candidates → wanted w rq p → GetName w p = model →
  flt (weighted wt f0) (weighted wt f1) = true →
  ∃ w' cs',
    Run (group_pipeline fname pname [NewWeightedScorer plug (SessionAffinity.scorer_of s) wt])
      w cs rq candidates = Ok (w', cs', rq, inl (Some {| TargetModel := Some p |})).
Proof using HI.
  intros HP model cache Hmodel Hsid Hrsp Hrq Hw Hk Hent Hnd Hp Hwant Hname Hwt.
  pose proof (processed_entry _ _ _ _ _ _ _ _ HP Hmodel Hrsp) as He.
  fold cache in He. rewrite He in Hent. clear He.
  set (scs := SessionAffinity.session_scores w model).
  set (ws := NewWeightedScorer plug (SessionAffinity.scorer_of s) wt).
  assert (Htot : ∀ kept q, q ∈ kept → total [(ws, scs)] kept q =
    weighted wt (if String.eqb (GetName w q) model then f1 else f0)).
  { intros kept q Hq. unfold total, add_weighted, scs. simpl.
    by rewrite lookup_session_scores, decide_True. }
  destruct (group_pipeline_best _ (with_entry_steady cache sid model Hk) rq candidates fname pname
    [(ws, scs)] w cs) as (w' & cs' & p' & kept & E & Hkept & Hp' & Hmax); [done|done| | | |].
  - apply Forall_singleton. by apply session_scores_by.
  - apply Exists_exists. by exists p.
  - intros kept q _ Hq. rewrite Htot by done. apply flt_strict in Hwt as (? & ? & _).
    by destruct (String.eqb _ _).
  - exists w', cs'. replace p with p'; [exact E|].
    assert (p ∈ kept) as Hpk by by apply Hkept.
    rewrite Forall_forall in Hmax. specialize (Hmax p Hpk). rewrite !Htot in Hmax by done.
    rewrite Hname, String.eqb_refl in Hmax.
    destruct (String.eqb_spec (GetName w p') model) as [Hn|_].
    + apply (names_distinct_inj w candidates); [done|by apply Hkept|done|congruence].
    + apply flt_strict in Hwt as (_ & _ & Hwt). congruence.
Qed.
End sessions.

(** ** When nothing is selected *)

Section failures.
Context {W : Type} `{TD : TDigest} `{WW : !World W} `{DS : !Datastore W} `{MO : MapOrder}
  `{GS : GrpcStatus}.

Lemma runFilters_none fs w cs rq ms w' cs' rq' :
  runFilters fs w cs rq ms = Ok (w', cs', rq', []) →
  ∀ ss pk, ∃ cs'' rq'', Run {| filters := fs; scorers := ss; picker := pk |} w cs rq ms =
    Ok (w', cs'', rq'', inr (EError ErrCommon.ResourceExhausted "no models available after filtering")).
Proof. intros E ss pk. unfold Run, runFilterPlugins. simpl. rewrite E. simpl. eauto. Qed.

(** How a selection that finds no model fails. When the filters leave no
    candidate the error becomes an immediate response with HTTP status 429;
    when the store has no models at all the error is not one the handler can
    map: it ends the ext_proc stream with a gRPC error. *)
Theorem no_model_errors p w cs rq :
  store_ok w →
  (∀ w1 cs1 rq1, GetModels AllModelsPredicate w ≠ [] →
     runFilters (filters p) (now w).2 cs rq (GetModels AllModelsPredicate w) = Ok (w1, cs1, rq1, []) →
     ∃ w2 cs2 rq2 e, ModelSelector_ProcessRequest p w cs rq = Ok (w2, cs2, rq2, Some e) ∧
       BuildErrResponse e = inl (ImmediateResp 429 (s2b (error_text e)))) ∧
  (view w = ∅ →
     ∃ e e', ModelSelector_ProcessRequest p w cs rq = Ok (w, cs, rq, Some e) ∧
       BuildErrResponse e = inr e').
Proof.
  intros Hok. unfold ModelSelector_ProcessRequest. split.
  - intros w1 cs1 rq1 Hne E. destruct (GetModels AllModelsPredicate w) as [|m ms]; [done|].
    unfold Select. destruct (now w) as [t w0]. simpl in E.
    destruct p as [fs ss pk]. simpl in E.
    destruct (runFilters_none _ _ _ _ _ _ _ _ E ss pk) as (cs2 & rq2 & ->). simpl.
    by eexists _, _, _, _.
  - intros Hv. destruct (GetModels AllModelsPredicate w) as [|m ms] eqn:E.
    + by eexists _, _.
    + exfalso. assert (m ∈ GetModels AllModelsPredicate w) as Hin by (rewrite E; by left).
      apply (proj2 (GetModels_spec w AllModelsPredicate Hok)) in Hin as [[n Hc] _].
      destruct (current_view _ _ _ Hok Hc) as [_ Hn]. by rewrite Hv in Hn.
Qed.

(** C39: a request in flight brings a removed model back, without prices,
    and the cost scorer panics on it. Let a response arrive (or any event
    that names it) for a model the store no longer has, for instance because
    the models file was reloaded meanwhile: the request-metadata extractor
    creates the model again to publish its counts, so with any other model
    in the store the next selection that scores all of them by cost panics. *)
Theorem removed_model_crashes_cost_scorer `{GA : GoArch} e w events ghost other :
  store_ok w → ghost ≠ "" → RequestMetadata.mentions ghost events = true →
  view w !! ghost = None → is_Some (view w !! other) →
  let w' := (RequestMetadata.Extract e w events).2 in
  ∃ why, Cost_scores w' (GetModels AllModelsPredicate w') = Panic why.
Proof.
  intros Hok Hg Hm Hgone Hother w'.
  assert (store_ok w') as Hok' by (by apply RequestMetadata.Extract_ok).
  pose proof (RequestMetadata.Extract_attr e w events ghost Hok Hg) as Ha. rewrite Hm in Ha.
  pose proof (RequestMetadata.Extract_other_attr e w events ghost TokenPricesAttributeKey Hok
                ltac:(done)) as Hp.
  fold w' in Ha, Hp. unfold attr in Ha, Hp. rewrite Hgone in Hp. simpl in Hp.
  destruct (view w' !! ghost) as [a|] eqn:Ev; [|done]. simpl in Hp.
  destruct (view_current w' ghost Hok') as [p Hcp]; [by rewrite Ev|].
  destruct (view_current w' other Hok') as [q Hcq]; [by apply RequestMetadata.Extract_keeps|].
  destruct (current_view _ _ _ Hok' Hcp) as [Hnp Hvp].
  destruct (current_view _ _ _ Hok' Hcq) as [Hnq _].
  assert (p ≠ q) as Hpq.
  { intros ->. assert (ghost = other) as -> by congruence.
    rewrite Hgone in Hother. by destruct Hother. }
  destruct (GetModels_spec w' AllModelsPredicate Hok') as [_ Hin].
  assert (p ∈ GetModels AllModelsPredicate w') as Hpin by (apply Hin; eauto).
  assert (q ∈ GetModels AllModelsPredicate w') as Hqin by (apply Hin; eauto).
  apply cost_scores_unpriced.
  - intros m Em. rewrite Em in Hpin, Hqin. set_solver.
  - apply Exists_exists. exists p. split; [done|]. unfold priced, price, Get.
    rewrite Hvp in Ev. injection Ev as ->. rewrite Hp. by intros [].
Qed.
End failures.

(** ** The repository's plugins keep the laws of the selector *)

(** Random draws and the session cache are apart from the models. *)
Class RandStable (W : Type) `{TD : TDigest} `{!World W} `{!Datastore W} `{!Rand W} : Prop := {
  name_uint64n n (w : W) p : GetName (uint64n n w).2 p = GetName w p;
  name_Float64 (w : W) p : GetName (Float64 w).2 p = GetName w p
}.

Class SessionStable (W : Type) `{TD : TDigest} `{!World W} `{!Datastore W} `{!SessionCache W} :
    Prop := {
  name_lru_Get c k (w : W) p : GetName (lru_Get c k w).2 p = GetName w p
}.

Section lawful.
Context {W : Type} `{TD : TDigest} `{WW : !World W} `{DS : !Datastore W} `{MO : MapOrder}
  `{RD : !Rand W} `{MP : MathPow} `{PQ : PdqSort} `{SC : !SessionCache W}.
Context `{SS : !StoreStable W} `{RS : !RandStable W} `{SeS : !SessionStable W}.

Lemma shuffle_loop_names {A} i (w : W) (l : list A) : same_names w (shuffle_loop i w l).1.
Proof using RS.
  revert w l. induction i as [|i IH]; intros w l p; [done|]. cbn [shuffle_loop].
  pose proof (name_uint64n (Z.of_nat (S i) + 1) w p) as Hn.
  destruct (uint64n (Z.of_nat (S i) + 1) w) as [j w']. simpl in Hn. by rewrite IH.
Qed.

Lemma assign_keys_names (w : W) l : same_names w (assign_keys w l).1.
Proof using RS.
  revert w. induction l as [|m l IH]; intros w p; simpl; [done|].
  destruct (fle (Score m) f0).
  - pose proof (IH w p). by destruct (assign_keys w l).
  - pose proof (name_Float64 w p) as Hn. destruct (Float64 w) as [u w']. simpl in Hn.
    pose proof (IH w' p) as Hi. destruct (assign_keys w' l). simpl in *. congruence.
Qed.

Lemma first_model_in {A} (f : A → Ptr) (l l' : list A) m :
  l ≡ₚ l' → first_model (f <$> l) = Ok {| TargetModel := Some m |} → m ∈ f <$> l'.
Proof.
  intros Hp. destruct l as [|x l]; simpl; [done|]. intros [= <-]. rewrite <- Hp. by left.
Qed.

Lemma random_lawful_pick (w : W) cs sms w' cs' m :
  Random_Pick w cs sms = Ok (w', cs', Some {| TargetModel := Some m |}) →
  m ∈ sm_Model <$> sms ∧ same_names w w'.
Proof using RS.
  unfold Random_Pick. pose proof (ShuffleScoredModels_perm w sms) as Hp.
  pose proof (shuffle_loop_names (length sms - 1) w sms) as Hn.
  change (shuffle_loop _ w sms) with (ShuffleScoredModels w sms) in Hn.
  destruct (ShuffleScoredModels w sms) as [w1 l]. simpl in *. intros E.
  apply mbind_Ok in E as (r & Hr & [= <- <- ->]).
  split; [by eapply first_model_in|done].
Qed.

Lemma max_score_lawful_pick (w : W) cs sms w' cs' m :
  MaxScore_Pick w cs sms = Ok (w', cs', Some {| TargetModel := Some m |}) →
  m ∈ sm_Model <$> sms ∧ same_names w w'.
Proof using RS.
  unfold MaxScore_Pick. pose proof (ShuffleScoredModels_perm w sms) as Hp.
  pose proof (shuffle_loop_names (length sms - 1) w sms) as Hn.
  change (shuffle_loop _ w sms) with (ShuffleScoredModels w sms) in Hn.
  destruct (ShuffleScoredModels w sms) as [w1 l]. simpl in *. intros E.
  apply mbind_Ok in E as (r & Hr & [= <- <- ->]).
  split; [|done]. eapply first_model_in; [|done].
  etransitivity; [apply insertion_sort_perm|done].
Qed.

Lemma weighted_random_lawful_pick (w : W) cs sms w' cs' m :
  WeightedRandom_Pick w cs sms = Ok (w', cs', Some {| TargetModel := Some m |}) →
  m ∈ sm_Model <$> sms ∧ same_names w w'.
Proof using RS.
  unfold WeightedRandom_Pick. destruct (negb _); [apply random_lawful_pick|].
  pose proof (assign_keys_names w sms) as Hn. pose proof (assign_keys_models w sms) as Hm.
  destruct (assign_keys w sms) as [w1 l]. simpl in *. intros E.
  apply mbind_Ok in E as (r & Hr & [= <- <- ->]). split; [|done].
  rewrite <- Hm, <- list_fmap_compose.
  eapply (first_model_in (λ k, sm_Model (wm_model k))); [apply SortFunc_perm|exact Hr].
Qed.

Lemma session_lawful_scorer s : lawful_scorer (SessionAffinity.scorer_of s).
Proof using SS SeS.
  intros w cs rq ms w' cs' rq' sc. simpl. unfold SessionAffinity.runScore.
  destruct (String.eqb _ ""); [by intros [= <- <- <- <-]|].
  set (sid := default "" _). set (c := Name _). pose proof (name_lru_Get c sid w) as Hn.
  destruct (lru_Get c sid w) as [[prev|] w1]; simpl in Hn; intros [= <- <- <- <-] p;
    by rewrite name_record.
Qed.

(** The repository's own filter, scorers and pickers. *)
Inductive repository_plugin : Filter W + Scorer W + Picker W → Prop :=
| repo_model_group n : repository_plugin (inl (inl (ModelGroupFilter n)))
| repo_cost n : repository_plugin (inl (inr (CostScorer n)))
| repo_inflight n : repository_plugin (inl (inr (InflightRequestsScorer n)))
| repo_costguard s : repository_plugin (inl (inr (CostGuard.scorer_of s)))
| repo_session s : repository_plugin (inl (inr (SessionAffinity.scorer_of s)))
| repo_max_score n : repository_plugin (inr (MaxScorePicker n))
| repo_random n : repository_plugin (inr (RandomPicker n))
| repo_weighted n : repository_plugin (inr (WeightedRandomPicker n)).

Lemma repository_plugin_laws x :
  repository_plugin x →
  match x with
  | inl (inl f) => lawful_filter f
  | inl (inr s) => lawful_scorer s
  | inr k => lawful_picker k
  end.
Proof using SS RS SeS.
  destruct 1.
  - intros w cs rq ms w' cs' rq' ms' [= <- <- <- <-]. split; [|done].
    unfold ModelGroup_select. destruct (match default ANil _ with ANil => _ | _ => _ end); [|set_solver].
    repeat case_match; try set_solver.
    + unfold first_named. destruct (List.find _ ms) eqn:E; [|set_solver].
      apply find_some in E as [E _]. apply list_elem_of_In in E. set_solver.
    + intros m Hm. by apply list_elem_of_filter in Hm as [_ Hm].
  - intros w cs rq ms w' cs' rq' sc E. simpl in E.
    apply mbind_Ok in E as (s & _ & [= <- <- <- <-]). done.
  - intros w cs rq ms w' cs' rq' sc [= <- <- <- <-]. done.
  - intros w cs rq ms w' cs' rq' sc [= <- <- <- <-]. done.
  - apply session_lawful_scorer.
  - intros w cs sms w' cs' m. apply max_score_lawful_pick.
  - intros w cs sms w' cs' m. apply random_lawful_pick.
  - intros w cs sms w' cs' m. apply weighted_random_lawful_pick.
Qed.

(** A pipeline of those plugins. *)
Definition repository_pipeline (p : ModelSelectorPipeline W) : Prop :=
  Forall (λ f, repository_plugin (inl (inl f))) (filters p) ∧
  Forall (λ s, repository_plugin (inl (inr (ws_Scorer s)))) (scorers p) ∧
  ∀ k, picker p = Some k → repository_plugin (inr k).

Lemma repository_pipeline_lawful p : repository_pipeline p → lawful p.
Proof using SS RS SeS.
  intros (Hf & Hs & Hp). split.
  - eapply Forall_impl; [exact Hf|]. intros f. apply (repository_plugin_laws (inl (inl f))).
  - eapply Forall_impl; [exact Hs|]. intros s. apply (repository_plugin_laws (inl (inr _))).
  - intros k Hk. by apply (repository_plugin_laws (inr k)), Hp.
Qed.
End lawful.
