(* ===== verification/RequestPlugins.v ===== *)
(** The remaining request and response plugins: body-field-to-header, the
    single profile picker (plugins/requesthandling) and model-name-to-header
    (plugins/responsehandling). *)

From Stdlib Require Import String.
From S2P Require Import Prelude GoFloat GoValue Envoy Message World Handlers Datalayer.
From S2P Require Import ModelSelector SelectorPlugins.

Local Open Scope string_scope.
Local Open Scope list_scope.

(** ** body-field-to-header *)

Module BodyFieldToHeader.

Definition PluginType : string := "body-field-to-header".

Record Plugin := { typedName : TypedName; fieldName : string; headerName : string }.

Definition NewBodyFieldToHeaderPlugin (fieldName headerName : string) : Plugin + goerror :=
  if String.eqb fieldName "" then
    inr (ENew ("fieldName is required for plugin '" +:+ PluginType +:+ "'"))
  else if String.eqb headerName "" then
    inr (ENew ("headerName is required for plugin '" +:+ PluginType +:+ "'"))
  else inl {| typedName := {| Type_ := PluginType; Name := PluginType |};
              fieldName := fieldName; headerName := headerName |}.

Definition WithName (p : Plugin) (name : string) : Plugin :=
  {| typedName := {| Type_ := Type_ (typedName p); Name := name |};
     fieldName := fieldName p; headerName := headerName p |}.

Definition Factory (name : string) (rawParameters : bytes) : Plugin + goerror :=
  match dec_params (λ o, f ← dec_field dec_str "fieldName" "" o;
                         h ← dec_field dec_str "headerName" "" o; Some (f, h)) rawParameters with
  | None => inr (bad_parameters ("failed to parse the parameters of the '" +:+ PluginType
                                 +:+ "' plugin - ") rawParameters)
  | Some (f, h) =>
      match NewBodyFieldToHeaderPlugin f h with
      | inr e => inr (EWrap ("failed to create '" +:+ PluginType +:+ "' plugin - ") e)
      | inl p => inl (WithName p name)
      end
  end.

Section process.
Context {W : Type} `{WW : !World W}.

Definition ProcessRequest (p : Plugin) (w : W) (cs : CycleState) (request : InferenceRequest) :
    called W InferenceRequest :=
  match body_lookup request (fieldName p) with
  | None => Ok (RecordBodyFieldNotFound (fieldName p) w, cs, request, None)
  | Some rawFieldValue =>
      let fieldStr := sprintf_v rawFieldValue in
      if String.eqb fieldStr "" then Ok (RecordBodyFieldEmpty (fieldName p) w, cs, request, None)
      else Ok (w, cs, SetHeader request (headerName p) fieldStr, None)
  end.

Definition processor_of (p : Plugin) : RequestProcessor W :=
  {| rp_name := typedName p; Message.ProcessRequest := ProcessRequest p |}.

Lemma sprintf_v_string s : sprintf_v (AStr s) = s.
Proof. unfold sprintf_v. simpl. apply b2s_s2b. Qed.

(** Body-field-to-header copies the field and does nothing else. A
    present field that prints to a non-empty text - for a string field, the
    string itself - becomes the value of the header; otherwise the request
    is unchanged. No other header, the body, or the cycle state changes, and
    it never fails. *)
Theorem body_field_is_copied p w cs request :
  ∃ w' request', ProcessRequest p w cs request = Ok (w', cs, request', None) ∧
    notified w' = notified w ∧ Body request' = Body request ∧
    bodyMutated request' = bodyMutated request ∧
    Headers request' =
      match body_lookup request (fieldName p) with
      | Some (AStr "") | None => Headers request
      | Some (AStr s) => <[headerName p := s]> (Headers request)
      | Some v => if String.eqb (sprintf_v v) "" then Headers request
                  else <[headerName p := sprintf_v v]> (Headers request)
      end.
Proof.
  unfold ProcessRequest. destruct (body_lookup request (fieldName p)) as [v|].
  2:{ eexists _, request. split; [reflexivity|]. unfold RecordBodyFieldNotFound.
      by rewrite notified_record. }
  destruct (String.eqb_spec (sprintf_v v) "") as [E|E].
  - eexists _, request. split; [reflexivity|]. unfold RecordBodyFieldEmpty.
    rewrite notified_record. split_and!; [done..|]. destruct v as [| | |s| |]; rewrite ?E; [done..| |done|done].
    rewrite sprintf_v_string in E. by subst.
  - eexists w, _. split; [reflexivity|].
    rewrite Body_SetHeader, bodyMutated_SetHeader, Headers_SetHeader. split_and!; [done..|].
    destruct v as [| | |s| |]; rewrite ?(proj2 (String.eqb_neq _ _) E); [done..| |done|done].
    rewrite sprintf_v_string in *. by destruct s.
Qed.
End process.

End BodyFieldToHeader.

(** ** single-profile-picker *)

Module SingleProfile.

Definition PluginType : string := "single-profile-picker".

Section pick.
Context {W : Type} `{MO : MapOrder}.

Definition Pick (w : W) (cs : CycleState) (request : InferenceRequest)
    (profiles : gmap string (Profile W)) :
    res (W * CycleState * InferenceRequest * (option (Profile W) * option goerror)) :=
  if negb (size profiles =? 1)%nat then
    Ok (w, cs, request, (None, Some (ENew ("failed to select a single profile from "
          +:+ itoa (Z.of_nat (size profiles)) +:+ " profiles"))))
  else Ok (w, cs, request, (head (go_range profiles).*2, None)).

Definition SingleProfilePicker (name : string) : ProfilePicker W :=
  {| pp_name := {| Type_ := PluginType; Name := name |}; PickProfile := Pick |}.

(** The single profile picker picks the profile when there is exactly
    one, whatever its name, and otherwise returns an error and no profile -
    in particular it never hands the handler a nil profile without an error. *)
Theorem single_profile_is_picked w cs request profiles :
  ∃ r, Pick w cs request profiles = Ok (w, cs, request, r) ∧
    match r with
    | (Some p, None) => ∃ n, profiles = {[n := p]}
    | (None, Some e) => size profiles ≠ 1%nat
    | _ => False
    end.
Proof.
  unfold Pick. destruct (Nat.eqb_spec (size profiles) 1) as [Hs|Hs]; simpl;
    (eexists; split; [reflexivity|]); [|done].
  rewrite <- (length_go_range profiles) in Hs. pose proof (list_to_map_go_range profiles) as Hm.
  destruct (go_range profiles) as [|[n p] [|]]; [done| |done].
  simpl in *. exists n. by rewrite <- Hm, insert_empty.
Qed.
End pick.

End SingleProfile.

(** ** model-name-to-header *)

Module ModelNameToHeader.

Definition PluginType : string := "model-name-to-header".
Definition ModelNameHeader : string := "X-Gateway-Model-Name".

Record Plugin := { typedName : TypedName; headerName : string }.

Definition Factory (name : string) (rawParameters : bytes) : Plugin + goerror :=
  match dec_params (λ o, dec_field dec_str "headerName" "" o) rawParameters with
  | None => inr (bad_parameters ("failed to parse the parameters of the '" +:+ PluginType
                                 +:+ "' plugin - ") rawParameters)
  | Some h => inl {| typedName := {| Type_ := PluginType; Name := name |};
                     headerName := if String.eqb h "" then ModelNameHeader else h |}
  end.

Section process.
Context {W : Type}.

Definition ProcessResponseHeaders (p : Plugin) (w : W) (cs : CycleState)
    (response : InferenceResponse) : called W InferenceResponse :=
  match ReadCycleStateKey as_string cs SelectedModelCycleStateKey with
  | inr err =>
      if is_not_found err then Ok (w, cs, response, None)
      else Ok (w, cs, response, Some (EWrap "failed to read selected model from CycleState: " err))
  | inl selectedModel =>
      Ok (w, cs, with_rmsg response (SetHeader (rmsg response) (headerName p) selectedModel), None)
  end.

Definition processor_of (p : Plugin) : ResponseHeadersProcessor W :=
  {| rhp_name := typedName p; Message.ProcessResponseHeaders := ProcessResponseHeaders p |}.
End process.

Section echo.
Context {W : Type} `{TD : TDigest} `{WW : !World W} `{DS : !Datastore W} `{MO : MapOrder}.

Lemma selector_writes_name (p : ModelSelectorPipeline W) w cs rq w' cs' rq' :
  ModelSelector_ProcessRequest p w cs rq = Ok (w', cs', rq', None) →
  ∃ n, body_lookup rq' "model" = Some (AStr n) ∧ cs' !! SelectedModelCycleStateKey = Some (AStr n).
Proof.
  unfold ModelSelector_ProcessRequest. destruct (GetModels AllModelsPredicate w); [done|].
  intros ([[[w1 cs1] rq1] r] & _ & H)%mbind_Ok. destruct r as [m|]; [|done].
  apply mbind_Ok in H as (rq2 & Es & H). injection H as <- <- <-.
  unfold SetBodyField in Es. destruct (Body rq1); [|done]. injection Es as <-.
  exists (GetName w1 m). unfold body_lookup, Write. simpl. by rewrite !lookup_insert_eq.
Qed.

(** The client learns which model was selected. When the model selector
    processed a request and the cycle state still has its entry, the
    model-name-to-header plugin sets its header on the response to the very
    name the request was sent with, and leaves the other headers alone. *)
Theorem selected_model_is_echoed (p : ModelSelectorPipeline W) q w cs rq w' cs' rq' (w2 : W) cs2
    response :
  ModelSelector_ProcessRequest p w cs rq = Ok (w', cs', rq', None) →
  cs2 !! SelectedModelCycleStateKey = cs' !! SelectedModelCycleStateKey →
  ∃ response', ProcessResponseHeaders q w2 cs2 response = Ok (w2, cs2, response', None) ∧
    Headers (rmsg response') =
      <[headerName q := body_string rq' "model"]> (Headers (rmsg response)).
Proof.
  intros (n & Hb & Hc)%selector_writes_name Hcs2. rewrite Hc in Hcs2.
  unfold ProcessResponseHeaders, ReadCycleStateKey, Read. rewrite Hcs2. simpl.
  eexists. split; [reflexivity|]. simpl. rewrite Headers_SetHeader.
  unfold body_string. by rewrite Hb.
Qed.
End echo.

End ModelNameToHeader.
