(* ===== verification/Processor.v ===== *)
(** pkg/datalayer/processor.go: the data layer's processor as a state machine.

    The state is the [Processor] struct and the goroutines it runs; an action
    is one critical section of a method, one [go] statement or one step of a
    goroutine, and [step] performs it, or refuses it when it is not enabled.
    What no lock makes one is several actions: the check of [RegisterExtractor]
    and the two halves of its append, and the event loop's receive, its call of
    each extractor and its return to the [select].
    Any list of actions that [run] accepts is an interleaving of callers and
    goroutines. The log records what the plugins observe. *)

From Stdlib Require Import String.
From S2P Require Import Prelude GoFloat GoValue Envoy Message World.

Local Open Scope string_scope.
Local Open Scope list_scope.

Definition defaultBufferSize : nat := 10000.

(** Collectors and datasources by identity. *)
Abbreviation CollectorId := nat.
Abbreviation DatasourceId := nat.

(** Where the goroutine of a datasource is: about to call [Start], or waiting
    for the end of the context. *)
Inductive ds_phase : Type := DsLaunched | DsStarted.

#[export] Instance ds_phase_eq_dec : EqDecision ds_phase.
Proof. solve_decision. Defined.

(** What is observable. [OExtract i e] is the point where the call of [Extract]
    takes effect, [OLateRegistration] the point where [RegisterExtractor] writes
    the list of extractors after [Start], which its comment rules out. *)
Inductive observation : Type :=
| OAccepted (e : Event)
| ODropped (e : Event)
| OExtract (extractor : nat) (e : Event)
| ODsStart (d : DatasourceId) (ok : bool)
| ODsStop (d : DatasourceId)
| OPoll (c : CollectorId)
| OStopReturned
| OLateRegistration.

(** What [Start] still has to launch with [go]. *)
Inductive launch : Type :=
| LLoop
| LCollector (c : CollectorId) (frequency jitterCap : Z)
| LDatasource (d : DatasourceId).

(** Where a call of [RegisterExtractor] is, without a lock: past its check of
    [started], or past reading the list, of that length, that it will extend. *)
Inductive registration : Type :=
| RChecked
| RRead (len : nat).

#[export] Instance registration_eq_dec : EqDecision registration.
Proof. solve_decision. Defined.

(** What the event loop holds between its receive and its next [select]: the
    event, the number of extractors that had it, the length of the list it
    ranges over. *)
Record delivery := { held : Event; reached : nat; among : nat }.

(** [in_hand] is the event loop's, [registering] the calls of
    [RegisterExtractor] under way; [launching] and [pending] are the [go]
    statements that [Start] and [RegisterDatasource] have yet to reach;
    [stopping] counts the calls of [Stop] that are at [wg.Wait()] and [waited]
    those past it; [notifyDone] says that the channel of that name is closed,
    [cancelled] that the context is done. *)
Record Processor :=
  { ch : list Event;
    extractors : nat;
    collectors : list (CollectorId * Z);
    datasources : list DatasourceId;
    started : bool;
    stopped : bool;
    cancelled : bool;
    stopping : nat;
    waited : nat;
    loop_alive : bool;
    notifyDone : bool;
    launching : list launch;
    pending : list DatasourceId;
    ds_tasks : list (DatasourceId * ds_phase);
    collector_tasks : list (CollectorId * Z * Z);
    in_hand : option delivery;
    registering : list registration;
    log : list observation }.

Definition NewProcessor : Processor :=
  {| ch := []; extractors := 0; collectors := []; datasources := []; started := false;
     stopped := false; cancelled := false; stopping := 0; waited := 0; loop_alive := false;
     notifyDone := false; launching := []; pending := []; ds_tasks := []; collector_tasks := [];
     in_hand := None; registering := []; log := [] |}.

Section updates.
Variable p : Processor.

Definition with_events (c : list Event) (n : nat) (l : list observation) : Processor :=
  {| ch := c; extractors := n; collectors := collectors p; datasources := datasources p;
     started := started p; stopped := stopped p; cancelled := cancelled p; stopping := stopping p; waited := waited p;
     loop_alive := loop_alive p; notifyDone := notifyDone p; launching := launching p;
     pending := pending p; ds_tasks := ds_tasks p; collector_tasks := collector_tasks p; in_hand := in_hand p;
     registering := registering p;
     log := l |}.

Definition with_registered cs ds pend : Processor :=
  {| ch := ch p; extractors := extractors p; collectors := cs; datasources := ds;
     started := started p; stopped := stopped p; cancelled := cancelled p; stopping := stopping p; waited := waited p;
     loop_alive := loop_alive p; notifyDone := notifyDone p; launching := launching p;
     pending := pend; ds_tasks := ds_tasks p; collector_tasks := collector_tasks p; in_hand := in_hand p;
     registering := registering p;
     log := log p |}.

Definition with_tasks ds cs (l : list observation) : Processor :=
  {| ch := ch p; extractors := extractors p; collectors := collectors p;
     datasources := datasources p; started := started p; stopped := stopped p;
     cancelled := cancelled p; stopping := stopping p; waited := waited p; loop_alive := loop_alive p;
     notifyDone := notifyDone p; launching := launching p; pending := pending p;
     ds_tasks := ds; collector_tasks := cs; in_hand := in_hand p;
     registering := registering p; log := l |}.

Definition with_launching l alive : Processor :=
  {| ch := ch p; extractors := extractors p; collectors := collectors p;
     datasources := datasources p; started := started p; stopped := stopped p;
     cancelled := cancelled p; stopping := stopping p; waited := waited p; loop_alive := alive;
     notifyDone := notifyDone p; launching := l; pending := pending p;
     ds_tasks := ds_tasks p; collector_tasks := collector_tasks p; in_hand := in_hand p;
     registering := registering p; log := log p |}.

Definition with_lifecycle st sp ca sg wa alive dn : Processor :=
  {| ch := ch p; extractors := extractors p; collectors := collectors p;
     datasources := datasources p; started := st; stopped := sp; cancelled := ca; stopping := sg; waited := wa;
     loop_alive := alive; notifyDone := dn; launching := launching p; pending := pending p;
     ds_tasks := ds_tasks p; collector_tasks := collector_tasks p; in_hand := in_hand p;
     registering := registering p; log := log p |}.

Definition with_delivery (c : list Event) (h : option delivery) (l : list observation) : Processor :=
  {| ch := c; extractors := extractors p; collectors := collectors p;
     datasources := datasources p; started := started p; stopped := stopped p;
     cancelled := cancelled p; stopping := stopping p; waited := waited p;
     loop_alive := loop_alive p; notifyDone := notifyDone p; launching := launching p;
     pending := pending p; ds_tasks := ds_tasks p; collector_tasks := collector_tasks p;
     in_hand := h; registering := registering p; log := l |}.

Definition with_registering (n : nat) (rs : list registration) (l : list observation) : Processor :=
  {| ch := ch p; extractors := n; collectors := collectors p;
     datasources := datasources p; started := started p; stopped := stopped p;
     cancelled := cancelled p; stopping := stopping p; waited := waited p;
     loop_alive := loop_alive p; notifyDone := notifyDone p; launching := launching p;
     pending := pending p; ds_tasks := ds_tasks p; collector_tasks := collector_tasks p;
     in_hand := in_hand p; registering := rs; log := l |}.
End updates.

(** Takes one occurrence of [x] out of a list. *)
Fixpoint take_out {A} `{EqDecision A} (x : A) (l : list A) : option (list A) :=
  match l with
  | [] => None
  | y :: l => if decide (x = y) then Some l else (y ::.) <$> take_out x l
  end.

Lemma take_out_perm {A} `{EqDecision A} (x : A) l l' : take_out x l = Some l' → l ≡ₚ x :: l'.
Proof.
  revert l'. induction l as [|y l IH]; intros l'; simpl; [done|].
  destruct (decide (x = y)) as [->|]; [by intros [= ->]|].
  destruct (take_out x l) as [l''|]; simpl; [|done]. intros [= <-].
  rewrite (IH l'') by done. constructor.
Qed.

(** ** The methods *)

(** A call that nothing interferes with. *)
Definition RegisterExtractor (p : Processor) : Processor :=
  if started p then p else with_events p (ch p) (S (extractors p)) (log p).

(** The steps of a call, none of which holds the lock: the check of [started],
    reading the list, writing back the list that is longer by one. *)
Definition RegisterExtractor_check (p : Processor) : Processor :=
  if started p then p
  else with_registering p (extractors p) (registering p ++ [RChecked]) (log p).

Definition RegisterExtractor_read (p : Processor) : option Processor :=
  match take_out RChecked (registering p) with
  | None => None
  | Some rs => Some (with_registering p (extractors p) (rs ++ [RRead (extractors p)]) (log p))
  end.

Definition RegisterExtractor_write (len : nat) (p : Processor) : option Processor :=
  match take_out (RRead len) (registering p) with
  | None => None
  | Some rs => Some (with_registering p (S len) rs
                       (log p ++ if started p then [OLateRegistration] else []))
  end.

Definition RegisterCollector (c : CollectorId) (frequency : Z) (p : Processor) : Processor :=
  if (frequency <=? 0)%Z then p
  else
    let p := with_registered p (collectors p ++ [(c, frequency)]) (datasources p) (pending p) in
    if started p && negb (stopped p)
    then with_tasks p (ds_tasks p) (collector_tasks p ++ [(c, frequency, frequency)]) (log p)
    else p.

(** Its critical section; the [go] follows later, without the lock. *)
Definition RegisterDatasource (d : DatasourceId) (p : Processor) : Processor :=
  with_registered p (collectors p) (datasources p ++ [d])
    (if started p && negb (stopped p) then pending p ++ [d] else pending p).

(** The [go p.runDatasource(ctx, d)] of a registration. *)
Definition RegisterDatasource_go (d : DatasourceId) (p : Processor) : option Processor :=
  match take_out d (pending p) with
  | None => None
  | Some pend =>
      let p := with_registered p (collectors p) (datasources p) pend in
      Some (with_tasks p (ds_tasks p ++ [(d, DsLaunched)]) (collector_tasks p) (log p))
  end.

(** The channel send of the [select], or its default. *)
Definition Notify (e : Event) (p : Processor) : Processor :=
  if (length (ch p) <? defaultBufferSize)%nat
  then with_events p (ch p ++ [e]) (extractors p) (log p ++ [OAccepted e])
  else with_events p (ch p) (extractors p) (log p ++ [ODropped e]).

(** [time.Duration(n) * 200 * time.Millisecond]. *)
Definition maxJitter (n : nat) : Z := wrap64 (wrap64 (Z.of_nat n * 200) * 1000000).

(** What [Start] launches, in order: the event loop, the collectors of the
    snapshot, its datasources. *)
Definition launches (snapshot : list (CollectorId * Z)) (dsSnapshot : list DatasourceId) :
    list launch :=
  let cap := maxJitter (length snapshot) in
  LLoop :: ((λ cf, LCollector cf.1 cf.2 (if (cf.2 <? cap)%Z then cf.2 else cap)) <$> snapshot)
        ++ (LDatasource <$> dsSnapshot).

(** The critical section of [Start], or its error. *)
Definition Start (p : Processor) : Processor + goerror :=
  if started p then inr (ENew "Processor already started")
  else if stopped p then inr (ENew "Processor already stopped")
  else
    let p := with_lifecycle p true (stopped p) (cancelled p) (stopping p) (waited p) (loop_alive p) (notifyDone p) in
    inl (with_launching p (launches (collectors p) (datasources p)) (loop_alive p)).

(** Its next [go]. *)
Definition Start_go (p : Processor) : option Processor :=
  match launching p with
  | [] => None
  | LLoop :: l => Some (with_launching p l true)
  | LCollector c f cap :: l =>
      let p := with_launching p l (loop_alive p) in
      Some (with_tasks p (ds_tasks p) (collector_tasks p ++ [(c, f, cap)]) (log p))
  | LDatasource d :: l =>
      let p := with_launching p l (loop_alive p) in
      Some (with_tasks p (ds_tasks p ++ [(d, DsLaunched)]) (collector_tasks p) (log p))
  end.

(** The critical section of [Stop] and the [cancel()] after it. Before [Start]
    the cancel function is nil and [Stop] returns at once. *)
Definition Stop (p : Processor) : Processor :=
  if started p
  then with_lifecycle p true true true (S (stopping p)) (waited p) (loop_alive p) (notifyDone p)
  else
    let p := with_lifecycle p false true (cancelled p) (stopping p) (waited p) (loop_alive p)
               (notifyDone p) in
    with_events p (ch p) (extractors p) (log p ++ [OStopReturned]).

(** [p.wg.Wait()]. *)
Definition Stop_wait (p : Processor) : option Processor :=
  match stopping p with
  | S n =>
      if (length (ds_tasks p) =? 0)%nat && (length (collector_tasks p) =? 0)%nat
      then Some (with_lifecycle p (started p) (stopped p) (cancelled p) n (S (waited p))
                   (loop_alive p) (notifyDone p))
      else None
  | O => None
  end.

(** [<-p.notifyDone]. *)
Definition Stop_return (p : Processor) : option Processor :=
  match waited p with
  | S n =>
      if notifyDone p then
        let p := with_lifecycle p (started p) (stopped p) (cancelled p) (stopping p) n
                   (loop_alive p) (notifyDone p) in
        Some (with_events p (ch p) (extractors p) (log p ++ [OStopReturned]))
      else None
  | O => None
  end.

(** The context given to [Start] is cancelled by its owner. *)
Definition context_done (p : Processor) : option Processor :=
  if started p
  then Some (with_lifecycle p true (stopped p) true (stopping p) (waited p) (loop_alive p)
               (notifyDone p))
  else None.

(** ** The goroutines *)

(** The receive of the [select], and the [range] over the extractors there are. *)
Definition eventLoop_receive (p : Processor) : option Processor :=
  match loop_alive p, in_hand p, ch p with
  | true, None, e :: rest =>
      Some (with_delivery p rest (Some {| held := e; reached := 0; among := extractors p |}) (log p))
  | _, _, _ => None
  end.

(** The call of the next extractor. *)
Definition eventLoop_extract (p : Processor) : option Processor :=
  match in_hand p with
  | Some {| held := e; reached := k; among := n |} =>
      if (k <? n)%nat
      then Some (with_delivery p (ch p) (Some {| held := e; reached := S k; among := n |})
                   (log p ++ [OExtract k e]))
      else None
  | None => None
  end.

(** Back to the [select]. *)
Definition eventLoop_next (p : Processor) : option Processor :=
  match in_hand p with
  | Some d => if (reached d <? among d)%nat then None else Some (with_delivery p (ch p) None (log p))
  | None => None
  end.

Definition eventLoop_exit (p : Processor) : option Processor :=
  match in_hand p with
  | None =>
      if loop_alive p && cancelled p
      then Some (with_lifecycle p (started p) (stopped p) (cancelled p) (stopping p) (waited p)
                   false true)
      else None
  | Some _ => None
  end.

(** [d.Start(ctx)]: a failed start ends the goroutine. *)
Definition runDatasource_start (d : DatasourceId) (ok : bool) (p : Processor) : option Processor :=
  match take_out (d, DsLaunched) (ds_tasks p) with
  | None => None
  | Some l => Some (with_tasks p (if ok then l ++ [(d, DsStarted)] else l) (collector_tasks p)
                      (log p ++ [ODsStart d ok]))
  end.

(** [<-ctx.Done(); d.Stop()]. *)
Definition runDatasource_stop (d : DatasourceId) (p : Processor) : option Processor :=
  if cancelled p then
    match take_out (d, DsStarted) (ds_tasks p) with
    | None => None
    | Some l => Some (with_tasks p l (collector_tasks p) (log p ++ [ODsStop d]))
    end
  else None.

(** A poll, after the jitter or at a tick. *)
Definition runCollector_poll (t : CollectorId * Z * Z) (p : Processor) : option Processor :=
  match take_out t (collector_tasks p) with
  | None => None
  | Some _ => Some (with_tasks p (ds_tasks p) (collector_tasks p) (log p ++ [OPoll t.1.1]))
  end.

Definition runCollector_exit (t : CollectorId * Z * Z) (p : Processor) : option Processor :=
  if cancelled p then
    match take_out t (collector_tasks p) with
    | None => None
    | Some l => Some (with_tasks p (ds_tasks p) l (log p))
    end
  else None.

(** ** Interleavings *)

Inductive action : Type :=
| ARegisterExtractor
| ARegisterExtractor_read
| ARegisterExtractor_write (len : nat)
| ARegisterCollector (c : CollectorId) (frequency : Z)
| ARegisterDatasource (d : DatasourceId)
| ARegisterDatasource_go (d : DatasourceId)
| ANotify (e : Event)
| AStart
| AStart_go
| AStop
| AStop_wait
| AStop_return
| AContext_done
| ALoop_receive
| ALoop_extract
| ALoop_next
| ALoop_exit
| ADs_start (d : DatasourceId) (ok : bool)
| ADs_stop (d : DatasourceId)
| APoll (t : CollectorId * Z * Z)
| ACollector_exit (t : CollectorId * Z * Z).

(** A failed [Start] changes nothing. *)
Definition step (p : Processor) (a : action) : option Processor :=
  match a with
  | ARegisterExtractor => Some (RegisterExtractor_check p)
  | ARegisterExtractor_read => RegisterExtractor_read p
  | ARegisterExtractor_write len => RegisterExtractor_write len p
  | ARegisterCollector c f => Some (RegisterCollector c f p)
  | ARegisterDatasource d => Some (RegisterDatasource d p)
  | ARegisterDatasource_go d => RegisterDatasource_go d p
  | ANotify e => Some (Notify e p)
  | AStart => Some (match Start p with inl p' => p' | inr _ => p end)
  | AStart_go => Start_go p
  | AStop => Some (Stop p)
  | AStop_wait => Stop_wait p
  | AStop_return => Stop_return p
  | AContext_done => context_done p
  | ALoop_receive => eventLoop_receive p
  | ALoop_extract => eventLoop_extract p
  | ALoop_next => eventLoop_next p
  | ALoop_exit => eventLoop_exit p
  | ADs_start d ok => runDatasource_start d ok p
  | ADs_stop d => runDatasource_stop d p
  | APoll t => runCollector_poll t p
  | ACollector_exit t => runCollector_exit t p
  end.

Inductive reachable : Processor → Prop :=
| reach_new : reachable NewProcessor
| reach_step p a p' : reachable p → step p a = Some p' → reachable p'.

Fixpoint run (p : Processor) (acts : list action) : option Processor :=
  match acts with
  | [] => Some p
  | a :: acts => match step p a with Some p' => run p' acts | None => None end
  end.

Lemma run_reachable p acts p' : reachable p → run p acts = Some p' → reachable p'.
Proof.
  revert p. induction acts as [|a acts IH]; intros p Hp; simpl; [by intros [= <-]|].
  destruct (step p a) eqn:E; [|done]. apply IH. by eapply reach_step.
Qed.

(** The steps of a call of [RegisterExtractor], without another step between
    them, do what the call does. *)
Lemma register_extractor_steps p :
  started p = false → registering p = [] →
  run p [ARegisterExtractor; ARegisterExtractor_read; ARegisterExtractor_write (extractors p)] =
    Some (RegisterExtractor p).
Proof.
  intros Hs Hr. simpl. unfold RegisterExtractor_check, RegisterExtractor. rewrite Hs, Hr. simpl.
  unfold RegisterExtractor_write. simpl. rewrite decide_True by done. simpl.
  unfold with_registering, with_events. simpl. by rewrite Hs, app_nil_r, Hr.
Qed.

(** Two calls at a time may register one extractor only. *)
Example registrations_get_lost :
  extractors <$> run NewProcessor
    [ARegisterExtractor; ARegisterExtractor; ARegisterExtractor_read; ARegisterExtractor_read;
     ARegisterExtractor_write 0; ARegisterExtractor_write 0] = Some 1%nat.
Proof. reflexivity. Qed.

(** An invariant of the steps holds in every state a run reaches. *)
Lemma run_inv (I : Processor → Prop) p acts p' :
  (∀ p a p', I p → step p a = Some p' → I p') → I p → run p acts = Some p' → I p'.
Proof.
  intros HI. revert p. induction acts as [|a acts IH]; intros p Hp; simpl; [by intros [= <-]|].
  destruct (step p a) eqn:E; [|done]. apply IH. by eapply HI.
Qed.

(** Case analysis on a step: which action it is, and its enabling condition. *)
Ltac step_unfold H :=
  simpl in H;
  unfold RegisterExtractor_check, RegisterExtractor_read, RegisterExtractor_write, RegisterCollector, RegisterDatasource, RegisterDatasource_go, Notify,
    Start, Start_go, Stop, Stop_wait, Stop_return, context_done, eventLoop_receive, eventLoop_extract,
    eventLoop_next, eventLoop_exit,
    runDatasource_start, runDatasource_stop, runCollector_poll, runCollector_exit in H;
  repeat (case_match; simplify_eq/=; try done).

Ltac step_cases H :=
  match type of H with step ?p ?a = Some ?p' => destruct a end; step_unfold H.

(** ** Events *)

Definition accepted (l : list observation) : list Event :=
  omap (λ o, match o with OAccepted e => Some e | _ => None end) l.

Definition extracted (i : nat) (l : list observation) : list Event :=
  omap (λ o, match o with OExtract j e => if decide (i = j) then Some e else None | _ => None end) l.

(** No extractor was added after [Start]. *)
Definition registered_in_time (l : list observation) : bool :=
  forallb (λ o, match o with OLateRegistration => false | _ => true end) l.

(** The event that the event loop holds, whether extractor [i] had it already,
    and the accepted events that [i] has yet to get. *)
Definition hand (p : Processor) : list Event :=
  match in_hand p with Some d => [held d] | None => [] end.

Definition had (p : Processor) (i : nat) : bool :=
  match in_hand p with Some d => (i <? reached d)%nat | None => false end.

Definition waiting (i : nat) (p : Processor) : list Event :=
  (if had p i then [] else hand p) ++ ch p.

(** Before [Start] nothing runs and nothing has been handed to an extractor. *)
Record events_inv (p : Processor) : Prop :=
  { ei_bound : (length (ch p) ≤ defaultBufferSize)%nat;
    ei_idle : started p = false → loop_alive p = false ∧ launching p = [] ∧ in_hand p = None;
    ei_hand d : in_hand p = Some d → registered_in_time (log p) = true →
      among d = extractors p ∧ (reached d ≤ among d)%nat;
    ei_fifo : ∃ dispatched, accepted (log p) = dispatched ++ hand p ++ ch p ∧
      (started p = false → dispatched = [] ∧ ∀ i, extracted i (log p) = []) ∧
      (registered_in_time (log p) = true → ∀ i, (i < extractors p)%nat →
         extracted i (log p) = dispatched ++ if had p i then hand p else []) }.

Lemma accepted_app l l' : accepted (l ++ l') = accepted l ++ accepted l'.
Proof. apply omap_app. Qed.

Lemma extracted_app i l l' : extracted i (l ++ l') = extracted i l ++ extracted i l'.
Proof. apply omap_app. Qed.

Lemma registered_in_time_app l l' :
  registered_in_time (l ++ l') = registered_in_time l && registered_in_time l'.
Proof. apply forallb_app. Qed.

(** An action that is neither a notification nor one of the event loop. *)
Lemma events_inv_same p p' :
  events_inv p → ch p' = ch p → extractors p' = extractors p → in_hand p' = in_hand p →
  accepted (log p') = accepted (log p) → (∀ i, extracted i (log p') = extracted i (log p)) →
  registered_in_time (log p') = registered_in_time (log p) →
  (started p' = false → started p = false ∧ loop_alive p' = false ∧ launching p' = []) →
  events_inv p'.
Proof.
  intros [Hb Hi Hh (d & Ha & Hd & He)] Hc Hx Hin Hl Hex Ht Hs. split.
  - by rewrite Hc.
  - intros Hs'. destruct (Hs Hs') as (Hsp & ? & ?). rewrite Hin. naive_solver.
  - intros h. rewrite Hin, Ht, Hx. apply Hh.
  - exists d. unfold hand, had. rewrite Hc, Hl, Hx, Hin, Ht. split_and!; [done| |].
    + intros Hs'. destruct (Hs Hs') as (Hsp & _). destruct (Hd Hsp) as [? Hn]. split; [done|].
      intros i. by rewrite Hex.
    + intros Htime i Hlt. rewrite Hex. by apply He.
Qed.

Lemma events_inv_accept p e :
  events_inv p → (length (ch p) < defaultBufferSize)%nat →
  events_inv (with_events p (ch p ++ [e]) (extractors p) (log p ++ [OAccepted e])).
Proof.
  intros [Hb Hi Hh (d & Ha & Hd & He)] Hlen. split; simpl.
  - rewrite length_app. simpl. lia.
  - done.
  - intros h. rewrite registered_in_time_app, andb_true_r. apply Hh.
  - exists d. rewrite accepted_app, Ha, registered_in_time_app, andb_true_r, <- !app_assoc.
    split_and!; [done| |].
    + intros Hs. destruct (Hd Hs) as [? Hn]. split; [done|]. intros i.
      by rewrite extracted_app, Hn.
    + intros Htime i Hlt. rewrite extracted_app, (He Htime i Hlt). apply app_nil_r.
Qed.

Lemma events_inv_register p len rs :
  events_inv p →
  events_inv (with_registering p (S len) rs (log p ++ if started p then [OLateRegistration] else [])).
Proof.
  intros [Hb Hi Hh (d & Ha & Hd & He)]. destruct (started p) eqn:Hs.
  - split; simpl; rewrite ?registered_in_time_app, ?andb_false_r; try done; [intros ?; congruence|].
    exists d. rewrite accepted_app, app_nil_r.
    split; [done|]. split; [intros ?; congruence|intros [=]].
  - rewrite app_nil_r. destruct (Hd eq_refl) as [-> Hn]. destruct (Hi eq_refl) as (? & ? & Hnone).
    split; simpl; [done|done|intros h; by rewrite Hnone|].
    exists []. split_and!; [done|done|]. intros _ i _. unfold had. simpl. by rewrite Hnone, Hn.
Qed.

Lemma events_inv_receive p e rest :
  events_inv p → ch p = e :: rest → in_hand p = None → loop_alive p = true →
  events_inv (with_delivery p rest (Some {| held := e; reached := 0; among := extractors p |}) (log p)).
Proof.
  intros [Hb Hi Hh (d & Ha & Hd & He)] Hc Hn Hl. rewrite Hc in Hb. simpl in Hb. split; simpl.
  - lia.
  - intros Hs. destruct (Hi Hs). congruence.
  - intros h [= <-] _. simpl. lia.
  - exists d. unfold hand, had in *. simpl. rewrite Hn, Hc in *. split_and!; [done|done|].
    intros Htime i Hlt. by apply He.
Qed.

Lemma events_inv_extract p e k n :
  events_inv p → in_hand p = Some {| held := e; reached := k; among := n |} → (k < n)%nat →
  events_inv (with_delivery p (ch p) (Some {| held := e; reached := S k; among := n |})
    (log p ++ [OExtract k e])).
Proof.
  intros [Hb Hi Hh (d & Ha & Hd & He)] Hin Hk. split; simpl.
  - done.
  - intros Hs. destruct (Hi Hs) as (_ & _ & ?). congruence.
  - intros h [= <-]. rewrite registered_in_time_app, andb_true_r. intros Htime. simpl.
    destruct (Hh _ Hin Htime). simpl in *. split; [done|lia].
  - exists d. unfold hand, had in *. simpl. rewrite Hin in *. simpl in *.
    rewrite accepted_app, app_nil_r, registered_in_time_app, andb_true_r. split_and!; [done| |].
    + intros Hs. destruct (Hi Hs) as (_ & _ & ?). congruence.
    + intros Htime i Hlt. rewrite extracted_app, (He Htime i Hlt). simpl.
      destruct (decide (i = k)) as [->|Hne].
      * by rewrite (proj2 (Nat.ltb_ge k k)), (proj2 (Nat.ltb_lt k (S k))), app_nil_r by lia.
      * rewrite app_nil_r. f_equal. destruct (Nat.ltb_spec i k), (Nat.ltb_spec i (S k)); (done || lia).
Qed.

Lemma events_inv_next p d :
  events_inv p → in_hand p = Some d → (among d ≤ reached d)%nat →
  events_inv (with_delivery p (ch p) None (log p)).
Proof.
  intros [Hb Hi Hh (dd & Ha & Hd & He)] Hin Hk. split; simpl.
  - done.
  - intros Hs. destruct (Hi Hs) as (? & ? & ?). done.
  - done.
  - unfold hand, had in *. simpl. rewrite Hin in *. exists (dd ++ [held d]).
    split_and!; [by rewrite Ha, <- app_assoc| |].
    + intros Hs. destruct (Hi Hs) as (_ & _ & ?). congruence.
    + intros Htime i Hlt. destruct (Hh d eq_refl Htime) as [Hn _].
      rewrite (He Htime i Hlt), (proj2 (Nat.ltb_lt _ _)) by lia. by rewrite app_nil_r.
Qed.

Lemma events_inv_step p a p' : events_inv p → step p a = Some p' → events_inv p'.
Proof.
  intros Hinv Hst. destruct a as [| | | | | | | | | | | | | | | | | | | |].
  3: { simpl in Hst. unfold RegisterExtractor_write in Hst. case_match; [|done].
       injection Hst as <-. by apply events_inv_register. }
  all: step_unfold Hst.
  all: try (apply (events_inv_same p _ Hinv); simpl;
    [done|done|done|rewrite ?accepted_app; simpl; by rewrite ?app_nil_r
    |intros i; rewrite ?extracted_app; simpl; by rewrite ?app_nil_r
    |rewrite ?registered_in_time_app; simpl; by rewrite ?andb_true_r
    |intros Hs; try discriminate Hs; assert (started p = false) as Hs' by congruence;
     destruct (ei_idle _ Hinv Hs') as (? & ? & ?); split_and!; congruence]).
  - apply events_inv_accept; [done|]. by apply Nat.ltb_lt.
  - by apply events_inv_receive.
  - apply events_inv_extract; [done|done|]. by apply Nat.ltb_lt.
  - eapply events_inv_next; [done|done|]. by apply Nat.ltb_ge.
Qed.

Lemma reachable_events p : reachable p → events_inv p.
Proof.
  induction 1 as [|p a p' _ IH Hst]; [|by eapply events_inv_step].
  split; simpl; [lia|done|done|]. exists []. by split_and!.
Qed.

(** What extractor [i] was given, and what it has yet to get. *)
Lemma accepted_split p i :
  reachable p → registered_in_time (log p) = true → (i < extractors p)%nat →
  accepted (log p) = extracted i (log p) ++ waiting i p.
Proof.
  intros [_ _ _ (d & Ha & _ & He)]%reachable_events Ht Hi. rewrite Ha, (He Ht i Hi).
  unfold waiting. rewrite <- app_assoc. by destruct (had p i).
Qed.

(** C14: events reach every extractor, in order, each once. In every state the
    processor can reach, however callers and goroutines interleave and as long as
    no [RegisterExtractor] wrote its list after [Start], the accepted events are,
    in the order in which they were accepted, those that an extractor was given
    and after them those it has yet to get: the event that the event loop has
    taken, unless this extractor had it already, and those in the buffer. Nobody
    waits for an event but the extractors that come after the last one that had
    it. The buffer never holds more than 10000 events, and one is dropped only
    when it is full. *)
Theorem extractors_see_accepted_events p :
  reachable p →
  (length (ch p) ≤ 10000)%nat ∧
  (registered_in_time (log p) = true → ∀ i, (i < extractors p)%nat →
     accepted (log p) = extracted i (log p) ++ waiting i p ∧
     (length (waiting i p) ≤ S (length (ch p)))%nat ∧
     (in_hand p = None → waiting i p = ch p) ∧
     ∀ j, (j ≤ i)%nat → ∃ ahead, extracted j (log p) = extracted i (log p) ++ ahead) ∧
  (∀ e, log (Notify e p) = log p ++ [ODropped e] → length (ch p) = 10000%nat).
Proof.
  intros Hr. pose proof (reachable_events p Hr) as [Hb _ _ (d & Ha & _ & He)].
  split; [done|]. split.
  - intros Ht i Hi. split; [by apply accepted_split|]. split; [|split].
    + unfold waiting, hand. rewrite length_app. destruct (had p i), (in_hand p); simpl; lia.
    + unfold waiting, had, hand. by intros ->.
    + intros j Hj. rewrite (He Ht i), (He Ht j) by lia. unfold had, hand.
      destruct (in_hand p) as [h|]; [|by exists []; rewrite !app_nil_r].
      destruct (Nat.ltb_spec i (reached h)), (Nat.ltb_spec j (reached h)); try lia.
      * exists []. by rewrite app_nil_r.
      * exists [held h]. by rewrite app_nil_r.
      * exists []. by rewrite !app_nil_r.
  - intros e. unfold Notify. destruct (Nat.ltb_spec (length (ch p)) defaultBufferSize) as [|Hge].
    + simpl. intros [=]%app_inv_head.
    + intros _. unfold defaultBufferSize in *. lia.
Qed.

(** ** Datasources *)

(** What a datasource sees: [Some ok] for a call of [Start] and its outcome,
    [None] for a call of [Stop]. *)
Definition ds_log (d : DatasourceId) (l : list observation) : list (option bool) :=
  omap (λ o, match o with
             | ODsStart d' ok => if decide (d = d') then Some (Some ok) else None
             | ODsStop d' => if decide (d = d') then Some None else None
             | _ => None
             end) l.

Lemma ds_log_app d l l' : ds_log d (l ++ l') = ds_log d l ++ ds_log d l'.
Proof. apply omap_app. Qed.

Definition launch_ds (l : launch) : option DatasourceId :=
  match l with LDatasource d => Some d | _ => None end.

(** The datasources on their way: to be launched ([None]), or in a goroutine. *)
Definition slots (p : Processor) : list (DatasourceId * option ds_phase) :=
  ((λ d, (d, None)) <$> pending p ++ omap launch_ds (launching p)) ++
  ((λ t, (t.1, Some t.2)) <$> ds_tasks p).

(** What a datasource has seen, by where it is. *)
Definition seen (ph : option ds_phase) : list (option bool) :=
  match ph with Some DsStarted => [Some true] | _ => [] end.

Record ds_inv (p : Processor) : Prop :=
  { di_nodup : NoDup (slots p).*1;
    di_known d : d ∈ (slots p).*1 → d ∈ datasources p;
    di_seen d ph : (d, ph) ∈ slots p → ds_log d (log p) = seen ph;
    di_gone d : d ∉ (slots p).*1 →
      ds_log d (log p) = [] ∨ ds_log d (log p) = [Some false] ∨
      ds_log d (log p) = [Some true; None];
    di_unknown d : d ∉ datasources p → ds_log d (log p) = [];
    di_idle : started p = false → slots p = [] ∧ ∀ d, ds_log d (log p) = [] }.

(** A step that leaves the datasources where they are. *)
Lemma ds_inv_same p p' :
  ds_inv p → slots p' = slots p → datasources p' = datasources p →
  (∀ d, ds_log d (log p') = ds_log d (log p)) → (started p' = false → started p = false) →
  ds_inv p'.
Proof.
  intros [H1 H2 H3 H4 H5 H6] Hs Hd Hl Hst.
  split; rewrite ?Hs, ?Hd; try done; intros; rewrite ?Hl; auto.
  destruct H6; auto. split; [done|]. intros d. by rewrite Hl.
Qed.

(** A step that moves one datasource to another place, or out. *)
Lemma ds_inv_move p p' d ph ph' r :
  ds_inv p → slots p ≡ₚ (d, ph) :: r →
  slots p' ≡ₚ option_list (pair d <$> ph') ++ r →
  datasources p' = datasources p → started p' = started p →
  (∀ d', d' ≠ d → ds_log d' (log p') = ds_log d' (log p)) →
  match ph' with
  | Some ph' => ds_log d (log p') = seen ph'
  | None => ds_log d (log p') = [Some false] ∨ ds_log d (log p') = [Some true; None]
  end → ds_inv p'.
Proof.
  intros [H1 H2 H3 H4 H5 H6] Hp Hp' Hds Hst Hother Hlog.
  assert (d ∉ r.*1 ∧ NoDup r.*1) as [Hd Hr] by (rewrite Hp in H1; by apply NoDup_cons in H1).
  assert (∀ d', d' ∈ (slots p').*1 → d' ∈ (slots p).*1) as Hsub
    by (intros d'; rewrite Hp, Hp'; destruct ph'; simpl; set_solver).
  assert (d ∈ datasources p) as Hdk by (apply H2; rewrite Hp; set_solver).
  split.
  - rewrite Hp'. destruct ph'; simpl; [|done]. by apply NoDup_cons.
  - rewrite Hds. auto.
  - intros d' x. rewrite Hp'. intros Hx. destruct (decide (d' = d)) as [->|Hne].
    + destruct ph' as [ph'|]; simpl in Hx.
      * apply elem_of_cons in Hx as [[= ->]|Hx]; [done|].
        destruct Hd. apply list_elem_of_fmap. by exists (d, x).
      * destruct Hd. apply list_elem_of_fmap. by exists (d, x).
    + rewrite Hother by done. apply H3. rewrite Hp. destruct ph'; set_solver.
  - intros d' Hd'. destruct (decide (d' = d)) as [->|Hne].
    + destruct ph' as [ph'|]; [|tauto]. destruct Hd'. rewrite Hp'. simpl. set_solver.
    + rewrite Hother by done. apply H4. rewrite Hp. rewrite Hp' in Hd'.
      destruct ph'; set_solver.
  - intros d' Hd'. rewrite Hds in Hd'. rewrite Hother by (intros ->; done). auto.
  - intros Hs. rewrite Hst in Hs. destruct (H6 Hs) as [Hnil _]. rewrite Hnil in Hp.
    by apply Permutation_nil_cons in Hp.
Qed.

(** Registering a datasource for the first time. *)
Lemma ds_inv_register p d :
  ds_inv p → d ∉ datasources p → ds_inv (RegisterDatasource d p).
Proof.
  intros [H1 H2 H3 H4 H5 H6] Hd.
  assert (d ∉ (slots p).*1) as Hn by (intros Hin; by apply Hd, H2).
  assert (slots (RegisterDatasource d p) ≡ₚ
    (if started p && negb (stopped p) then [(d, None)] else []) ++ slots p) as Hp.
  { unfold RegisterDatasource, slots. simpl. destruct (started p && negb (stopped p)); [|done].
    rewrite !fmap_app. simpl. solve_Permutation. }
  set (b := started p && negb (stopped p)) in *.
  split; simpl.
  - rewrite Hp, fmap_app. destruct b; simpl; [by apply NoDup_cons|done].
  - intros d'. rewrite Hp, fmap_app. intros [Hin|Hin]%elem_of_app.
    + destruct b; simpl in Hin; set_solver.
    + apply elem_of_app. left. auto.
  - intros d' ph. rewrite Hp. intros [Hin|Hin]%elem_of_app; [|auto].
    destruct b; simpl in Hin; [|by apply not_elem_of_nil in Hin].
    apply list_elem_of_singleton in Hin as [= -> ->]. auto.
  - intros d' Hd'. apply H4. rewrite Hp, fmap_app in Hd'. set_solver.
  - intros d' Hd'. apply H5. set_solver.
  - intros Hs. destruct (H6 Hs) as [Hnil Hlog]. split; [|done].
    apply Permutation_nil_r. rewrite <- Hnil, Hp. unfold b. by rewrite Hs.
Qed.

Lemma slots_tasks p ds cs l :
  slots (with_tasks p ds cs l) =
  ((λ d, (d, None)) <$> pending p ++ omap launch_ds (launching p)) ++ ((λ t, (t.1, Some t.2)) <$> ds).
Proof. done. Qed.

Lemma launches_ds cs ds : omap launch_ds (launches cs ds) = ds.
Proof.
  unfold launches. simpl. rewrite omap_app.
  assert (∀ l : list (CollectorId * Z), omap launch_ds ((λ cf, LCollector cf.1 cf.2
    (if (cf.2 <? maxJitter (length cs))%Z then cf.2 else maxJitter (length cs))) <$> l) = []) as ->
    by (induction l; done).
  simpl. induction ds as [|d ds IH]; simpl; [done|]. by f_equal.
Qed.

Lemma ds_inv_start p p' :
  ds_inv p → NoDup (datasources p) → Start p = inl p' → ds_inv p'.
Proof.
  intros [H1 H2 H3 H4 H5 H6] Hnd. unfold Start.
  destruct (started p) eqn:Hs; [done|]. destruct (stopped p); [done|]. intros [= <-].
  destruct (H6 eq_refl) as [Hnil Hlog]. unfold slots in Hnil.
  apply app_nil in Hnil as [Hpl Ht]. apply fmap_nil_inv in Hpl, Ht.
  apply app_nil in Hpl as [Hpend Hl].
  assert (slots (with_launching
    (with_lifecycle p true false (cancelled p) (stopping p) (waited p) (loop_alive p) (notifyDone p))
    (launches (collectors p) (datasources p)) (loop_alive p)) =
    (λ d, (d, None)) <$> datasources p) as Hp.
  { unfold slots. cbn [pending launching with_launching with_lifecycle ds_tasks].
    by rewrite launches_ds, Hpend, Ht, app_nil_r. }
  assert (((λ d : DatasourceId, (d, None : option ds_phase)) <$> datasources p).*1 = datasources p) as Hf
    by (rewrite <- list_fmap_compose; apply list_fmap_id).
  split; rewrite ?Hp, ?Hf; simpl; auto; [|discriminate].
  intros d ph (d' & [= -> ->] & _)%list_elem_of_fmap. apply Hlog.
Qed.

Lemma slots_snoc (A : list (DatasourceId * option ds_phase)) ts d (ph : ds_phase) :
  A ++ ((λ t : DatasourceId * ds_phase, (t.1, Some t.2)) <$> ts ++ [(d, ph)]) ≡ₚ
  (d, Some ph) :: A ++ ((λ t : DatasourceId * ds_phase, (t.1, Some t.2)) <$> ts).
Proof. rewrite fmap_app, app_assoc. symmetry. apply Permutation_cons_append. Qed.

Lemma ds_inv_step p a p' :
  NoDup (datasources p') → ds_inv p → step p a = Some p' → ds_inv p'.
Proof.
  intros Hnd Hinv Hst. destruct a.
  5: { simpl in Hst. injection Hst as <-. simpl in Hnd.
       apply NoDup_app in Hnd as (_ & Hd & _). apply ds_inv_register; [done|]. intros Hin.
       by apply (Hd d Hin), list_elem_of_singleton. }
  7: { simpl in Hst. destruct (Start p) as [q|] eqn:E; injection Hst as <-; [|done].
       eapply ds_inv_start; [done| |done]. unfold Start in E.
       repeat (case_match; try done). by injection E as <-. }
  all: step_unfold Hst.
  all: try (apply (ds_inv_same p _ Hinv); [done|done| |done]; intros d';
    simpl; rewrite ?ds_log_app; simpl; by rewrite ?app_nil_r).
  - eapply (ds_inv_move p _ d None (Some (Some DsLaunched))); try done; simpl.
    + unfold slots. rewrite (take_out_perm _ _ _ H). simpl. reflexivity.
    + apply slots_snoc.
    + apply (di_seen _ Hinv d None). unfold slots. rewrite (take_out_perm _ _ _ H). by left.
  - apply (ds_inv_same p _ Hinv); [|done..]. unfold slots. simpl. by rewrite H.
  - apply (ds_inv_same p _ Hinv); [|done..]. unfold slots. simpl. by rewrite H.
  - eapply (ds_inv_move p _ d None (Some (Some DsLaunched))
      (((λ d, (d, None)) <$> pending p ++ omap launch_ds l0) ++
       ((λ t, (t.1, Some t.2)) <$> ds_tasks p))); try done.
    + unfold slots. rewrite H. simpl. rewrite !fmap_app. simpl. by rewrite <- Permutation_middle.
    + apply slots_snoc.
    + apply (di_seen _ Hinv d None). unfold slots. rewrite H, !fmap_app. simpl. set_solver.
  - assert (ds_log d (log p) = []) as Hl.
    { apply (di_seen _ Hinv d (Some DsLaunched)). unfold slots. apply elem_of_app. right.
      rewrite (take_out_perm _ _ _ H). by left. }
    eapply (ds_inv_move p _ d (Some DsLaunched) (Some (Some DsStarted))); try done; simpl.
    + unfold slots. rewrite (take_out_perm _ _ _ H). simpl. rewrite <- Permutation_middle. reflexivity.
    + apply slots_snoc.
    + intros d' Hd'. rewrite ds_log_app. simpl. by rewrite decide_False, app_nil_r.
    + rewrite ds_log_app, Hl. simpl. by rewrite decide_True.
  - assert (ds_log d (log p) = []) as Hl.
    { apply (di_seen _ Hinv d (Some DsLaunched)). unfold slots. apply elem_of_app. right.
      rewrite (take_out_perm _ _ _ H). by left. }
    eapply (ds_inv_move p _ d (Some DsLaunched) None); try done; simpl.
    + unfold slots. rewrite (take_out_perm _ _ _ H). simpl. rewrite <- Permutation_middle. reflexivity.
    + done.
    + intros d' Hd'. rewrite ds_log_app. simpl. by rewrite decide_False, app_nil_r.
    + rewrite ds_log_app, Hl. simpl. rewrite decide_True by done. by left.
  - assert (ds_log d (log p) = [Some true]) as Hl.
    { apply (di_seen _ Hinv d (Some DsStarted)). unfold slots. apply elem_of_app. right.
      rewrite (take_out_perm _ _ _ H0). by left. }
    eapply (ds_inv_move p _ d (Some DsStarted) None); try done; simpl.
    + unfold slots. rewrite (take_out_perm _ _ _ H0). simpl. rewrite <- Permutation_middle. reflexivity.
    + done.
    + intros d' Hd'. rewrite ds_log_app. simpl. by rewrite decide_False, app_nil_r.
    + rewrite ds_log_app, Hl. simpl. rewrite decide_True by done. by right.
Qed.

Lemma datasources_step p a p' d : step p a = Some p' → d ∈ datasources p → d ∈ datasources p'.
Proof. intros Hst Hd. step_cases Hst; try done; apply elem_of_app; by left. Qed.

Lemma datasources_grow p a p' :
  step p a = Some p' → datasources p' = datasources p ∨ ∃ d, datasources p' = datasources p ++ [d].
Proof. intros Hst. step_cases Hst; eauto. Qed.

Lemma reachable_datasources p : reachable p → NoDup (datasources p) → ds_inv p.
Proof.
  induction 1 as [|p a p' _ IH Hst]; intros Hnd.
  - split; simpl; intros; auto using NoDup_nil_2; by apply not_elem_of_nil in H.
  - apply (ds_inv_step p a); [done| |done]. apply IH.
    destruct (datasources_grow _ _ _ Hst) as [<-|[d Hd]]; [done|].
    rewrite Hd in Hnd. by apply NoDup_app in Hnd as [? _].
Qed.

(** C31: a datasource is started at most once and stopped only if it started.
    When no datasource is registered twice, in every reachable state each one
    has seen nothing yet, one [Start] that failed, one [Start] that succeeded,
    or that and one [Stop] after it; and only registered ones see anything. *)
Theorem datasource_lifecycle p d :
  reachable p → NoDup (datasources p) →
  (ds_log d (log p) = [] ∨ ds_log d (log p) = [Some false] ∨
   ds_log d (log p) = [Some true] ∨ ds_log d (log p) = [Some true; None]) ∧
  (d ∉ datasources p → ds_log d (log p) = []).
Proof.
  intros Hr Hnd. pose proof (reachable_datasources p Hr Hnd) as Hinv.
  split; [|apply (di_unknown _ Hinv)].
  destruct (decide (d ∈ (slots p).*1)) as [Hin|Hout].
  - apply list_elem_of_fmap in Hin as ([d' ph] & -> & Hin). simpl.
    rewrite (di_seen _ Hinv _ _ Hin). destruct ph as [[]|]; simpl; tauto.
  - destruct (di_gone _ Hinv _ Hout); tauto.
Qed.

(** ** Stopping *)

Definition loopless (l : list launch) : Prop := LLoop ∉ l.

(** The life cycle: nothing runs before [Start]; no call of [Stop] is under way
    before the flag is set; the event loop is launched once, and once it has
    been, it runs until it closes [notifyDone]. *)
Record life_inv (p : Processor) : Prop :=
  { li_idle : started p = false →
      launching p = [] ∧ pending p = [] ∧ ds_tasks p = [] ∧ collector_tasks p = [] ∧
      loop_alive p = false ∧ notifyDone p = false ∧ stopping p = 0%nat ∧ waited p = 0%nat;
    li_calls : stopped p = false → stopping p = 0%nat ∧ waited p = 0%nat;
    li_loop : started p = true →
      (∃ l, launching p = LLoop :: l ∧ loopless l ∧ loop_alive p = false ∧ notifyDone p = false) ∨
      (loopless (launching p) ∧ loop_alive p = negb (notifyDone p));
    li_hand : loop_alive p = false → in_hand p = None }.

Lemma launches_loopless cs ds : ∃ l, launches cs ds = LLoop :: l ∧ loopless l.
Proof.
  eexists. split; [reflexivity|]. unfold loopless. rewrite elem_of_app, !list_elem_of_fmap. naive_solver.
Qed.


Lemma loopless_cons x l : loopless (x :: l) → x ≠ LLoop ∧ loopless l.
Proof. unfold loopless. rewrite not_elem_of_cons. naive_solver. Qed.

(** Closes a goal that a state before [Start] is idle, when the step that led
    to it is not enabled in an idle state. *)
Ltac life_idle Hi :=
  let Hs := fresh in
  intros Hs; destruct (Hi Hs) as (Hi1 & Hi2 & Hi3 & Hi4 & Hi5 & Hi6 & Hi7 & Hi8);
  first [congruence|
    repeat match goal with
    | H : take_out _ _ = Some _ |- _ => apply take_out_perm in H
    | H : _ = [] |- _ => rewrite H in *; clear H
    end; simpl in *;
    repeat match goal with
    | H : [] ≡ₚ _ |- _ => by apply Permutation_nil_cons in H
    end; rewrite ?Hs in *; simpl in *; (congruence || done)].

Lemma life_inv_step p a p' : life_inv p → step p a = Some p' → life_inv p'.
Proof.
  intros [Hi Hc Hl Hh] Hst. step_cases Hst; split; simpl; try tauto; try congruence.
  all: repeat match goal with H : _ && _ = true |- _ => apply andb_prop in H as [? ?] end.
  all: try (intros Hs; discriminate Hs || (specialize (Hh Hs); congruence)).
  all: try life_idle Hi.
  all: try (intros Hs; destruct (Hc Hs); lia).
  all: intros Hs; try specialize (Hl Hs).
  1: { left. destruct (Hi eq_refl) as (Hi1 & Hi2 & Hi3 & Hi4 & Hi5 & Hi6 & Hi7 & Hi8).
       destruct (launches_loopless (collectors p) (datasources p)) as (l & -> & ?). eauto. }
  all: right; destruct Hl as [(l' & Hl' & ? & ? & Hn)|[Hl Ha]]; simplify_eq/=.
  all: try (apply loopless_cons in Hl as [? Hl]).
  all: first [done|congruence|by rewrite Hn|by split|split; congruence].
Qed.

Lemma reachable_life p : reachable p → life_inv p.
Proof.
  induction 1 as [|p a p' _ IH Hst]; [|by eapply life_inv_step].
  split; simpl; [intros _; by split_and!|done..].
Qed.

(** A call of [Stop] has been made and no [go] statement is left to reach: what
    still runs is a goroutine that sees the end of the context. *)
Record draining (p : Processor) : Prop :=
  { dr_started : started p = true;
    dr_stopped : stopped p = true;
    dr_cancelled : cancelled p = true;
    dr_launching : launching p = [];
    dr_pending : pending p = [];
    dr_loop : loop_alive p = negb (notifyDone p);
    dr_hand : loop_alive p = false → in_hand p = None;
    dr_waited : (0 < waited p)%nat → ds_tasks p = [] ∧ collector_tasks p = [] }.

Lemma draining_stop p :
  reachable p → started p = true → stopped p = false → launching p = [] → pending p = [] →
  draining (Stop p).
Proof.
  intros Hr%reachable_life Hs Hns Hl Hp. unfold Stop. rewrite Hs.
  destruct (li_calls _ Hr Hns) as [_ Hw]. split; simpl; try done; [|apply (li_hand _ Hr)|rewrite Hw; lia].
  destruct (li_loop _ Hr Hs) as [(l & Hl' & _)|[_ Ha]]; [by rewrite Hl in Hl'|done].
Qed.

Lemma draining_step p a p' : draining p → step p a = Some p' → draining p'.
Proof.
  intros [H1 H2 H3 H4 H5 H6 Hh H7] Hst. step_cases Hst; split; simpl; try congruence; try done.
  all: try (intros Hs; discriminate Hs || (specialize (Hh Hs); congruence)).
  all: repeat match goal with H : _ && _ = true |- _ => apply andb_prop in H as [? ?] end.
  all: try (rewrite ?H2, ?H5 in *; discriminate).
  all: try (intros Hw; destruct H7 as [E1 E2]; [lia|]; rewrite ?E1, ?E2 in *; discriminate).
  - intros _. split; apply length_zero_iff_nil; by apply Nat.eqb_eq.
  - intros _. apply H7. lia.
Qed.

(** What the plugins are asked to do. *)
Definition active (o : observation) : bool :=
  match o with OExtract _ _ | ODsStart _ _ | ODsStop _ | OPoll _ => true | _ => false end.

Definition activity (l : list observation) : list observation := filter (Is_true ∘ active) l.

Record quiet (p : Processor) : Prop :=
  { qt_draining : draining p;
    qt_loop : notifyDone p = true;
    qt_hand : in_hand p = None;
    qt_ds : ds_tasks p = [];
    qt_collectors : collector_tasks p = [] }.

Lemma quiet_step p a p' :
  quiet p → step p a = Some p' → quiet p' ∧ activity (log p') = activity (log p).
Proof.
  intros [Hd Hn Hh E1 E2] Hst. pose proof (draining_step _ _ _ Hd Hst) as Hd'.
  destruct Hd as [H1 H2 H3 H4 H5 H6 _ _].
  step_cases Hst; (split; [split|]); simpl; try done.
  all: clear Hd'; try match goal with
    | H : take_out _ (ds_tasks _) = _ |- _ => rewrite E1 in H; discriminate H
    | H : take_out _ (collector_tasks _) = _ |- _ => rewrite E2 in H; discriminate H
    | H : take_out _ (pending _) = _ |- _ => rewrite H5 in H; discriminate H
    | H : _ && negb (stopped _) = true |- _ => rewrite H2 in H; by apply andb_prop in H as [_ [=]]
    end.
  all: try (rewrite Hn in H6; discriminate H6).
  all: unfold activity; rewrite filter_app; apply app_nil_r.
Qed.

Lemma quiet_run p acts p' :
  quiet p → run p acts = Some p' → activity (log p') = activity (log p).
Proof.
  intros Hq Hr. apply (run_inv (λ p', quiet p' ∧ activity (log p') = activity (log p)) p acts p') in Hr
    as [_ ?]; [done| |done].
  intros q a q' [Hq' <-] Hst. by eapply quiet_step.
Qed.

Lemma stop_return_quiet p p' : draining p → Stop_return p = Some p' → quiet p'.
Proof.
  intros Hd Hst. pose proof (draining_step p AStop_return p' Hd Hst) as Hd'.
  destruct Hd as [_ _ _ _ _ H6 Hh H7]. unfold Stop_return in Hst.
  destruct (waited p) eqn:Hw, (notifyDone p) eqn:Hn; simplify_eq/=.
  destruct H7; [lia|]. split; auto.
Qed.

(** C15: [Stop] is final. Take any reachable state of a started processor in
    which no registration and no [Start] is half-way, and the first call of
    [Stop] there. Once that call has returned, nothing the callers do makes an
    extractor, a datasource or a collector be called again. *)
Theorem stop_is_final p acts p1 p2 acts' p3 :
  reachable p → started p = true → stopped p = false → launching p = [] → pending p = [] →
  run (Stop p) acts = Some p1 → Stop_return p1 = Some p2 → run p2 acts' = Some p3 →
  activity (log p3) = activity (log p2).
Proof.
  intros Hr Hs Hns Hl Hp Hrun Hret. apply quiet_run, (stop_return_quiet p1); [|done].
  apply (run_inv draining (Stop p) acts); [apply draining_step|by apply draining_stop|done].
Qed.

(** *** [Stop] returns *)

Lemma run_app p acts acts' :
  run p (acts ++ acts') = match run p acts with Some q => run q acts' | None => None end.
Proof. revert p. induction acts as [|a l IH]; intros p; simpl; [done|]. by destruct (step p a). Qed.

(** The actions of the goroutines, and of the call of [Stop] itself. *)
Definition winds_down (a : action) : bool :=
  match a with
  | ADs_start _ _ | ADs_stop _ | ACollector_exit _ | ALoop_extract | ALoop_next | ALoop_exit
  | AStop_wait | AStop_return => true
  | _ => false
  end.

(** The steps the goroutines have left. *)
Definition work (p : Processor) : nat :=
  sum_list ((λ t : DatasourceId * ds_phase, match t.2 with DsLaunched => 2 | DsStarted => 1 end)%nat
    <$> ds_tasks p) + length (collector_tasks p) +
  (match in_hand p with Some d => S (among d - reached d) | None => 0 end) +
  (if loop_alive p then 1 else 0).

(** The loop's own: the extractors left for the event it holds, and its exit. *)
Lemma loop_winds_down p :
  draining p → loop_alive p = true → ds_tasks p = [] → collector_tasks p = [] →
  ∃ a p', winds_down a ∧ step p a = Some p' ∧ (work p' < work p)%nat ∧
    stopping p' = stopping p ∧ waited p' = waited p.
Proof.
  intros Hd Hl E1 E2. unfold work. rewrite E1, E2, Hl.
  destruct (in_hand p) as [[e k n]|] eqn:Ein; [destruct (k <? n)%nat eqn:Ek|].
  - exists ALoop_extract. eexists. simpl. unfold eventLoop_extract. rewrite Ein, Ek.
    split_and!; try done. simpl. rewrite E1, E2, Hl. apply Nat.ltb_lt in Ek. simpl. lia.
  - exists ALoop_next. eexists. simpl. unfold eventLoop_next. rewrite Ein. simpl. rewrite Ek.
    split_and!; try done. simpl. rewrite E1, E2, Hl. simpl. lia.
  - exists ALoop_exit. eexists. simpl. unfold eventLoop_exit. rewrite Ein, Hl, (dr_cancelled _ Hd).
    simpl. split_and!; try done. simpl. rewrite E1, E2, Ein. simpl. lia.
Qed.

Lemma winds_down_once p :
  draining p → (0 < work p)%nat →
  ∃ a p', winds_down a ∧ step p a = Some p' ∧ (work p' < work p)%nat ∧
    stopping p' = stopping p ∧ waited p' = waited p.
Proof.
  intros Hd Hw. pose proof Hd as [H1 H2 H3 H4 H5 H6 Hh _]. unfold work in Hw.
  destruct (ds_tasks p) as [|[d ph] l] eqn:Ed.
  - destruct (collector_tasks p) as [|t l] eqn:Ec.
    + destruct (loop_alive p) eqn:El; [|rewrite (Hh eq_refl) in Hw; simpl in Hw; lia].
      by apply loop_winds_down.
    + exists (ACollector_exit t). eexists. simpl. unfold runCollector_exit. rewrite H3, Ec. simpl.
      rewrite decide_True by done. split_and!; try done. unfold work. simpl. rewrite Ed, Ec. simpl. lia.
  - destruct ph.
    + exists (ADs_start d false). eexists. simpl. unfold runDatasource_start. rewrite Ed. simpl.
      rewrite decide_True by done. split_and!; try done. unfold work. rewrite Ed. csimpl. lia.
    + exists (ADs_stop d). eexists. simpl. unfold runDatasource_stop. rewrite H3, Ed. simpl.
      rewrite decide_True by done. split_and!; try done. unfold work. rewrite Ed. csimpl. lia.
Qed.

Lemma winds_down_all n p :
  draining p → (work p ≤ n)%nat →
  ∃ acts p', Forall winds_down acts ∧ run p acts = Some p' ∧ draining p' ∧ work p' = 0%nat ∧
    stopping p' = stopping p ∧ waited p' = waited p.
Proof.
  revert p. induction n as [|n IH]; intros p Hd Hn.
  - exists [], p. split_and!; try done. lia.
  - destruct (decide (work p = 0%nat)) as [Hz|Hz].
    + exists [], p. by split_and!.
    + destruct (winds_down_once p Hd) as (a & q & Ha & Hst & Hlt & Hsg & Hw); [lia|].
      destruct (IH q) as (acts & p' & Hf & Hrun & Hd' & Hz' & Hsg' & Hw');
        [by eapply draining_step|lia|].
      exists (a :: acts), p'. split_and!; try congruence; [by constructor|]. simpl. by rewrite Hst.
Qed.

(** C32: [Stop] can always return. After that call of [Stop], whatever happens,
    as long as it has not returned, the goroutines' own steps lead to a state
    in which it returns; no deadlock on the wait group or on [notifyDone]. *)
Theorem stop_can_return p acts p1 :
  reachable p → started p = true → stopped p = false → launching p = [] → pending p = [] →
  run (Stop p) acts = Some p1 → (0 < stopping p1 + waited p1)%nat →
  ∃ acts' p2, Forall winds_down acts' ∧ run p1 acts' = Some p2 ∧
    last (log p2) = Some OStopReturned ∧ ds_tasks p2 = [] ∧ collector_tasks p2 = [].
Proof.
  intros Hr Hs Hns Hl Hp Hrun Hpos.
  assert (draining p1) as Hd1 by
    (apply (run_inv draining (Stop p) acts); [apply draining_step|by apply draining_stop|done]).
  destruct (winds_down_all (work p1) p1) as (acts' & q & Hf & Hq & Hd & Hz & Hsg & Hw); [done..|].
  unfold work in Hz.
  assert (ds_tasks q = [] ∧ collector_tasks q = [] ∧ notifyDone q = true) as (E1 & E2 & E3).
  { rewrite (dr_loop _ Hd) in Hz. split_and!.
    - destruct (ds_tasks q) as [|[d []] l]; [done|simpl in Hz; lia..].
    - apply length_zero_iff_nil. lia.
    - destruct (notifyDone q); [done|simpl in Hz; lia]. }
  destruct (waited q) as [|n] eqn:Ew.
  - destruct (stopping q) as [|m] eqn:Es; [lia|].
    eexists (acts' ++ [AStop_wait; AStop_return]), _. split_and!.
    + apply Forall_app. split; [done|]. by repeat constructor.
    + rewrite run_app, Hq. simpl. unfold Stop_wait. rewrite Es, E1, E2. simpl.
      unfold Stop_return. simpl. rewrite E3. reflexivity.
    + simpl. apply last_snoc.
    + done.
    + done.
  - eexists (acts' ++ [AStop_return]), _. split_and!.
    + apply Forall_app. split; [done|]. by repeat constructor.
    + rewrite run_app, Hq. simpl. unfold Stop_return. rewrite Ew, E3. reflexivity.
    + simpl. apply last_snoc.
    + done.
    + done.
Qed.

(** A run is checked by evaluating it. *)
Lemma run_log acts l :
  log <$> run NewProcessor acts = Some l → ∃ p, run NewProcessor acts = Some p ∧ log p = l.
Proof. destruct (run NewProcessor acts) as [p|]; [|done]. intros [= <-]. by exists p. Qed.

Definition race_actions : list action :=
  [AStart; AStart_go; ARegisterDatasource 0%nat; AStop; ALoop_exit; AStop_wait; AStop_return;
   ARegisterDatasource_go 0%nat; ADs_start 0%nat true; ADs_stop 0%nat].

(** A datasource registered while [Stop] is called can start after [Stop]
    has returned: [RegisterDatasource] adds to the wait group only after it has
    left its critical section. *)
Theorem datasource_can_start_after_stop :
  ∃ acts p, run NewProcessor acts = Some p ∧
    log p = [OStopReturned; ODsStart 0%nat true; ODsStop 0%nat].
Proof. exists race_actions. apply run_log. vm_compute. reflexivity. Qed.

(** ** Witnesses *)

Definition demo_request : InferenceRequest := NewInferenceRequest.

Definition demo_event : Event := RequestEvent demo_request ∅.

Definition demo_actions : list action :=
  [ARegisterExtractor; ARegisterExtractor_read; ARegisterExtractor_write 0;
   ARegisterExtractor; ARegisterExtractor_read; ARegisterExtractor_write 1;
   ARegisterDatasource 0%nat; ANotify demo_event; AStart; AStart_go; AStart_go;
   ADs_start 0%nat true; ALoop_receive; ALoop_extract; ANotify demo_event].

Definition demo_state : Processor := default NewProcessor (run NewProcessor demo_actions).

Lemma reachable_run acts : reachable (default NewProcessor (run NewProcessor acts)).
Proof.
  destruct (run NewProcessor acts) eqn:E; [|constructor].
  by eapply run_reachable; [constructor|].
Qed.

(** The first of two extractors had the event that the loop holds. *)
Lemma extractors_see_accepted_events_witness :
  accepted (log demo_state) = [demo_event; demo_event] ∧
  waiting 0 demo_state = [demo_event] ∧ waiting 1 demo_state = [demo_event; demo_event] ∧
  ∀ i, (i < 2)%nat → accepted (log demo_state) = extracted i (log demo_state) ++ waiting i demo_state.
Proof.
  split_and!; [vm_compute; reflexivity..|]. intros i Hi.
  destruct (extractors_see_accepted_events demo_state (reachable_run _)) as (_ & H & _).
  refine (proj1 (H _ i _)).
  - vm_compute. reflexivity.
  - exact Hi.
Defined.

Lemma demo_datasources : datasources demo_state = [0%nat].
Proof. vm_compute. reflexivity. Qed.

Lemma datasource_lifecycle_witness :
  ds_log 0%nat (log demo_state) = [Some true] ∧ ds_log 1%nat (log demo_state) = [].
Proof.
  split; [vm_compute; reflexivity|].
  apply (datasource_lifecycle demo_state 1%nat); [apply reachable_run|..];
    rewrite demo_datasources; [apply NoDup_singleton|set_solver].
Defined.

Definition stop_actions : list action := [ADs_stop 0%nat; ALoop_extract; ALoop_next; ALoop_exit; AStop_wait].

Definition late_actions : list action :=
  [ANotify demo_event; ARegisterCollector 7%nat 1000; ARegisterDatasource 8%nat; AStop].

Definition stopped_state : Processor := default NewProcessor (run (Stop demo_state) stop_actions).
Definition returned_state : Processor := default NewProcessor (Stop_return stopped_state).
Definition late_state : Processor := default NewProcessor (run returned_state late_actions).

Lemma run_defined p acts :
  is_Some (run p acts) → run p acts = Some (default NewProcessor (run p acts)).
Proof. by intros [q ->]. Qed.

Lemma is_Some_bool {A} (m : option A) : match m with Some _ => true | None => false end = true → is_Some m.
Proof. destruct m; [by eexists|done]. Qed.

Lemma stop_is_final_witness : activity (log late_state) = activity (log returned_state).
Proof.
  apply (stop_is_final demo_state stop_actions stopped_state returned_state late_actions late_state).
  - apply reachable_run.
  - vm_compute. reflexivity.
  - vm_compute. reflexivity.
  - vm_compute. reflexivity.
  - vm_compute. reflexivity.
  - apply run_defined, is_Some_bool. vm_compute. reflexivity.
  - assert (is_Some (Stop_return stopped_state)) as [q Hq]
      by (apply is_Some_bool; vm_compute; reflexivity).
    unfold returned_state. by rewrite Hq.
  - apply run_defined, is_Some_bool. vm_compute. reflexivity.
Defined.

Lemma stop_can_return_witness :
  ∃ acts' p2, Forall winds_down acts' ∧ run (Stop demo_state) acts' = Some p2 ∧
    last (log p2) = Some OStopReturned ∧ ds_tasks p2 = [] ∧ collector_tasks p2 = [].
Proof.
  apply (stop_can_return demo_state []).
  - apply reachable_run.
  - vm_compute. reflexivity.
  - vm_compute. reflexivity.
  - vm_compute. reflexivity.
  - vm_compute. reflexivity.
  - reflexivity.
  - apply Nat.ltb_lt. vm_compute. reflexivity.
Defined.
