(* ===== verification/Fakes.v ===== *)
(** The test doubles and the test helper: pkg/datalayer/fakeprocessor.go,
    pkg/datastore/fakedatastore.go and pkg/common/envoy/test/utils.go, and how
    far they stand for the code that they replace in tests. *)

From Stdlib Require Import String.
From S2P Require Import Prelude GoFloat GoValue Envoy Message World.
From S2P Require Import Datalayer Pickers Processor.

Local Open Scope string_scope.
Local Open Scope list_scope.

(** ** The fake processor *)

Module FakeProcessor.

Record FakeProcessor :=
  { fake_extractors : list nat;
    fake_collectors : list CollectorId;
    fake_datasources : list DatasourceId;
    fake_events : list Event }.

Definition NewFakeProcessor : FakeProcessor :=
  {| fake_extractors := []; fake_collectors := []; fake_datasources := []; fake_events := [] |}.

Definition Notify (e : Event) (f : FakeProcessor) : FakeProcessor :=
  {| fake_extractors := fake_extractors f; fake_collectors := fake_collectors f;
     fake_datasources := fake_datasources f; fake_events := fake_events f ++ [e] |}.

Definition RegisterExtractor (e : nat) (f : FakeProcessor) : FakeProcessor :=
  {| fake_extractors := fake_extractors f ++ [e]; fake_collectors := fake_collectors f;
     fake_datasources := fake_datasources f; fake_events := fake_events f |}.

Definition RegisterCollector (c : CollectorId) (frequency : Z) (f : FakeProcessor) :
    FakeProcessor :=
  {| fake_extractors := fake_extractors f; fake_collectors := fake_collectors f ++ [c];
     fake_datasources := fake_datasources f; fake_events := fake_events f |}.

Definition RegisterDatasource (d : DatasourceId) (f : FakeProcessor) : FakeProcessor :=
  {| fake_extractors := fake_extractors f; fake_collectors := fake_collectors f;
     fake_datasources := fake_datasources f ++ [d]; fake_events := fake_events f |}.

Definition Start (f : FakeProcessor) : FakeProcessor + goerror := inl f.
Definition Stop (f : FakeProcessor) : FakeProcessor := f.

Definition GetExtractors (f : FakeProcessor) : list nat := fake_extractors f.
Definition GetCollectors (f : FakeProcessor) : list CollectorId := fake_collectors f.
Definition GetDatasources (f : FakeProcessor) : list DatasourceId := fake_datasources f.
Definition GetEvents (f : FakeProcessor) : list Event := fake_events f.

End FakeProcessor.

(** A call of the processor's interface. *)
Inductive dl_call : Type :=
| CNotify (e : Event)
| CExtractor (e : nat)
| CCollector (c : CollectorId) (frequency : Z)
| CDatasource (d : DatasourceId)
| CStart
| CStop.

Definition call_fake (f : FakeProcessor.FakeProcessor) (c : dl_call) :
    FakeProcessor.FakeProcessor :=
  match c with
  | CNotify e => FakeProcessor.Notify e f
  | CExtractor e => FakeProcessor.RegisterExtractor e f
  | CCollector c freq => FakeProcessor.RegisterCollector c freq f
  | CDatasource d => FakeProcessor.RegisterDatasource d f
  | CStart => match FakeProcessor.Start f with inl f => f | inr _ => f end
  | CStop => FakeProcessor.Stop f
  end.

(** The same call on the processor, its critical section. *)
Definition call_real (p : Processor) (c : dl_call) : Processor :=
  match c with
  | CNotify e => Notify e p
  | CExtractor _ => RegisterExtractor p
  | CCollector c freq => RegisterCollector c freq p
  | CDatasource d => RegisterDatasource d p
  | CStart => match Start p with inl p => p | inr _ => p end
  | CStop => Stop p
  end.

(** What the calls registered and sent. *)
Definition collectors_of (cs : list dl_call) : list (CollectorId * Z) :=
  omap (λ c, if c is CCollector c f then Some (c, f) else None) cs.
Definition datasources_of (cs : list dl_call) : list DatasourceId :=
  omap (λ c, if c is CDatasource d then Some d else None) cs.
Definition events_of (cs : list dl_call) : list Event :=
  omap (λ c, if c is CNotify e then Some e else None) cs.
Definition extractors_of (cs : list dl_call) : list nat :=
  omap (λ c, if c is CExtractor e then Some e else None) cs.

Lemma fake_records cs f :
  let f' := foldl call_fake f cs in
  FakeProcessor.GetExtractors f' = FakeProcessor.GetExtractors f ++ extractors_of cs ∧
  FakeProcessor.GetCollectors f' = FakeProcessor.GetCollectors f ++ (collectors_of cs).*1 ∧
  FakeProcessor.GetDatasources f' = FakeProcessor.GetDatasources f ++ datasources_of cs ∧
  FakeProcessor.GetEvents f' = FakeProcessor.GetEvents f ++ events_of cs.
Proof.
  revert f. induction cs as [|c cs IH]; intros f; simpl; [by rewrite !app_nil_r|].
  destruct (IH (call_fake f c)) as (-> & -> & -> & ->).
  destruct c; simpl; rewrite <- ?app_assoc; done.
Qed.

(** A positive frequency, or the collector is not registered. *)
Definition polled (cf : CollectorId * Z) : bool := (0 <? cf.2)%Z.

Lemma real_records cs p :
  started p = false → (length (ch p) ≤ defaultBufferSize)%nat → CStart ∉ cs →
  let p' := foldl call_real p cs in
  started p' = false ∧
  extractors p' = (extractors p + length (extractors_of cs))%nat ∧
  collectors p' = collectors p ++ List.filter polled (collectors_of cs) ∧
  datasources p' = datasources p ++ datasources_of cs ∧
  ch p' = take defaultBufferSize (ch p ++ events_of cs).
Proof.
  revert p. induction cs as [|c cs IH]; intros p Hs Hch Hcs; simpl.
  { rewrite !app_nil_r, Nat.add_0_r, take_ge by done. done. }
  apply not_elem_of_cons in Hcs as [Hc Hcs].
  destruct c as [e|e|c freq|d| |]; simpl; [| | | |done|].
  - unfold Notify. destruct (Nat.ltb_spec (length (ch p)) defaultBufferSize) as [Hlt|Hge].
    + destruct (IH (with_events p (ch p ++ [e]) (extractors p) (log p ++ [OAccepted e])))
        as (-> & -> & -> & -> & ->); [done| |done|].
      { simpl. rewrite length_app. simpl. lia. }
      simpl. by rewrite <- app_assoc.
    + destruct (IH (with_events p (ch p) (extractors p) (log p ++ [ODropped e])))
        as (-> & -> & -> & -> & ->); [done..|].
      simpl. by rewrite !take_app_length' by lia.
  - unfold RegisterExtractor. rewrite Hs.
    destruct (IH (with_events p (ch p) (S (extractors p)) (log p)))
      as (-> & -> & -> & -> & ->); [done..|]. simpl. by rewrite Nat.add_succ_r.
  - unfold RegisterCollector, polled at 1. simpl.
    destruct (Z.leb_spec freq 0) as [Hle|Hgt].
    + destruct (IH p) as (-> & -> & -> & -> & ->); [done..|].
      by rewrite (proj2 (Z.ltb_ge 0 freq)) by done.
    + simpl. rewrite Hs. simpl.
      destruct (IH (with_registered p (collectors p ++ [(c, freq)]) (datasources p) (pending p)))
        as (-> & -> & -> & -> & ->); [done..|].
      simpl. rewrite (proj2 (Z.ltb_lt 0 freq)) by done. by rewrite <- app_assoc.
  - destruct (IH (RegisterDatasource d p)) as (-> & -> & -> & -> & ->); [done..|].
    simpl. by rewrite <- app_assoc.
  - unfold Stop. rewrite Hs. simpl.
    destruct (IH (with_events (with_lifecycle p false true (cancelled p) (stopping p) (waited p)
      (loop_alive p) (notifyDone p)) (ch p) (extractors p) (log p ++ [OStopReturned])))
      as (-> & -> & -> & -> & ->); done.
Qed.

(** ** The fake datastore

    On the state of the in-memory store: the objects of the models, and the map
    [models]. *)

Module FakeDataStore.
Section fake_store.
Context `{TD : TDigest} {MO : MapOrder}.

Definition NewFakeDataStore : Store := {| heap := ∅; models := ∅; next := 1 |}.

Definition GetOrCreateModel (name : string) (f : Store) : Ptr * Store :=
  match models f !! name with
  | Some m => (m, f)
  | None =>
      let m := next f in
      (m, {| heap := <[m := NewModel name]> (heap f); models := <[name := m]> (models f);
             next := Pos.succ m |})
  end.

Definition DeleteModel (name : string) (f : Store) : Store :=
  {| heap := heap f; models := delete name (models f); next := next f |}.

(** The loops append to [names] and [result]. *)
Definition Models (f : Store) : list string :=
  foldl (λ names nm, names ++ [nm.1]) [] (go_range (models f)).

Definition GetModels (predicate : Ptr → bool) (f : Store) : list Ptr :=
  foldl (λ result nm, if predicate nm.2 then result ++ [nm.2] else result) []
    (go_range (models f)).

Lemma foldl_collect {A B} (g : A → B) (P : B → bool) (l : list A) acc :
  foldl (λ r x, if P (g x) then r ++ [g x] else r) acc l
    = acc ++ base.filter (λ y, P y = true) (g <$> l).
Proof.
  revert acc. induction l as [|x l IH]; intros acc; simpl; [by rewrite app_nil_r|].
  rewrite IH, filter_cons. destruct (P (g x)); simpl; [by rewrite <- app_assoc|done].
Qed.

(** The fake is a datastore: its operations are those of the in-memory store,
    whose laws it has. *)
Lemma fake_is_store name P f :
  GetOrCreateModel name f = store_GetOrCreateModel name f ∧
  DeleteModel name f = store_DeleteModel name f ∧
  GetModels P f = store_GetModels P f.
Proof.
  split_and!; [done..|]. unfold GetModels, store_GetModels. by rewrite foldl_collect.
Qed.

Lemma Models_spec f :
  NoDup (Models f) ∧ ∀ name, name ∈ Models f ↔ is_Some (store_view f !! name).
Proof.
  assert (Models f = (go_range (models f)).*1) as ->.
  { unfold Models. pose proof (foldl_collect fst (λ _, true) (go_range (models f)) []) as H.
    simpl in H. rewrite H. clear H. induction (go_range (models f)).*1 as [|x l IH]; [done|].
    rewrite filter_cons, decide_True by done. by rewrite IH. }
  split; [apply NoDup_fst_go_range|]. intros name. unfold store_view.
  rewrite lookup_fmap, fmap_is_Some, list_elem_of_fmap. split.
  - intros ([k p] & -> & Hk). apply elem_of_go_range in Hk. by eexists.
  - intros [p Hp]. exists (name, p). split; [done|]. by apply elem_of_go_range.
Qed.
End fake_store.
End FakeDataStore.

(** ** Sorting the headers of responses *)

(** [sort.Slice] by [a.Key < b.Key]: the algorithm of [slices.SortFunc], for a
    comparison that only tells less from not less. *)
Definition by_key (a b : HeaderValueOption) : Z :=
  match String.compare (Key (Header a)) (Key (Header b)) with Lt => -1 | Eq => 0 | Gt => 1 end.

Definition sort_common `{PdqSort} (c : CommonResponse) : CommonResponse :=
  match HeaderMutation_of c with
  | Some m =>
      if (1 <? length (SetHeaders m))%nat
      then {| ClearRouteCache := ClearRouteCache c;
              HeaderMutation_of := Some {| SetHeaders := SortFunc by_key (SetHeaders m);
                                           RemoveHeaders := RemoveHeaders m |};
              BodyMutation_of := BodyMutation_of c |}
      else c
  | None => c
  end.

(** In place, in every response that is there and may have headers. *)
Definition SortSetHeadersInResponses `{PdqSort} (responses : list (option ProcessingResponse)) :
    list (option ProcessingResponse) :=
  (λ r, match r with
        | None => None
        | Some (RequestHeadersResp c) => Some (RequestHeadersResp (sort_common <$> c))
        | Some (RequestBodyResp c) => Some (RequestBodyResp (sort_common c))
        | Some (ResponseHeadersResp c) => Some (ResponseHeadersResp (sort_common <$> c))
        | Some (ResponseBodyResp c) => Some (ResponseBodyResp (sort_common c))
        | Some r => Some r
        end) <$> responses.

Lemma compare_trans s t u :
  String.compare s t ≠ Gt → String.compare t u ≠ Gt → String.compare s u ≠ Gt.
Proof.
  revert t u. induction s as [|a s IH]; intros [|b t] [|c u]; simpl; try done.
  unfold Ascii.compare.
  destruct (N.compare_spec (Ascii.N_of_ascii a) (Ascii.N_of_ascii b)) as [E|E|E]; [|intros _|done];
  destruct (N.compare_spec (Ascii.N_of_ascii b) (Ascii.N_of_ascii c)) as [E'|E'|E']; try done;
  destruct (N.compare_spec (Ascii.N_of_ascii a) (Ascii.N_of_ascii c)); try done; try lia; apply IH.
Qed.

Lemma by_key_preorder : preorder_cmp by_key (λ _, True).
Proof.
  split.
  - intros x y z _ _ _ Hxy Hyz. unfold by_key in *.
    pose proof (compare_trans (Key (Header x)) (Key (Header y)) (Key (Header z))) as H.
    destruct (String.compare (Key (Header x)) (Key (Header y))), (String.compare (Key (Header y))
      (Key (Header z))), (String.compare (Key (Header x)) (Key (Header z))); try lia; naive_solver.
  - intros x y _ _. unfold by_key. rewrite (String.compare_antisym (Key (Header y))).
    destruct (String.compare (Key (Header x)) (Key (Header y))); simpl; lia.
Qed.

(** The order in which the headers were generated is gone after sorting. *)
Lemma sorted_headers_unique `{PdqSort} l l' :
  l ≡ₚ l' → NoDup ((λ o, Key (Header o)) <$> l) → SortFunc by_key l = SortFunc by_key l'.
Proof.
  intros Hp Hd. apply (StronglySorted_unique_strong (λ x y, by_key x y <= 0)%Z).
  - intros x y Hx Hy Hxy Hyx. rewrite SortFunc_perm in Hx, Hy. rewrite <- Hp in Hy.
    assert (Key (Header x) = Key (Header y)) as Hk.
    { apply String.compare_eq_iff. unfold by_key in *.
      rewrite (String.compare_antisym (Key (Header y))) in Hyx.
      destruct (String.compare (Key (Header x)) (Key (Header y))); simpl in *; lia || done. }
    apply list_elem_of_lookup in Hx as [i Hi], Hy as [j Hj].
    assert (i = j) as ->; [|congruence].
    eapply NoDup_lookup; [exact Hd| |]; rewrite list_lookup_fmap; [by rewrite Hi|].
    rewrite Hj. simpl. by rewrite Hk.
  - eapply SortFunc_sorted; [apply by_key_preorder|by apply Forall_true].
  - eapply SortFunc_sorted; [apply by_key_preorder|by apply Forall_true].
  - by rewrite !SortFunc_perm.
Qed.

(** Two answers that a test may see for one: the same, with headers generated in
    another order. *)
Definition same_common (c c' : CommonResponse) : Prop :=
  ClearRouteCache c = ClearRouteCache c' ∧ BodyMutation_of c = BodyMutation_of c' ∧
  match HeaderMutation_of c, HeaderMutation_of c' with
  | Some m, Some m' =>
      SetHeaders m ≡ₚ SetHeaders m' ∧ RemoveHeaders m = RemoveHeaders m' ∧
      NoDup ((λ o, Key (Header o)) <$> SetHeaders m)
  | None, None => True
  | _, _ => False
  end.

Definition same_answer (r r' : option ProcessingResponse) : Prop :=
  match r, r' with
  | Some (RequestHeadersResp (Some c)), Some (RequestHeadersResp (Some c')) => same_common c c'
  | Some (RequestBodyResp c), Some (RequestBodyResp c') => same_common c c'
  | Some (ResponseHeadersResp (Some c)), Some (ResponseHeadersResp (Some c')) => same_common c c'
  | Some (ResponseBodyResp c), Some (ResponseBodyResp c') => same_common c c'
  | _, _ => r = r'
  end.

Lemma sort_common_unique `{PdqSort} c c' : same_common c c' → sort_common c = sort_common c'.
Proof.
  destruct c as [cl [[sh rm]|] b], c' as [cl' [[sh' rm']|] b']; unfold same_common; simpl;
    intros (<- & <- & Hm); try done; unfold sort_common; simpl.
  destruct Hm as (Hp & <- & Hd). rewrite <- (Permutation_length Hp).
  destruct (Nat.ltb_spec 1 (length sh)) as [|Hle]; [by rewrite (sorted_headers_unique _ _ Hp Hd)|].
  assert (Hl := Permutation_length Hp). destruct sh as [|x [|]]; simpl in *; [| |lia].
  - by destruct sh'.
  - by apply Permutation_singleton_l in Hp as ->.
Qed.

(** Headers generated from one map in two orders. *)
Lemma generated_headers_same (MO MO' : MapOrder) clear hs rem :
  same_common (header_mutation clear (GenerateHeadersMutation (H := MO) hs) rem)
    (header_mutation clear (GenerateHeadersMutation (H := MO') hs) rem).
Proof.
  split_and!; [done..|]. simpl. split_and!; [|done|].
  - unfold GenerateHeadersMutation. by rewrite !go_range_perm.
  - unfold GenerateHeadersMutation. rewrite <- list_fmap_compose.
    apply (NoDup_fst_go_range hs).
Qed.

(** Comparing sorted responses is comparing responses up to the order of
    [range]. Two lists of responses that differ in the order of headers only,
    of which no response has two of one name, are equal after
    [SortSetHeadersInResponses]; and headers generated from a map in two orders
    are such. *)
Theorem sorted_responses_are_order_free `{PdqSort} (rs rs' : list (option ProcessingResponse))
    (Hrs : Forall2 same_answer rs rs') :
  SortSetHeadersInResponses rs = SortSetHeadersInResponses rs' ∧
  ∀ (MO MO' : MapOrder) clear hs rem,
    same_answer
      (Some (RequestHeadersResp (Some (header_mutation clear (GenerateHeadersMutation (H := MO) hs) rem))))
      (Some (RequestHeadersResp (Some (header_mutation clear (GenerateHeadersMutation (H := MO') hs) rem)))).
Proof.
  split; [|intros; apply generated_headers_same].
  unfold SortSetHeadersInResponses. induction Hrs as [|r r' rs rs' Hr _ IH]; [done|].
  rewrite !fmap_cons, IH. f_equal.
  destruct r as [[[]| | |[]| | |]|], r' as [[[]| | |[]| | |]|]; simpl in *; simplify_eq; try done;
    by rewrite (sort_common_unique _ _ Hr).
Qed.

Definition opt_header (k v : string) : HeaderValueOption :=
  {| Header := {| Key := k; Value := ""; RawValue := s2b v |};
     Append := OVERWRITE_IF_EXISTS_OR_ADD |}.

Lemma sorted_responses_are_order_free_witness :
  SortSetHeadersInResponses
    [Some (RequestHeadersResp (Some (header_mutation true [opt_header "b" "1"; opt_header "a" "2"] [])));
     None]
  = [Some (RequestHeadersResp (Some (header_mutation true [opt_header "a" "2"; opt_header "b" "1"] [])));
     None].
Proof.
  eapply eq_trans.
  - apply (sorted_responses_are_order_free _
      [Some (RequestHeadersResp (Some (header_mutation true [opt_header "a" "2"; opt_header "b" "1"] [])));
       None]).
    constructor; [|repeat constructor]. split_and!; [done..|]. simpl. split_and!; [|done|].
    + apply perm_swap.
    + apply NoDup_cons; split; [set_solver|]. apply NoDup_singleton.
  - vm_compute. reflexivity.
Defined.

(** The fake processor records what the processor would be wired with.
    After any calls that register, notify or stop, before [Start], it holds as
    many extractors as the processor and the same datasources in order; its
    collectors are those given, of which the processor keeps the ones with a
    positive frequency; and the events waiting in the processor's channel are
    the first that the fake has recorded, as many as the buffer holds. *)
Theorem fake_processor_agrees (cs : list dl_call) (Hcs : CStart ∉ cs) :
  let f := foldl call_fake FakeProcessor.NewFakeProcessor cs in
  let p := foldl call_real NewProcessor cs in
  extractors p = length (FakeProcessor.GetExtractors f) ∧
  datasources p = FakeProcessor.GetDatasources f ∧
  collectors p = List.filter polled (collectors_of cs) ∧
  FakeProcessor.GetCollectors f = (collectors_of cs).*1 ∧
  ch p = take defaultBufferSize (FakeProcessor.GetEvents f).
Proof.
  intros f p. subst f p.
  destruct (fake_records cs FakeProcessor.NewFakeProcessor) as (-> & -> & -> & ->).
  destruct (real_records cs NewProcessor) as (_ & -> & -> & -> & ->); [done|simpl; lia|done..].
Qed.

Lemma fake_processor_agrees_witness :
  let cs := [CExtractor 0; CCollector 1 0; CCollector 2 5; CStop; CDatasource 3] in
  let f := foldl call_fake FakeProcessor.NewFakeProcessor cs in
  let p := foldl call_real NewProcessor cs in
  extractors p = 1%nat ∧ collectors p = [(2%nat, 5%Z)] ∧
  FakeProcessor.GetCollectors f = [1; 2]%nat ∧ datasources p = [3]%nat.
Proof.
  destruct (fake_processor_agrees
    [CExtractor 0; CCollector 1 0; CCollector 2 5; CStop; CDatasource 3]) as (E & D & C & F & _).
  { set_solver. }
  simpl. split_and!; [exact E | exact C | exact F | exact D].
Defined.
