(* ===== verification/Watcher.v ===== *)
(** The model configuration datasource
    (plugins/datalayer/modelconfigcollector/plugin.go) run by the processor
    (pkg/datalayer/processor.go): its [Start] and [Stop], the goroutine that
    watches the models file, and the two channels they meet on. The processor's
    machine calls a datasource's [Stop] in one step; here that call closes a
    channel, waits for another, and other goroutines move in between. *)

From Stdlib Require Import String.
From S2P Require Import Prelude GoFloat GoValue Envoy Message World Datalayer Extractors Processor.

Local Open Scope string_scope.
Local Open Scope list_scope.

Module Watcher.

Section watcher.
Context `{TD : TDigest} {S : Type} `{DS : !Datastore S}.

(** The datasource, by its identity in the processor, and the file it watches. *)
Context (d : DatasourceId) (absModelsPath : string).

(** [stopCh] and [doneCh] say that the channel is closed; [loops] are the
    watching goroutines and [waiting] the calls of [Stop] at [<-c.doneCh];
    [syncs] are the contents of the file that were synced, oldest first. *)
Record Watch := {
  stopCh : bool; doneCh : bool; loops : nat; waiting : nat; syncs : list (option bytes) }.

Definition new_watch : Watch :=
  {| stopCh := false; doneCh := false; loops := 0; waiting := 0; syncs := [] |}.

(** [Start]: the store and the error; [newWatcher] and [add] are what fsnotify
    returns. *)
Definition start_watching (newWatcher add : option goerror) (data : option bytes) (w : Watch) (s : S) :
    Watch * S * option goerror :=
  let synced := {| stopCh := stopCh w; doneCh := doneCh w; loops := loops w; waiting := waiting w;
                   syncs := syncs w ++ [data] |} in
  match ModelConfig.syncModels data s with
  | (s, Some err) => (synced, s, Some err)
  | (s, None) =>
      match newWatcher with
      | Some err => (synced, s, Some err)
      | None =>
          match add with
          | Some err => (synced, s, Some err)
          | None => ({| stopCh := stopCh w; doneCh := doneCh w; loops := Datatypes.S (loops w);
                        waiting := waiting w; syncs := syncs w ++ [data] |}, s, None)
          end
      end
  end.

(** Does a signal make the loop read the file? *)
Definition rereads (sig : ModelConfig.Signal) : bool :=
  match sig with
  | ModelConfig.WatchEvent (Some absEvent) write create _ _ =>
      String.eqb absEvent absModelsPath && (write || create)
  | _ => false
  end.

(** Can the [select] receive it? *)
Definition receivable (cancelled : bool) (w : Watch) (sig : ModelConfig.Signal) : bool :=
  match sig with
  | ModelConfig.StopSignal => stopCh w
  | ModelConfig.ContextDone => cancelled
  | _ => true
  end.

Definition closed_twice : string := "close of closed channel".

(** A round of the watching goroutine; at its end it closes [doneCh]. *)
Definition watch (cancelled : bool) (sig : ModelConfig.Signal) (data : option bytes) (w : Watch) (s : S) :
    option (res (Watch * S)) :=
  if (0 <? loops w)%nat && receivable cancelled w sig then
    let '(s', goes_on) := ModelConfig.watch_step absModelsPath s sig data in
    let syncs' := if rereads sig then syncs w ++ [data] else syncs w in
    if goes_on then
      Some (Ok ({| stopCh := stopCh w; doneCh := doneCh w; loops := loops w; waiting := waiting w;
                   syncs := syncs' |}, s'))
    else if doneCh w then Some (Panic closed_twice)
    else Some (Ok ({| stopCh := stopCh w; doneCh := true; loops := pred (loops w);
                      waiting := waiting w; syncs := syncs' |}, s'))
  else None.

(** [Stop], up to the wait, and after it. *)
Definition stop_begin (w : Watch) : res Watch :=
  if stopCh w then Panic closed_twice
  else Ok {| stopCh := true; doneCh := doneCh w; loops := loops w; waiting := Datatypes.S (waiting w);
             syncs := syncs w |}.

Definition stop_end (w : Watch) : option Watch :=
  match waiting w with
  | Datatypes.S n =>
      if doneCh w then Some {| stopCh := stopCh w; doneCh := true; loops := loops w; waiting := n;
                               syncs := syncs w |}
      else None
  | O => None
  end.

(** ** The processor and the datasource together *)

Record Sys := { proc : Processor; src : Watch; store : S; file : option bytes }.

Definition new_sys (s : S) (data : option bytes) : Sys :=
  {| proc := NewProcessor; src := new_watch; store := s; file := data |}.

Inductive action : Type :=
| SProc (a : Processor.action)
| SStart (newWatcher add : option goerror)
| SSignal (sig : ModelConfig.Signal)
| SStopBegin
| SStopEnd
| SFile (data : option bytes)
| SStore (s : S).

(** The steps of this datasource's goroutine are not the processor's own. *)
Definition mine (a : Processor.action) : bool :=
  match a with
  | ADs_start d' _ | ADs_stop d' => bool_decide (d' = d)
  | _ => false
  end.

Definition started_tasks (p : Processor) : list (DatasourceId * ds_phase) :=
  filter (λ t, t = (d, DsStarted)) (ds_tasks p).

Definition with_proc (y : Sys) (p : Processor) : Sys :=
  {| proc := p; src := src y; store := store y; file := file y |}.

Definition step (y : Sys) (a : action) : option (res Sys) :=
  match a with
  | SProc a =>
      if mine a then None
      else match Processor.step (proc y) a with Some p => Some (Ok (with_proc y p)) | None => None end
  | SStart newWatcher add =>
      let '(w, s, err) := start_watching newWatcher add (file y) (src y) (store y) in
      match runDatasource_start d (match err with None => true | Some _ => false end) (proc y) with
      | Some p => Some (Ok {| proc := p; src := w; store := s; file := file y |})
      | None => None
      end
  | SSignal sig =>
      match watch (cancelled (proc y)) sig (file y) (src y) (store y) with
      | Some (Ok (w, s)) => Some (Ok {| proc := proc y; src := w; store := s; file := file y |})
      | Some (Panic why) => Some (Panic why)
      | None => None
      end
  | SStopBegin =>
      if cancelled (proc y) && (waiting (src y) <? length (started_tasks (proc y)))%nat then
        match stop_begin (src y) with
        | Ok w => Some (Ok {| proc := proc y; src := w; store := store y; file := file y |})
        | Panic why => Some (Panic why)
        end
      else None
  | SStopEnd =>
      match stop_end (src y), runDatasource_stop d (proc y) with
      | Some w, Some p => Some (Ok {| proc := p; src := w; store := store y; file := file y |})
      | _, _ => None
      end
  | SFile data => Some (Ok {| proc := proc y; src := src y; store := store y; file := data |})
  | SStore s => Some (Ok {| proc := proc y; src := src y; store := s; file := file y |})
  end.

Fixpoint run (y : Sys) (acts : list action) : option (res Sys) :=
  match acts with
  | [] => Some (Ok y)
  | a :: acts =>
      match step y a with
      | Some (Ok y') => run y' acts
      | r => r
      end
  end.

(** ** The processor's part of a run is a run of the processor *)

Lemma step_projects y a y' :
  step y a = Some (Ok y') →
  proc y' = proc y ∨ ∃ pa, Processor.step (proc y) pa = Some (proc y').
Proof.
  intros H. destruct a as [pa|nw add|sig| | |data|s]; simpl in H.
  - destruct (mine pa); [done|]. destruct (Processor.step (proc y) pa) eqn:E; [|done].
    injection H as <-. right. by exists pa.
  - destruct (start_watching _ _ _ _ _) as [[w s] err].
    destruct (runDatasource_start d _ (proc y)) eqn:E; [|done]. injection H as <-.
    right. by exists (ADs_start d (match err with None => true | Some _ => false end)).
  - destruct (watch _ _ _ _ _) as [[[w s]|]|]; [|done..]. injection H as <-. by left.
  - destruct (_ && _); [|done]. destruct (stop_begin (src y)); [|done]. injection H as <-. by left.
  - destruct (stop_end (src y)); [|done]. destruct (runDatasource_stop d (proc y)) eqn:E; [|done].
    injection H as <-. right. by exists (ADs_stop d).
  - injection H as <-. by left.
  - injection H as <-. by left.
Qed.

Lemma step_proc_inv (I : Processor → Prop) y a y' :
  (∀ p pa p', I p → Processor.step p pa = Some p' → I p') →
  I (proc y) → step y a = Some (Ok y') → I (proc y').
Proof. intros HI Hy [->|[pa E]]%step_projects; [done|]. by eapply HI. Qed.

(** ** One registration *)

(** What the processor's other steps do to this datasource: nothing. *)
Lemma ds_log_other p a p' :
  Processor.step p a = Some p' → mine a = false → ds_log d (log p') = ds_log d (log p).
Proof.
  intros Hst Hm. step_cases Hst; try done;
    rewrite ?ds_log_app; simpl; rewrite ?app_nil_r; try done;
    case_bool_decide; try done; rewrite decide_False by congruence; simpl; by rewrite ?app_nil_r.
Qed.

Lemma cancelled_step p a p' : Processor.step p a = Some p' → cancelled p = true → cancelled p' = true.
Proof. intros Hst Hc. by step_cases Hst. Qed.

(** The channels and the goroutine, by what the datasource has seen. *)
Definition agrees (seen : list (option bool)) (w : Watch) : Prop :=
  match seen with
  | [Some true] =>
      (loops w + (if doneCh w then 1 else 0) = 1)%nat ∧ (waiting w ≤ 1)%nat ∧
      stopCh w = (0 <? waiting w)%nat
  | [Some true; None] => loops w = 0%nat ∧ doneCh w = true ∧ waiting w = 0%nat
  | _ => loops w = 0%nat ∧ doneCh w = false ∧ waiting w = 0%nat ∧ stopCh w = false
  end.

Record inv (y : Sys) : Prop := {
  iv_reach : reachable (proc y);
  iv_cancelled : (0 < waiting (src y))%nat → cancelled (proc y) = true;
  iv_agrees : agrees (ds_log d (log (proc y))) (src y) }.

(** The goroutine of a datasource that is registered once. *)
Lemma task_seen p ph :
  ds_inv p → (d, ph) ∈ ds_tasks p → ds_log d (log p) = seen (Some ph).
Proof.
  intros Hi Hin. apply (di_seen _ Hi). unfold slots. apply elem_of_app. right.
  apply list_elem_of_fmap. by exists (d, ph).
Qed.

Lemma started_task p : ds_inv p → ds_log d (log p) = [Some true] → (d, DsStarted) ∈ ds_tasks p.
Proof.
  intros Hi Hl. destruct (decide (d ∈ (slots p).*1)) as [Hin|Hout].
  - apply list_elem_of_fmap in Hin as ([d' ph] & -> & Hin). simpl in *.
    rewrite (di_seen _ Hi _ _ Hin) in Hl. destruct ph as [[]|]; try done.
    unfold slots in Hin. apply elem_of_app in Hin as [Hin|Hin].
    + by apply list_elem_of_fmap in Hin as (? & [=] & _).
    + by apply list_elem_of_fmap in Hin as ([? ?] & [= -> ->] & ?).
  - destruct (di_gone _ Hi _ Hout) as [H|[H|H]]; by rewrite H in Hl.
Qed.

Lemma started_tasks_once p : ds_inv p → (length (started_tasks p) ≤ 1)%nat.
Proof.
  intros Hi. pose proof (di_nodup _ Hi) as Hn. unfold slots in Hn.
  rewrite fmap_app, <- (list_fmap_compose _ fst (ds_tasks p)) in Hn. apply NoDup_app in Hn as (_ & _ & Hn).
  assert (NoDup (ds_tasks p).*1) as Hn' by exact Hn. clear Hn.
  unfold started_tasks. induction (ds_tasks p) as [|t l IH]; [simpl; lia|].
  apply NoDup_cons in Hn' as [Ht Hl]. rewrite filter_cons. destruct (decide _) as [->|]; [|auto].
  destruct (filter _ l) as [|t' l'] eqn:E; [simpl; lia|]. destruct Ht.
  assert (t' ∈ filter (λ t, t = (d, DsStarted)) l) as [-> Hin]%list_elem_of_filter
    by (rewrite E; by left).
  apply list_elem_of_fmap. by exists (d, DsStarted).
Qed.

Lemma started_tasks_elem p : (0 < length (started_tasks p))%nat → (d, DsStarted) ∈ ds_tasks p.
Proof.
  unfold started_tasks. destruct (filter _ (ds_tasks p)) as [|t l] eqn:E; [simpl; lia|]. intros _.
  assert (t ∈ filter (λ t, t = (d, DsStarted)) (ds_tasks p)) as [-> Hin]%list_elem_of_filter
    by (rewrite E; by left). done.
Qed.

(** The steps of the datasource's goroutine, seen by the processor. *)
Lemma start_seen p ok p' :
  ds_inv p → runDatasource_start d ok p = Some p' →
  ds_log d (log p) = [] ∧ ds_log d (log p') = [Some ok] ∧ cancelled p' = cancelled p.
Proof.
  intros Hi. unfold runDatasource_start. destruct (take_out _ _) as [l|] eqn:E; [|done]. intros [= <-].
  assert (ds_log d (log p) = []) as Hl.
  { apply (task_seen p DsLaunched Hi). rewrite (take_out_perm _ _ _ E). by left. }
  split; [done|]. simpl. rewrite ds_log_app, Hl. simpl. by rewrite decide_True.
Qed.

Lemma stop_seen p p' :
  ds_inv p → runDatasource_stop d p = Some p' →
  ds_log d (log p) = [Some true] ∧ ds_log d (log p') = [Some true; None] ∧
  cancelled p' = cancelled p.
Proof.
  intros Hi. unfold runDatasource_stop. destruct (cancelled p) eqn:Hc; [|done].
  destruct (take_out _ _) as [l|] eqn:E; [|done]. intros [= <-].
  assert (ds_log d (log p) = [Some true]) as Hl.
  { apply (task_seen p DsStarted Hi). rewrite (take_out_perm _ _ _ E). by left. }
  split; [done|]. simpl. rewrite ds_log_app, Hl. simpl. by rewrite decide_True.
Qed.

(** What the pieces of the datasource do to its channels and goroutines. *)
Lemma start_watching_watch nw add data w s w' s' err :
  start_watching nw add data w s = (w', s', err) →
  stopCh w' = stopCh w ∧ doneCh w' = doneCh w ∧ waiting w' = waiting w ∧
  loops w' = match err with None => Datatypes.S (loops w) | Some _ => loops w end.
Proof.
  unfold start_watching. destruct (ModelConfig.syncModels data s) as [s1 [e|]];
    [|destruct nw; [|destruct add]]; intros [= <- <- <-]; by split_and!.
Qed.

Lemma watch_loops ca sig data w s r :
  watch ca sig data w s = Some r →
  (0 < loops w)%nat ∧
  match r with
  | Panic _ => doneCh w = true
  | Ok (w', _) =>
      stopCh w' = stopCh w ∧ waiting w' = waiting w ∧
      ((loops w' = loops w ∧ doneCh w' = doneCh w) ∨
       (loops w' = pred (loops w) ∧ doneCh w = false ∧ doneCh w' = true))
  end.
Proof.
  unfold watch. destruct (Nat.ltb_spec 0 (loops w)) as [Hl|]; [|done].
  destruct (receivable ca w sig); [|done]. simpl.
  destruct (ModelConfig.watch_step _ _ _ _) as [s' [|]]; [|destruct (doneCh w) eqn:Ed];
    intros [= <-]; (split; [done|]); simpl; try done; split_and!; tauto.
Qed.

Lemma watch_inv_step y a r :
  inv y → ds_inv (proc y) → step y a = Some r → ∃ y', r = Ok y' ∧ inv y'.
Proof.
  intros [Hr Hc Ha] Hi H. pose proof (step_proc_inv reachable y a) as Hr'.
  destruct a as [pa|nw add|sig| | |data|s]; simpl in H, Hr'.
  - destruct (mine pa) eqn:Hm; [done|]. destruct (Processor.step (proc y) pa) as [p|] eqn:E; [|done].
    injection H as <-. eexists; split; [done|]. split; simpl.
    + by eapply reach_step.
    + intros Hw. by eapply cancelled_step; [|apply Hc].
    + by rewrite (ds_log_other _ _ _ E Hm).
  - destruct (start_watching _ _ _ _ _) as [[w s] err] eqn:Es.
    destruct (runDatasource_start d _ (proc y)) as [p|] eqn:E; [|done]. injection H as <-.
    destruct (start_seen _ _ _ Hi E) as (E1 & E2 & Ec). rewrite E1 in Ha. simpl in Ha.
    apply start_watching_watch in Es as (F1 & F2 & F3 & F4). destruct Ha as (A1 & A2 & A3 & A4).
    eexists; split; [done|]. split; simpl.
    + by apply (reach_step (proc y) (ADs_start d (match err with None => true | _ => false end))).
    + lia.
    + rewrite E2. destruct err; simpl; rewrite ?F1, ?F2, ?F3, ?F4, ?A1, ?A2, ?A3, ?A4; simpl; by split_and!; try lia.
  - destruct (watch _ _ _ _ _) as [r'|] eqn:E; [|done]. apply watch_loops in E as [Hl E].
    assert (ds_log d (log (proc y)) = [Some true]) as Hs.
    { destruct (ds_log d (log (proc y))) as [|[[]|] [|[[]|] []]]; simpl in Ha; try done; lia. }
    rewrite Hs in Ha. destruct Ha as (A1 & A2 & A3).
    destruct r' as [[w s]|why]; injection H as <-.
    2: { rewrite E in A1. lia. }
    eexists; split; [done|]. split; simpl; [done| |].
    + destruct E as (_ & -> & _). done.
    + rewrite Hs. simpl. destruct E as (-> & -> & [[-> ->]|(-> & Ed & ->)]); [done|].
      rewrite Ed in A1. split_and!; [lia|done..].
  - destruct (cancelled (proc y)) eqn:Eca; [|done]. simpl in H.
    destruct (Nat.ltb_spec (waiting (src y)) (length (started_tasks (proc y)))) as [Hlt|]; [|done].
    pose proof (started_tasks_once _ Hi) as Hone.
    assert (ds_log d (log (proc y)) = [Some true]) as Hs
      by (apply (task_seen _ DsStarted Hi), started_tasks_elem; lia).
    rewrite Hs in Ha. destruct Ha as (A1 & A2 & A3).
    replace (waiting (src y)) with 0%nat in A3 by lia. unfold stop_begin in H. rewrite A3 in H.
    injection H as <-. eexists; split; [done|]. split; simpl; [done..|].
    rewrite Hs. simpl. split_and!; [done|lia|done].
  - destruct (stop_end (src y)) as [w|] eqn:Ee; [|done].
    destruct (runDatasource_stop d (proc y)) as [p|] eqn:E; [|done]. injection H as <-.
    destruct (stop_seen _ _ Hi E) as (E1 & E2 & Ec). rewrite E1 in Ha. destruct Ha as (A1 & A2 & A3).
    unfold stop_end in Ee. destruct (waiting (src y)) as [|n] eqn:Ew; [done|].
    destruct (doneCh (src y)); [|done]. injection Ee as <-.
    eexists; split; [done|]. split; simpl; [by apply (reach_step (proc y) (ADs_stop d))|lia|].
    rewrite E2. simpl. split_and!; [lia|done|lia].
  - injection H as <-. eexists; split; [done|]. by split.
  - injection H as <-. eexists; split; [done|]. by split.
Qed.

(** ** Runs *)

(** The datasources a run registers, in order. *)
Definition registrations (acts : list action) : list DatasourceId :=
  omap (λ a, match a with SProc (ARegisterDatasource d') => Some d' | _ => None end) acts.

Lemma step_datasources y a y' :
  step y a = Some (Ok y') →
  datasources (proc y') = datasources (proc y) ++ registrations [a].
Proof.
  intros H. destruct a as [pa|nw add|sig| | |data|s]; simpl in H.
  - destruct (mine pa); [done|]. destruct (Processor.step (proc y) pa) as [p|] eqn:E; [|done].
    injection H as <-. simpl. step_cases E; by rewrite ?app_nil_r.
  - destruct (start_watching _ _ _ _ _) as [[w s] err].
    destruct (runDatasource_start d _ (proc y)) eqn:E; [|done]. injection H as <-. simpl.
    unfold runDatasource_start in E. destruct (take_out _ _); [|done]. injection E as <-.
    by rewrite app_nil_r.
  - destruct (watch _ _ _ _ _) as [[[w s]|]|]; [|done..]. injection H as <-. by rewrite app_nil_r.
  - destruct (_ && _); [|done]. destruct (stop_begin (src y)); [|done]. injection H as <-.
    by rewrite app_nil_r.
  - destruct (stop_end (src y)); [|done]. destruct (runDatasource_stop d (proc y)) eqn:E; [|done].
    injection H as <-. simpl. unfold runDatasource_stop in E. destruct (cancelled _); [|done].
    destruct (take_out _ _); [|done]. injection E as <-. by rewrite app_nil_r.
  - injection H as <-. by rewrite app_nil_r.
  - injection H as <-. by rewrite app_nil_r.
Qed.

Lemma watch_inv_run y acts r :
  inv y → NoDup (datasources (proc y) ++ registrations acts) → run y acts = Some r →
  ∃ y', r = Ok y' ∧ inv y' ∧ datasources (proc y') = datasources (proc y) ++ registrations acts.
Proof.
  revert y. induction acts as [|a acts IH]; intros y Hy Hnd; simpl.
  { intros [= <-]. exists y. by rewrite app_nil_r. }
  destruct (step y a) as [r1|] eqn:E; [|done].
  assert (ds_inv (proc y)) as Hi.
  { apply reachable_datasources; [apply Hy|]. by apply NoDup_app in Hnd as [? _]. }
  destruct (watch_inv_step y a r1 Hy Hi E) as (y1 & -> & Hy1). intros H.
  assert (datasources (proc y1) ++ registrations acts =
    datasources (proc y) ++ registrations (a :: acts)) as Ed.
  { rewrite (step_datasources _ _ _ E), <- app_assoc. f_equal. unfold registrations. simpl.
    by destruct a as [[]| | | | | |]. }
  destruct (IH y1) as (y' & -> & Hy' & Hd); [done| |done|].
  - by rewrite Ed.
  - exists y'. split; [done|]. split; [done|]. by rewrite Hd.
Qed.

Lemma watch_inv_run_ok y acts y' :
  inv y → NoDup (datasources (proc y) ++ registrations acts) → run y acts = Some (Ok y') →
  inv y' ∧ datasources (proc y') = datasources (proc y) ++ registrations acts.
Proof. intros Hy Hnd H. by destruct (watch_inv_run _ _ _ Hy Hnd H) as (? & [= <-] & ?). Qed.

(** What the processor's steps preserve holds along a run. *)
Lemma run_proc_inv (I : Processor → Prop) y acts y' :
  (∀ p pa p', I p → Processor.step p pa = Some p' → I p') →
  I (proc y) → run y acts = Some (Ok y') → I (proc y').
Proof.
  intros HI. revert y. induction acts as [|a acts IH]; intros y Hy; simpl; [by intros [= <-]|].
  destruct (step y a) as [[y1|]|] eqn:E; [|done..]. apply IH. by eapply step_proc_inv.
Qed.

Lemma watch_inv_new s data : inv (new_sys s data).
Proof. split; simpl; [constructor|lia|done]. Qed.

(** A waiting call of [Stop] can return, after the goroutine's end if need be. *)
Lemma stop_not_stuck y :
  inv y → ds_inv (proc y) → (0 < waiting (src y))%nat →
  ∃ acts y', (acts = [SStopEnd] ∨ acts = [SSignal ModelConfig.StopSignal; SStopEnd]) ∧
    run y acts = Some (Ok y') ∧ waiting (src y') = 0%nat ∧ loops (src y') = 0%nat ∧
    ds_log d (log (proc y')) = [Some true; None].
Proof.
  intros [Hr Hc Ha] Hi Hw. specialize (Hc Hw).
  assert (ds_log d (log (proc y)) = [Some true]) as Hs.
  { destruct (ds_log d (log (proc y))) as [|[[]|] [|[[]|] []]]; simpl in Ha; try done; lia. }
  rewrite Hs in Ha. destruct Ha as (A1 & A2 & A3).
  assert (waiting (src y) = 1%nat) as Ew by lia. rewrite Ew in A3. simpl in A3.
  assert (∃ p, runDatasource_stop d (proc y) = Some p) as [p Hp].
  { unfold runDatasource_stop. rewrite Hc. pose proof (started_task _ Hi Hs) as Hin.
    destruct (take_out _ _) as [l|] eqn:E; [by eexists|]. exfalso. clear -Hin E.
    induction (ds_tasks (proc y)) as [|t l IH]; [by apply not_elem_of_nil in Hin|]. simpl in E.
    destruct (decide _) as [|Hne]; [done|]. destruct (take_out _ l); [done|]. set_solver. }
  destruct (stop_seen _ _ Hi Hp) as (_ & Hs' & _).
  destruct (doneCh (src y)) eqn:Ed.
  - exists [SStopEnd]. eexists. split; [by left|]. simpl. unfold stop_end. rewrite Ew, Ed, Hp.
    split; [done|]. simpl. split_and!; [done|lia|done].
  - exists [SSignal ModelConfig.StopSignal; SStopEnd]. eexists. split; [by right|]. simpl.
    unfold watch. replace (loops (src y)) with 1%nat by lia. simpl. rewrite A3, Ed. simpl.
    unfold stop_end. simpl. rewrite Ew, Hp. split; [done|]. by split_and!.
Qed.

(** C19: a datasource that is registered once runs once. Whatever the
    processor, the callers, the file, fsnotify and the other users of the store
    do, in any order: no channel is closed twice, so nothing panics; there is
    never more than one watching goroutine; and a call of [Stop] that waits can
    return, at most after the goroutine has taken its stop signal. *)
Theorem datasource_runs_once s data acts r :
  NoDup (registrations acts) → run (new_sys s data) acts = Some r →
  ∃ y, r = Ok y ∧ reachable (proc y) ∧ (loops (src y) ≤ 1)%nat ∧ (waiting (src y) ≤ 1)%nat ∧
    ((0 < waiting (src y))%nat → ∃ acts' y',
       (acts' = [SStopEnd] ∨ acts' = [SSignal ModelConfig.StopSignal; SStopEnd]) ∧
       run y acts' = Some (Ok y') ∧ waiting (src y') = 0%nat ∧ loops (src y') = 0%nat ∧
       ds_log d (log (proc y')) = [Some true; None]).
Proof.
  intros Hnd H. destruct (watch_inv_run _ _ _ (watch_inv_new s data) Hnd H) as (y & -> & Hy & Hds).
  exists y. split; [done|]. split; [apply Hy|].
  assert (loops (src y) ≤ 1 ∧ waiting (src y) ≤ 1)%nat as [Hl Hw].
  { pose proof (iv_agrees _ Hy) as Ha.
    destruct (ds_log d (log (proc y))) as [|[[]|] [|[[]|] []]]; simpl in Ha; lia. }
  split; [done|]. split; [done|]. intros Hw0. apply stop_not_stuck; [done| |done].
  apply reachable_datasources; [apply Hy|]. by rewrite Hds.
Qed.

(** *** After the processor has stopped *)

(** The value of the store that its other users leave. *)
Definition stored (acts : list action) (s : S) : S :=
  foldl (λ s a, match a with SStore s' => s' | _ => s end) s acts.

Lemma quiet_idle y :
  inv y → ds_inv (proc y) → quiet (proc y) → loops (src y) = 0%nat.
Proof.
  intros Hy Hi Hq. pose proof (iv_agrees _ Hy) as Ha.
  destruct (decide (ds_log d (log (proc y)) = [Some true])) as [Hs|Hs].
  - apply (started_task _ Hi) in Hs. rewrite (qt_ds _ Hq) in Hs. by apply not_elem_of_nil in Hs.
  - destruct (ds_log d (log (proc y))) as [|[[]|] [|[[]|] []]]; simpl in Ha; done || tauto.
Qed.

Lemma quiet_run_idle y acts r :
  quiet (proc y) → loops (src y) = 0%nat → run y acts = Some r →
  ∃ y', r = Ok y' ∧ loops (src y') = 0%nat ∧ syncs (src y') = syncs (src y) ∧
    store y' = stored acts (store y).
Proof.
  revert y. induction acts as [|a acts IH]; intros y Hq Hl.
  { intros [= <-]. by exists y. }
  simpl. destruct (step y a) as [r1|] eqn:E; [|done].
  assert (∃ y1, r1 = Ok y1 ∧ loops (src y1) = 0%nat ∧ syncs (src y1) = syncs (src y) ∧
    store y1 = stored [a] (store y)) as (y1 & -> & Hl1 & Hs1 & Hst1).
  { destruct a as [pa|nw add|sig| | |data|s]; simpl in E.
    - destruct (mine pa); [done|]. destruct (Processor.step (proc y) pa); [|done].
      injection E as <-. by eexists.
    - destruct (start_watching _ _ _ _ _) as [[w s] err]. unfold runDatasource_start in E.
      by rewrite (qt_ds _ Hq) in E.
    - unfold watch in E. by rewrite Hl in E.
    - unfold started_tasks in E. rewrite (qt_ds _ Hq) in E. simpl in E.
      by rewrite andb_false_r in E.
    - destruct (stop_end (src y)); [|done]. unfold runDatasource_stop in E.
      rewrite (qt_ds _ Hq) in E. simpl in E. by destruct (cancelled _).
    - injection E as <-. by eexists.
    - injection E as <-. by eexists. }
  assert (quiet (proc y1)) as Hq1.
  { apply (step_proc_inv quiet y a); [|done..]. intros p pa p' Hp Hst. by eapply quiet_step. }
  intros H. destruct (IH y1 Hq1 Hl1 H) as (y' & -> & Hl' & Hs' & Hst').
  exists y'. split; [done|]. split; [done|]. split; [by rewrite Hs'|].
  rewrite Hst', Hst1. unfold stored. by rewrite <- foldl_app.
Qed.

(** C16: no sync after [Stop]. Take a run in which each datasource is
    registered once, a state of it with a started processor and no
    registration or [Start] half-way, and the first call of the processor's
    [Stop] there. Once that call has returned, the watching goroutine has
    ended, the file is never read again, and the store holds what the other
    parts of the program put there: the datasource does not write to it any
    more, whatever the file and its events do. *)
Theorem no_sync_after_stop s data acts y acts1 y1 y2 acts2 r :
  run (new_sys s data) acts = Some (Ok y) →
  started (proc y) = true → stopped (proc y) = false →
  launching (proc y) = [] → pending (proc y) = [] →
  run y (SProc AStop :: acts1) = Some (Ok y1) → step y1 (SProc AStop_return) = Some (Ok y2) →
  NoDup (registrations (acts ++ acts1)) → run y2 acts2 = Some r →
  ∃ y3, r = Ok y3 ∧ loops (src y3) = 0%nat ∧ syncs (src y3) = syncs (src y2) ∧
    store y3 = stored acts2 (store y2).
Proof.
  intros H0 Hs Hns Hla Hpe H1 H2 Hnd H3. unfold registrations in Hnd. rewrite omap_app in Hnd.
  destruct (watch_inv_run_ok _ acts y (watch_inv_new s data)) as [Hy Hds];
    [by apply NoDup_app in Hnd as [? _]|done|].
  destruct (watch_inv_run_ok y (SProc AStop :: acts1) y1 Hy) as [Hy1 Hds1]; [by rewrite Hds|done|].
  assert (draining (proc y1)) as Hdr.
  { apply (run_proc_inv draining (with_proc y (Stop (proc y))) acts1 y1 draining_step); [|done].
    apply draining_stop; [apply Hy|done..]. }
  assert (quiet (proc y2)) as Hq.
  { simpl in H2. destruct (Stop_return (proc y1)) eqn:E; [|done]. injection H2 as <-. simpl.
    by eapply stop_return_quiet. }
  assert (NoDup (datasources (proc y2))) as Hnd2.
  { rewrite (step_datasources _ _ _ H2), app_nil_r, Hds1, Hds. exact Hnd. }
  destruct (watch_inv_run_ok y1 [SProc AStop_return] y2 Hy1) as [Hy2 _].
  - simpl registrations. by rewrite app_nil_r, Hds1, Hds.
  - unfold run. by rewrite H2.
  - apply quiet_run_idle; [done| |done]. apply quiet_idle; [done| |done].
    by apply reachable_datasources; [apply Hy2|].
Qed.
End watcher.

(** ** Concrete runs, on the in-memory store *)

Definition path : string := "/etc/models.json".

Definition demo_run : list action → option (res (Sys (S := Store))) :=
  run 0%nat path (new_sys NewDatastore (Some models_file)).

Definition changed : ModelConfig.Signal :=
  ModelConfig.WatchEvent (Some path) true false false false.

(** Registered, started, the file emptied and seen. *)
Definition demo_up : list (action (S := Store)) :=
  [SProc (ARegisterDatasource 0%nat); SProc AStart; SProc AStart_go; SProc AStart_go;
   SStart None None; SFile (Some (s2b "{}")); SSignal changed].

(** Stopped while the datasource's [Stop] waits for its goroutine. *)
Definition demo_down : list (action (S := Store)) :=
  [SProc ALoop_exit; SStopBegin; SSignal ModelConfig.StopSignal; SStopEnd; SProc AStop_wait].

Definition unpanicked (r : option (res (Sys (S := Store)))) : Sys (S := Store) :=
  match r with Some (Ok y) => y | _ => new_sys NewDatastore None end.

Definition up : Sys (S := Store) := unpanicked (demo_run demo_up).
Definition down : Sys (S := Store) := unpanicked (run 0%nat path up (SProc AStop :: demo_down)).
Definition over : Sys (S := Store) := unpanicked (step 0%nat path down (SProc AStop_return)).

Lemma datasource_runs_once_witness :
  loops (src up) = 1%nat ∧ syncs (src up) = [Some models_file; Some (s2b "{}")] ∧
  (loops (src up) ≤ 1)%nat.
Proof.
  split; [vm_compute; reflexivity|]. split; [vm_compute; reflexivity|].
  destruct (datasource_runs_once 0%nat path NewDatastore (Some models_file) demo_up (Ok up))
    as (y & [= <-] & _ & H & _); [apply NoDup_singleton|vm_compute; reflexivity|exact H].
Defined.

Lemma no_sync_after_stop_witness :
  ∃ y3, run 0%nat path over [SFile (Some models_file); SStore priced_store] = Some (Ok y3) ∧
    loops (src y3) = 0%nat ∧ syncs (src y3) = syncs (src over) ∧ store y3 = priced_store.
Proof.
  destruct (no_sync_after_stop 0%nat path NewDatastore (Some models_file) demo_up up demo_down down over
    [SFile (Some models_file); SStore priced_store]
    (default (Panic "") (run 0%nat path over [SFile (Some models_file); SStore priced_store])))
    as (y3 & E & H1 & H2 & H3);
    [vm_compute; reflexivity..|apply NoDup_singleton|vm_compute; reflexivity|].
  exists y3. split; [|by split_and!]. rewrite <- E. vm_compute. reflexivity.
Defined.

(** A configuration that names the datasource twice registers it twice, and
    stopping the processor then closes its channel twice, which panics. *)
Theorem registered_twice_panics :
  demo_run
    [SProc (ARegisterDatasource 0%nat); SProc (ARegisterDatasource 0%nat); SProc AStart;
     SProc AStart_go; SProc AStart_go; SProc AStart_go; SStart None None; SStart None None;
     SProc AStop; SStopBegin; SStopBegin] = Some (Panic closed_twice).
Proof. vm_compute. reflexivity. Qed.

End Watcher.
