(* ===== verification/Loader.v ===== *)
(** pkg/config/loader and pkg/framework/interface/plugin/handle.go: from a
    configuration to the plugins, profiles and pipelines the server runs, on the
    raw configuration types of apix/config/v1alpha1.

    An object that one part of a configuration shares with another is modelled
    by a reference: the pipeline of a model-selector plugin lives in a heap, and
    two profiles that name the same plugin name the same pipeline. *)

From Stdlib Require Import String.
From S2P Require Import Prelude GoFloat GoValue Envoy Message World Handlers Adapters.
From S2P Require Import Datalayer Extractors ModelSelector Pickers SelectorPlugins.
From S2P Require Import RequestPlugins Processor.

Local Open Scope string_scope.
Local Open Scope list_scope.

(** ** The raw configuration *)

Record PluginSpec := { spec_Name : string; spec_Type : string; spec_Parameters : bytes }.

Record PluginRef := { ref_name : string; ref_Weight : option float64 }.

(** A [*PluginRefList] is an option of a list, [ProfilePlugins] is a pointer. *)
Record ProfilePlugins := { raw_Request : list PluginRef; raw_Response : list PluginRef }.

Record RawProfile := { raw_Name : string; raw_Plugins : option ProfilePlugins }.

Record DatalayerConfig :=
  { Collectors : list PluginRef; Extractors : list PluginRef; Datasources : list PluginRef }.

Record PayloadProcessorConfig :=
  { cfg_Plugins : list PluginSpec;
    cfg_PreProcessing : option (list PluginRef);
    cfg_ProfilePicker : option PluginRef;
    cfg_Profiles : list RawProfile;
    cfg_PostProcessing : option (list PluginRef);
    cfg_Datalayer : option DatalayerConfig }.

Definition named (n : string) : PluginRef := {| ref_name := n; ref_Weight := None |}.

(** The parameters of the default body-field-to-header plugin. *)
Definition default_parameters : bytes :=
  s2b (b2s (List.map (λ b, if decide (b = Byte.x27) then Byte.x22 else b) (s2b
    "{'fieldName': 'model', 'headerName': 'X-Gateway-Model-Name'}"))).

Definition loadDefaultConfig : PayloadProcessorConfig :=
  {| cfg_Plugins :=
       [{| spec_Name := ""; spec_Type := BodyFieldToHeader.PluginType;
           spec_Parameters := default_parameters |};
        {| spec_Name := ""; spec_Type := BaseModelToHeaderPluginType; spec_Parameters := [] |}];
     cfg_PreProcessing := None;
     cfg_ProfilePicker := None;
     cfg_Profiles :=
       [{| raw_Name := "default";
           raw_Plugins := Some {| raw_Request := [named BodyFieldToHeader.PluginType;
                                                  named BaseModelToHeaderPluginType];
                                  raw_Response := [] |} |}];
     cfg_PostProcessing := None;
     cfg_Datalayer := None |}.

Definition applyRawConfigDefaults (c : PayloadProcessorConfig) : PayloadProcessorConfig :=
  {| cfg_Plugins :=
       (λ p, if String.eqb (spec_Name p) ""
             then {| spec_Name := spec_Type p; spec_Type := spec_Type p;
                     spec_Parameters := spec_Parameters p |}
             else p) <$> cfg_Plugins c;
     cfg_PreProcessing := cfg_PreProcessing c; cfg_ProfilePicker := cfg_ProfilePicker c;
     cfg_Profiles := cfg_Profiles c; cfg_PostProcessing := cfg_PostProcessing c;
     cfg_Datalayer := cfg_Datalayer c |}.

(** ** Errors *)

(** One constructor per error the loader returns, with what its text quotes. *)
Inductive LoadError : Type :=
| EDecode (e : goerror)
| ENoPlugins
| EMissingType (name : string)
| EDuplicateName (name : string)
| ENotRegistered (type : string)
| EFactory (name type : string) (e : goerror)
| EMultiplePickers
| EPickerRequired
| EDefaultNotRegistered (type : string)
| EDefaultFactory (type : string) (e : goerror)
| ENoProfiles
| EUnnamedProfile
| ENoPluginsSection (profile : string)
| EEmptyProfile (profile : string)
| ENoSuchPlugin (name : string)
| ENotARequestPlugin (name : string)
| EWeightRequired (name : string)
| ENotAResponsePlugin (name : string)
| EMixedProfile (profile : string)
| ENotAPreProcessor (name : string)
| ENotAPostProcessor (name : string)
| EChunksWithPostProcessors (profile : string)
| ENotACollector (name : string)
| ENotAnExtractor (name : string)
| ENotADataSource (name : string)
| ESelector (name : string) (e : goerror).

(** A value or the error a function returns instead. *)
Definition result (A : Type) : Type := (A + LoadError)%type.

#[export] Instance result_ret : MRet result := fun A a => inl a.
#[export] Instance result_bind : MBind result := fun A B k m =>
  match m with inl a => k a | inr e => inr e end.

Definition fail {A} (e : LoadError) : result A := inr e.

Definition guard_err (b : bool) (e : LoadError) : result unit := if b then inl tt else inr e.

(** The value of an option, or an error for [None]. *)
Definition need {A} (o : option A) (e : LoadError) : result A :=
  match o with Some a => inl a | None => inr e end.

Lemma bind_inl {A B} (m : result A) (k : A → result B) b :
  m ≫= k = inl b ↔ ∃ a, m = inl a ∧ k a = inl b.
Proof. destruct m; simpl; naive_solver. Qed.

Lemma need_inl {A} (o : option A) e a : need o e = inl a ↔ o = Some a.
Proof. destruct o; simpl; naive_solver. Qed.

Lemma guard_err_inl b e u : guard_err b e = inl u ↔ b = true.
Proof. destruct b, u; simpl; naive_solver. Qed.

Lemma mapM_inl {A B} (f : A → result B) l k :
  mapM f l = inl k → Forall2 (λ x y, f x = inl y) l k.
Proof.
  revert k. induction l as [|x l IH]; intros k; simpl; [intros [= <-]; constructor|].
  intros (y & Hy & (ys & Hys & [= <-])%bind_inl)%bind_inl. constructor; auto.
Qed.

(** ** Plugins *)

Section loader.
Context {W : Type} `{TD : TDigest} `{WW : !World W} `{DS : !Datastore W} `{MO : MapOrder}
  `{RD : !Rand W}.

(** A request processor is a model-selector plugin, whose pipeline is the one
    at [ref], or it is another one. *)
Inductive LoadedRequest : Type :=
| Direct (p : RequestProcessor W)
| Selector (name : string) (ref : positive).

(** A plugin instance and the interfaces its type implements. [as_selector]
    holds its filter, scorer and picker interfaces. *)
Record AnyPlugin :=
  { any_name : TypedName;
    as_request : option LoadedRequest;
    as_response : option (ResponseProcessor W);
    as_chunk : option (ResponseChunkProcessor W);
    as_headers : option (ResponseHeadersProcessor W);
    as_profile_picker : option (ProfilePicker W);
    as_selector : ModelSelector.Plugin W;
    as_collector : option (CollectorId * Z);
    as_extractor : bool;
    as_datasource : option DatasourceId }.

(** A plugin that implements nothing but [TypedName]. *)
Definition bare_plugin (tn : TypedName) : AnyPlugin :=
  {| any_name := tn; as_request := None; as_response := None; as_chunk := None;
     as_headers := None; as_profile_picker := None;
     as_selector := {| pl_name := tn; as_filter := None; as_scorer := None; as_picker := None |};
     as_collector := None; as_extractor := false; as_datasource := None |}.

Definition request_plugin (tn : TypedName) (r : LoadedRequest) : AnyPlugin :=
  {| any_name := tn; as_request := Some r; as_response := None; as_chunk := None;
     as_headers := None; as_profile_picker := None;
     as_selector := {| pl_name := tn; as_filter := None; as_scorer := None; as_picker := None |};
     as_collector := None; as_extractor := false; as_datasource := None |}.

(** ** The handle *)

(** What loading reads and writes: the handle's plugins, the pipelines of the
    model-selector plugins, the data layer's processor, the rest of the world. *)
Record Loading :=
  { plugins : gmap string AnyPlugin;
    pipelines : gmap positive (ModelSelectorPipeline W);
    processor : Processor;
    world : W }.

Definition with_plugins (s : Loading) (ps : gmap string AnyPlugin) : Loading :=
  {| plugins := ps; pipelines := pipelines s; processor := processor s; world := world s |}.
Definition with_pipelines (s : Loading) (ps : gmap positive (ModelSelectorPipeline W)) : Loading :=
  {| plugins := plugins s; pipelines := ps; processor := processor s; world := world s |}.
Definition with_processor (s : Loading) (p : Processor) : Loading :=
  {| plugins := plugins s; pipelines := pipelines s; processor := p; world := world s |}.

Definition NewHandle (p : Processor) (w : W) : Loading :=
  {| plugins := ∅; pipelines := ∅; processor := p; world := w |}.

Definition AddPlugin (name : string) (p : AnyPlugin) (s : Loading) : Loading :=
  with_plugins s (<[name := p]> (plugins s)).

Definition GetPlugin (s : Loading) (name : string) : option AnyPlugin := plugins s !! name.

Definition GetAllPlugins (s : Loading) : list AnyPlugin := (go_range (plugins s)).*2.

(** A factory may use the handle it is given, and may panic. *)
Abbreviation FactoryFunc := (string → bytes → Loading → res (Loading * (AnyPlugin + goerror))).

Abbreviation Registry := (gmap string FactoryFunc).

Definition Register (pluginType : string) (factory : FactoryFunc) (r : Registry) : Registry :=
  <[pluginType := factory]> r.

(** *** The in-tree factories *)

(** A fresh pipeline for every model selector. *)
Definition ModelSelectorPluginFactory : FactoryFunc := λ name _ s,
  let ref := fresh (dom (pipelines s)) in
  Ok (with_pipelines s (<[ref := NewModelSelectorPipeline]> (pipelines s)),
      inl (request_plugin {| Type_ := ModelSelectorPluginType; Name := name |} (Selector name ref))).

(** A plugin that a part of a model selector can be. *)
Definition selector_part (tn : TypedName) (f : option (Filter W)) (sc : option (Scorer W))
    (pk : option (Picker W)) : AnyPlugin :=
  {| any_name := tn; as_request := None; as_response := None; as_chunk := None;
     as_headers := None; as_profile_picker := None;
     as_selector := {| pl_name := tn; as_filter := f; as_scorer := sc; as_picker := pk |};
     as_collector := None; as_extractor := false; as_datasource := None |}.

Definition ModelGroupFilterFactory : FactoryFunc := λ name _ s,
  let f := ModelGroupFilter name in Ok (s, inl (selector_part (f_name f) (Some f) None None)).

Definition RandomPickerFactory : FactoryFunc := λ name _ s,
  let k := RandomPicker name in Ok (s, inl (selector_part (p_name k) None None (Some k))).

Definition MaxScorePickerFactory : FactoryFunc := λ name _ s,
  let k := MaxScorePicker name in Ok (s, inl (selector_part (p_name k) None None (Some k))).

Definition WeightedRandomPickerFactory `{MathPow} `{PdqSort} : FactoryFunc := λ name _ s,
  let k := WeightedRandomPicker name in Ok (s, inl (selector_part (p_name k) None None (Some k))).

Definition InflightRequestsScorerFactory : FactoryFunc := λ name _ s,
  let sc := InflightRequestsScorer name in
  Ok (s, inl (selector_part (s_name sc) None (Some sc) None)).

Definition CostGuardScorerFactory : FactoryFunc := λ name params s,
  Ok (s, match CostGuard.ScorerFactory name params with
         | inr e => inr e
         | inl c => inl (selector_part (CostGuard.typedName c) None (Some (CostGuard.scorer_of c)) None)
         end).

(** Session affinity scores requests and processes responses. *)
Definition SessionAffinityScorerFactory `{!SessionCache W} : FactoryFunc := λ name params s,
  Ok (s, match SessionAffinity.ScorerFactory name params with
         | inr e => inr e
         | inl c =>
             let tn := SessionAffinity.typedName c in
             inl {| any_name := tn; as_request := None;
                    as_response := Some (SessionAffinity.processor_of c); as_chunk := None;
                    as_headers := None; as_profile_picker := None;
                    as_selector := {| pl_name := tn; as_filter := None;
                                      as_scorer := Some (SessionAffinity.scorer_of c);
                                      as_picker := None |};
                    as_collector := None; as_extractor := false; as_datasource := None |}
         end).

Definition ModelNameToHeaderFactory : FactoryFunc := λ name params s,
  Ok (s, match ModelNameToHeader.Factory name params with
         | inr e => inr e
         | inl p =>
             let tn := ModelNameToHeader.typedName p in
             inl {| any_name := tn; as_request := None; as_response := None; as_chunk := None;
                    as_headers := Some (ModelNameToHeader.processor_of p);
                    as_profile_picker := None;
                    as_selector := {| pl_name := tn; as_filter := None; as_scorer := None;
                                      as_picker := None |};
                    as_collector := None; as_extractor := false; as_datasource := None |}
         end).

Definition extractor_plugin (tn : TypedName) : AnyPlugin :=
  {| any_name := tn; as_request := None; as_response := None; as_chunk := None;
     as_headers := None; as_profile_picker := None;
     as_selector := {| pl_name := tn; as_filter := None; as_scorer := None; as_picker := None |};
     as_collector := None; as_extractor := true; as_datasource := None |}.

Definition RequestMetadataFactory : FactoryFunc := λ name _ s,
  Ok (s, inl (extractor_plugin (RequestMetadata.typedName
        (RequestMetadata.WithName RequestMetadata.NewRequestMetadataExtractor name)))).

Definition RequestCostFactory : FactoryFunc := λ name params s,
  Ok (s, match RequestCost.ExtractorFactory name params with
         | inr e => inr e
         | inl c => inl (extractor_plugin (RequestCost.typedName c))
         end).

(** The datasource is known by the number of plugins before it. *)
Definition ModelConfigFactory `{ModelConfig.Files W} : FactoryFunc := λ name params s,
  Ok (s, match ModelConfig.DatasourceFactory name params (world s) with
         | inr e => inr e
         | inl d =>
             let tn := ModelConfig.typedName d in
             inl {| any_name := tn; as_request := None; as_response := None; as_chunk := None;
                    as_headers := None; as_profile_picker := None;
                    as_selector := {| pl_name := tn; as_filter := None; as_scorer := None;
                                      as_picker := None |};
                    as_collector := None; as_extractor := false;
                    as_datasource := Some (size (plugins s)) |}
         end).

Definition SingleProfilePickerFactory : FactoryFunc := λ name _ s,
  let tn := {| Type_ := SingleProfile.PluginType; Name := name |} in
  Ok (s, inl {| any_name := tn; as_request := None; as_response := None; as_chunk := None;
                as_headers := None;
                as_profile_picker := Some (SingleProfile.SingleProfilePicker name);
                as_selector := {| pl_name := tn; as_filter := None; as_scorer := None;
                                  as_picker := None |};
                as_collector := None; as_extractor := false; as_datasource := None |}).

Definition BodyFieldToHeaderPluginFactory : FactoryFunc := λ name params s,
  Ok (s, match BodyFieldToHeader.Factory name params with
         | inr e => inr e
         | inl p => inl (request_plugin (BodyFieldToHeader.typedName p)
                           (Direct (BodyFieldToHeader.processor_of p)))
         end).

(** [handle.ReconcilerBuilder()...Complete(configMapReconciler)] is
    controller-runtime's: [complete]. The reconciler it registers is what fills
    the adapters store, which [adapters] reads from the world. *)
Definition BaseModelToHeaderPluginFactory (adapters : W → AdaptersStore)
    (complete : W → W * option goerror) : FactoryFunc := λ name _ s,
  let '(w, err) := complete (world s) in
  let s := {| plugins := plugins s; pipelines := pipelines s; processor := processor s; world := w |} in
  Ok (s, match err with
         | Some e => inr (EWrap ("failed to create plugin '" +:+ BaseModelToHeaderPluginType +:+ "' - ")
                            (EWrap ("failed to register configmap reconciler for plugin '"
                               +:+ BaseModelToHeaderPluginType +:+ "' - ") e))
         | None => inl (request_plugin {| Type_ := BaseModelToHeaderPluginType; Name := name |}
                          (Direct (BaseModelToHeaderPlugin adapters name)))
         end).

(** Every factory the runner registers, in its order. The cost scorer is not
    among them. *)
Definition registerInTreePlugins `{MathPow} `{PdqSort} `{!SessionCache W} `{ModelConfig.Files W}
    (adapters : W → AdaptersStore) (complete : W → W * option goerror) : Registry :=
  foldl (λ r tf, Register tf.1 tf.2 r) ∅
    [(SingleProfile.PluginType, SingleProfilePickerFactory);
     (BodyFieldToHeader.PluginType, BodyFieldToHeaderPluginFactory);
     (BaseModelToHeaderPluginType, BaseModelToHeaderPluginFactory adapters complete);
     (RequestMetadata.PluginType, RequestMetadataFactory);
     (RequestCost.PluginType, RequestCostFactory);
     (ModelConfig.PluginType, ModelConfigFactory);
     (ModelGroupFilterType, ModelGroupFilterFactory);
     (RandomPickerType, RandomPickerFactory);
     (MaxScorePickerType, MaxScorePickerFactory);
     (WeightedRandomPickerType, WeightedRandomPickerFactory);
     (ModelSelectorPluginType, ModelSelectorPluginFactory);
     (InflightRequestsScorerType, InflightRequestsScorerFactory);
     (SessionAffinity.PluginType, SessionAffinityScorerFactory);
     (CostGuard.PluginType, CostGuardScorerFactory);
     (ModelNameToHeader.PluginType, ModelNameToHeaderFactory)].

(** ** Building *)

Fixpoint instantiate (registry : Registry) (pluginNames : gset string) (specs : list PluginSpec)
    (s : Loading) : res (Loading * result unit) :=
  match specs with
  | [] => Ok (s, inl tt)
  | spec :: specs =>
      if String.eqb (spec_Type spec) "" then Ok (s, inr (EMissingType (spec_Name spec)))
      else if decide (spec_Name spec ∈ pluginNames)
      then Ok (s, inr (EDuplicateName (spec_Name spec)))
      else match registry !! spec_Type spec with
           | None => Ok (s, inr (ENotRegistered (spec_Type spec)))
           | Some factory =>
               '(s, r) ← factory (spec_Name spec) (spec_Parameters spec) s;
               match r with
               | inr e => Ok (s, inr (EFactory (spec_Name spec) (spec_Type spec) e))
               | inl p => instantiate registry ({[spec_Name spec]} ∪ pluginNames) specs
                            (AddPlugin (spec_Name spec) p s)
               end
           end
  end.

Definition instantiatePlugins (registry : Registry) (configuredPlugins : list PluginSpec)
    (s : Loading) : res (Loading * result unit) :=
  match configuredPlugins with
  | [] => Ok (s, inr ENoPlugins)
  | _ => instantiate registry ∅ configuredPlugins s
  end.

Definition registerDefaultPlugin (registry : Registry) (c : PayloadProcessorConfig)
    (pluginType : string) (s : Loading) : res (Loading * result PayloadProcessorConfig) :=
  match registry !! pluginType with
  | None => Ok (s, inr (EDefaultNotRegistered pluginType))
  | Some factory =>
      '(s, r) ← factory pluginType [] s;
      match r with
      | inr e => Ok (s, inr (EDefaultFactory pluginType e))
      | inl p =>
          Ok (AddPlugin pluginType p s, inl
            {| cfg_Plugins := cfg_Plugins c ++
                 [{| spec_Name := pluginType; spec_Type := pluginType; spec_Parameters := [] |}];
               cfg_PreProcessing := cfg_PreProcessing c; cfg_ProfilePicker := cfg_ProfilePicker c;
               cfg_Profiles := cfg_Profiles c; cfg_PostProcessing := cfg_PostProcessing c;
               cfg_Datalayer := cfg_Datalayer c |})
      end
  end.

Definition with_picker_ref (c : PayloadProcessorConfig) (name : string) : PayloadProcessorConfig :=
  {| cfg_Plugins := cfg_Plugins c; cfg_PreProcessing := cfg_PreProcessing c;
     cfg_ProfilePicker :=
       Some {| ref_name := name;
               ref_Weight := match cfg_ProfilePicker c with Some r => ref_Weight r | None => None end |};
     cfg_Profiles := cfg_Profiles c; cfg_PostProcessing := cfg_PostProcessing c;
     cfg_Datalayer := cfg_Datalayer c |}.

(** The profile pickers among the plugins, in the order they are ranged over. *)
Definition profile_pickers (s : Loading) : list (ProfilePicker W) :=
  omap as_profile_picker (GetAllPlugins s).

Definition has_picker_ref (c : PayloadProcessorConfig) : bool :=
  match cfg_ProfilePicker c with Some r => negb (String.eqb (ref_name r) "") | None => false end.

Definition applyPluginDefaults (registry : Registry) (c : PayloadProcessorConfig) (s : Loading) :
    res (Loading * result PayloadProcessorConfig) :=
  if has_picker_ref c then Ok (s, inl c)
  else match profile_pickers s with
  | _ :: _ :: _ => Ok (s, inr EMultiplePickers)
  | [p] => Ok (s, inl (with_picker_ref c (Name (pp_name p))))
  | [] =>
      if (length (cfg_Profiles c) =? 1)%nat then
        '(s, r) ← registerDefaultPlugin registry c SingleProfile.PluginType s;
        match r with
        | inr e => Ok (s, inr e)
        | inl c =>
            match GetPlugin s SingleProfile.PluginType ≫= as_profile_picker with
            | None => Panic "interface conversion"
            | Some p => Ok (s, inl (with_picker_ref c (Name (pp_name p))))
            end
        end
      else Ok (s, inr EPickerRequired)
  end.

(** A profile as it is built; [lp_Selector] are the [ModelSelectorPlugins]. *)
Record LoadedProfile :=
  { lp_Request : list LoadedRequest;
    lp_Response : list (ResponseProcessor W);
    lp_Chunks : list (ResponseChunkProcessor W);
    lp_Buffering : bool;
    lp_Selector : list (PluginObject W) }.

(** One entry of a profile's request list: a request processor, or a part of
    the model selector. *)
Definition place_request (s : Loading) (r : PluginRef) :
    result (LoadedRequest + PluginObject W) :=
  rawPlugin ← need (GetPlugin s (ref_name r)) (ENoSuchPlugin (ref_name r));
  match as_request rawPlugin with
  | Some p => mret (inl p)
  | None =>
      let q := as_selector rawPlugin in
      match as_scorer q with
      | Some scorer =>
          weight ← need (ref_Weight r) (EWeightRequired (ref_name r));
          mret (inr (Weighted (NewWeightedScorer q scorer weight)))
      | None =>
          if bool_decide (is_Some (as_filter q)) || bool_decide (is_Some (as_picker q))
          then mret (inr (Plain q)) else fail (ENotARequestPlugin (ref_name r))
      end
  end.

Definition place_response (s : Loading) (r : PluginRef) :
    result (ResponseProcessor W + ResponseChunkProcessor W) :=
  rawPlugin ← need (GetPlugin s (ref_name r)) (ENoSuchPlugin (ref_name r));
  match as_response rawPlugin, as_chunk rawPlugin with
  | Some p, _ => mret (inl p)
  | None, Some c => mret (inr c)
  | None, None => fail (ENotAResponsePlugin (ref_name r))
  end.

Definition lefts {A B} (l : list (A + B)) : list A :=
  omap (λ x, match x with inl a => Some a | inr _ => None end) l.
Definition rights {A B} (l : list (A + B)) : list B :=
  omap (λ x, match x with inr b => Some b | inl _ => None end) l.

Definition nonempty {A} (l : list A) : bool := match l with [] => false | _ => true end.

Definition buildProfile (s : Loading) (raw : RawProfile) : result LoadedProfile :=
  guard_err (negb (String.eqb (raw_Name raw) "")) EUnnamedProfile ≫= λ _,
  ps ← need (raw_Plugins raw) (ENoPluginsSection (raw_Name raw));
  guard_err (nonempty (raw_Request ps) || nonempty (raw_Response ps)) (EEmptyProfile (raw_Name raw))
    ≫= λ _,
  reqs ← mapM (place_request s) (raw_Request ps);
  rsps ← mapM (place_response s) (raw_Response ps);
  guard_err (negb (nonempty (lefts rsps) && nonempty (rights rsps))) (EMixedProfile (raw_Name raw))
    ≫= λ _,
  mret {| lp_Request := lefts reqs; lp_Response := lefts rsps; lp_Chunks := rights rsps;
          lp_Buffering := nonempty (lefts rsps); lp_Selector := rights reqs |}.

(** Profiles of the same name: the last one stays. *)
Fixpoint build_profiles (s : Loading) (raws : list RawProfile) (acc : gmap string LoadedProfile) :
    result (gmap string LoadedProfile) :=
  match raws with
  | [] => mret acc
  | raw :: raws =>
      p ← buildProfile s raw;
      build_profiles s raws (<[raw_Name raw := p]> acc)
  end.

Definition buildProfiles (s : Loading) (rawProfiles : list RawProfile) :
    result (gmap string LoadedProfile) :=
  match rawProfiles with
  | [] => fail ENoProfiles
  | _ => build_profiles s rawProfiles ∅
  end.

Definition buildPreProcessors (s : Loading) (raw : option (list PluginRef)) :
    result (list LoadedRequest) :=
  mapM (λ r, rawPlugin ← need (GetPlugin s (ref_name r)) (ENoSuchPlugin (ref_name r));
             need (as_request rawPlugin) (ENotAPreProcessor (ref_name r))) (default [] raw).

(** A plugin can be placed both ways. *)
Definition buildPostProcessors (s : Loading) (raw : option (list PluginRef)) :
    result (list (ResponseProcessor W) * list (ResponseHeadersProcessor W)) :=
  placed ← mapM (λ r,
    rawPlugin ← need (GetPlugin s (ref_name r)) (ENoSuchPlugin (ref_name r));
    match as_response rawPlugin, as_headers rawPlugin with
    | None, None => fail (ENotAPostProcessor (ref_name r))
    | b, h => mret (b, h)
    end) (default [] raw);
  mret (omap fst placed, omap snd placed).

(** Post-processors need the whole body: the first profile with chunk
    processors is an error, the profiles before it buffer already. *)
Fixpoint chunk_profile (ps : list (string * LoadedProfile)) : option string :=
  match ps with
  | [] => None
  | (name, p) :: ps => if nonempty (lp_Chunks p) then Some name else chunk_profile ps
  end.

Definition set_buffering (p : LoadedProfile) : LoadedProfile :=
  {| lp_Request := lp_Request p; lp_Response := lp_Response p; lp_Chunks := lp_Chunks p;
     lp_Buffering := true; lp_Selector := lp_Selector p |}.

Definition force_buffering (post : list (ResponseProcessor W)) (profiles : gmap string LoadedProfile) :
    result (gmap string LoadedProfile) :=
  if nonempty post then
    match chunk_profile (go_range profiles) with
    | Some name => fail (EChunksWithPostProcessors name)
    | None => mret (set_buffering <$> profiles)
    end
  else mret profiles.

(** *** The data layer *)

(** One registration loop: what is registered before an error stays. *)
Fixpoint register_all (register : AnyPlugin → option (Processor → Processor))
    (err : string → LoadError) (refs : list PluginRef) (s : Loading) : Loading * result unit :=
  match refs with
  | [] => (s, inl tt)
  | r :: refs =>
      match GetPlugin s (ref_name r) with
      | None => (s, inr (ENoSuchPlugin (ref_name r)))
      | Some p =>
          match register p with
          | None => (s, inr (err (ref_name r)))
          | Some f => register_all register err refs (with_processor s (f (processor s)))
          end
      end
  end.

Definition buildDatalayerSources (cfg : option DatalayerConfig) (s : Loading) :
    Loading * result unit :=
  match cfg with
  | None => (s, inl tt)
  | Some cfg =>
      let '(s, r) := register_all (λ p, (λ cf, RegisterCollector cf.1 cf.2) <$> as_collector p)
                       ENotACollector (Collectors cfg) s in
      match r with
      | inr e => (s, inr e)
      | inl _ =>
          let '(s, r) := register_all
                           (λ p, if as_extractor p then Some RegisterExtractor else None)
                           ENotAnExtractor (Extractors cfg) s in
          match r with
          | inr e => (s, inr e)
          | inl _ => register_all (λ p, RegisterDatasource <$> as_datasource p)
                       ENotADataSource (Datasources cfg) s
          end
      end
  end.

(** *** The model selectors *)

Definition NewMaxScorePicker : Picker W := MaxScorePicker MaxScorePickerType.

(** One model-selector plugin of a profile. *)
Definition wire (objs : list (PluginObject W)) (name : string) (ref : positive) (s : Loading) :
    Loading * result unit :=
  let '(p, err) := AddPlugins (default NewModelSelectorPipeline (pipelines s !! ref)) objs in
  match err with
  | Some e => (with_pipelines s (<[ref := p]> (pipelines s)), inr (ESelector name e))
  | None =>
      let p := match picker p with Some _ => p | None => WithPicker p NewMaxScorePicker end in
      (with_pipelines s (<[ref := p]> (pipelines s)), inl tt)
  end.

Fixpoint wire_requests (objs : list (PluginObject W)) (reqs : list LoadedRequest) (s : Loading) :
    Loading * result unit :=
  match reqs with
  | [] => (s, inl tt)
  | Direct _ :: reqs => wire_requests objs reqs s
  | Selector name ref :: reqs =>
      match wire objs name ref s with
      | (s, inr e) => (s, inr e)
      | (s, inl _) => wire_requests objs reqs s
      end
  end.

Fixpoint wire_profiles (ps : list LoadedProfile) (s : Loading) : Loading * result unit :=
  match ps with
  | [] => (s, inl tt)
  | p :: ps =>
      match wire_requests (lp_Selector p) (lp_Request p) s with
      | (s, inr e) => (s, inr e)
      | (s, inl _) => wire_profiles ps s
      end
  end.

Definition buildModelSelector (profiles : gmap string LoadedProfile) (s : Loading) :
    Loading * result unit :=
  wire_profiles (go_range profiles).*2 s.

(** *** Loading *)

(** A nil [ProfilePicker] is [None]. *)
Record Config :=
  { PreProcessors : list LoadedRequest;
    ProfilePicker_of : option (ProfilePicker W);
    Profiles : gmap string LoadedProfile;
    PostProcessors : list (ResponseProcessor W);
    ResponseHeadersPostProcessors : list (ResponseHeadersProcessor W) }.

(** The strict YAML and JSON decoder of k8s.io/apimachinery. *)
Context (decode : bytes → PayloadProcessorConfig + goerror).

Definition loadRawConfiguration (configBytes : bytes) : result PayloadProcessorConfig :=
  match configBytes with
  | [] => mret (applyRawConfigDefaults loadDefaultConfig)
  | _ => match decode configBytes with
         | inr e => fail (EDecode e)
         | inl c => mret (applyRawConfigDefaults c)
         end
  end.

(** The parts of [LoadConfiguration] that only read the handle. *)
Definition build (c : PayloadProcessorConfig) (s : Loading) : result Config :=
  profiles ← buildProfiles s (cfg_Profiles c);
  pre ← buildPreProcessors s (cfg_PreProcessing c);
  posts ← buildPostProcessors s (cfg_PostProcessing c);
  profiles ← force_buffering posts.1 profiles;
  mret {| PreProcessors := pre;
          ProfilePicker_of :=
            r ← cfg_ProfilePicker c; p ← GetPlugin s (ref_name r); as_profile_picker p;
          Profiles := profiles; PostProcessors := posts.1;
          ResponseHeadersPostProcessors := posts.2 |}.

Definition LoadConfiguration (registry : Registry) (configBytes : bytes) (s : Loading) :
    res (Loading * result Config) :=
  match loadRawConfiguration configBytes with
  | inr e => Ok (s, inr e)
  | inl rawConfig =>
      '(s, r) ← instantiatePlugins registry (cfg_Plugins rawConfig) s;
      match r with
      | inr e => Ok (s, inr e)
      | inl _ =>
          '(s, r) ← applyPluginDefaults registry rawConfig s;
          match r with
          | inr e => Ok (s, inr e)
          | inl rawConfig =>
              match build rawConfig s with
              | inr e => Ok (s, inr e)
              | inl config =>
                  let '(s, r) := buildDatalayerSources (cfg_Datalayer rawConfig) s in
                  match r with
                  | inr e => Ok (s, inr e)
                  | inl _ =>
                      let '(s, r) := buildModelSelector (Profiles config) s in
                      match r with
                      | inr e => Ok (s, inr e)
                      | inl _ => Ok (s, inl config)
                      end
                  end
              end
          end
      end
  end.

(** *** What the server runs *)

(** The plugins with the pipelines they hold once everything is loaded. *)
Definition running (s : Loading) (r : LoadedRequest) : RequestProcessor W :=
  match r with
  | Direct p => p
  | Selector name ref =>
      ModelSelectorPlugin name (default NewModelSelectorPipeline (pipelines s !! ref))
  end.

Definition running_profile (s : Loading) (p : LoadedProfile) : Profile W :=
  {| RequestPlugins := running s <$> lp_Request p; ResponsePlugins := lp_Response p;
     ResponseChunkProcessors := lp_Chunks p; NeedsResponseBuffering := lp_Buffering p |}.

(** The server of pkg/server/runserver.go. *)
Definition server_of (s : Loading) (c : Config) : Server W :=
  WithEventNotifier (NewServer (running s <$> PreProcessors c) (ProfilePicker_of c)
    (running_profile s <$> Profiles c) (PostProcessors c) (ResponseHeadersPostProcessors c)).
End loader.

Arguments LoadedRequest : clear implicits.
Arguments AnyPlugin : clear implicits.
Arguments Loading : clear implicits.
Arguments LoadedProfile : clear implicits.
Arguments Config : clear implicits.

Abbreviation FactoryFunc W := (string → bytes → Loading W → res (Loading W * (AnyPlugin W + goerror))).
Abbreviation Registry W := (gmap string (FactoryFunc W)).
