(* ===== verification/LoaderProofs.v ===== *)
(** The correctness of the configuration loader: what a configuration that loads
    guarantees the server, that the built-in one routes requests, that loading
    does not depend on map order, and the configurations that load and crash. *)

From Stdlib Require Import String.
From S2P Require Import Prelude GoFloat GoValue Envoy Message World Handlers ServerSafety Adapters.
From S2P Require Import Datalayer ModelSelector Pickers RequestPlugins Processor Loader.

Local Open Scope string_scope.
Local Open Scope list_scope.

(** ** Profiles *)

Section profiles.
Context {W : Type} `{MO : MapOrder}.
Implicit Types (s : Loading W) (p : LoadedProfile W).

Lemma nonempty_true {A} (l : list A) : nonempty l = true ↔ l ≠ [].
Proof. by destruct l. Qed.

(** What [buildProfile] guarantees: body or chunk processors, not both, and
    buffering exactly for body processors. *)
Definition profile_ok p : Prop :=
  (lp_Buffering p = true ↔ lp_Response p ≠ []) ∧ (lp_Response p = [] ∨ lp_Chunks p = []).

Lemma buildProfile_ok s raw p :
  buildProfile s raw = inl p → raw_Name raw ≠ "" ∧ profile_ok p.
Proof.
  unfold buildProfile. intros (u & Hn & H)%bind_inl. apply guard_err_inl in Hn.
  apply bind_inl in H as (ps & _ & H). apply bind_inl in H as (u1 & _ & H).
  apply bind_inl in H as (reqs & _ & H). apply bind_inl in H as (rsps & _ & H).
  apply bind_inl in H as (u2 & Hm & [= <-]). apply guard_err_inl in Hm. split.
  - intros E. by rewrite E in Hn.
  - unfold profile_ok. simpl. rewrite nonempty_true. split; [done|].
    destruct (lefts rsps); [by left|]. destruct (rights rsps); [by right|done].
Qed.

Lemma build_profiles_ok s raws acc ps :
  build_profiles s raws acc = inl ps →
  (∀ n p, acc !! n = Some p → n ≠ "" ∧ profile_ok p) →
  (∀ n p, ps !! n = Some p → n ≠ "" ∧ profile_ok p) ∧ dom ps = dom acc ∪ list_to_set (raw_Name <$> raws).
Proof.
  revert acc. induction raws as [|raw raws IH]; intros acc; simpl.
  - intros [= <-] Hacc. split; [done|]. set_solver.
  - intros (p & Hp & H)%bind_inl Hacc. apply IH in H as [H1 H2].
    + split; [done|]. rewrite H2, dom_insert_L. set_solver.
    + intros n q [[<- <-]|[_ Hq]]%lookup_insert_Some; [by eapply buildProfile_ok|auto].
Qed.

Lemma buildProfiles_ok s raws ps :
  buildProfiles s raws = inl ps →
  ps ≠ ∅ ∧ (∀ n p, ps !! n = Some p → n ≠ "" ∧ profile_ok p) ∧ dom ps = list_to_set (raw_Name <$> raws).
Proof.
  destruct raws as [|raw raws]; [done|]. intros H. change (build_profiles s (raw :: raws) ∅ = inl ps) in H.
  apply build_profiles_ok in H as [H1 H2]; [|by intros n p ?%lookup_empty_Some].
  rewrite dom_empty_L, (left_id_L ∅ (∪)) in H2. split; [|split; [exact H1|exact H2]].
  intros ->. rewrite dom_empty_L in H2. simpl in H2.
  assert (raw_Name raw ∈ (∅ : gset string)) as Hin by (rewrite H2; simpl; set_solver).
  by apply not_elem_of_empty in Hin.
Qed.

Lemma chunk_profile_none (l : list (string * LoadedProfile W)) :
  chunk_profile l = None → Forall (λ np, lp_Chunks np.2 = []) l.
Proof.
  induction l as [|[n p] l IH]; simpl; [constructor|].
  destruct (lp_Chunks p) eqn:E; simpl; [|done]. intros H. constructor; auto.
Qed.

Lemma force_buffering_ok post (ps ps' : gmap string (LoadedProfile W)) :
  force_buffering post ps = inl ps' →
  ps' = (if nonempty post then set_buffering else id) <$> ps ∧
  (post ≠ [] → ∀ n p, ps !! n = Some p → lp_Chunks p = []).
Proof.
  unfold force_buffering. destruct post as [|b post]; simpl.
  - intros [= <-]. split; [by rewrite map_fmap_id|done].
  - destruct (chunk_profile (go_range ps)) eqn:E; [done|]. intros [= <-]. split; [done|].
    intros _ n p Hp. apply chunk_profile_none in E. rewrite Forall_forall in E.
    apply (E (n, p)). by apply elem_of_go_range.
Qed.
End profiles.

(** ** The state of loading *)

Section state.
Context {W : Type} `{TD : TDigest} `{WW : !World W} `{DS : !Datastore W} `{MO : MapOrder}
  `{RD : !Rand W}.
Implicit Types (s : Loading W) (p : LoadedProfile W).

(** A successful load, stage by stage. *)
Lemma LoadConfiguration_inv decode (registry : Registry W) bytes s s' c :
  LoadConfiguration decode registry bytes s = Ok (s', inl c) →
  ∃ raw raw' s1 s2 s3,
    loadRawConfiguration decode bytes = inl raw ∧
    instantiatePlugins registry (cfg_Plugins raw) s = Ok (s1, inl tt) ∧
    applyPluginDefaults registry raw s1 = Ok (s2, inl raw') ∧
    build raw' s2 = inl c ∧
    buildDatalayerSources (cfg_Datalayer raw') s2 = (s3, inl tt) ∧
    buildModelSelector (Profiles c) s3 = (s', inl tt).
Proof.
  unfold LoadConfiguration. destruct (loadRawConfiguration decode bytes) as [raw|e]; [|done].
  intros H. apply mbind_Ok in H as ([s1 [[]|]] & H1 & H); [|done].
  apply mbind_Ok in H as ([s2 [raw'|]] & H2 & H); [|done].
  destruct (build raw' s2) as [c'|] eqn:H3; [|done].
  destruct (buildDatalayerSources _ s2) as [s3 [[]|]] eqn:H4; [|done].
  destruct (buildModelSelector _ s3) as [s4 [[]|]] eqn:H5; [|done].
  injection H as <- <-. by exists raw, raw', s1, s2, s3.
Qed.

Lemma build_inv raw s c :
  build raw s = inl c →
  ∃ ps, buildProfiles s (cfg_Profiles raw) = inl ps ∧
    buildPreProcessors s (cfg_PreProcessing raw) = inl (PreProcessors c) ∧
    buildPostProcessors s (cfg_PostProcessing raw) =
      inl (PostProcessors c, ResponseHeadersPostProcessors c) ∧
    force_buffering (PostProcessors c) ps = inl (Profiles c) ∧
    ProfilePicker_of c = (r ← cfg_ProfilePicker raw; p ← GetPlugin s (ref_name r); as_profile_picker p).
Proof.
  unfold build. intros (ps & H1 & H)%bind_inl. apply bind_inl in H as (pre & H2 & H).
  apply bind_inl in H as ([post hdr] & H3 & H). apply bind_inl in H as (ps' & H4 & [= <-]).
  simpl in *. by exists ps.
Qed.

Lemma build_shape raw s c :
  build raw s = inl c →
  Profiles c ≠ ∅ ∧
  ∀ n p, Profiles c !! n = Some p →
    n ≠ "" ∧
    (lp_Response p = [] ∨ lp_Chunks p = []) ∧
    (lp_Buffering p = true ↔ lp_Response p ≠ [] ∨ PostProcessors c ≠ []) ∧
    (lp_Buffering p = true → lp_Chunks p = []).
Proof.
  intros (ps & Hps & _ & _ & Hf & _)%build_inv.
  apply buildProfiles_ok in Hps as (Hne & Hok & _). apply force_buffering_ok in Hf as [Heq Hc].
  split; [rewrite Heq; by intros ?%fmap_empty_inv|].
  intros n p. rewrite Heq, lookup_fmap. intros (q & Hq & ->)%fmap_Some.
  destruct (Hok n q Hq) as (Hn & Hbuf & Hx). split; [done|].
  destruct (PostProcessors c) as [|b post] eqn:E; simpl.
  - split; [done|]. rewrite Hbuf. split; [naive_solver|]. intros ?. by destruct Hx.
  - specialize (Hc ltac:(done) n q Hq). split_and!; [done| |done].
    split; [by right|done].
Qed.

(** C28: a configuration that loads has profiles, and they buffer exactly when
    they must: each is named, has body or chunk processors but not both, and
    buffers the response if and only if it has body processors or there are
    post-processors; with post-processors no profile processes chunks. *)
Theorem loaded_profiles_well_formed decode (registry : Registry W) bytes s s' c :
  LoadConfiguration decode registry bytes s = Ok (s', inl c) →
  Profiles c ≠ ∅ ∧
  ∀ n p, Profiles c !! n = Some p →
    n ≠ "" ∧
    (lp_Response p = [] ∨ lp_Chunks p = []) ∧
    (lp_Buffering p = true ↔ lp_Response p ≠ [] ∨ PostProcessors c ≠ []) ∧
    (lp_Buffering p = true → lp_Chunks p = []).
Proof.
  intros (raw & raw' & s1 & s2 & s3 & _ & _ & _ & Hb & _)%LoadConfiguration_inv. by eapply build_shape.
Qed.

(** *** Wiring *)

(** The references of the model selectors among some request processors. *)
Definition refs_of (reqs : list (LoadedRequest W)) : list positive :=
  omap (λ r, match r with Selector _ ref => Some ref | Direct _ => None end) reqs.

(** The other parts of the state stay as they are. *)
Definition same_but_pipelines s s' : Prop :=
  plugins s' = plugins s ∧ processor s' = processor s ∧ world s' = world s.

(** The two states have the same pipelines at some references. *)
Definition agree (R : list positive) s s' : Prop :=
  ∀ r, r ∈ R → pipelines s' !! r = pipelines s !! r.

Definition wired s (ref : positive) : Prop :=
  ∃ pl k, pipelines s !! ref = Some pl ∧ picker pl = Some k.

Lemma AddPlugins_keeps_picker (p p' : ModelSelectorPipeline W) objs err k :
  AddPlugins p objs = (p', err) → picker p = Some k → ∃ k', picker p' = Some k'.
Proof.
  unfold AddPlugins. destruct (collect _ _ _ _ _) as [[[fs ss] pk]|e]; intros [= <- <-] Hk; [|eauto].
  simpl. destruct pk; eauto.
Qed.

(** One step of wiring writes one pipeline, from the one that was there. *)
Lemma wire_spec objs name ref s :
  ∃ pl, (wire objs name ref s).1 = with_pipelines s (<[ref := pl]> (pipelines s)) ∧
    (wired s ref → ∃ k, picker pl = Some k) ∧
    ((wire objs name ref s).2 = inl tt → ∃ k, picker pl = Some k) ∧
    (∀ s', pipelines s' !! ref = pipelines s !! ref →
       (wire objs name ref s').1 = with_pipelines s' (<[ref := pl]> (pipelines s')) ∧
       (wire objs name ref s').2 = (wire objs name ref s).2).
Proof.
  unfold wire. destruct (AddPlugins (default _ (pipelines s !! ref)) objs) as [p err] eqn:E.
  destruct err as [e|].
  - exists p. simpl. split_and!; [done| |done|].
    + intros (pl & k & Hpl & Hk). rewrite Hpl in E. by eapply AddPlugins_keeps_picker.
    + intros s' ->. by rewrite E.
  - eexists. simpl. split_and!; [reflexivity| | |].
    + intros _. destruct (picker p) eqn:?; simpl; eauto.
    + intros _. destruct (picker p) eqn:?; simpl; eauto.
    + intros s' ->. by rewrite E.
Qed.

Lemma wire_frame objs name ref s :
  same_but_pipelines s (wire objs name ref s).1 ∧
  ∀ r, r ≠ ref → pipelines (wire objs name ref s).1 !! r = pipelines s !! r.
Proof.
  destruct (wire_spec objs name ref s) as (pl & -> & _). split; [done|].
  intros r Hr. simpl. by rewrite lookup_insert_ne.
Qed.

Lemma wire_wired objs name ref s r : wired s r → wired (wire objs name ref s).1 r.
Proof.
  destruct (wire_spec objs name ref s) as (pl & -> & Hk & _). intros Hw.
  destruct (decide (r = ref)) as [->|Hne].
  - destruct (Hk Hw) as [k ?]. exists pl, k. simpl. by rewrite lookup_insert_eq.
  - destruct Hw as (q & k & ? & ?). exists q, k. simpl. by rewrite lookup_insert_ne.
Qed.

Lemma wire_ok_wired objs name ref s :
  (wire objs name ref s).2 = inl tt → wired (wire objs name ref s).1 ref.
Proof.
  destruct (wire_spec objs name ref s) as (pl & -> & _ & Hk & _). intros Hw.
  destruct (Hk Hw) as [k ?]. exists pl, k. simpl. by rewrite lookup_insert_eq.
Qed.

Lemma wire_local objs name ref s s' :
  pipelines s' !! ref = pipelines s !! ref →
  (wire objs name ref s').2 = (wire objs name ref s).2 ∧
  agree [ref] (wire objs name ref s).1 (wire objs name ref s').1.
Proof.
  destruct (wire_spec objs name ref s) as (pl & -> & _ & _ & Hl). intros Heq.
  destruct (Hl s' Heq) as [-> ->]. split; [done|]. intros r ->%list_elem_of_singleton. simpl.
  by rewrite !lookup_insert_eq.
Qed.

Lemma wire_requests_frame objs reqs s :
  same_but_pipelines s (wire_requests objs reqs s).1 ∧
  ∀ r, r ∉ refs_of reqs → pipelines (wire_requests objs reqs s).1 !! r = pipelines s !! r.
Proof.
  revert s. induction reqs as [|[q|name ref] reqs IH]; intros s; simpl; [done|apply IH|].
  destruct (wire_frame objs name ref s) as [(E1 & E2 & E3) Hf].
  destruct (wire objs name ref s) as [s1 [[]|e]]; simpl in *.
  - destruct (IH s1) as [(F1 & F2 & F3) Hg]. split; [split_and!; congruence|].
    intros r [Hr Hr']%not_elem_of_cons. rewrite Hg, Hf; done.
  - split; [done|]. intros r [Hr _]%not_elem_of_cons. auto.
Qed.

Lemma wire_requests_wired objs reqs s r :
  wired s r → wired (wire_requests objs reqs s).1 r.
Proof.
  revert s. induction reqs as [|[q|name ref] reqs IH]; intros s Hw; simpl; [done|auto|].
  pose proof (wire_wired objs name ref s r Hw). destruct (wire objs name ref s) as [s1 [[]|e]]; auto.
Qed.

Lemma wire_requests_ok_wired objs reqs s r :
  (wire_requests objs reqs s).2 = inl tt → r ∈ refs_of reqs → wired (wire_requests objs reqs s).1 r.
Proof.
  revert s. induction reqs as [|[q|name ref] reqs IH]; intros s; simpl.
  - intros _ Hr. by apply not_elem_of_nil in Hr.
  - apply IH.
  - pose proof (wire_ok_wired objs name ref s) as Hw. destruct (wire objs name ref s) as [s1 [[]|e]]; [|done].
    intros Hok [->|Hr]%elem_of_cons; [|auto]. by apply wire_requests_wired, Hw.
Qed.

Lemma wire_requests_local objs reqs s s' :
  agree (refs_of reqs) s s' →
  (wire_requests objs reqs s').2 = (wire_requests objs reqs s).2 ∧
  agree (refs_of reqs) (wire_requests objs reqs s).1 (wire_requests objs reqs s').1.
Proof.
  revert s s'. induction reqs as [|[q|name ref] reqs IH]; intros s s' Ha; simpl; [done|by apply IH|].
  destruct (wire_local objs name ref s s') as [E2 E1]; [apply Ha; by left|].
  destruct (wire_frame objs name ref s) as [_ Hf], (wire_frame objs name ref s') as [_ Hf'].
  assert (agree (ref :: refs_of reqs) (wire objs name ref s).1 (wire objs name ref s').1) as Ha'.
  { intros r Hr. destruct (decide (r = ref)) as [->|Hne]; [apply E1; by left|].
    rewrite Hf, Hf' by done. by apply Ha. }
  destruct (wire objs name ref s) as [s1 x1], (wire objs name ref s') as [s1' x1']. simpl in *.
  subst x1'. destruct x1 as [[]|e]; [|done].
  destruct (IH s1 s1') as [I2 I1]; [intros r Hr; apply Ha'; by right|]. split; [done|].
  intros r Hr. destruct (decide (r ∈ refs_of reqs)) as [Hin|Hout]; [by apply I1|].
  rewrite !(proj2 (wire_requests_frame _ _ _)) by done. by apply Ha'.
Qed.

Lemma wire_profiles_wired ps s r : wired s r → wired (wire_profiles ps s).1 r.
Proof.
  revert s. induction ps as [|p ps IH]; intros s Hw; simpl; [done|].
  pose proof (wire_requests_wired (lp_Selector p) (lp_Request p) s r Hw).
  destruct (wire_requests _ _ s) as [s1 [[]|e]]; auto.
Qed.

Lemma wire_profiles_ok_wired ps s p r :
  (wire_profiles ps s).2 = inl tt → p ∈ ps → r ∈ refs_of (lp_Request p) →
  wired (wire_profiles ps s).1 r.
Proof.
  revert s. induction ps as [|q ps IH]; intros s; simpl; [intros _ Hp; by apply not_elem_of_nil in Hp|].
  pose proof (wire_requests_ok_wired (lp_Selector q) (lp_Request q) s r) as Hw.
  destruct (wire_requests _ _ s) as [s1 [[]|e]]; simpl in *; [|done].
  intros Hok [->|Hp]%elem_of_cons Hr; [|auto]. by apply wire_profiles_wired, Hw.
Qed.

(** After a successful load no model selector lacks a picker: for every
    model-selector plugin in a profile's request list, the pipeline it will
    run has one, the configured one or the max-score default. *)
Theorem loaded_selectors_have_pickers decode (registry : Registry W) bytes s s' c n p name ref :
  LoadConfiguration decode registry bytes s = Ok (s', inl c) →
  Profiles c !! n = Some p → Selector name ref ∈ lp_Request p →
  ∃ pl k, running s' (Selector name ref) = ModelSelectorPlugin name pl ∧
    pipelines s' !! ref = Some pl ∧ picker pl = Some k.
Proof.
  intros (raw & raw' & s1 & s2 & s3 & _ & _ & _ & _ & _ & Hw)%LoadConfiguration_inv Hp Hr.
  unfold buildModelSelector in Hw.
  assert (wired (wire_profiles (go_range (Profiles c)).*2 s3).1 ref) as Hwired.
  { apply (wire_profiles_ok_wired _ _ p); [by rewrite Hw| |].
    - apply list_elem_of_fmap. exists (n, p). split; [done|]. by apply elem_of_go_range.
    - apply list_elem_of_omap. by exists (Selector name ref). }
  rewrite Hw in Hwired. destruct Hwired as (pl & k & Hpl & Hk).
  simpl in Hpl. exists pl, k. simpl. by rewrite Hpl.
Qed.

(** *** The order of the profiles *)

(** Two profiles with no model selector in common. *)
Definition apart p q : Prop := refs_of (lp_Request p) ## refs_of (lp_Request q).

Lemma loading_eq s s' s0 :
  same_but_pipelines s0 s → same_but_pipelines s0 s' → pipelines s = pipelines s' → s = s'.
Proof. intros (?&?&?) (?&?&?) ?. destruct s, s'; simpl in *. congruence. Qed.

(** What two orders may differ in: which error is reported. *)
Definition same_outcome (x y : Loading W * result unit) : Prop :=
  (x.2 = inl tt ↔ y.2 = inl tt) ∧ (x.2 = inl tt → x = y).

Lemma same_outcome_trans x y z : same_outcome x y → same_outcome y z → same_outcome x z.
Proof. unfold same_outcome. intros [H1 H2] [H3 H4]. split; [tauto|]. intros H. rewrite H2 by done. apply H4, H1, H. Qed.

Definition wire_profile p s : Loading W * result unit := wire_requests (lp_Selector p) (lp_Request p) s.

Lemma wire_swap p q s :
  apart p q →
  let then_ p q := match wire_profile p s with (s, inr e) => (s, inr e) | (s, inl _) => wire_profile q s end in
  same_outcome (then_ p q) (then_ q p).
Proof.
  intros Hap. simpl.
  destruct (wire_requests_frame (lp_Selector p) (lp_Request p) s) as [Sp Fp].
  destruct (wire_requests_frame (lp_Selector q) (lp_Request q) s) as [Sq Fq].
  assert (agree (refs_of (lp_Request q)) s (wire_profile p s).1) as Aq
    by (intros r Hr; apply Fp; intros Hr'; by apply (Hap r)).
  assert (agree (refs_of (lp_Request p)) s (wire_profile q s).1) as Ap
    by (intros r Hr; apply Fq; intros Hr'; by apply (Hap r)).
  destruct (wire_requests_local (lp_Selector q) _ _ _ Aq) as [Tq Lq].
  destruct (wire_requests_local (lp_Selector p) _ _ _ Ap) as [Tp Lp].
  destruct (wire_requests_frame (lp_Selector q) (lp_Request q) (wire_profile p s).1) as [Sq' Fq'].
  destruct (wire_requests_frame (lp_Selector p) (lp_Request p) (wire_profile q s).1) as [Sp' Fp'].
  unfold wire_profile in *.
  destruct (wire_requests (lp_Selector p) (lp_Request p) s) as [sp xp],
    (wire_requests (lp_Selector q) (lp_Request q) s) as [sq xq]. simpl in *.
  destruct xp as [[]|ep], xq as [[]|eq]; simpl in *.
  - unfold same_outcome. rewrite Tp, Tq. split; [done|]. intros _.
    apply injective_projections; [|congruence]. apply (loading_eq _ _ s).
    + destruct Sq' as (?&?&?), Sp as (?&?&?). split_and!; congruence.
    + destruct Sp' as (?&?&?), Sq as (?&?&?). split_and!; congruence.
    + apply map_eq. intros r. destruct (decide (r ∈ refs_of (lp_Request p))) as [Hr|Hr].
      * rewrite Fq' by (intros Hr'; by apply (Hap r)). symmetry. by apply Lp.
      * rewrite Fp' by done. destruct (decide (r ∈ refs_of (lp_Request q))) as [Hr'|Hr'].
        -- by apply Lq.
        -- rewrite Fq', Fp, Fq by done. done.
  - split; simpl; rewrite ?Tq; done.
  - split; simpl; rewrite ?Tp; done.
  - by split.
Qed.

(** No two of the profiles, at different places, share a model selector. *)
Definition all_apart (ps : list (LoadedProfile W)) : Prop :=
  ∀ i j p q, ps !! i = Some p → ps !! j = Some q → i ≠ j → apart p q.

Lemma all_apart_perm ps ps' : ps ≡ₚ ps' → all_apart ps → all_apart ps'.
Proof.
  intros Hp Ha i j p q Hi Hj Hne. symmetry in Hp.
  apply Permutation_inj in Hp as (_ & f & Hf & Hl). rewrite Hl in Hi, Hj.
  apply (Ha (f i) (f j)); [done|done|]. intros E. by apply Hne, Hf.
Qed.

Lemma all_apart_cons p ps : all_apart (p :: ps) → all_apart ps ∧ ∀ q, q ∈ ps → apart p q.
Proof.
  intros Ha. split.
  - intros i j q q' Hi Hj Hne. apply (Ha (S i) (S j)); [done|done|congruence].
  - intros q [i Hi]%list_elem_of_lookup. by apply (Ha 0%nat (S i)).
Qed.

Lemma wire_profiles_cons p ps s :
  wire_profiles (p :: ps) s =
  match wire_profile p s with (s, inr e) => (s, inr e) | (s, inl _) => wire_profiles ps s end.
Proof. done. Qed.

Lemma wire_profiles_perm ps ps' s :
  ps ≡ₚ ps' → all_apart ps → same_outcome (wire_profiles ps s) (wire_profiles ps' s).
Proof.
  intros Hp. revert s. induction Hp as [|p ps ps' Hp IH|p q ps|ps1 ps2 ps3 H12 IH1 H23 IH2]; intros s Ha.
  - by split.
  - rewrite !wire_profiles_cons. destruct (wire_profile p s) as [s1 [[]|e]]; [|by split].
    apply IH. by apply all_apart_cons in Ha as [? _].
  - assert (apart q p) as Hap by (apply all_apart_cons in Ha as [_ Ha]; apply Ha; by left).
    pose proof (wire_swap q p s Hap) as [H1 H2]. simpl in H1, H2. rewrite !wire_profiles_cons.
    destruct (wire_profile q s) as [sq [[]|eq]], (wire_profile p s) as [sp [[]|ep]];
      rewrite ?wire_profiles_cons; simpl in *.
    + destruct (wire_profile p sq) as [s1 [[]|e1]], (wire_profile q sp) as [s2 [[]|e2]]; simpl in *.
      * specialize (H2 eq_refl). injection H2 as <-. by split.
      * exfalso. destruct H1 as [H1 _]. by specialize (H1 eq_refl).
      * exfalso. destruct H1 as [_ H1]. by specialize (H1 eq_refl).
      * by split.
    + destruct (wire_profile p sq) as [s1 [[]|e1]]; simpl in *; [|by split].
      exfalso. destruct H1 as [H1 _]. by specialize (H1 eq_refl).
    + destruct (wire_profile q sp) as [s1 [[]|e1]]; simpl in *; [|by split].
      exfalso. destruct H1 as [_ H1]. by specialize (H1 eq_refl).
    + by split.
  - eapply same_outcome_trans; [by apply IH1|]. apply IH2. by eapply all_apart_perm.
Qed.
End state.

(** C29: loading does not depend on the order Go ranges over the profiles, as
    long as no model-selector plugin is used by two profiles: whatever that
    order is, wiring succeeds or fails alike, and on success leaves the same
    pipelines. *)
Theorem profile_order_irrelevant {W} `{RD : Rand W} (mo mo' : MapOrder)
    (profiles : gmap string (LoadedProfile W)) (s : Loading W) :
  (∀ n n' p q, profiles !! n = Some p → profiles !! n' = Some q → n ≠ n' → apart p q) →
  same_outcome (buildModelSelector (MO := mo) profiles s) (buildModelSelector (MO := mo') profiles s).
Proof.
  intros Ha. unfold buildModelSelector. apply wire_profiles_perm.
  - apply fmap_Permutation. by rewrite !go_range_perm.
  - intros i j p q Hi Hj Hne. rewrite list_lookup_fmap in Hi, Hj.
    apply fmap_Some in Hi as ([n p'] & Hi & ->), Hj as ([n' q'] & Hj & ->). simpl.
    pose proof (list_elem_of_lookup_2 _ _ _ Hi) as Hp. pose proof (list_elem_of_lookup_2 _ _ _ Hj) as Hq.
    apply elem_of_go_range in Hp, Hq. apply (Ha n n'); [done|done|]. intros <-. apply Hne.
    apply (NoDup_lookup (@go_range mo _ _ _ _ profiles).*1 i j n); [apply NoDup_fst_go_range|..];
      rewrite list_lookup_fmap; [by rewrite Hi|by rewrite Hj].
Qed.

(** Two profiles that share a model selector: only one configures a picker. *)
Definition sharing_profile {W} (objs : list (PluginObject W)) : LoadedProfile W :=
  {| lp_Request := [Selector "model-selector" 1%positive]; lp_Response := []; lp_Chunks := [];
     lp_Buffering := false; lp_Selector := objs |}.

(** A configuration whose profiles share a model selector loads or fails
    at random. One profile configures a picker, the other none, and both name
    the same model-selector plugin: if Go's map iteration visits the first one
    first, loading succeeds; the other way round the default picker is set
    first and the configured one is refused. *)
Theorem shared_selector_loads_at_random {W} `{RD : Rand W} (mo : MapOrder) (s : Loading W)
    (plug : ModelSelector.Plugin W) k :
  pipelines s !! 1%positive = Some NewModelSelectorPipeline →
  ModelSelector.as_filter plug = None → ModelSelector.as_scorer plug = None →
  ModelSelector.as_picker plug = Some k →
  let profiles : gmap string (LoadedProfile W) :=
    <["a" := sharing_profile [Plain plug]]> {["b" := sharing_profile []]} in
  (go_range profiles = [("a", sharing_profile [Plain plug]); ("b", sharing_profile [])] →
   (buildModelSelector profiles s).2 = inl tt) ∧
  (go_range profiles = [("b", sharing_profile []); ("a", sharing_profile [Plain plug])] →
   ∃ e, (buildModelSelector profiles s).2 = inr (ESelector "model-selector" e)) ∧
  (go_range profiles = [("a", sharing_profile [Plain plug]); ("b", sharing_profile [])] ∨
   go_range profiles = [("b", sharing_profile []); ("a", sharing_profile [Plain plug])]).
Proof.
  intros Hs Hf Hsc Hp profiles.
  assert (go_range profiles ≡ₚ [("a", sharing_profile [Plain plug]); ("b", sharing_profile [])]) as Hperm.
  { rewrite go_range_perm. unfold profiles. rewrite map_to_list_insert by done.
    by rewrite map_to_list_singleton. }
  split_and!.
  - intros E. unfold buildModelSelector. rewrite E. simpl. unfold wire. rewrite Hs. simpl.
    unfold AddPlugins. simpl. rewrite Hsc. simpl. rewrite Hp, Hf. simpl. done.
  - intros E. unfold buildModelSelector. rewrite E. simpl. unfold wire. rewrite Hs. simpl.
    unfold AddPlugins. simpl. rewrite Hsc. simpl. rewrite Hp. rewrite lookup_insert_eq. simpl. by eexists.
  - symmetry in Hperm. by apply Permutation_length_2_inv in Hperm.
Qed.

(** ** The default configuration *)

Section default.
Context {W : Type} `{TD : TDigest} `{WW : !World W} `{DS : !Datastore W} `{MO : MapOrder}
  `{RD : !Rand W} `{MP : MathPow} `{PQ : PdqSort} `{SC : !SelectorPlugins.SessionCache W}
  `{FS : Extractors.ModelConfig.Files W} `{JT : JsonText} `{GS : GrpcStatus}.
Context (decode : bytes → PayloadProcessorConfig + goerror).
Context (adapters : W → AdaptersStore) (complete : W → W * option goerror).

Definition default_profile : LoadedProfile W :=
  {| lp_Request := [Direct (BodyFieldToHeader.processor_of
       {| BodyFieldToHeader.typedName := {| Type_ := BodyFieldToHeader.PluginType;
                                            Name := BodyFieldToHeader.PluginType |};
          BodyFieldToHeader.fieldName := "model";
          BodyFieldToHeader.headerName := "X-Gateway-Model-Name" |});
       Direct (BaseModelToHeaderPlugin adapters BaseModelToHeaderPluginType)];
     lp_Response := []; lp_Chunks := []; lp_Buffering := false; lp_Selector := [] |}.

Definition default_config : Config W :=
  {| PreProcessors := [];
     ProfilePicker_of := Some (SingleProfile.SingleProfilePicker SingleProfile.PluginType);
     Profiles := {["default" := default_profile]};
     PostProcessors := []; ResponseHeadersPostProcessors := [] |}.

Definition body_field_plugin : AnyPlugin W :=
  request_plugin {| Type_ := BodyFieldToHeader.PluginType; Name := BodyFieldToHeader.PluginType |}
    (Direct (BodyFieldToHeader.processor_of
       {| BodyFieldToHeader.typedName := {| Type_ := BodyFieldToHeader.PluginType;
                                            Name := BodyFieldToHeader.PluginType |};
          BodyFieldToHeader.fieldName := "model";
          BodyFieldToHeader.headerName := "X-Gateway-Model-Name" |})).

Definition base_model_plugin : AnyPlugin W :=
  request_plugin {| Type_ := BaseModelToHeaderPluginType; Name := BaseModelToHeaderPluginType |}
    (Direct (BaseModelToHeaderPlugin adapters BaseModelToHeaderPluginType)).

Definition registry : Registry W := registerInTreePlugins adapters complete.

(** Looking a type up among the registrations: the last one of the type. *)
Ltac registered :=
  unfold registry, registerInTreePlugins, Register; cbn [foldl fst snd];
  repeat first [apply lookup_insert_eq | rewrite lookup_insert_ne by done].

Lemma registry_body : registry !! BodyFieldToHeader.PluginType = Some BodyFieldToHeaderPluginFactory.
Proof. registered. Qed.

Lemma registry_base :
  registry !! BaseModelToHeaderPluginType = Some (BaseModelToHeaderPluginFactory adapters complete).
Proof. registered. Qed.

Lemma registry_single : registry !! SingleProfile.PluginType = Some SingleProfilePickerFactory.
Proof. registered. Qed.

Lemma body_factory_default s :
  BodyFieldToHeaderPluginFactory BodyFieldToHeader.PluginType default_parameters s =
    Ok (s, inl body_field_plugin).
Proof.
  unfold BodyFieldToHeaderPluginFactory.
  replace (BodyFieldToHeader.Factory BodyFieldToHeader.PluginType default_parameters) with
    (inl {| BodyFieldToHeader.typedName := {| Type_ := BodyFieldToHeader.PluginType;
                                            Name := BodyFieldToHeader.PluginType |};
          BodyFieldToHeader.fieldName := "model";
          BodyFieldToHeader.headerName := "X-Gateway-Model-Name" |} :
       BodyFieldToHeader.Plugin + goerror) by (vm_compute; reflexivity).
  reflexivity.
Qed.

Lemma base_factory name params s :
  (complete (world s)).2 = None →
  ∃ w, BaseModelToHeaderPluginFactory adapters complete name params s =
    Ok ({| plugins := plugins s; pipelines := pipelines s; processor := processor s; world := w |},
        inl (request_plugin {| Type_ := BaseModelToHeaderPluginType; Name := name |}
               (Direct (BaseModelToHeaderPlugin adapters name)))).
Proof.
  unfold BaseModelToHeaderPluginFactory. destruct (complete (world s)) as [w e]. simpl. intros ->.
  by exists w.
Qed.

(** One more plugin. *)
Lemma instantiate_cons names spec specs s factory s1 p :
  spec_Type spec ≠ "" → spec_Name spec ∉ names → registry !! spec_Type spec = Some factory →
  factory (spec_Name spec) (spec_Parameters spec) s = Ok (s1, inl p) →
  instantiate registry names (spec :: specs) s =
    instantiate registry ({[spec_Name spec]} ∪ names) specs (AddPlugin (spec_Name spec) p s1).
Proof.
  intros Ht Hn Hr Hf. cbn [instantiate]. destruct (String.eqb_spec (spec_Type spec) ""); [done|].
  rewrite decide_False by done. by rewrite Hr, Hf.
Qed.

Definition default_plugins : gmap string (AnyPlugin W) :=
  <[BaseModelToHeaderPluginType := base_model_plugin]>
    {[BodyFieldToHeader.PluginType := body_field_plugin]}.

Lemma default_instantiate p w0 :
  (complete w0).2 = None →
  ∃ w1, instantiatePlugins registry
      (cfg_Plugins (applyRawConfigDefaults loadDefaultConfig)) (NewHandle p w0) =
    Ok ({| plugins := default_plugins; pipelines := ∅; processor := p; world := w1 |}, inl tt).
Proof.
  intros Hc. unfold instantiatePlugins. cbn [cfg_Plugins applyRawConfigDefaults loadDefaultConfig fmap list_fmap].
  unfold loadDefaultConfig, applyRawConfigDefaults. cbn [cfg_Plugins fmap list_fmap].
  erewrite instantiate_cons; [|done|apply not_elem_of_empty|exact registry_body
    |exact (body_factory_default _)].
  destruct (base_factory BaseModelToHeaderPluginType []
    (AddPlugin BodyFieldToHeader.PluginType body_field_plugin (NewHandle p w0))) as [w1 Hb]; [exact Hc|].
  exists w1.
  erewrite instantiate_cons; [|done| |exact registry_base|exact Hb]; [reflexivity|].
  simpl. set_solver.
Qed.

Lemma profile_pickers_none (s : Loading W) :
  (∀ n p, plugins s !! n = Some p → as_profile_picker p = None) → profile_pickers s = [].
Proof.
  intros H. unfold profile_pickers, GetAllPlugins.
  assert (Forall (λ np, as_profile_picker np.2 = None) (go_range (plugins s))) as Hf.
  { apply Forall_forall. intros [n p] Hp. apply elem_of_go_range in Hp. by apply (H n). }
  induction Hf as [|[n p] l Hp _ IH]; simpl in *; [done|]. by rewrite Hp.
Qed.

Lemma wire_profiles_direct ps (s : Loading W) :
  Forall (λ p, Forall (λ r, match r with Direct _ => True | Selector _ _ => False end) (lp_Request p)) ps →
  wire_profiles ps s = (s, inl tt).
Proof.
  intros Hps. revert s. induction Hps as [|p ps Hp _ IH]; intros s; simpl; [done|].
  assert (wire_requests (lp_Selector p) (lp_Request p) s = (s, inl tt)) as ->; [|apply IH].
  induction Hp as [|[q|] reqs Hq _ IHr]; simpl; done.
Qed.

Lemma default_applyPluginDefaults p w1 :
  let raw := applyRawConfigDefaults loadDefaultConfig in
  ∃ raw' s2, applyPluginDefaults registry raw
      {| plugins := default_plugins; pipelines := ∅; processor := p; world := w1 |} = Ok (s2, inl raw') ∧
    processor s2 = p ∧ build raw' s2 = inl default_config ∧ cfg_Datalayer raw' = None.
Proof.
  intros raw. unfold applyPluginDefaults.
  assert (has_picker_ref raw = false) as -> by reflexivity.
  rewrite profile_pickers_none.
  2: { intros n q. cbn [plugins]. unfold default_plugins. intros [[<- <-]|[_ [<- <-]%lookup_singleton_Some]]%lookup_insert_Some; done. }
  assert ((length (cfg_Profiles raw) =? 1)%nat = true) as -> by reflexivity.
  unfold registerDefaultPlugin. rewrite registry_single. unfold SingleProfilePickerFactory.
  cbn [mbind res_bind]. unfold GetPlugin at 1. cbn [plugins AddPlugin with_plugins].
  rewrite lookup_insert_eq. cbn [option_bind mbind as_profile_picker].
  eexists _, _. split; [reflexivity|]. split; [reflexivity|]. split; [|reflexivity].
  cbn [cfg_Profiles]. match goal with |- context [build _ ?s] => set (s3 := s) end.
  assert (GetPlugin s3 BodyFieldToHeader.PluginType = Some body_field_plugin) as Hb by reflexivity.
  assert (GetPlugin s3 BaseModelToHeaderPluginType = Some base_model_plugin) as Hm by reflexivity.
  assert (∃ q, GetPlugin s3 SingleProfile.PluginType = Some q ∧
    as_profile_picker q = Some (SingleProfile.SingleProfilePicker SingleProfile.PluginType))
    as (q & Hq & Hk) by (eexists; split; reflexivity).
  clearbody s3. unfold build. cbn [cfg_Profiles cfg_PreProcessing cfg_PostProcessing
    cfg_ProfilePicker with_picker_ref].
  assert (buildProfiles s3 (cfg_Profiles raw) = inl {["default" := default_profile]}) as ->.
  { unfold buildProfiles, raw, applyRawConfigDefaults, loadDefaultConfig. cbn [cfg_Profiles build_profiles].
    unfold buildProfile. cbn [raw_Name raw_Plugins need guard_err mbind result_bind raw_Request
      raw_Response nonempty mapM]. simpl. unfold place_request. cbn [ref_name named].
    rewrite Hb. simpl. rewrite Hm. simpl. reflexivity. }
  cbn. change "single-profile-picker" with SingleProfile.PluginType. unfold GetPlugin in Hq.
  rewrite Hq. simpl. by rewrite Hk.
Qed.

Lemma default_loads p w0 :
  (complete w0).2 = None →
  ∃ s', LoadConfiguration decode registry [] (NewHandle p w0) = Ok (s', inl default_config).
Proof.
  intros Hc. destruct (default_instantiate p w0 Hc) as [w1 Hi].
  destruct (default_applyPluginDefaults p w1) as (raw' & s2 & Ha & _ & Hb & Hd).
  exists s2. unfold LoadConfiguration.
  assert (loadRawConfiguration decode [] = inl (applyRawConfigDefaults loadDefaultConfig)) as -> by reflexivity.
  cbv iota beta. rewrite Hi. cbn [mbind res_bind]. rewrite Ha. cbn [mbind res_bind].
  rewrite Hb, Hd. cbn [buildDatalayerSources]. unfold buildModelSelector. cbn [Profiles default_config].
  rewrite go_range_singleton. rewrite wire_profiles_direct; [done|].
  repeat constructor.
Qed.

(** No method of the default configuration panics. *)
Lemma default_server_calm s' : calm_server (λ _, True) (server_of s' default_config).
Proof.
  assert (Forall (calm_request_plugin (λ _, True)) (RequestPlugins (running_profile s' default_profile)))
    as Hq.
  { repeat constructor; intros w cs rq _; cbn [running ProcessRequest BodyFieldToHeader.processor_of
      BaseModelToHeaderPlugin].
    - unfold BodyFieldToHeader.ProcessRequest. repeat case_match; by eexists _, _, _, _.
    - unfold BaseModelToHeader_ProcessRequest. repeat case_match; by eexists _, _, _, _. }
  split; try by repeat constructor.
  - eexists. split; [reflexivity|]. intros w cs rq _. cbn [PickProfile SingleProfile.SingleProfilePicker].
    unfold SingleProfile.Pick. cbn [server_of profiles WithEventNotifier NewServer Profiles default_config].
    rewrite map_fmap_singleton, go_range_singleton, map_size_singleton.
    eexists _, _, _, _, _. split; [reflexivity|]. split; [done|]. intros _. eexists "default", _.
    split; [reflexivity|]. apply lookup_singleton_eq.
  - intros n p. cbn [server_of profiles WithEventNotifier NewServer Profiles default_config].
    rewrite map_fmap_singleton. intros [_ <-]%lookup_singleton_Some. by split; [exact Hq| |]; constructor.
Qed.

Context (adapters_now : ∀ w, adapters (now w).2 = adapters w)
  (adapters_record : ∀ m w, adapters (record m w) = adapters w).

(** The framework's own steps: same adapters, no events. *)
Definition unobserved (w w' : W) : Prop := adapters w' = adapters w ∧ notified w' = notified w.

Lemma unobserved_now w : unobserved w (now w).2.
Proof using adapters_now. split; [apply adapters_now|apply notified_now]. Qed.

Lemma unobserved_record_since ext tn t w : unobserved w (record_since ext tn t w).
Proof using adapters_now adapters_record.
  split; [|apply notified_record_since]. unfold record_since. pose proof (adapters_now w) as H.
  destruct (now w) as [t' w']. simpl in H. unfold RecordPluginProcessingLatency.
  by rewrite adapters_record.
Qed.

Lemma unobserved_trans w1 w2 w3 : unobserved w1 w2 → unobserved w2 w3 → unobserved w1 w3.
Proof. unfold unobserved. intros [] []. split; congruence. Qed.

(** A plugin that succeeds. *)
Lemma runRequestPlugins_cons q qs w cs rq cs1 rq1 :
  (∀ w', unobserved w w' → ProcessRequest q w' cs rq = Ok (w', cs1, rq1, None)) →
  ∃ w2, runRequestPlugins (q :: qs) w cs rq = runRequestPlugins qs w2 cs1 rq1 ∧ unobserved w w2.
Proof using adapters_now adapters_record.
  intros Hq. pose proof (unobserved_now w) as Hn. simpl. destruct (now w) as [t w1]. simpl in Hn.
  rewrite (Hq w1 Hn). simpl. eexists. split; [reflexivity|].
  eapply unobserved_trans; [exact Hn|apply unobserved_record_since].
Qed.

Lemma body_lookup_SetHeader rq k v f : body_lookup (SetHeader rq k v) f = body_lookup rq f.
Proof. unfold SetHeader. by repeat case_match. Qed.

(** What the two plugins of the default profile do to a request. *)
Lemma default_plugins_run s' (w : W) cs rq name :
  body_lookup rq "model" = Some (AStr name) → name ≠ "" →
  ∃ w', runRequestPlugins (RequestPlugins (running_profile s' default_profile)) w cs rq =
    Ok (w', cs, SetHeader (SetHeader rq "X-Gateway-Model-Name" name)
                  BaseModelHeader (getBaseModel (adapters w) name), None) ∧ unobserved w w'.
Proof using adapters_now adapters_record.
  intros Hb Hne. cbn [running_profile RequestPlugins default_profile lp_Request fmap list_fmap running].
  edestruct runRequestPlugins_cons as (w2 & -> & H2).
  { intros w' _. cbn [BodyFieldToHeader.processor_of ProcessRequest].
    unfold BodyFieldToHeader.ProcessRequest. cbn [BodyFieldToHeader.fieldName].
    rewrite Hb, BodyFieldToHeader.sprintf_v_string. by destruct (String.eqb_spec name ""). }
  edestruct runRequestPlugins_cons as (w3 & -> & H3).
  { intros w' [Ha _]. cbn [BaseModelToHeaderPlugin ProcessRequest].
    unfold BaseModelToHeader_ProcessRequest. rewrite Ha, (proj1 H2).
    rewrite body_lookup_SetHeader. change modelField with "model".
    by rewrite Hb, BodyFieldToHeader.sprintf_v_string. }
  exists w3. split; [reflexivity|]. by eapply unobserved_trans.
Qed.

(** C11: without a configuration file the server loads and routes. The
    built-in configuration loads; and the server it gives answers every request
    whose body names a model, sets [X-Gateway-Model-Name] to that name and
    [X-Gateway-Base-Model-Name] to the base model the adapters store has for
    it, and notifies the data layer of the request once. *)
Theorem default_configuration_routes p w0 :
  (complete w0).2 = None →
  ∃ s' c, LoadConfiguration decode registry [] (NewHandle p w0) = Ok (s', inl c) ∧
    ∀ w ctx body m name,
      json_unmarshal_map body (Body (Request ctx)) = (Some m, false) →
      m !! "model" = Some (AStr name) → name ≠ "" → bodyMutated (Request ctx) = false →
      ∃ w' ctx' rs, HandleRequestBody (server_of s' c) w ctx body = Ok (w', ctx', inl rs) ∧
        Headers (Request ctx') !! "X-Gateway-Model-Name" = Some name ∧
        Headers (Request ctx') !! "X-Gateway-Base-Model-Name" = Some (getBaseModel (adapters w) name) ∧
        notified w' = notified w ++ [RequestEvent (Request ctx') (CycleState_of ctx')].
Proof using adapters_now adapters_record.
  intros Hc. destruct (default_loads p w0 Hc) as [s' Hs]. exists s', default_config. split; [exact Hs|].
  intros w ctx body m name Hj Hm Hne Hmut. unfold HandleRequestBody, prepareRequest. rewrite Hj.
  unfold server_of. cbn [preProcessors WithEventNotifier NewServer PreProcessors default_config fmap list_fmap
    runRequestPlugins mbind res_bind profilePicker ProfilePicker_of SingleProfile.SingleProfilePicker
    PickProfile profiles Profiles].
  unfold SingleProfile.Pick. rewrite map_fmap_singleton, go_range_singleton, map_size_singleton.
  cbn [negb Nat.eqb fmap list_fmap head snd mbind res_bind Profile_of CycleState_of Request
    set_request set_cycle_request set_profile].
  destruct (default_plugins_run s' w (CycleState_of ctx) (with_body (Request ctx) (Some m)) name)
    as (w2 & Hrun & Ha & Hn); [exact Hm|exact Hne|].
  rewrite Hrun. cbn [mbind res_bind]. unfold finishRequest, BodyMutated, notify.
  cbn [Request set_request set_cycle_request set_profile hasNotifier WithEventNotifier NewServer].
  rewrite !bodyMutated_SetHeader. cbn [bodyMutated with_body]. rewrite Hmut. cbn [mbind res_bind].
  match goal with |- context [now ?x] => pose proof (notified_now x) as Hnow; destruct (now x) as [t w3] end.
  eexists _, _, _. split; [reflexivity|]. cbn [Request set_sent set_request set_cycle_request set_profile CycleState_of].
  simpl in Hnow. rewrite Hnow. unfold RecordSuccessCounter. rewrite notified_record, notified_Notify, Hn.
  rewrite !Headers_SetHeader. split_and!; [| |reflexivity].
  - rewrite lookup_insert_ne, lookup_insert_ne, lookup_insert_eq by done. done.
  - rewrite lookup_insert_ne, lookup_insert_eq by done. done.
Qed.
End default.

(** ** Instantiating the plugins *)

Section instantiating.
Context {W : Type} `{TD : TDigest} `{WW : !World W} `{DS : !Datastore W} `{MO : MapOrder}
  `{RD : !Rand W} `{JT : JsonText} `{GS : GrpcStatus}.
Context (decode : bytes → PayloadProcessorConfig + goerror) (registry : Registry W).

(** A property of the state that every registered factory keeps. *)
Definition factories_keep (I : Loading W → Prop) : Prop :=
  ∀ ty f n b s s' r, registry !! ty = Some f → f n b s = Ok (s', r) → I s → I s'.

(** What one entry needs to be instantiated. *)
Definition instantiable (spec : PluginSpec) : Prop :=
  spec_Type spec ≠ "" ∧ is_Some (registry !! spec_Type spec).

Lemma instantiate_inv names spec specs s s' :
  instantiate registry names (spec :: specs) s = Ok (s', inl tt) →
  instantiable spec ∧ spec_Name spec ∉ names ∧
  ∃ f s1 p, registry !! spec_Type spec = Some f ∧
    f (spec_Name spec) (spec_Parameters spec) s = Ok (s1, inl p) ∧
    instantiate registry ({[spec_Name spec]} ∪ names) specs (AddPlugin (spec_Name spec) p s1) =
      Ok (s', inl tt).
Proof.
  cbn [instantiate]. destruct (String.eqb_spec (spec_Type spec) "") as [|Ht]; [done|].
  destruct (decide (spec_Name spec ∈ names)) as [|Hn]; [done|].
  destruct (registry !! spec_Type spec) as [f|] eqn:Hf; [|done].
  intros H. apply mbind_Ok in H as ([s1 [p|e]] & H1 & H2); [|done].
  split; [split; [done|by rewrite Hf]|]. split; [done|]. by exists f, s1, p.
Qed.

Lemma instantiate_ok names specs s s' :
  (∀ ps, factories_keep (λ s, plugins s = ps)) →
  instantiate registry names specs s = Ok (s', inl tt) →
  NoDup (spec_Name <$> specs) ∧ Forall (λ n, n ∉ names) (spec_Name <$> specs) ∧
  Forall instantiable specs ∧
  (∀ n, n ∈ spec_Name <$> specs → is_Some (plugins s' !! n)) ∧
  (∀ n, n ∉ spec_Name <$> specs → plugins s' !! n = plugins s !! n).
Proof.
  intros Hk. revert names s. induction specs as [|spec specs IH]; intros names s.
  - intros [= <-]. split_and!; [apply NoDup_nil_2|apply Forall_nil_2|apply Forall_nil_2| |done].
    intros n Hn. by apply not_elem_of_nil in Hn.
  - intros (Hi & Hn & f & s1 & p & Hf & H1 & H2)%instantiate_inv.
    apply IH in H2 as (N1 & N2 & N3 & N4 & N5).
    assert (plugins s1 = plugins s) as Hs1 by (by eapply (Hk (plugins s))).
    assert (spec_Name spec ∉ spec_Name <$> specs) as Hfresh.
    { intros Hin. rewrite Forall_forall in N2. apply (N2 _ Hin). set_solver. }
    rewrite fmap_cons. split_and!.
    + by apply NoDup_cons_2.
    + apply Forall_cons_2; [done|]. eapply Forall_impl; [exact N2|]. set_solver.
    + by apply Forall_cons_2.
    + intros n [->|Hin]%elem_of_cons; [|auto]. rewrite N5 by done. simpl. by rewrite lookup_insert_eq.
    + intros n [Hne Hin]%not_elem_of_cons. rewrite N5 by done. simpl.
      by rewrite lookup_insert_ne, Hs1 by done.
Qed.

(** A configuration that instantiates has at least one plugin, all with
    distinct names and registered types, and afterwards the handle knows each
    of them and has lost none. *)
Theorem plugins_instantiated_once specs s s' :
  (∀ ps, factories_keep (λ s, plugins s = ps)) →
  instantiatePlugins registry specs s = Ok (s', inl tt) →
  specs ≠ [] ∧ NoDup (spec_Name <$> specs) ∧ Forall instantiable specs ∧
  (∀ n, n ∈ spec_Name <$> specs → is_Some (GetPlugin s' n)) ∧
  (∀ n, n ∉ spec_Name <$> specs → GetPlugin s' n = GetPlugin s n).
Proof.
  intros Hk. destruct specs as [|spec specs]; [done|]. intros H.
  apply instantiate_ok in H as (H1 & _ & H3 & H4 & H5); [|done]. by split_and!.
Qed.

(** *** What loading leaves alone *)

Lemma register_all_frame reg err refs (s : Loading W) :
  plugins (register_all reg err refs s).1 = plugins s ∧
  pipelines (register_all reg err refs s).1 = pipelines s.
Proof.
  revert s. induction refs as [|r refs IH]; intros s; simpl; [done|].
  destruct (GetPlugin s (ref_name r)) as [p|]; [|done]. destruct (reg p) as [f|]; [|done].
  apply (IH (with_processor s (f (processor s)))).
Qed.

Lemma buildDatalayerSources_frame cfg (s : Loading W) :
  plugins (buildDatalayerSources cfg s).1 = plugins s ∧
  pipelines (buildDatalayerSources cfg s).1 = pipelines s.
Proof.
  destruct cfg as [cfg|]; [|done]. unfold buildDatalayerSources.
  match goal with |- context [register_all ?f ?e ?l s] =>
    pose proof (register_all_frame f e l s) as H1; destruct (register_all f e l s) as [s1 [[]|e1]] end;
    [|done]. simpl in H1.
  match goal with |- context [register_all ?f ?e ?l s1] =>
    pose proof (register_all_frame f e l s1) as H2; destruct (register_all f e l s1) as [s2 [[]|e2]] end;
    simpl in *; [|intuition congruence].
  match goal with |- context [register_all ?f ?e ?l s2] =>
    pose proof (register_all_frame f e l s2) as H3 end.
  intuition congruence.
Qed.

Lemma wire_profiles_frame ps (s : Loading W) :
  same_but_pipelines s (wire_profiles ps s).1 ∧
  ∀ r, Forall (λ p, r ∉ refs_of (lp_Request p)) ps →
    pipelines (wire_profiles ps s).1 !! r = pipelines s !! r.
Proof.
  revert s. induction ps as [|p ps IH]; intros s; simpl; [done|].
  destruct (wire_requests_frame (lp_Selector p) (lp_Request p) s) as [(E1 & E2 & E3) Hf].
  destruct (wire_requests _ _ s) as [s1 [[]|e]]; simpl in *.
  - destruct (IH s1) as [(F1 & F2 & F3) Hg]. split; [split_and!; congruence|].
    intros r [Hr Hrs]%Forall_cons. rewrite Hg, Hf; done.
  - split; [done|]. intros r [Hr _]%Forall_cons. auto.
Qed.

(** ** Two configurations that load and then crash *)



(** A configuration with another reference to a profile picker, and what it
    loads as with another profile picker. *)
Definition naming (raw : PayloadProcessorConfig) (r : PluginRef) : PayloadProcessorConfig :=
  {| cfg_Plugins := cfg_Plugins raw; cfg_PreProcessing := cfg_PreProcessing raw;
     cfg_ProfilePicker := Some r; cfg_Profiles := cfg_Profiles raw;
     cfg_PostProcessing := cfg_PostProcessing raw; cfg_Datalayer := cfg_Datalayer raw |}.



Lemma applyRawConfigDefaults_naming raw r :
  applyRawConfigDefaults (naming raw r) = naming (applyRawConfigDefaults raw) r.
Proof. done. Qed.





(** Every pipeline is a new one. *)
Definition all_new (s : Loading W) : Prop :=
  ∀ ref pl, pipelines s !! ref = Some pl → pl = NewModelSelectorPipeline.

(** The factories keep [I] and make plugins that satisfy [P]. *)
Definition factories_make (I : Loading W → Prop) (P : AnyPlugin W → Prop) : Prop :=
  ∀ ty f n b s s' r, registry !! ty = Some f → f n b s = Ok (s', r) → I s →
    I s' ∧ ∀ p, r = inl p → P p.

Lemma instantiate_keeps I P names specs s s' r :
  factories_make I P → (∀ n p s, P p → I s → I (AddPlugin n p s)) → I s →
  instantiate registry names specs s = Ok (s', r) → I s'.
Proof.
  intros Hk Ha. revert names s. induction specs as [|spec specs IH]; intros names s Hs; cbn [instantiate].
  - by intros [= <- _].
  - destruct (String.eqb _ ""); [by intros [= <- _]|]. destruct (decide _); [by intros [= <- _]|].
    destruct (registry !! spec_Type spec) as [f|] eqn:Hf; [|by intros [= <- _]].
    intros H. apply mbind_Ok in H as ([s1 [p|e]] & H1 & H2).
    + destruct (Hk _ _ _ _ _ _ _ Hf H1 Hs) as [Hs1 Hp]. eapply IH; [|exact H2]. by apply Ha; [apply Hp|].
    + injection H2 as <- <-. by eapply Hk.
Qed.

Lemma applyPluginDefaults_keeps I P c s s' r :
  factories_make I P → (∀ n p s, P p → I s → I (AddPlugin n p s)) → I s →
  applyPluginDefaults registry c s = Ok (s', r) → I s'.
Proof.
  intros Hk Ha Hs. unfold applyPluginDefaults. destruct (has_picker_ref c); [by intros [= <- _]|].
  destruct (profile_pickers s) as [|p [|]]; [|by intros [= <- _]..].
  destruct (_ =? 1)%nat; [|by intros [= <- _]]. intros H.
  apply mbind_Ok in H as ([s1 r1] & H1 & H2). assert (I s1) as Hs1.
  { unfold registerDefaultPlugin in H1. destruct (registry !! _) as [f|] eqn:Hf; [|by injection H1 as <- _].
    apply mbind_Ok in H1 as ([s2 [p|e]] & H3 & H4); injection H4 as <- _;
      destruct (Hk _ _ _ _ _ _ _ Hf H3 Hs) as [Hs2 Hp]; [by apply Ha; [apply Hp|]|done]. }
  destruct r1 as [c'|e]; [|by injection H2 as <- _].
  destruct (_ ≫= as_profile_picker); [|done]. by injection H2 as <- _.
Qed.

(** What loading has made before it builds the server. *)
Lemma loading_keeps I P raw c p w0 s1 s2 r :
  factories_make I P → (∀ n q s, P q → I s → I (AddPlugin n q s)) → I (NewHandle p w0) →
  instantiatePlugins registry (cfg_Plugins raw) (NewHandle p w0) = Ok (s1, inl tt) →
  applyPluginDefaults registry c s1 = Ok (s2, r) → I s2.
Proof.
  intros Hk Ha H0 Hi. eapply applyPluginDefaults_keeps; [exact Hk|exact Ha|].
  unfold instantiatePlugins in Hi. destruct (cfg_Plugins raw) as [|spec specs]; [done|].
  by eapply instantiate_keeps.
Qed.

(** A pipeline without a picker panics on the first request. *)
Lemma unwired_panics w cs rq :
  GetModels AllModelsPredicate w ≠ [] →
  ModelSelector_ProcessRequest (NewModelSelectorPipeline (W := W)) w cs rq = Panic "nil Picker".
Proof.
  intros Hm. unfold ModelSelector_ProcessRequest. destruct (GetModels AllModelsPredicate w) as [|p ms]; [done|].
  unfold Select. destruct (now w) as [t w1]. done.
Qed.

(** A model selector among the pre-processors crashes. The loader gives a
    pipeline its plugins and its picker only when a profile lists the model
    selector; one that only [preProcessing] lists loads without an error, and
    every request with a JSON body panics once the store has a model. *)
Theorem preprocessing_selector_crashes bytes p w0 s' c name ref rest :
  factories_keep all_new →
  LoadConfiguration decode registry bytes (NewHandle p w0) = Ok (s', inl c) →
  PreProcessors c = Selector name ref :: rest →
  (∀ n q, Profiles c !! n = Some q → ref ∉ refs_of (lp_Request q)) →
  ∀ w ctx body m, json_unmarshal_map body (Body (Request ctx)) = (Some m, false) →
    GetModels AllModelsPredicate (now w).2 ≠ [] →
    ∃ why, HandleRequestBody (server_of s' c) w ctx body = Panic why.
Proof.
  intros Hk (raw & raw' & s1 & s2 & s3 & _ & Hi & Ha & _ & Hd & Hw)%LoadConfiguration_inv Hpre Href
    w ctx body m Hj Hm.
  assert (all_new s2) as Hnew.
  { eapply (loading_keeps all_new (λ _, True)); [|done| |exact Hi|exact Ha].
    - intros ty f n b s s1' r Hf E Hs. by split; [eapply Hk|].
    - intros r pl Hpl. simpl in Hpl. by rewrite lookup_empty in Hpl. }
  assert (pipelines s' !! ref = pipelines s2 !! ref) as Hpl.
  { unfold buildModelSelector in Hw.
    destruct (wire_profiles_frame (go_range (Profiles c)).*2 s3) as [_ E]. rewrite Hw in E. simpl in E.
    rewrite E.
    - destruct (buildDatalayerSources_frame (cfg_Datalayer raw') s2) as [_ E']. rewrite Hd in E'. by rewrite <- E'.
    - apply Forall_forall. intros q ([n q'] & -> & Hq)%list_elem_of_fmap. apply elem_of_go_range in Hq.
      by eapply Href. }
  assert (default NewModelSelectorPipeline (pipelines s' !! ref) = NewModelSelectorPipeline) as Hdef.
  { rewrite Hpl. destruct (pipelines s2 !! ref) eqn:E; [|done]. by eapply Hnew. }
  exists "nil Picker". unfold HandleRequestBody, prepareRequest. rewrite Hj. unfold server_of.
  cbn [preProcessors WithEventNotifier NewServer]. rewrite Hpre.
  cbn [fmap list_fmap running runRequestPlugins ModelSelectorPlugin ProcessRequest]. rewrite Hdef.
  destruct (now w) as [t w1]. simpl in Hm. by rewrite unwired_panics.
Qed.
End instantiating.

(** ** The in-tree factories *)

Section in_tree.
Context {W : Type} `{TD : TDigest} `{WW : !World W} `{DS : !Datastore W} `{MO : MapOrder}
  `{RD : !Rand W} `{MP : MathPow} `{PQ : PdqSort} `{SC : !SelectorPlugins.SessionCache W}
  `{FS : Extractors.ModelConfig.Files W}.
Context (adapters : W → AdaptersStore) (complete : W → W * option goerror).

(** What holds of every registered factory. *)
Lemma registered_all (P : FactoryFunc W → Prop) l (r : Registry W) :
  map_Forall (λ _, P) r → Forall (λ tf, P tf.2) l →
  map_Forall (λ _, P) (foldl (λ r tf, Register tf.1 tf.2 r) r l).
Proof.
  intros Hr Hl. revert r Hr. induction Hl as [|[ty f] l Hf Hl IH]; intros r Hr; simpl; [done|].
  apply IH. by apply map_Forall_insert_2.
Qed.

(** A factory leaves the handle's plugins to the loader and, unless it makes a
    model selector, the pipelines as they are. *)
Definition quiet_factory (f : FactoryFunc W) : Prop := ∀ n b s s' r,
  f n b s = Ok (s', r) →
  plugins s' = plugins s ∧
  (pipelines s' = pipelines s ∨
   ∃ ref, pipelines s' = <[ref := NewModelSelectorPipeline]> (pipelines s)).

Lemma in_tree_quiet ty f :
  registerInTreePlugins adapters complete !! ty = Some f → quiet_factory f.
Proof.
  revert ty f. apply (registered_all quiet_factory); [apply map_Forall_empty|].
  repeat (apply Forall_cons_2); try apply Forall_nil_2; intros n b s s' r H; simpl in H.
  all: try (injection H as <- _; split; [done|by left]).
  - unfold BaseModelToHeaderPluginFactory in H. destruct (complete (world s)).
    injection H as <- _. split; [done|by left].
  - injection H as <- _. split; [done|]. right. by eexists.
Qed.

(** They leave the handle's plugins to the loader. *)
Lemma in_tree_keep_plugins ps :
  factories_keep (registerInTreePlugins adapters complete) (λ s, plugins s = ps).
Proof.
  intros ty f n b s s' r Hf H Hs. apply (in_tree_quiet ty f Hf) in H as [-> _]. done.
Qed.

(** They create new pipelines only. *)
Lemma in_tree_all_new : factories_keep (registerInTreePlugins adapters complete) all_new.
Proof.
  intros ty f n b s s' r Hf H Hs ref pl. apply (in_tree_quiet ty f Hf) in H as [_ [->|[ref' ->]]];
    [apply Hs|]. intros [[_ <-]|[_ Hl]]%lookup_insert_Some; [done|by eapply Hs].
Qed.
End in_tree.
