(* ===== verification/Options.v ===== *)
(** pkg/server/options.go and pkg/common/observability/logging: the command
    line options, their validation, and the log level they set. The flag
    parser (spf13/pflag) and zap are libraries: parsing is an assignment of
    values to the bound flags, and the level is the number zap is given. *)

From Stdlib Require Import Strings.Ascii String.
From S2P Require Import Prelude GoFloat GoValue Envoy.

Local Open Scope string_scope.
Local Open Scope list_scope.

(** A double quote, and [%q] of a name without special characters. *)
Definition dq : string := String (ascii_of_nat 34) "".
Definition quoted (s : string) : string := dq +:+ s +:+ dq.

(** ** Logging *)

(** A flag bound to a field: its name and the default it shows. *)
Inductive Flag : Type :=
| IntVar (name : string) (value : Z)
| BoolVar (name : string) (value : bool)
| StringVar (name : string) (value : string).

Definition flag_name (f : Flag) : string :=
  match f with IntVar n _ | BoolVar n _ | StringVar n _ => n end.

Module Logging.

Definition DEFAULT : Z := 2.
Definition VERBOSE : Z := 3.
Definition DEBUG : Z := 4.
Definition TRACE : Z := 5.

Definition ZapLogLevelFlagName : string := "zap-log-level".

(** The conversion [int8(z)]. *)
Definition wrap8 (z : Z) : Z := (z + 128) `mod` 256 - 128.

(** [ZapLevel] is the level set in [ZapOptions], if any; [zapChanged] is the
    [Changed] field of the zap-log-level flag, [None] when there is no such
    flag. *)
Record LoggingOptions :=
  { LogVerbosity : Z; ZapLevel : option Z; zapChanged : option bool }.

Definition NewOptions : LoggingOptions :=
  {| LogVerbosity := DEFAULT; ZapLevel := None; zapChanged := None |}.

(** On a flag set that has the flags [fs], with the flags [zap] that zap binds;
    a set that has zap's level flag has it unchanged. *)
Definition AddFlags (zap fs : list Flag) (opts : LoggingOptions) : LoggingOptions * list Flag :=
  let fs := fs ++ [IntVar "v" (LogVerbosity opts)] ++ zap in
  ({| LogVerbosity := LogVerbosity opts; ZapLevel := ZapLevel opts;
      zapChanged := if decide (ZapLogLevelFlagName ∈ (flag_name <$> fs))
                    then Some false else None |}, fs).

(** Derives the level from the verbosity unless the flag gave one. *)
Definition Complete (opts : LoggingOptions) : LoggingOptions :=
  match zapChanged opts with
  | Some false =>
      let lvl := wrap64 (-1 * LogVerbosity opts) in
      {| LogVerbosity := LogVerbosity opts; ZapLevel := Some (wrap8 lvl); zapChanged := Some true |}
  | _ => opts
  end.

Definition Validate (opts : LoggingOptions) : LoggingOptions :=
  if (LogVerbosity opts <? 0)%Z
  then {| LogVerbosity := DEFAULT; ZapLevel := ZapLevel opts; zapChanged := zapChanged opts |}
  else opts.

(** The level of all loggers, from the start and after [InitLogging]: the level
    the options were given, if any. *)
Definition atomicLevel : Z := 0.

Definition InitLogging (level : option Z) (atomicLevel : Z) : Z := default atomicLevel level.

(** Whether zap writes a message of verbosity [n]: the level of [V(n)] is [-n]. *)
Definition logs (level n : Z) : bool := (level <=? - n)%Z.

(** How a level is printed; zap prints the levels from 0. *)
Definition customLevelEncoder (LowercaseLevelEncoder : Z → string) (l : Z) : string :=
  if (0 <=? l)%Z then LowercaseLevelEncoder l
  else if (l =? wrap8 (-1 * DEBUG))%Z then "debug"
  else if (l =? wrap8 (-1 * TRACE))%Z then "trace"
  else if (wrap8 (-1 * VERBOSE) <=? l)%Z then "info"
  else "trace".

(** A logger as it is configured: in development mode or not, with the level
    that all share or one of its own, noting the caller or not, and with zap's
    encoder of that mode or a JSON encoder that prints levels in this way. *)
Inductive level_ref : Type := SharedLevel | OwnLevel (l : Z).

Record Logger :=
  { UseDevMode : bool; Level : level_ref; AddCaller : bool;
    JSONEncoder : option ((Z → string) → Z → string) }.

Definition setup_logger : Logger :=
  {| UseDevMode := false; Level := SharedLevel; AddCaller := true;
     JSONEncoder := Some customLevelEncoder |}.

(** Hands it to the controller runtime, whose loggers delegate to it. *)
Definition InitSetupLogging {R} (SetLogger : Logger → R → R) (root : R) : R :=
  SetLogger setup_logger root.

Definition NewTestLogger : Logger :=
  {| UseDevMode := true; Level := OwnLevel (wrap8 (-1 * TRACE)); AddCaller := true;
     JSONEncoder := None |}.

Definition NewTestLoggerIntoContext {C} (IntoContext : C → Logger → C) (ctx : C) : C :=
  IntoContext ctx NewTestLogger.

(** Whether a logger writes messages of verbosity [n], when the shared level is
    [shared]. *)
Definition writes (shared : Z) (lg : Logger) (n : Z) : bool :=
  logs (match Level lg with SharedLevel => shared | OwnLevel l => l end) n.

(** Setting the shared level reaches the logger that exists already, and not the
    loggers of tests, which write up to TRACE. *)
Lemma writes_after_InitLogging level shared n :
  writes (InitLogging level shared) setup_logger n = logs (default shared level) n ∧
  writes (InitLogging level shared) NewTestLogger n = (n <=? TRACE)%Z.
Proof.
  split; [done|]. unfold writes, logs. simpl. change (wrap8 _) with (-5)%Z. unfold TRACE.
  destruct (Z.leb_spec (-5) (- n)), (Z.leb_spec n 5); lia.
Qed.

(** What is printed for a message of verbosity [n]. *)
Lemma printed_verbosity LowercaseLevelEncoder n :
  (1 ≤ n ≤ 128)%Z →
  customLevelEncoder LowercaseLevelEncoder (- n) =
    if (n <=? VERBOSE)%Z then "info" else if (n =? DEBUG)%Z then "debug" else "trace".
Proof.
  intros Hn. unfold customLevelEncoder. change (wrap8 (-1 * DEBUG)) with (-4)%Z.
  change (wrap8 (-1 * TRACE)) with (-5)%Z. change (wrap8 (-1 * VERBOSE)) with (-3)%Z.
  unfold VERBOSE, DEBUG.
  destruct (Z.leb_spec 0 (- n)); [lia|]. destruct (Z.eqb_spec (- n) (-4)), (Z.eqb_spec (- n) (-5)),
    (Z.leb_spec (-3) (- n)), (Z.leb_spec n 3), (Z.eqb_spec n 4); (done || lia).
Qed.

End Logging.

(** ** The server's options *)

Definition DefaultGrpcPort : Z := 9004.
Definition DefaultGrpcHealthPort : Z := 9005.

Record Options :=
  { GRPCPort : Z; LoggingOptions_of : Logging.LoggingOptions; Tracing : bool; MetricsPort : Z;
    GRPCHealthPort : Z; EnablePprof : bool; SecureServing : bool; MetricsEndpointAuth : bool;
    ConfigFile : string; ConfigText : string }.

Definition NewOptions : Options :=
  {| GRPCPort := DefaultGrpcPort; LoggingOptions_of := Logging.NewOptions; Tracing := true;
     MetricsPort := 9090; GRPCHealthPort := DefaultGrpcHealthPort; EnablePprof := true;
     SecureServing := true; MetricsEndpointAuth := true; ConfigFile := ""; ConfigText := "" |}.

Definition with_logging (o : Options) (l : Logging.LoggingOptions) : Options :=
  {| GRPCPort := GRPCPort o; LoggingOptions_of := l; Tracing := Tracing o;
     MetricsPort := MetricsPort o; GRPCHealthPort := GRPCHealthPort o;
     EnablePprof := EnablePprof o; SecureServing := SecureServing o;
     MetricsEndpointAuth := MetricsEndpointAuth o; ConfigFile := ConfigFile o;
     ConfigText := ConfigText o |}.

(** The flags [AddFlags] binds, in its order, with the defaults they take from
    the options; the usage texts are left out, and [zap] are the flags zap
    binds itself. *)
Definition AddFlags (zap : list Flag) (o : Options) : Options * list Flag :=
  let fs :=
    [IntVar "grpc-port" (GRPCPort o); IntVar "grpc-health-port" (GRPCHealthPort o);
     IntVar "metrics-port" (MetricsPort o); BoolVar "tracing" (Tracing o);
     BoolVar "metrics-endpoint-auth" (MetricsEndpointAuth o);
     BoolVar "secure-serving" (SecureServing o); BoolVar "enable-pprof" (EnablePprof o);
     StringVar "config-file" (ConfigFile o); StringVar "config-text" (ConfigText o)] in
  let '(l, fs) := Logging.AddFlags zap fs (LoggingOptions_of o) in
  (with_logging o l, fs).

Definition Complete (o : Options) : Options :=
  with_logging o (Logging.Complete (LoggingOptions_of o)).

Definition out_of_range (port : Z) : bool := ((port <? 1) || (65535 <? port))%Z.

Definition bad_port (name : string) (port : Z) : goerror :=
  ENew ("invalid value " +:+ itoa port +:+ " for flag " +:+ quoted name
        +:+ ": must be between 1 and 65535").

(** The ports in the order they are validated. *)
Definition ports (o : Options) : list (string * Z) :=
  [("grpc-port", GRPCPort o); ("grpc-health-port", GRPCHealthPort o);
   ("metrics-port", MetricsPort o)].

(** Validating also corrects the logging options. *)
Definition Validate (o : Options) : Options * option goerror :=
  match List.find (λ pc, out_of_range pc.2) (ports o) with
  | Some (name, port) => (o, Some (bad_port name port))
  | None =>
      let ports : gmap Z string :=
        <[MetricsPort o := "metrics-port"]>
          (<[GRPCHealthPort o := "grpc-health-port"]> {[GRPCPort o := "grpc-port"]}) in
      if (size ports <? 3)%nat then
        (o, Some (ENew ("port conflict: grpc-port (" +:+ itoa (GRPCPort o)
               +:+ "), grpc-health-port (" +:+ itoa (GRPCHealthPort o)
               +:+ "), and metrics-port (" +:+ itoa (MetricsPort o)
               +:+ ") must all be different")))
      else (with_logging o (Logging.Validate (LoggingOptions_of o)), None)
  end.

(** ** What validation accepts *)

Definition valid_ports (o : Options) : Prop :=
  Forall (λ pc, 1 ≤ pc.2 ≤ 65535)%Z (ports o) ∧ NoDup (ports o).*2.

Lemma out_of_range_spec port : out_of_range port = false ↔ (1 ≤ port ≤ 65535)%Z.
Proof. unfold out_of_range. rewrite orb_false_iff, !Z.ltb_ge. lia. Qed.

Lemma find_none {A} (f : A → bool) l : List.find f l = None ↔ Forall (λ x, f x = false) l.
Proof.
  induction l as [|x l IH]; simpl; [by split; [constructor|]|].
  destruct (f x) eqn:E; rewrite Forall_cons; [naive_solver congruence|]. rewrite <- IH. tauto.
Qed.

Lemma find_first {A} (f : A → bool) l x :
  List.find f l = Some x →
  ∃ pre post, l = pre ++ x :: post ∧ Forall (λ y, f y = false) pre ∧ f x = true.
Proof.
  induction l as [|y l IH]; simpl; [done|]. destruct (f y) eqn:E.
  - intros [= <-]. exists [], l. by split_and!; [|constructor|].
  - intros (pre & post & -> & Hpre & Hx)%IH. exists (y :: pre), post.
    by split_and!; [|constructor|].
Qed.

Lemma in_range_ports l :
  Forall (λ pc : string * Z, out_of_range pc.2 = false) l ↔ Forall (λ pc, 1 ≤ pc.2 ≤ 65535)%Z l.
Proof. apply Forall_proper; [intros pc; apply out_of_range_spec|done]. Qed.

Lemma three_ports (a b c : Z) :
  (size (<[c := "metrics-port"]> (<[b := "grpc-health-port"]> {[a := "grpc-port"]})
     : gmap Z string) <? 3)%nat = false ↔ NoDup [a; b; c].
Proof.
  rewrite !map_size_insert, map_size_singleton, lookup_insert, !lookup_singleton.
  repeat case_decide; simplify_eq/=; rewrite !NoDup_cons, !list_elem_of_In; simpl;
    split; try done; naive_solver constructor.
Qed.

(** Validation accepts exactly the options whose three ports are in the
    range 1 to 65535 and distinct, and then changes at most the logging
    verbosity; otherwise it changes nothing and its error names the first port
    out of range, or the conflict. *)
Theorem options_validate_iff o o' err :
  Validate o = (o', err) →
  (err = None ↔ valid_ports o) ∧
  match err with
  | None => o' = with_logging o (LoggingOptions_of o') ∧
            (0 ≤ Logging.LogVerbosity (LoggingOptions_of o'))%Z
  | Some e => o' = o ∧
      (if decide (Forall (λ pc, 1 ≤ pc.2 ≤ 65535)%Z (ports o))
       then ¬ NoDup (ports o).*2
       else ∃ name port pre post, ports o = pre ++ (name, port) :: post ∧
              Forall (λ pc, 1 ≤ pc.2 ≤ 65535)%Z pre ∧ ¬ (1 ≤ port ≤ 65535)%Z ∧
              e = bad_port name port)
  end.
Proof.
  unfold Validate, valid_ports. destruct (List.find _ (ports o)) as [[name port]|] eqn:Ef.
  - apply find_first in Ef as (pre & post & El & Hpre & Hout). intros [= <- <-].
    assert (¬ (1 ≤ port ≤ 65535)%Z) as Hport
      by (rewrite <- out_of_range_spec; simpl in Hout; congruence).
    assert (¬ Forall (λ pc, 1 ≤ pc.2 ≤ 65535)%Z (ports o)) as Hno
      by (rewrite El, Forall_app, Forall_cons; simpl; tauto).
    split; [naive_solver|]. split; [done|]. rewrite decide_False by done.
    exists name, port, pre, post. by rewrite <- in_range_ports.
  - apply find_none, in_range_ports in Ef.
    pose proof (three_ports (GRPCPort o) (GRPCHealthPort o) (MetricsPort o)) as Hports.
    destruct (_ <? 3)%nat; intros [= <- <-].
    + assert (¬ NoDup (ports o).*2) as Hno by (intros H; discriminate (proj2 Hports H)).
      split; [naive_solver|]. split; [done|]. by rewrite decide_True.
    + apply proj1 in Hports. specialize (Hports eq_refl). split; [done|]. split; [done|]. simpl.
      unfold Logging.Validate. by destruct (Z.ltb_spec (Logging.LogVerbosity (LoggingOptions_of o)) 0).
Qed.

(** Which log level a verbosity gives. At start-up the options are
    completed and validated, and set the level of the loggers. With a verbosity
    from 0 to 128 exactly the messages [V(n)] up to it are logged. A negative
    one is corrected to the default by validation, but the level derived from it
    stays and no such message is logged; and from 129 to 255 the 8-bit level
    wraps around to a positive one, and none is logged either. *)
Theorem log_level_of_verbosity o o' :
  Logging.zapChanged (LoggingOptions_of o) = Some false →
  Validate (Complete o) = (o', None) →
  let v := Logging.LogVerbosity (LoggingOptions_of o) in
  let l' := LoggingOptions_of o' in
  let level := Logging.InitLogging (Logging.ZapLevel l') Logging.atomicLevel in
  ((0 ≤ v ≤ 128)%Z → Logging.LogVerbosity l' = v ∧
     ∀ n, (0 ≤ n ≤ 128)%Z → Logging.logs level n = (n <=? v)%Z) ∧
  ((-127 ≤ v < 0)%Z → Logging.LogVerbosity l' = Logging.DEFAULT ∧
     ∀ n, (0 ≤ n ≤ 128)%Z → Logging.logs level n = false) ∧
  ((129 ≤ v ≤ 255)%Z → ∀ n, (0 ≤ n ≤ 128)%Z → Logging.logs level n = false).
Proof.
  intros Hz H v l' level. subst level. assert (l' = Logging.Validate (Logging.Complete (LoggingOptions_of o))) as ->.
  { subst l'. unfold Validate in H. destruct (List.find _ _) as [[]|]; [done|].
    destruct (_ <? 3)%nat; [done|]. by injection H as <-. }
  unfold Logging.Complete. rewrite Hz. unfold Logging.Validate.
  cbn -[wrap64 Z.mul Logging.wrap8 Z.ltb]. fold v. replace (-1 * v)%Z with (- v)%Z by lia.
  assert ((-127 ≤ v ≤ 255)%Z → wrap64 (- v) = - v)%Z as Hw
    by (intros; apply wrap64_small; unfold in_int64, min_int64, max_int64, two63; lia).
  assert (∀ z, (-128 ≤ z ≤ 127)%Z → Logging.wrap8 z = z) as H8
    by (intros z Hr; unfold Logging.wrap8; rewrite Z.mod_small; lia).
  split_and!; intros Hv; rewrite Hw by lia.
  - rewrite (proj2 (Z.ltb_ge v 0)) by lia. simpl. rewrite H8 by lia. split; [done|].
    intros n Hn. unfold Logging.logs. destruct (Z.leb_spec (- v) (- n)), (Z.leb_spec n v); lia.
  - rewrite (proj2 (Z.ltb_lt v 0)) by lia. simpl. rewrite H8 by lia. split; [done|].
    intros n Hn. apply Z.leb_gt. lia.
  - rewrite (proj2 (Z.ltb_ge v 0)) by lia. simpl. intros n Hn. apply Z.leb_gt.
    unfold Logging.wrap8. rewrite <- (Z.mod_add (- v + 128) 1 256), Z.mod_small by lia. lia.
Qed.

(** ** Concrete runs *)

Definition started_with (v : Z) : Options :=
  with_logging NewOptions {| Logging.LogVerbosity := v; Logging.ZapLevel := None;
                             Logging.zapChanged := Some false |}.

Lemma options_validate_iff_witness :
  (@None goerror = None ↔ valid_ports NewOptions) ∧
  NewOptions = with_logging NewOptions (LoggingOptions_of NewOptions) ∧
  (0 ≤ Logging.LogVerbosity (LoggingOptions_of NewOptions))%Z.
Proof. exact (options_validate_iff NewOptions NewOptions None eq_refl). Defined.

Lemma log_level_of_verbosity_witness :
  let l' := LoggingOptions_of (Validate (Complete (started_with (-3)))).1 in
  Logging.LogVerbosity l' = Logging.DEFAULT ∧
  ∀ n, (0 ≤ n ≤ 128)%Z →
    Logging.logs (Logging.InitLogging (Logging.ZapLevel l') Logging.atomicLevel) n = false.
Proof.
  refine (proj1 (proj2 (log_level_of_verbosity (started_with (-3)) _ eq_refl
    (surjective_pairing _))) _). split; [discriminate|reflexivity].
Defined.
