(* ===== verification/Serving.v ===== *)
(** What the manager runs: the ext_proc server's runnable (pkg/server/runserver.go),
    the self-signed certificate it serves with (internal/tls), the gRPC runnable
    and its shutdown goroutine (internal/runnable), the health service
    (cmd/runner/health.go), and the settings of tracing and profiling
    (pkg/common/observability). The libraries - gRPC, crypto, OpenTelemetry, the
    manager - are parameters: what their calls return. *)

From Stdlib Require Import String.
From S2P Require Import Prelude GoFloat GoValue Envoy Message World Handlers.

Local Open Scope string_scope.
Local Open Scope list_scope.

(** ** internal/tls *)

Record Template := {
  SerialNumber : Z; Organization : list string; NotBefore : Z; NotAfter : Z;
  KeyUsage : Z; ExtKeyUsage : list Z; BasicConstraintsValid : bool }.

(** The bits and the constant of crypto/x509. *)
Definition KeyUsageDigitalSignature : Z := 1.
Definition KeyUsageKeyEncipherment : Z := 4.
Definition ExtKeyUsageServerAuth : Z := 1.

Definition hour : Z := 3600 * 1000000000.

(** [randInt] draws below its argument; [pem] encodes a block of a type. *)
Definition CreateSelfSignedTLSCertificate {Key Cert : Type}
    (randInt : Z → Z + string) (now : Z) (GenerateKey : Z → Key + string)
    (CreateCertificate : Template → Key → bytes + string)
    (MarshalPKCS8PrivateKey : Key → bytes + string) (pem : string → bytes → bytes)
    (X509KeyPair : bytes → bytes → Cert + goerror) : Cert + goerror :=
  match randInt (2 ^ 128)%Z with
  | inr err => inr (ENew ("error creating serial number: " +:+ err))
  | inl serialNumber =>
      let template := {| SerialNumber := serialNumber; Organization := ["Inference Ext"];
                         NotBefore := now; NotAfter := (now + hour * 24 * 365 * 10)%Z;
                         KeyUsage := Z.lor KeyUsageKeyEncipherment KeyUsageDigitalSignature;
                         ExtKeyUsage := [ExtKeyUsageServerAuth];
                         BasicConstraintsValid := true |} in
      match GenerateKey 4096%Z with
      | inr err => inr (ENew ("error generating key: " +:+ err))
      | inl priv =>
          match CreateCertificate template priv with
          | inr err => inr (ENew ("error creating certificate: " +:+ err))
          | inl derBytes =>
              match MarshalPKCS8PrivateKey priv with
              | inr err => inr (ENew ("error marshalling private key: " +:+ err))
              | inl privBytes =>
                  X509KeyPair (pem "CERTIFICATE" derBytes) (pem "PRIVATE KEY" privBytes)
              end
          end
      end
  end.

(** ** internal/runnable: the gRPC runnable *)

Module GrpcRunnable.

(** What [srv.Serve] returns. *)
Inductive served : Type :=
| ServedNil
| ServedStopped
| ServedErr (err : goerror).

(** [Start] and its goroutine: before listening, serving, returned; and not
    started, in the select, in [GracefulStop], gone. *)
Inductive main_phase : Type :=
| Starting
| InServe
| Returned (r : option goerror).

Inductive watcher_phase : Type := NotStarted | Selecting | Stopping | Gone.

Record State := {
  main : main_phase; watcher : watcher_phase; ctxDone : bool; doneCh : bool; stops : nat }.

Definition init : State :=
  {| main := Starting; watcher := NotStarted; ctxDone := false; doneCh := false; stops := 0 |}.

Inductive action : Type :=
| AContextDone
| AListen (err : option goerror)
| AServe (r : served)
| AStop
| AStopped
| ADone.

Definition result_of (r : served) : option goerror :=
  match r with
  | ServedNil | ServedStopped => None
  | ServedErr err => Some (EWrap "gRPC server failed - " err)
  end.

(** [AStop] and [ADone] are the two cases of the goroutine's select; the
    deferred [close(doneCh)] runs as [Start] returns. *)
Definition step (st : State) (a : action) : option State :=
  match a with
  | AContextDone =>
      Some {| main := main st; watcher := watcher st; ctxDone := true; doneCh := doneCh st;
              stops := stops st |}
  | AListen (Some err) =>
      match main st with
      | Starting => Some {| main := Returned (Some (EWrap "gRPC server failed to listen - " err));
                            watcher := watcher st; ctxDone := ctxDone st; doneCh := doneCh st;
                            stops := stops st |}
      | _ => None
      end
  | AListen None =>
      match main st with
      | Starting => Some {| main := InServe; watcher := Selecting; ctxDone := ctxDone st;
                            doneCh := doneCh st; stops := stops st |}
      | _ => None
      end
  | AServe r =>
      match main st with
      | InServe => Some {| main := Returned (result_of r); watcher := watcher st;
                           ctxDone := ctxDone st; doneCh := true; stops := stops st |}
      | _ => None
      end
  | AStop =>
      match watcher st, ctxDone st with
      | Selecting, true => Some {| main := main st; watcher := Stopping; ctxDone := true;
                                   doneCh := doneCh st; stops := S (stops st) |}
      | _, _ => None
      end
  | AStopped =>
      match watcher st with
      | Stopping => Some {| main := main st; watcher := Gone; ctxDone := ctxDone st;
                            doneCh := doneCh st; stops := stops st |}
      | _ => None
      end
  | ADone =>
      match watcher st, doneCh st with
      | Selecting, true => Some {| main := main st; watcher := Gone; ctxDone := ctxDone st;
                                   doneCh := true; stops := stops st |}
      | _, _ => None
      end
  end.

Inductive reachable : State → Prop :=
| reach_init : reachable init
| reach_step st a st' : reachable st → step st a = Some st' → reachable st'.

(** The goroutine's own steps, and how many it can still take. *)
Definition by_watcher (a : action) : bool :=
  match a with AStop | AStopped | ADone => true | _ => false end.

Definition left_of (st : State) : nat :=
  match watcher st with Selecting => 2 | Stopping => 1 | NotStarted | Gone => 0 end%nat.

Record inv (st : State) : Prop := {
  inv_start : main st = Starting → watcher st = NotStarted;
  inv_done : watcher st ≠ NotStarted → main st ≠ InServe → doneCh st = true;
  inv_stops : stops st = (match watcher st with NotStarted | Selecting => 0 | _ => stops st end)%nat;
  inv_once : (stops st ≤ 1)%nat;
  inv_ctx : (0 < stops st)%nat → ctxDone st = true }.

Lemma inv_reachable st : reachable st → inv st.
Proof.
  induction 1 as [|st a st' _ [H1 H2 H3 H4 H5] Hst]; [by split; simpl; try lia|].
  destruct st as [m wt cd dc sp]; simpl in *.
  destruct a as [|[err|]|r| | |]; simpl in Hst; repeat (case_match; simplify_eq/=; try done);
    split; simpl in *; try done; try lia; naive_solver lia.
Qed.

(** C34: the shutdown goroutine does not leak. Whatever the order in which the
    listener, the server, the context and the goroutine proceed (a
    [GracefulStop] that was called returns at some time):
    [GracefulStop] is called at most once, and only after the context is done;
    every step the goroutine takes brings it nearer to its end; and once
    [Start] has returned, the goroutine was never started, is gone, or can
    take its next step without waiting for the context. *)
Theorem goroutine_terminates st :
  reachable st →
  (stops st ≤ 1)%nat ∧ ((0 < stops st)%nat → ctxDone st = true) ∧
  (∀ a st', by_watcher a = true → step st a = Some st' → (left_of st' < left_of st)%nat) ∧
  (∀ r, main st = Returned r →
     watcher st = NotStarted ∨ watcher st = Gone ∨
     ∃ a st', by_watcher a = true ∧ step st a = Some st').
Proof.
  intros [H1 H2 H3 H4 H5]%inv_reachable. split; [done|]. split; [done|]. split.
  - intros a st' Ha Hst. unfold left_of.
    destruct a as [|[|]|r| | |]; try done; simpl in Hst; repeat (case_match; simplify_eq/=; try done); lia.
  - intros r Hr. destruct (watcher st) eqn:Ew; [by left| | |by right; left].
    + right; right. exists ADone. simpl. rewrite Ew, H2; [by eexists|done|by rewrite Hr].
    + right; right. exists AStopped. simpl. rewrite Ew. by eexists.
Qed.

Lemma goroutine_terminates_witness :
  ∃ st, watcher st = Selecting ∧ main st = Returned None ∧
    ∃ a st', by_watcher a = true ∧ step st a = Some st'.
Proof.
  set (st := {| main := Returned None; watcher := Selecting; ctxDone := false; doneCh := true; stops := 0 |}).
  assert (reachable st) as Hr.
  { apply (reach_step {| main := InServe; watcher := Selecting; ctxDone := false; doneCh := false; stops := 0 |}
      (AServe ServedStopped)); [|reflexivity].
    apply (reach_step init (AListen None)); [constructor|reflexivity]. }
  exists st. split; [reflexivity|]. split; [reflexivity|].
  destruct (goroutine_terminates st Hr) as (_ & _ & _ & H).
  destruct (H None eq_refl) as [E|[E|E]]; [discriminate E|discriminate E|exact E].
Defined.

End GrpcRunnable.

(** ** internal/runnable: leader election *)

(** A runnable that says whether it needs leader election. *)
Record leaderElection (R : Type) := { started : R; needsLeaderElection : bool }.
Arguments started {R}.
Arguments needsLeaderElection {R}.

Definition LeaderElection {R} (runnable : R) (needsLeaderElection : bool) : leaderElection R :=
  {| started := runnable; needsLeaderElection := needsLeaderElection |}.

Definition NoLeaderElection {R} (runnable : R) : leaderElection R := LeaderElection runnable false.

Definition NeedLeaderElection {R} (r : leaderElection R) : bool := needsLeaderElection r.

(** ** pkg/server/runserver.go *)

Module ExtProc.

Section extproc.
Context {W : Type} `{WW : !World W} {Cert : Type}.

Record ExtProcServerRunner := {
  GrpcPort : Z;
  SecureServing : bool;
  PreProcessors : list (RequestProcessor W);
  ProfilePicker : option (Message.ProfilePicker W);
  Profiles : gmap string (Profile W);
  PostProcessors : list (ResponseProcessor W);
  ResponseHeadersPostProcessors : list (ResponseHeadersProcessor W);
  EventNotifier : bool }.

Definition NewDefaultExtProcServerRunner (port : Z) : ExtProcServerRunner :=
  {| GrpcPort := port; SecureServing := true; PreProcessors := []; ProfilePicker := None;
     Profiles := ∅; PostProcessors := []; ResponseHeadersPostProcessors := []; EventNotifier := false |}.

(** A gRPC server: its credentials and the service registered on it. *)
Record GrpcServer := {
  credentials : option (Cert * list string); service : Server W; listens_on : Z }.

(** What starting the runnable does: the server it hands to the gRPC runnable,
    or the error it returns. The notifier is the world's; [EventNotifier] says
    whether the field is set, and with nil the server keeps none. *)
Definition AsRunnable (r : ExtProcServerRunner) (createCert : Cert + goerror) :
    leaderElection (GrpcServer + goerror) :=
  NoLeaderElection (
    match (if SecureServing r then
             match createCert with
             | inr err => inr (EWrap "failed to create self signed certificate - " err)
             | inl cert => inl (Some (cert, ["h2"]))
             end
           else inl None) with
    | inr err => inr err
    | inl creds =>
        inl {| credentials := creds;
               service :=
                (let server := NewServer (PreProcessors r) (ProfilePicker r) (Profiles r)
                                 (PostProcessors r) (ResponseHeadersPostProcessors r) in
                 if EventNotifier r then WithEventNotifier server else server);
               listens_on := GrpcPort r |}
    end).

(** The server serves in the clear only when it was told to, and whatever it
    serves is the service of the configured plugins, with the notifier it has. *)
Lemma AsRunnable_spec r createCert :
  NeedLeaderElection (AsRunnable r createCert) = false ∧
  match started (AsRunnable r createCert) with
  | inl g => listens_on g = GrpcPort r ∧ hasNotifier (service g) = EventNotifier r ∧
             profilePicker (service g) = ProfilePicker r ∧ profiles (service g) = Profiles r ∧
             (credentials g = None ↔ SecureServing r = false)
  | inr err => SecureServing r = true ∧ ∃ e, createCert = inr e
  end.
Proof.
  split; [done|]. unfold AsRunnable. simpl.
  destruct (SecureServing r), createCert as [cert|e], (EventNotifier r); simpl; try done;
    (split; [done|]; by exists e).
Qed.
End extproc.

Arguments ExtProcServerRunner : clear implicits.
End ExtProc.

(** ** cmd/runner/health.go *)

Module Health.

Inductive HealthStatus : Type := SERVING | NOT_SERVING | SERVICE_UNKNOWN.

Definition codes_Unimplemented : Z := 12.

(** [ExternalProcessor_ServiceDesc.ServiceName]. *)
Definition ext_proc_service : string := "envoy.service.ext_proc.v3.ExternalProcessor".

(** Any service name is accepted. *)
Definition Check_ (service : string) : HealthStatus + goerror := inl SERVING.

Definition List_ : gmap string HealthStatus + goerror :=
  match Check_ ext_proc_service with
  | inr err => inr err
  | inl serviceHealthResponse => inl {[ext_proc_service := serviceHealthResponse]}
  end.

Definition Watch (service : string) : option goerror :=
  Some (EStatus codes_Unimplemented "Watch is not implemented").

End Health.

(** ** pkg/common/observability: tracing and profiling *)

Module Tracing.

(** The environment's variables, with a default set when one is missing. *)
Definition Setenv (k v : string) (env : gmap string string) : gmap string string := <[k := v]> env.

Definition default_env (defaultServiceName : string) (env : gmap string string) : gmap string string :=
  let env := match env !! "OTEL_SERVICE_NAME" with
             | Some _ => env
             | None => Setenv "OTEL_SERVICE_NAME" defaultServiceName env
             end in
  match env !! "OTEL_EXPORTER_OTLP_ENDPOINT" with
  | Some _ => env
  | None => Setenv "OTEL_EXPORTER_OTLP_ENDPOINT" "http://localhost:4317" env
  end.

Inductive exporter : Type := Console | Otlp.

(** [newStdout] and [newOtlp] are what creating an exporter returns; the console
    exporter is created first in any case. *)
Definition initTraceExporter (newStdout newOtlp : option goerror) (env : gmap string string) :
    exporter + goerror :=
  match newStdout with
  | Some err => inr (EWrap "failed to create stdouttrace exporter: " err)
  | None =>
      let exporterType := default "console" (env !! "OTEL_TRACES_EXPORTER") in
      if String.eqb exporterType "otlp" then
        match newOtlp with
        | Some err => inr (EWrap "failed to create otlp-grcp exporter: " err)
        | None => inl Otlp
        end
      else inl Console
  end.

(** The sampled fraction, and whether an unsupported sampler type is reported;
    [tenth] is the float 0.1 and [ParseFloat] fails with [None]. *)
Definition sampler (tenth : float64) (ParseFloat : string → option float64) (env : gmap string string) :
    float64 * bool :=
  let samplerType := default "parentbased_traceidratio" (env !! "OTEL_TRACES_SAMPLER") in
  let samplerARG := default "0.1" (env !! "OTEL_TRACES_SAMPLER_ARG") in
  if String.eqb samplerType "parentbased_traceidratio"
  then (default tenth (ParseFloat samplerARG), false)
  else (tenth, true).

(** OpenTelemetry's globals: the tracer provider - what it exports to and the
    fraction it samples - the propagators, and whether errors go to the
    [errorHandler], which logs them. *)
Record Globals :=
  { TracerProvider : option (exporter * float64); Propagators : list string;
    handles_errors : bool }.

Definition no_tracing : Globals :=
  {| TracerProvider := None; Propagators := []; handles_errors := false |}.

(** What setting up leaves: the environment, the globals, the errors given to
    the handler, the error it returns. *)
Definition InitTracing (tenth : float64) (ParseFloat : string → option float64)
    (newStdout newOtlp : option goerror) (defaultServiceName : string) (g : Globals)
    (env : gmap string string) : gmap string string * Globals * list goerror * option goerror :=
  let env := default_env defaultServiceName env in
  match initTraceExporter newStdout newOtlp env with
  | inr err => (env, g, [EWrap "init trace exporter failed: " err], Some err)
  | inl traceExporter =>
      let '(fraction, unsupported) := sampler tenth ParseFloat env in
      let samplerType := default "parentbased_traceidratio" (env !! "OTEL_TRACES_SAMPLER") in
      (env,
       {| TracerProvider := Some (traceExporter, fraction);
          Propagators := ["TraceContext"; "Baggage"]; handles_errors := true |},
       if unsupported
       then [ENew ("unsupported sampler type: " +:+ samplerType
                   +:+ ", fallback to parentbased_traceidratio with 0.1 Ratio")]
       else [],
       None)
  end.

(** The goroutine, when the context ends: the errors it gives to the handler,
    by what shutting the provider down returns. *)
Definition InitTracing_goroutine (Shutdown : option goerror) : list goerror :=
  match Shutdown with
  | Some err => [EWrap "failed to shutdown TraceProvider: " err]
  | None => []
  end.

(** The values a stream's logger gets from its span, when that is valid. *)
Record SpanContext := { IsValid : bool; TraceID : string; SpanID : string }.

Definition loggerWithSpanContext (values : list (string * string)) (sc : SpanContext) :
    list (string * string) * bool :=
  if IsValid sc
  then (values ++ [("trace_id", TraceID sc); ("span_id", SpanID sc)], true)
  else (values, false).

(** Tracing is set up whole or not at all, and fails for an exporter only: a
    sampler that is not supported, or a ratio that is no number, is replaced. *)
Lemma InitTracing_spec tenth pf so ot name g env env' g' errs err :
  InitTracing tenth pf so ot name g env = (env', g', errs, err) →
  env' = default_env name env ∧
  match err with
  | Some e => g' = g ∧ initTraceExporter so ot env' = inr e
  | None => ∃ ex, initTraceExporter so ot env' = inl ex ∧
      TracerProvider g' = Some (ex, (sampler tenth pf env').1) ∧ handles_errors g' = true
  end.
Proof.
  unfold InitTracing. destruct (initTraceExporter so ot _) as [ex|e] eqn:E.
  - destruct (sampler tenth pf _) as [fr u] eqn:Es. intros [= <- <- <- <-].
    split; [done|]. exists ex. by rewrite Es.
  - intros [= <- <- <- <-]. done.
Qed.

(** Variables that are set are kept, and the two defaults are set after it. *)
Lemma default_env_keeps name env :
  env ⊆ default_env name env ∧
  is_Some (default_env name env !! "OTEL_SERVICE_NAME") ∧
  is_Some (default_env name env !! "OTEL_EXPORTER_OTLP_ENDPOINT").
Proof.
  unfold default_env, Setenv.
  destruct (env !! "OTEL_SERVICE_NAME") eqn:E1; [|rewrite lookup_insert_ne by done];
    (destruct (env !! "OTEL_EXPORTER_OTLP_ENDPOINT") eqn:E2);
    rewrite ?lookup_insert_eq, ?lookup_insert_ne, ?E1, ?E2, ?lookup_insert_eq by done;
    split_and!; try done; try by eexists.
  - by apply insert_subseteq.
  - by apply insert_subseteq.
  - etrans; [by apply (insert_subseteq env "OTEL_SERVICE_NAME" name)|].
    apply insert_subseteq. by rewrite lookup_insert_ne.
Qed.

End Tracing.

Module Pprof.

Definition profiles : list string := ["heap"; "goroutine"; "allocs"; "threadcreate"; "block"; "mutex"].

(** The paths registered before the first error; the two rates are set when
    there was none. *)
Fixpoint add_handlers (add : string → option goerror) (ps : list string) :
    list string * option goerror :=
  match ps with
  | [] => ([], None)
  | p :: ps =>
      let path := "/debug/pprof/" +:+ p in
      match add path with
      | Some err => ([], Some err)
      | None => let '(done_, err) := add_handlers add ps in (path :: done_, err)
      end
  end.

Record Rates := { MutexProfileFraction : Z; BlockProfileRate : Z }.

Definition SetupPprofHandlers (add : string → option goerror) (rates : Rates) :
    list string * Rates * option goerror :=
  let '(paths, err) := add_handlers add profiles in
  match err with
  | Some err => (paths, rates, Some err)
  | None => (paths, {| MutexProfileFraction := 1; BlockProfileRate := 1 |}, None)
  end.

End Pprof.
