(* ===== verification/Runner.v ===== *)
(** cmd/runner/runner.go: the start-up of the program, from the parsed command
    line to the running server and back.

    [Run] is a sequence of steps. A step that only calls a library (the
    Kubernetes client, the controller manager, tracing, gRPC) is an entry of a
    trace and may fail, as [env] says; the steps of this repository - options,
    loading, the data layer's processor, the server - are the definitions of
    the other files. *)

From Stdlib Require Import String.
From S2P Require Import Prelude GoFloat GoValue Envoy Message World Handlers Adapters.
From S2P Require Import Datalayer Extractors ModelSelector Pickers SelectorPlugins.
From S2P Require Import RequestPlugins Processor Loader LoaderProofs Options Serving.

Local Open Scope string_scope.
Local Open Scope list_scope.

Section runner.
Context {W : Type} `{TD : TDigest} `{WW : !World W} `{DS : !Datastore W} `{MO : MapOrder}
  `{RD : !Rand W}.

(** What [Run] asks of the libraries, in the order it asks. *)
Inductive startup : Type :=
| SInitSetupLogging
| SInitTracing
| SInitLogging (level : option Z)
| SGetConfig
| SRegisterMetrics (customCollectors : nat)
| SNewManager (metricsPort : Z) (auth : bool) (namespace : string)
| SSetupPprof
| SCustomController (i : nat)
| SReadFile (path : string)
| SProcessorStart (p : Processor)
| SHealthServer (port : Z)
| SExtProcServer (port : Z) (secure : bool) (srv : Server W)
| SManagerStart
| SProcessorStop.

Inductive RunError : Type :=
| RunErr (e : goerror)
| RunLoad (e : LoadError).

(** The steps so far, and a value or the error [Run] returns; or a panic. *)
Definition startup_m (A : Type) : Type := list startup → res (list startup * (A + RunError)).

#[local] Instance startup_ret : MRet startup_m := λ A a tr, Ok (tr, inl a).
#[local] Instance startup_bind : MBind startup_m := λ A B k m tr,
  match m tr with
  | Ok (tr, inl a) => k a tr
  | Ok (tr, inr e) => Ok (tr, inr e)
  | Panic why => Panic why
  end.

Definition fail_with {A} (e : RunError) : startup_m A := λ tr, Ok (tr, inr e).

(** A step that cannot fail, and one that can. *)
Definition note (s : startup) : startup_m unit := λ tr, Ok (tr ++ [s], inl tt).
Definition perform (env : startup → option goerror) (s : startup) : startup_m unit := λ tr,
  Ok (tr ++ [s], match env s with None => inl tt | Some e => inr (RunErr e) end).

Definition when (b : bool) (m : startup_m unit) : startup_m unit := if b then m else mret tt.

(** [defer f()]: after [m], whether or not it failed. *)
Definition deferring (s : startup) {A} (m : startup_m A) : startup_m A := λ tr,
  match m tr with Ok (tr, r) => Ok (tr ++ [s], r) | Panic why => Panic why end.

Fixpoint in_order (ms : list (startup_m unit)) : startup_m unit :=
  match ms with [] => mret tt | m :: ms => m ≫= λ _, in_order ms end.

(** The caller's collectors and controllers are opaque functions: only how many
    there are matters, controller [i] is the step [SCustomController i]. The
    fields that [loadConfiguration] fills are its result here. *)
Record Runner :=
  { payloadProcessorExecutableName : string; customCollectors : nat; customControllers : nat }.

Definition NewRunner : Runner :=
  {| payloadProcessorExecutableName := "payload-processor"; customCollectors := 0;
     customControllers := 0 |}.

Definition WithExecutableName (exeName : string) (r : Runner) : Runner :=
  {| payloadProcessorExecutableName := exeName; customCollectors := customCollectors r;
     customControllers := customControllers r |}.
Definition WithCustomCollectors (collectors : nat) (r : Runner) : Runner :=
  {| payloadProcessorExecutableName := payloadProcessorExecutableName r;
     customCollectors := collectors; customControllers := customControllers r |}.
Definition WithCustomControllers (setupFuncs : nat) (r : Runner) : Runner :=
  {| payloadProcessorExecutableName := payloadProcessorExecutableName r;
     customCollectors := customCollectors r; customControllers := setupFuncs |}.

(** What the environment answers: the libraries, [os.ReadFile], the NAMESPACE
    variable, the strict decoder, and what the registered factories need. *)
Context (env : startup → option goerror) (ReadFile : string → bytes + goerror)
  (namespace : string) (decode : bytes → PayloadProcessorConfig + goerror)
  (registry : Registry W).

(** The text wins over the file; neither means the default configuration. *)
Definition config_bytes (opts : Options) : startup_m bytes :=
  if negb (String.eqb (ConfigText opts) "") then mret (s2b (ConfigText opts))
  else if negb (String.eqb (ConfigFile opts) "") then
    note (SReadFile (ConfigFile opts));;
    match ReadFile (ConfigFile opts) with
    | inl b => mret b
    | inr e => fail_with (RunErr (EWrap ("failed to load config from a file '"
                 +:+ ConfigFile opts +:+ "' - ") e))
    end
  else mret [].

Definition loaded (r : res (Loading W * result (Config W))) : startup_m (Loading W * Config W) :=
  λ tr, match r with
        | Ok (s, inl theConfig) => Ok (tr, inl (s, theConfig))
        | Ok (_, inr e) => Ok (tr, inr (RunLoad e))
        | Panic why => Panic why
        end.

Definition loadConfiguration (opts : Options) (w : W) : startup_m (Loading W * Config W) :=
  config_bytes opts ≫= λ configBytes,
  loaded (LoadConfiguration decode registry configBytes (NewHandle NewProcessor w)).

(** From the started processor to the end of the program. *)
(** The ext_proc server runner that is added to the manager. *)
Definition serverRunner (opts : Options) (s : Loading W) (c : Config W) :
    ExtProc.ExtProcServerRunner W :=
  {| ExtProc.GrpcPort := GRPCPort opts; ExtProc.SecureServing := SecureServing opts;
     ExtProc.PreProcessors := running s <$> PreProcessors c;
     ExtProc.ProfilePicker := ProfilePicker_of c;
     ExtProc.Profiles := running_profile s <$> Profiles c;
     ExtProc.PostProcessors := PostProcessors c;
     ExtProc.ResponseHeadersPostProcessors := ResponseHeadersPostProcessors c;
     ExtProc.EventNotifier := true |}.

(** [mgr.Add] of the health server and of the ext_proc server, which run once
    [mgr.Start] does. *)
Definition serve (opts : Options) (srv : Server W) : startup_m unit :=
  perform env (SHealthServer (GRPCHealthPort opts));;
  perform env (SExtProcServer (GRPCPort opts) (SecureServing opts) srv);;
  perform env SManagerStart.

Definition validated (r : Options * option goerror) : startup_m Options := λ tr,
  Ok (tr, match r with (opts, None) => inl opts | (_, Some e) => inr (RunErr e) end).

(** The part of [Run] up to the loaded configuration; [opts] are the options
    after parsing the command line. *)
Definition prepare (r : Runner) (opts : Options) (w : W) :
    startup_m (Options * (Loading W * Config W)) :=
  note SInitSetupLogging;;
  opts ← validated (Validate (Complete opts));
  when (Tracing opts) (perform env SInitTracing);;
  note (SInitLogging (Logging.ZapLevel (LoggingOptions_of opts)));;
  perform env SGetConfig;;
  note (SRegisterMetrics (customCollectors r));;
  perform env (SNewManager (MetricsPort opts) (MetricsEndpointAuth opts) namespace);;
  when (EnablePprof opts) (perform env SSetupPprof);;
  in_order ((λ i, perform env (SCustomController i)) <$> seq 0 (customControllers r));;
  sc ← loadConfiguration opts w;
  mret (opts, sc).

(** The rest: the processor runs while the servers do. *)
Definition operate (opts : Options) (s : Loading W) (theConfig : Config W) : startup_m unit :=
  match Start (processor s) with
  | inr e => fail_with (RunErr e)
  | inl p =>
      note (SProcessorStart p);;
      deferring SProcessorStop (serve opts (server_of s theConfig))
  end.

Definition Runner_Run (r : Runner) (opts : Options) (w : W) : startup_m unit :=
  osc ← prepare r opts w; operate osc.1 osc.2.1 osc.2.2.

(** ** What runs is what was configured *)

(** Starting that runner serves [server_of], on its port, with TLS when asked. *)
Lemma serverRunner_serves {Cert : Type} opts s c (createCert : Cert + goerror) :
  match started (ExtProc.AsRunnable (serverRunner opts s c) createCert) with
  | inl g => ExtProc.service g = server_of s c ∧ ExtProc.listens_on g = GRPCPort opts ∧
             (ExtProc.credentials g = None ↔ SecureServing opts = false)
  | inr _ => SecureServing opts = true ∧ ∃ e, createCert = inr e
  end.
Proof.
  unfold ExtProc.AsRunnable. simpl. destruct (SecureServing opts), createCert as [cert|e]; try done.
  simpl. split; [done|]. by exists e.
Qed.

(** Steps before the processor is started. *)
Definition preparing (s : startup) : bool :=
  match s with
  | SProcessorStart _ | SProcessorStop | SHealthServer _ | SExtProcServer _ _ _ | SManagerStart =>
      false
  | _ => true
  end.

(** The bytes the configuration is read from. *)
Definition config_source (opts : Options) : option bytes :=
  if String.eqb (ConfigText opts) "" then
    if String.eqb (ConfigFile opts) "" then Some []
    else match ReadFile (ConfigFile opts) with inl b => Some b | inr _ => None end
  else Some (s2b (ConfigText opts)).

(** [m] only prepares, and its value satisfies [Q]. *)
Definition prepares {A} (m : startup_m A) (Q : A → Prop) : Prop := ∀ tr tr' x,
  m tr = Ok (tr', x) →
  (∃ l, tr' = tr ++ l ∧ Forall (λ s, preparing s = true) l) ∧
  match x with inl a => Q a | inr _ => True end.

Lemma prepares_ret {A} (a : A) (Q : A → Prop) : Q a → prepares (mret a) Q.
Proof. intros Ha tr tr' x [= <- <-]. split; [|done]. exists []. by rewrite app_nil_r. Qed.

Lemma prepares_bind {A B} (m : startup_m A) (k : A → startup_m B) P Q :
  prepares m P → (∀ a, P a → prepares (k a) Q) → prepares (m ≫= k) Q.
Proof.
  intros Hm Hk tr tr' x. unfold mbind, startup_bind.
  destruct (m tr) as [[tr1 [a|e]]|] eqn:E; [| |done]; intros H.
  - destruct (Hm _ _ _ E) as [(l & -> & Hl) Ha]. destruct (Hk a Ha _ _ _ H) as [(l' & -> & Hl') Hx].
    split; [|done]. exists (l ++ l'). rewrite <- app_assoc. split; [done|]. by apply Forall_app.
  - injection H as <- <-. split; [|done]. by apply (Hm _ _ _ E).
Qed.

Lemma prepares_note s : preparing s = true → prepares (note s) (λ _, True).
Proof. intros Hs tr tr' x [= <- <-]. split; [|done]. exists [s]. by repeat constructor. Qed.

Lemma prepares_perform s : preparing s = true → prepares (perform env s) (λ _, True).
Proof.
  intros Hs tr tr' x [= <- <-]. split; [|by case_match]. exists [s]. by repeat constructor.
Qed.

Lemma prepares_when b m : prepares m (λ _, True) → prepares (when b m) (λ _, True).
Proof. intros Hm. destruct b; [done|]. by apply prepares_ret. Qed.

Lemma prepares_in_order ms :
  Forall (λ m, prepares m (λ _, True)) ms → prepares (in_order ms) (λ _, True).
Proof.
  induction 1 as [|m ms Hm _ IH]; simpl; [by apply prepares_ret|].
  by eapply prepares_bind.
Qed.

Lemma prepares_validated r :
  prepares (validated r) (λ opts, r = (opts, None)).
Proof.
  intros tr tr' x [= <- <-]. split; [exists []; by rewrite app_nil_r|]. by destruct r as [o [e|]].
Qed.

Lemma prepares_config_bytes opts :
  prepares (config_bytes opts) (λ b, config_source opts = Some b).
Proof.
  unfold config_bytes, config_source. destruct (String.eqb (ConfigText opts) ""); simpl;
    [|by apply prepares_ret]. destruct (String.eqb (ConfigFile opts) ""); simpl;
    [by apply prepares_ret|].
  eapply prepares_bind; [by apply prepares_note|]. intros _ _.
  destruct (ReadFile (ConfigFile opts)) as [b|e]; [by apply prepares_ret|].
  intros tr tr' x [= <- <-]. split; [|done]. exists []. by rewrite app_nil_r.
Qed.

Lemma prepares_loaded r : prepares (loaded r) (λ sc, r = Ok (sc.1, inl sc.2)).
Proof.
  intros tr tr' x. unfold loaded. destruct r as [[s [c|e]]|]; intros [= <- <-];
    (split; [exists []; by rewrite app_nil_r|done]).
Qed.

Definition configured (opts : Options) (w : W) (sc : Loading W * Config W) : Prop :=
  ∃ b, config_source opts = Some b ∧
    LoadConfiguration decode registry b (NewHandle NewProcessor w) = Ok (sc.1, inl sc.2).

Lemma prepares_prepare r opts w :
  prepares (prepare r opts w) (λ osc,
    Validate (Complete opts) = (osc.1, None) ∧ configured osc.1 w osc.2).
Proof.
  unfold prepare.
  eapply prepares_bind; [by apply prepares_note|intros _ _].
  eapply prepares_bind; [apply prepares_validated|intros opts' Hv].
  eapply prepares_bind; [by apply prepares_when, prepares_perform|intros _ _].
  eapply prepares_bind; [by apply prepares_note|intros _ _].
  eapply prepares_bind; [by apply prepares_perform|intros _ _].
  eapply prepares_bind; [by apply prepares_note|intros _ _].
  eapply prepares_bind; [by apply prepares_perform|intros _ _].
  eapply prepares_bind; [by apply prepares_when, prepares_perform|intros _ _].
  eapply prepares_bind; [|intros _ _].
  { apply prepares_in_order, Forall_fmap, Forall_forall. intros i _. by apply prepares_perform. }
  eapply (prepares_bind _ _ (configured opts' w)).
  { eapply prepares_bind; [apply prepares_config_bytes|]. intros b Hb tr tr' x Hx.
    apply prepares_loaded in Hx as [Hl Hx]. split; [done|]. destruct x; [|done]. by exists b. }
  intros sc Hsc. by apply prepares_ret.
Qed.

(** The servers and the manager, in order, until one of them fails. *)
Lemma serve_steps opts srv tr tr' x :
  serve opts srv tr = Ok (tr', x) →
  ∃ l rest, tr' = tr ++ l ∧ l ≠ [] ∧
    l ++ rest = [SHealthServer (GRPCHealthPort opts);
                 SExtProcServer (GRPCPort opts) (SecureServing opts) srv; SManagerStart] ∧
    (x = inl tt → rest = []).
Proof.
  unfold serve, perform, mbind, startup_bind. simpl.
  destruct (env (SHealthServer _)) as [e|]; [intros [= <- <-]; by eexists [_], _|].
  destruct (env (SExtProcServer _ _ _)) as [e|].
  { intros [= <- <-]. rewrite <- app_assoc. by eexists [_; _], _. }
  intros [= <- <-]. rewrite <- !app_assoc. exists [SHealthServer (GRPCHealthPort opts);
    SExtProcServer (GRPCPort opts) (SecureServing opts) srv; SManagerStart], []. by split_and!.
Qed.

(** C10: what runs is what was configured, and it is stopped. Whatever the
    libraries answer, when [Run] returns then either nothing was started, and
    it returns an error; or the options were valid, their configuration loaded,
    and the data layer's processor - with the sources that configuration
    registers - was started once; after that the health server and the ext_proc
    server, on the configured port and with the loaded profiles, were added to
    the manager and the manager was started, which runs them, in that order; and
    the processor was stopped once, last, also when one of those failed. *)
Theorem run_serves_what_is_configured r opts w tr x :
  Runner_Run r opts w [] = Ok (tr, x) →
  (Forall (λ s, preparing s = true) tr ∧ ∃ e, x = inr e) ∨
  ∃ opts' s c p pre l rest,
    Validate (Complete opts) = (opts', None) ∧ configured opts' w (s, c) ∧
    Start (processor s) = inl p ∧
    tr = pre ++ SProcessorStart p :: l ++ [SProcessorStop] ∧
    Forall (λ s, preparing s = true) pre ∧ l ≠ [] ∧
    l ++ rest = [SHealthServer (GRPCHealthPort opts');
                 SExtProcServer (GRPCPort opts') (SecureServing opts') (server_of s c);
                 SManagerStart] ∧
    (x = inl tt → rest = []).
Proof.
  unfold Runner_Run. unfold mbind at 1, startup_bind.
  destruct (prepare r opts w []) as [[pre [[opts' [s c]]|e]]|] eqn:E; [| |done];
    apply prepares_prepare in E as [(pre' & -> & Hpre) Hv]; simpl in *.
  2: { intros [= <- <-]. left. split; [done|]. by eexists. }
  destruct Hv as [Hv Hc]. unfold operate. destruct (Start (processor s)) as [p|e] eqn:Es.
  2: { intros [= <- <-]. left. split; [done|]. by eexists. }
  intros H. right. unfold mbind, startup_bind, note, deferring in H.
  destruct (serve opts' _ _) as [[tr1 x1]|] eqn:Eserve; [|done].
  apply serve_steps in Eserve as (l & rest & -> & Hne & Hl & Hrest). injection H as <- <-.
  exists opts', s, c, p, pre', l, rest. split_and!; try done. by rewrite <- !app_assoc.
Qed.
End runner.

Arguments startup : clear implicits.
Arguments startup_m : clear implicits.
