(* ===== verification/Certs.v ===== *)
(** pkg/common/certs.go: the certificate reloader as a state machine.

    The state is the atomic pointer, the goroutine's debounce timer and the
    timers' callbacks; an action is one receive of the goroutine's select, one
    step of a callback, the passing of time, or a change of the files on disk.
    fsnotify, [time.AfterFunc] and [tls.LoadX509KeyPair] are libraries: events
    arrive in any order, a timer fires at some time after its deadline unless
    it was stopped before, and loading is the function [load] of the disk. *)

From Stdlib Require Import String.
From S2P Require Import Prelude GoFloat GoValue Envoy.

Local Open Scope string_scope.
Local Open Scope list_scope.

(** [fsnotify.Op] is a bit set. *)
Definition op_Create : Z := 1.
Definition op_Write : Z := 2.

(** In nanoseconds. *)
Definition debounceDelay : Z := 250 * 1000000.

Module Reloader.

Section certs.
Context {Cert Disk : Type} (load : Disk → option Cert).

(** What a callback does next: load the files, or store what it loaded. *)
Inductive callback : Type :=
| Loading
| Storing (c : Cert).

(** [timer] is the variable [debounceTimer]; [armed] are the timers that were
    started and neither stopped nor fired, with their deadlines. [quiet_since]
    is the time of the last event that counted, and [starts] the callbacks so
    far: when each started and [quiet_since] then. *)
Record CertReloader := {
  cert : Cert;
  disk : Disk;
  clock : Z;
  alive : bool;
  timer : option nat;
  next_timer : nat;
  armed : list (nat * Z);
  callbacks : list (nat * callback);
  quiet_since : option Z;
  starts : list (Z * option Z) }.

(** [NewCertReloader], given what creating the watcher and adding the path to
    it return. The quotes of [%q] are left out of the text. *)
Definition NewCertReloader (newWatcher add : option goerror) (path : string) (init : Cert)
    (d : Disk) (now : Z) : CertReloader + goerror :=
  match newWatcher with
  | Some err => inr (EWrap "failed to create cert watcher: " err)
  | None =>
      match add with
      | Some err => inr (EWrap ("failed to watch " +:+ path +:+ ": ") err)
      | None => inl {| cert := init; disk := d; clock := now; alive := true; timer := None;
                       next_timer := 0; armed := []; callbacks := []; quiet_since := None;
                       starts := [] |}
      end
  end.

Definition Get (r : CertReloader) : Cert := cert r.

Inductive action : Type :=
| AEvent (op : Z)
| AError
| ADone
| AFire (t : nat)
| ALoad (t : nat)
| AStore (t : nat)
| ATick (d : Z)
| AWrite (d : Disk).

(** [debounceTimer.Stop()], when it is set: the timer does not fire any more,
    but a callback that started goes on. *)
Definition stop_timer (r : CertReloader) : list (nat * Z) :=
  match timer r with
  | Some t => List.filter (λ x, negb (x.1 =? t)%nat) (armed r)
  | None => armed r
  end.

(** [case ev := <-w.Events]. The receive, [debounceTimer.Stop()] and the new
    [time.AfterFunc] are one action, at the instant of the [Stop]: what a
    callback does before that instant is an action before this one. *)
Definition on_event (op : Z) (r : CertReloader) : CertReloader :=
  if (Z.land op (Z.lor op_Write op_Create) =? 0)%Z then r
  else {| cert := cert r; disk := disk r; clock := clock r; alive := alive r;
          timer := Some (next_timer r); next_timer := S (next_timer r);
          armed := stop_timer r ++ [(next_timer r, clock r + debounceDelay)%Z];
          callbacks := callbacks r; quiet_since := Some (clock r); starts := starts r |}.

Definition with_cert (r : CertReloader) (c : Cert) (cs : list (nat * callback)) : CertReloader :=
  {| cert := c; disk := disk r; clock := clock r; alive := alive r; timer := timer r;
     next_timer := next_timer r; armed := armed r; callbacks := cs;
     quiet_since := quiet_since r; starts := starts r |}.

Definition drop_key {A} (t : nat) (l : list (nat * A)) : list (nat * A) :=
  List.filter (λ x, negb (x.1 =? t)%nat) l.

Definition find_key {A} (t : nat) (l : list (nat * A)) : option A :=
  snd <$> List.find (λ x, (x.1 =? t)%nat) l.

(** The timer's deadline has passed: its callback starts. *)
Definition fire (t : nat) (r : CertReloader) : option CertReloader :=
  match find_key t (armed r) with
  | Some deadline =>
      if (deadline <=? clock r)%Z then
        Some {| cert := cert r; disk := disk r; clock := clock r; alive := alive r;
                timer := timer r; next_timer := next_timer r; armed := drop_key t (armed r);
                callbacks := callbacks r ++ [(t, Loading)]; quiet_since := quiet_since r;
                starts := starts r ++ [(clock r, quiet_since r)] |}
      else None
  | None => None
  end.

(** The callback: [tls.LoadX509KeyPair], then [certPtr.Store]. *)
Definition callback_load (t : nat) (r : CertReloader) : option CertReloader :=
  match find_key t (callbacks r) with
  | Some Loading =>
      Some (with_cert r (cert r)
              (drop_key t (callbacks r) ++
               match load (disk r) with Some c => [(t, Storing c)] | None => [] end))
  | _ => None
  end.

Definition callback_store (t : nat) (r : CertReloader) : option CertReloader :=
  match find_key t (callbacks r) with
  | Some (Storing c) => Some (with_cert r c (drop_key t (callbacks r)))
  | _ => None
  end.

Definition step (r : CertReloader) (a : action) : option CertReloader :=
  match a with
  | AEvent op => if alive r then Some (on_event op r) else None
  | AError => if alive r then Some r else None
  | ADone =>
      if alive r then
        Some {| cert := cert r; disk := disk r; clock := clock r; alive := false; timer := timer r;
                next_timer := next_timer r; armed := armed r; callbacks := callbacks r;
                quiet_since := quiet_since r; starts := starts r |}
      else None
  | AFire t => fire t r
  | ALoad t => callback_load t r
  | AStore t => callback_store t r
  | ATick d =>
      if (0 <=? d)%Z then
        Some {| cert := cert r; disk := disk r; clock := (clock r + d)%Z; alive := alive r;
                timer := timer r; next_timer := next_timer r; armed := armed r;
                callbacks := callbacks r; quiet_since := quiet_since r; starts := starts r |}
      else None
  | AWrite d =>
      Some {| cert := cert r; disk := d; clock := clock r; alive := alive r; timer := timer r;
              next_timer := next_timer r; armed := armed r; callbacks := callbacks r;
              quiet_since := quiet_since r; starts := starts r |}
  end.

Fixpoint run (r : CertReloader) (acts : list action) : option CertReloader :=
  match acts with
  | [] => Some r
  | a :: acts => match step r a with Some r' => run r' acts | None => None end
  end.

(** ** What holds in every run *)

(** The disk contents a run can have read. *)
Definition written (acts : list action) : list Disk :=
  omap (λ a, match a with AWrite d => Some d | _ => None end) acts.

Definition from_disk (ds : list Disk) (c : Cert) : Prop := ∃ d, d ∈ ds ∧ load d = Some c.

(** At most one timer is armed, the one the goroutine knows, for 250ms after
    the last event that counted; and every certificate in memory is the
    initial one or was loaded. *)
Record inv (init : Cert) (ds : list Disk) (r : CertReloader) : Prop := {
  inv_armed : armed r = [] ∨
    ∃ t q, armed r = [(t, q + debounceDelay)%Z] ∧ timer r = Some t ∧ quiet_since r = Some q;
  inv_starts : Forall (λ s, ∃ q, s.2 = Some q ∧ (q + debounceDelay ≤ s.1)%Z) (starts r);
  inv_disk : disk r ∈ ds;
  inv_cert : cert r = init ∨ from_disk ds (cert r);
  inv_callbacks : Forall (λ tc, ∀ c, tc.2 = Storing c → from_disk ds c) (callbacks r) }.

Lemma from_disk_mono ds ds' c : ds ⊆ ds' → from_disk ds c → from_disk ds' c.
Proof. intros H (d & Hd & Hc). exists d. auto. Qed.

Lemma inv_mono init ds ds' r : ds ⊆ ds' → inv init ds r → inv init ds' r.
Proof.
  intros H [H1 H2 H3 H4 H5]. split; [done|done|by apply H| |].
  - destruct H4; [by left|right; by eapply from_disk_mono].
  - eapply Forall_impl; [exact H5|]. intros tc Htc c Hc. eapply from_disk_mono; eauto.
Qed.

Lemma find_key_elem {A} t (l : list (nat * A)) a : find_key t l = Some a → (t, a) ∈ l.
Proof.
  unfold find_key. intros ([t' a'] & H & ->)%fmap_Some. apply List.find_some in H as [H E].
  apply Nat.eqb_eq in E. simpl in *. subst. by apply list_elem_of_In.
Qed.

Lemma Forall_drop_key {A} (P : nat * A → Prop) t l : Forall P l → Forall P (drop_key t l).
Proof.
  rewrite !Forall_forall. intros H x Hx. apply list_elem_of_In in Hx.
  apply List.filter_In in Hx as [Hx _]. apply H. by apply list_elem_of_In.
Qed.

Lemma find_key_single {A} t (a : A) : find_key t [(t, a)] = Some a.
Proof. unfold find_key. simpl. by rewrite Nat.eqb_refl. Qed.

Lemma drop_key_single {A} t (a : A) : drop_key t [(t, a)] = [].
Proof. unfold drop_key. simpl. by rewrite Nat.eqb_refl. Qed.

Lemma stop_timer_nil init ds r : inv init ds r → stop_timer r = [].
Proof.
  intros [[Ha|(t & q & Ha & Ht & _)] _ _ _ _]; unfold stop_timer; rewrite Ha.
  - by destruct (timer r).
  - rewrite Ht. simpl. by rewrite Nat.eqb_refl.
Qed.

Lemma inv_step init ds r a r' :
  inv init ds r → step r a = Some r' →
  inv init (match a with AWrite d => ds ++ [d] | _ => ds end) r'.
Proof.
  intros Hi. pose proof Hi as [H1 H2 H3 H4 H5]. destruct a as [op| | |t|t|t|d|d]; simpl.
  - destruct (alive r); [|done]. intros [= <-]. unfold on_event. case_match; [done|].
    split; simpl; [right|done..]. rewrite (stop_timer_nil _ _ _ Hi). by eexists _, _.
  - destruct (alive r); [|done]. by intros [= <-].
  - destruct (alive r); [|done]. intros [= <-]. by split.
  - unfold fire. destruct (find_key t (armed r)) as [dl|] eqn:E; [|done].
    destruct (Z.leb_spec dl (clock r)) as [Hle|]; [|done]. intros [= <-].
    destruct H1 as [Ha|(t0 & q & Ha & Ht & Hq)]; rewrite Ha in E; [done|].
    unfold find_key in E. simpl in E. destruct (Nat.eqb_spec t0 t) as [<-|]; [|done].
    injection E as <-. split; simpl; [left| |done..|].
    + rewrite Ha. simpl. by rewrite Nat.eqb_refl.
    + apply Forall_app. split; [done|]. repeat constructor. by exists q.
    + apply Forall_app. split; [done|]. by repeat constructor.
  - unfold callback_load. destruct (find_key t (callbacks r)) as [[|c]|]; [|done..]. intros [= <-].
    split; simpl; [done..|]. apply Forall_app. split; [by apply Forall_drop_key|].
    destruct (load (disk r)) as [c|] eqn:E; repeat constructor. simpl. intros c' [= <-].
    by exists (disk r).
  - unfold callback_store. destruct (find_key t (callbacks r)) as [[|c]|] eqn:E; [done| |done].
    intros [= <-]. apply find_key_elem in E. split; simpl; [done..| |by apply Forall_drop_key].
    right. rewrite Forall_forall in H5. by apply (H5 _ E).
  - destruct (0 <=? d)%Z; [|done]. intros [= <-]. by split.
  - intros [= <-]. apply (inv_mono _ _ (ds ++ [d])) in Hi as [G1 G2 G3 G4 G5]; [|set_solver].
    split; simpl; [done..| |done|done]. set_solver.
Qed.

Lemma inv_run init ds r acts r' :
  inv init ds r → run r acts = Some r' → inv init (ds ++ written acts) r'.
Proof.
  revert ds r. induction acts as [|a acts IH]; intros ds r Hi; simpl.
  - intros [= <-]. by rewrite app_nil_r.
  - destruct (step r a) as [r1|] eqn:E; [|done]. intros H. apply (inv_step _ _ _ _ _ Hi) in E.
    destruct a; simpl; try (by eapply IH). replace (ds ++ d :: written acts) with
      ((ds ++ [d]) ++ written acts) by (by rewrite <- app_assoc). by eapply IH.
Qed.

Lemma inv_new path init d now r :
  NewCertReloader None None path init d now = inl r → inv init [d] r.
Proof. intros [= <-]. split; simpl; [by left|constructor|by left|by left|constructor]. Qed.

(** C33: a reload waits until the files are quiet. In every run of the
    reloader - events, errors, timers, callbacks, changes of the files and the
    end of the context in any order - at most one timer is armed; every reload
    starts at least 250ms after the last write or create event before it; and
    the certificate served is the initial one or one that was loaded from
    files that were on the disk. *)
Theorem reload_waits_for_quiet path init d now r acts r' :
  NewCertReloader None None path init d now = inl r → run r acts = Some r' →
  (length (armed r') ≤ 1)%nat ∧
  Forall (λ s, ∃ q, s.2 = Some q ∧ (q + 250000000 ≤ s.1)%Z) (starts r') ∧
  (Get r' = init ∨ ∃ d', d' ∈ d :: written acts ∧ load d' = Some (Get r')).
Proof.
  intros Hr%inv_new H. apply (inv_run _ _ _ _ _ Hr) in H as [H1 H2 _ H4 _].
  split; [|split; [exact H2|exact H4]]. destruct H1 as [->|(t & q & -> & _)]; simpl; lia.
Qed.

(** When the files change, an event counts and no other reload is under way,
    the certificate on the disk is served 250ms later, if it loads. *)
Theorem settled_reload_serves_disk path init d now r acts r1 op c :
  NewCertReloader None None path init d now = inl r → run r acts = Some r1 →
  callbacks r1 = [] → Z.land op (Z.lor op_Write op_Create) ≠ 0%Z → load (disk r1) = Some c →
  ∃ r2, run (on_event op r1)
      [ATick debounceDelay; AFire (next_timer r1); ALoad (next_timer r1); AStore (next_timer r1)] = Some r2 ∧
    Get r2 = c ∧ armed r2 = [] ∧ callbacks r2 = [].
Proof.
  intros Hr%inv_new H Hcb Hop Hload. apply (inv_run _ _ _ _ _ Hr), stop_timer_nil in H.
  unfold on_event. apply Z.eqb_neq in Hop. rewrite Hop, H, Hcb. cbn [run step app].
  destruct (Z.leb_spec 0 debounceDelay) as [_|]; [|unfold debounceDelay in *; lia].
  unfold fire. cbn [armed clock]. rewrite find_key_single, Z.leb_refl.
  unfold callback_load. cbn [callbacks app]. rewrite find_key_single. cbn [disk]. rewrite Hload.
  unfold callback_store, with_cert. cbn [callbacks armed]. rewrite !drop_key_single. cbn [app].
  rewrite find_key_single. eexists. split; [reflexivity|]. cbn. by rewrite Nat.eqb_refl.
Qed.
End certs.

(** ** Concrete runs: certificates are numbers, the disk holds one or none *)

Definition demo : CertReloader (Cert := nat) (Disk := option nat) :=
  {| cert := 0%nat; disk := None; clock := 0; alive := true; timer := None; next_timer := 0%nat;
     armed := []; callbacks := []; quiet_since := None; starts := [] |}.

(** [Stop] does not wait for a callback that has started: one that loaded the
    old certificate can store it after a later one stored the new one, and the
    old one stays; and a reload can happen after the end of the context. *)
Theorem late_reload_overwrites :
  (∃ r, run id demo [AWrite (Some 1%nat); AEvent 2; ATick 250000000; AFire 0; ALoad 0;
                     AWrite (Some 2%nat); AEvent 2; ATick 250000000; AFire 1; ALoad 1; AStore 1;
                     AStore 0] = Some r ∧
     Get r = 1%nat ∧ disk r = Some 2%nat ∧ armed r = [] ∧ callbacks r = []) ∧
  (∃ r, run id demo [AWrite (Some 1%nat); AEvent 2; ADone; ATick 250000000; AFire 0; ALoad 0; AStore 0] =
     Some r ∧ alive r = false ∧ Get r = 1%nat).
Proof. split; eexists; (split; [vm_compute; reflexivity|]); by split_and!. Qed.

Definition demo_actions : list (action (Disk := option nat)) :=
  [AWrite (Some 1%nat); AEvent 1; ATick 100; AEvent 2; ATick 250000000; AFire 1].

Definition demo_end : CertReloader := default demo (run id demo demo_actions).

Lemma reload_waits_for_quiet_witness :
  starts demo_end = [(250000100, Some 100)]%Z ∧ (length (armed demo_end) ≤ 1)%nat ∧
  Forall (λ s, ∃ q, s.2 = Some q ∧ (q + 250000000 ≤ s.1)%Z) (starts demo_end).
Proof.
  split; [vm_compute; reflexivity|].
  destruct (reload_waits_for_quiet id "tls" 0%nat None 0 demo demo_actions demo_end eq_refl)
    as (H1 & H2 & _); [vm_compute; reflexivity|]. exact (conj H1 H2).
Defined.

End Reloader.
