(* ===== verification/ConfigText.v ===== *)
(** The text of a raw configuration, as the loader logs it: the String methods
    of apix/config/v1alpha1 and what [fmt] makes of their values. *)

From Stdlib Require Import Strings.Byte String.
From Corelib Require Import SpecFloat.
From S2P Require Import Prelude GoFloat GoValue Envoy Loader.

Local Open Scope string_scope.
Local Open Scope list_scope.

(** ** fmt *)

(** [num / den], rounded to the nearest integer, ties to even. *)
Definition round_half_even (num den : Z) : Z :=
  let q := (num / den)%Z in
  let r := (2 * (num - q * den))%Z in
  if (r <? den)%Z then q
  else if (r =? den)%Z then (if Z.even q then q else q + 1)%Z
  else (q + 1)%Z.

(** A number of millionths, with six decimals. *)
Definition six_decimals (n : Z) : string :=
  let ds := digits n in
  let ds := replicate (7 - length ds) "0"%byte ++ ds in
  b2s (take (length ds - 6) ds ++ "."%byte :: drop (length ds - 6) ds).

(** The verb [%f]. *)
Definition sprintf_f (x : float64) : string :=
  match x with
  | S754_nan => "NaN"
  | S754_infinity s => if s then "-Inf" else "+Inf"
  | S754_zero s => if s then "-0.000000" else "0.000000"
  | S754_finite s m e =>
      let '(num, den) := f_num_den m e in
      (if s then "-" else "") +:+ six_decimals (round_half_even (num * 1000000) den)
  end.

(** The verb [%v] of a slice whose elements print as [f] says. *)
Definition sprintf_slice {A} (f : A → string) (l : list A) : string :=
  "[" +:+ String.concat " " (f <$> l) +:+ "]".

(** What [fmt] prints when the String method of an operand panics. *)
Definition panicked : string :=
  "%!v(PANIC=String method: runtime error: invalid memory address or nil pointer dereference)".

Definition sprintf_v_of {A} (String_ : A → res string) (a : A) : string :=
  match String_ a with Ok s => s | Panic _ => panicked end.

(** ** The String methods *)

Definition PluginRef_String (pr : PluginRef) : string :=
  match ref_Weight pr with
  | Some w => "{PluginRef: " +:+ ref_name pr +:+ ", Weight: " +:+ sprintf_f w +:+ "}"
  | None => "{PluginRef: " +:+ ref_name pr +:+ "}"
  end.

Definition PluginRefList_String (prl : list PluginRef) : string :=
  let contents := match prl with
                  | [] => ""
                  | _ => "Plugins: " +:+ sprintf_slice PluginRef_String prl
                  end in
  "{" +:+ contents +:+ "}".

Definition PluginSpec_String (ps : PluginSpec) : string :=
  let parts :=
    (if negb (String.eqb (spec_Name ps) "") then ["Name: " +:+ spec_Name ps] else []) ++
    ["Type: " +:+ spec_Type ps] ++
    match spec_Parameters ps with [] => [] | p => ["Parameters: " +:+ b2s p] end in
  "{" +:+ String.concat ", " parts +:+ "}".

(** [prof.Plugins] is dereferenced: a profile without plugins panics. *)
Definition Profile_String (prof : RawProfile) : res string :=
  match raw_Plugins prof with
  | None => Panic "invalid memory address or nil pointer dereference"
  | Some ps =>
      let request := match raw_Request ps with
                     | [] => "" | l => "Request: " +:+ sprintf_slice PluginRef_String l end in
      let response := match raw_Response ps with
                      | [] => "" | l => "Response: " +:+ sprintf_slice PluginRef_String l end in
      let plugins := if negb (String.eqb request "") && negb (String.eqb response "")
                     then request +:+ ", " +:+ response else request +:+ response in
      let parts := ("Name: " +:+ raw_Name prof) ::
                   (if String.eqb plugins "" then [] else ["Plugins: {" +:+ plugins +:+ "}"]) in
      Ok ("{" +:+ String.concat ", " parts +:+ "}")
  end.

(** [DatalayerConfig] has no String method: [fmt] prints the pointer's struct. *)
Definition DatalayerConfig_v (d : DatalayerConfig) : string :=
  "&{" +:+ String.concat " " (sprintf_slice PluginRef_String <$>
             [Collectors d; Extractors d; Datasources d]) +:+ "}".

Definition optional {A} (label : string) (f : A → string) (x : option A) : string :=
  match x with Some a => ", " +:+ label +:+ ": " +:+ f a | None => "" end.

Definition PayloadProcessorConfig_String (cfg : PayloadProcessorConfig) : string :=
  "{" +:+ "Plugins: " +:+ sprintf_slice PluginSpec_String (cfg_Plugins cfg)
  +:+ optional "PreProcessing" PluginRefList_String (cfg_PreProcessing cfg)
  +:+ optional "ProfilePicker" PluginRef_String (cfg_ProfilePicker cfg)
  +:+ ", Profiles: " +:+ sprintf_slice (sprintf_v_of Profile_String) (cfg_Profiles cfg)
  +:+ optional "PostProcessing" PluginRefList_String (cfg_PostProcessing cfg)
  +:+ optional "Datalayer" DatalayerConfig_v (cfg_Datalayer cfg) +:+ "}".

(** ** What the text shows *)

(** Logging a configuration never panics, also when a profile has no plugins
    section - which the loader refuses only after it has logged it. *)
Example profile_without_plugins :
  PayloadProcessorConfig_String
    {| cfg_Plugins := []; cfg_PreProcessing := None; cfg_ProfilePicker := None;
       cfg_Profiles := [{| raw_Name := "p"; raw_Plugins := None |}]; cfg_PostProcessing := None;
       cfg_Datalayer := None |} = "{Plugins: [], Profiles: [" +:+ panicked +:+ "]}".
Proof. vm_compute. reflexivity. Qed.

Example weighted_reference :
  PluginRefList_String [{| ref_name := "a"; ref_Weight := Some f_half |}; named "b"] =
    "{Plugins: [{PluginRef: a, Weight: 0.500000} {PluginRef: b}]}".
Proof. vm_compute. reflexivity. Qed.
