(* ===== verification/Feedback.v ===== *)
(** The feedback loop across components: the events the processor
    (pkg/datalayer/processor.go) hands to the request metadata extractor
    (plugins/datalayer/requestmetadata) become the counts the in-flight scorer
    (plugins/modelselector/scorer/inflightrequests) reads from the store. *)

From Stdlib Require Import String.
From S2P Require Import Prelude GoFloat GoValue Envoy Message World Datalayer Extractors.
From S2P Require Import ModelSelector SelectorPlugins Processor.

Local Open Scope string_scope.
Local Open Scope list_scope.

Section feedback.
Context {W : Type} `{TD : TDigest} `{WW : !World W} `{DS : !Datastore W} `{MO : MapOrder} `{GA : GoArch}.
Import RequestMetadata.

(** What the rest of the program may do to the store between two events: it
    keeps it well formed and does not touch the in-flight counts. *)
Definition undisturbed (s s' : W) : Prop :=
  store_ok s →
  store_ok s' ∧ ∀ m, attr s' m RequestMetadataAttributeKey = attr s m RequestMetadataAttributeKey.

(** The extractor and the store after the events so far, each a batch of its
    own as [eventLoop] delivers them, anything undisturbing in between. *)
Inductive feed (es : RequestMetadataExtractor * W) : list Event → RequestMetadataExtractor → W → Prop :=
| feed_start : feed es [] es.1 es.2
| feed_event evs e s ev : feed es evs e s →
    feed es (evs ++ [ev]) (Extract e s [ev]).1 (Extract e s [ev]).2
| feed_other evs e s s' : feed es evs e s → undisturbed s s' → feed es evs e s'.

Lemma feed_spec e0 s0 evs e s :
  store_ok s0 → feed (e0, s0) evs e s →
  store_ok s ∧ counters e = (foldl count_event (counters e0, ∅) evs).1 ∧
  ∀ m, m ≠ "" → attr s m RequestMetadataAttributeKey =
    if mentions m evs then Some (CRequestMetadataCount (default zero_count (counters e !! m)))
    else attr s0 m RequestMetadataAttributeKey.
Proof.
  intros Hok0. induction 1 as [|evs e s ev _ (Hok & Hc & Ha)|evs e s s' _ (Hok & Hc & Ha) Hu].
  - done.
  - split_and!; [by apply Extract_ok| |].
    + rewrite Extract_counters, foldl_app, Hc.
      destruct (foldl count_event (counters e0, ∅) evs) as [cs u]. apply count_events_fst.
    + intros m Hm. rewrite Extract_attr, Ha by done. unfold mentions. rewrite existsb_app.
      destruct (existsb _ [ev]) eqn:Eev; [by rewrite orb_true_r|]. rewrite orb_false_r.
      destruct (existsb _ evs); [|done]. do 3 f_equal. rewrite Extract_counters.
      symmetry. apply (count_events_untouched [ev] (counters e, ∅) m Hm Eev).
  - destruct (Hu Hok) as [Hok' Hat]. split_and!; [done..|]. intros m Hm. by rewrite Hat, Ha.
Qed.

(** The request cost extractor, the other consumer of the events, is one of
    those: it writes cost digests and creates models. *)
Lemma flush_model_undisturbed f t st (s : W) m :
  undisturbed s (RequestCost.flush_model f t (st, s) m).2.
Proof.
  intros Hok. unfold RequestCost.flush_model. simpl. destruct (st !! m) as [acc|]; [|by split].
  destruct (RequestCost.due f t acc); [|by split]. simpl.
  set (v := CCostDigest _). split; [by apply publish_spec|]. intros m'.
  pose proof (attr_publish_all CostDigestAttributeKey [(m, v)] s m' RequestMetadataAttributeKey Hok) as H.
  simpl in H. rewrite H by (done || apply NoDup_singleton). by destruct (_ !! m').
Qed.

Lemma undisturbed_trans (s1 s2 s3 : W) : undisturbed s1 s2 → undisturbed s2 s3 → undisturbed s1 s3.
Proof.
  intros H1 H2 Hok. destruct (H1 Hok) as [Hok2 Ha]. destruct (H2 Hok2) as [Hok3 Hb].
  split; [done|]. intros m. by rewrite Hb.
Qed.

Lemma cost_extractor_undisturbed now e (s : W) events :
  undisturbed s (RequestCost.Extract now e s events).2.
Proof.
  intros Hok. unfold RequestCost.Extract.
  destruct (RequestCost.extract_events_spec (RequestCost.compression e) now s
    {| RequestCost.b_state := RequestCost.state e; RequestCost.b_store := s; RequestCost.updated := ∅;
       RequestCost.tokenPricesCache := ∅ |} events) as (Hb & _ & _); [by split|].
  set (b := foldl _ _ events) in *. pose proof (RequestCost.bi_ok _ _ Hb) as Hokb.
  assert (∀ ms st s, undisturbed s
    (foldl (RequestCost.flush_model (RequestCost.flushInterval e) now) (st, s) ms).2) as Hf.
  { induction ms as [|m ms IH]; intros st s1; [done|]. simpl.
    pose proof (flush_model_undisturbed (RequestCost.flushInterval e) now st s1 m) as H1.
    destruct (RequestCost.flush_model _ _ _ _) as [st2 s2]. by eapply undisturbed_trans. }
  specialize (Hf (range_set (RequestCost.updated b)) (RequestCost.b_state b) _ Hokb).
  destruct (foldl _ (RequestCost.b_state b, _) _) as [st' s']. simpl in *.
  destruct Hf as [Hok' Ha]. split; [done|]. intros m. rewrite Ha. apply (RequestCost.bi_attr _ _ Hb).
Qed.

(** What the scorer counts for a model of the store. *)
Lemma inflightRequestCount_attr (w : W) n m :
  store_ok w → current w n m →
  inflightRequestCount w m =
    match attr w n RequestMetadataAttributeKey ≫= as_request_count with
    | Some c => Requests c | None => 0%Z end.
Proof.
  intros Hok Hc. destruct (current_view _ _ _ Hok Hc) as [_ Hv].
  unfold inflightRequestCount, attr, Get. rewrite Hv. simpl.
  destruct (GetAttributes w m !! RequestMetadataAttributeKey) as [v|]; [|done]. by destruct v.
Qed.

Lemma in_flight_unmentioned n evs : mentions n evs = false → in_flight n evs = (0, 0)%Z.
Proof.
  unfold in_flight, mentions. induction evs as [|ev evs IH] using rev_ind; [done|].
  rewrite existsb_app, foldl_app. simpl. rewrite orb_false_r. intros [Hevs Hev]%orb_false_iff.
  rewrite IH by done. unfold observe. by destruct (about n ev).
Qed.

(** The store the feed leaves, read by the scorer. *)
Lemma feed_counts B name s evs e s' n m :
  store_ok s → (∀ n, attr s n RequestMetadataAttributeKey = None) →
  feed (WithName NewRequestMetadataExtractor name, s) evs e s' →
  (1 ≤ B)%Z → bounded_tokens B evs → (Z.of_nat (length evs) * B ≤ max_int64)%Z →
  current s' n m → n ≠ "" →
  inflightRequestCount s' m = (in_flight n evs).1 ∧
  (0 ≤ inflightRequestCount s' m ≤ Z.of_nat (length evs))%Z.
Proof.
  intros Hok Hnew Hf HB Hb Hlen Hc Hn. destruct (feed_spec _ _ _ _ _ Hok Hf) as (Hok' & Hcs & Ha).
  destruct (counts_in_flight B evs n Hn HB Hb Hlen) as (Heq & H1 & _).
  rewrite (inflightRequestCount_attr _ n) by done. rewrite Ha by done.
  destruct (mentions n evs) eqn:Em; simpl.
  - rewrite Hcs, <- Heq. simpl. by split.
  - rewrite Hnew, in_flight_unmentioned by done. simpl. lia.
Qed.

(** C7: the scorer sees what was accepted. Take any state the processor can
    reach without a [RegisterExtractor] that wrote its list after [Start], any of
    its extractors as the request metadata extractor, and any store that starts
    without counts and is otherwise only changed in ways that leave the counts
    alone. Then the models in that store are counted by the accepted events, all
    but those this extractor waits for: the one in the event loop's hand, if the
    extractor has not had it, and those in the buffer. The in-flight scorer's
    count of a model is the number of its requests in flight by these events, in
    exact arithmetic; so a candidate with the fewest requests in flight scores 1,
    and one with the most scores 0 unless all have as many. *)
Theorem scorer_sees_accepted_events B name p i (w : W) e w' :
  reachable p → registered_in_time (log p) = true → (i < extractors p)%nat →
  store_ok w → (∀ n, attr w n RequestMetadataAttributeKey = None) →
  feed (WithName NewRequestMetadataExtractor name, w) (extracted i (log p)) e w' →
  (1 ≤ B)%Z → bounded_tokens B (accepted (log p)) →
  (Z.of_nat (length (accepted (log p))) * B ≤ max_int64)%Z →
  (Z.of_nat (length (accepted (log p))) < 2 ^ 53)%Z →
  accepted (log p) = extracted i (log p) ++ waiting i p ∧
    ∀ ms, Forall (λ m, ∃ n, current w' n m ∧ n ≠ "") ms →
    let load m := (in_flight (GetName w' m) (extracted i (log p))).1 in
    Forall (λ m, inflightRequestCount w' m = load m) ms ∧
    ∀ m, m ∈ ms →
      (Forall (λ m', load m ≤ load m')%Z ms → Inflight_scores w' ms !! m = Some f1) ∧
      (Forall (λ m', load m' ≤ load m)%Z ms → Exists (λ m', load m' ≠ load m) ms →
       Inflight_scores w' ms !! m = Some f0).
Proof.
  intros Hp Ht Hi Hok Hnew Hf HB Hb Hlen H53. pose proof (accepted_split p i Hp Ht Hi) as Ha.
  split; [done|]. set (d := extracted i (log p)) in *. intros ms Hms load.
  rewrite Ha in Hb, Hlen, H53. apply Forall_app in Hb as [Hb _]. rewrite length_app in Hlen, H53.
  destruct (feed_spec _ _ _ _ _ Hok Hf) as (Hok' & _).
  assert (Forall (λ m, inflightRequestCount w' m = load m ∧ 0 ≤ inflightRequestCount w' m < 2 ^ 53)%Z ms)
    as Hall.
  { eapply Forall_impl; [exact Hms|]. intros m (n & Hc & Hn). unfold load.
    rewrite (proj1 (current_view _ _ _ Hok' Hc)).
    destruct (feed_counts B name w d e w' n m Hok Hnew Hf HB Hb) as [-> ?]; [nia|done..|].
    split; [done|]. lia. }
  apply Forall_and in Hall as [Hload Hrange]. split; [done|]. intros m Hm.
  rewrite Forall_forall in Hload.
  destruct (inflight_scorer_extremes w' ms m Hrange Hm) as (_ & H1 & H0). split.
  - intros Hmin. apply H1. rewrite Forall_forall in Hmin |- *. intros m' Hm'.
    rewrite !Hload by done. auto.
  - intros Hmax (m' & Hm' & Hne)%Exists_exists. apply H0.
    + rewrite Forall_forall in Hmax |- *. intros m2 Hm2. rewrite !Hload by done. auto.
    + apply Exists_exists. exists m'. by rewrite !Hload.
Qed.
End feedback.
