(* ===== verification/Exchanges.v ===== *)
(** Many streams at once: the exchanges (a request and its response, each one
    stream of pkg/handlers/server.go's [Process]) that the gRPC server handles
    concurrently over one world, and what the data layer learns of them.

    A round of a stream is one step; rounds of different streams interleave in
    any order, the messages of a stream come in any order too, and in between
    the rest of the program changes the world as it likes, short of notifying
    events itself. An event holds the request as it is when the event is
    notified, although the program notifies a pointer to it:
    [events_hold_the_request] says when that is the same, which is always but
    for a response that is notified before its request. The theorems that count
    the requests in flight therefore leave such streams out
    ([requests_first]). *)

From Stdlib Require Import String.
From S2P Require Import Prelude GoFloat GoValue Envoy Message World Handlers ServerProofs Datalayer Extractors.
From S2P Require Import ModelSelector SelectorPlugins Processor Feedback.

Local Open Scope string_scope.
Local Open Scope list_scope.

(** ** Sums over the exchanges *)

Definition zsum {A} (f : A → Z) (l : list A) : Z := foldr (λ x, Z.add (f x)) 0%Z l.

Lemma zsum_app {A} (f : A → Z) l l' : zsum f (l ++ l') = (zsum f l + zsum f l')%Z.
Proof. induction l as [|x l IH]; simpl; [done|]. rewrite IH. lia. Qed.

Lemma zsum_insert {A} (f : A → Z) l i x y :
  l !! i = Some x → zsum f (<[i:=y]> l) = (zsum f l - f x + f y)%Z.
Proof.
  revert i. induction l as [|z l IH]; intros [|i]; simpl; [done..| |].
  - intros [= ->]. lia.
  - intros Hi. rewrite (IH _ Hi). lia.
Qed.

Lemma zsum_nonneg {A} (f : A → Z) l : Forall (λ x, 0 ≤ f x)%Z l → (0 ≤ zsum f l)%Z.
Proof. induction 1; simpl; [done|lia]. Qed.

Lemma zsum_elem {A} (f : A → Z) l i x :
  Forall (λ x, 0 ≤ f x)%Z l → l !! i = Some x → (0 ≤ f x ≤ zsum f l)%Z.
Proof.
  intros Hf. revert i. induction Hf as [|z l Hz Hf IH]; intros [|i]; simpl; [done..| |];
    pose proof (zsum_nonneg _ _ Hf).
  - intros [= ->]. lia.
  - intros Hi. specialize (IH _ Hi). lia.
Qed.

Lemma zsum_count {A} (f : A → Z) (p : A → bool) l :
  Forall (λ x, f x = if p x then 1 else 0)%Z l → zsum f l = Z.of_nat (length (List.filter p l)).
Proof. induction 1 as [|x l Hx _ IH]; simpl; [done|]. rewrite Hx, IH. destruct (p x); simpl; lia. Qed.

(** ** The streams of a server *)

Section exchanges.
Context {W : Type} `{WW : !World W} `{MO : !MapOrder} `{JT : !JsonText} `{GS : !GrpcStatus}.
Context (s : Server W).

(** A stream: the variables of its [Process], whether that has not returned
    yet, and the events it has notified. *)
Record Exchange :=
  { ex_stream : Stream W; ex_running : bool; ex_log : list Event }.

Definition new_exchange : Exchange :=
  {| ex_stream := NewStream s; ex_running := true; ex_log := [] |}.

Definition round_exchange (w : W) (x : Exchange) (r : Round) : res (W * Exchange) :=
  '(w', st, _, ret) ← process_step s w (ex_stream x) r;
  Ok (w', {| ex_stream := st;
             ex_running := match ret with None => true | Some _ => false end;
             ex_log := ex_log x ++ drop (length (notified w)) (notified w') |}).

(** The messages of a stream come in any order. *)
Inductive serves (w0 : W) : W → list Exchange → Prop :=
| serves_start : serves w0 w0 []
| serves_accept w xs : serves w0 w xs → serves w0 w (xs ++ [new_exchange])
| serves_round w xs i x r w' x' :
    serves w0 w xs → xs !! i = Some x → ex_running x = true →
    round_exchange w x r = Ok (w', x') → serves w0 w' (<[i:=x']> xs)
| serves_other w xs w' : serves w0 w xs → notified w' = notified w → serves w0 w' xs.

(** ** How far an exchange is *)

Definition request_of (st : Stream W) : InferenceRequest := Request (reqCtx st).

(** What an exchange has notified: nothing; its request, and then its response;
    or its response alone, when that ended first, and then its request. The
    request that these events point to is the stream's own: nothing changes its
    body once it has been parsed, and an early response is notified before. *)
Inductive progress (running : bool) (st : Stream W) : list Event → Prop :=
| progress_idle :
    responseBodyComplete st = false → (requestBodyComplete st = true → running = false) →
    (requestBodyComplete st = false → Body (request_of st) = Body NewInferenceRequest) →
    progress running st []
| progress_open rq cs :
    requestBodyComplete st = true → responseBodyComplete st = false →
    Body rq = Body (request_of st) → progress running st [RequestEvent rq cs]
| progress_closed rq cs rq' rsp cs' d t :
    requestBodyComplete st = true → responseBodyComplete st = true →
    Body rq = Body (request_of st) → Body rq' = Body (request_of st) →
    progress running st [RequestEvent rq cs; ResponseEvent rq' rsp cs' d t]
| progress_early rq' rsp cs' d t :
    responseBodyComplete st = true → (requestBodyComplete st = true → running = false) →
    (requestBodyComplete st = false → Body (request_of st) = Body NewInferenceRequest) →
    Body rq' = Body NewInferenceRequest → progress running st [ResponseEvent rq' rsp cs' d t]
| progress_late rq cs rq' rsp cs' d t :
    requestBodyComplete st = true → responseBodyComplete st = true →
    Body rq' = Body NewInferenceRequest → Body rq = Body (request_of st) →
    progress running st [ResponseEvent rq' rsp cs' d t; RequestEvent rq cs].

(** Nothing but the bodies' completion and the request's body matters. *)
Lemma progress_same b b' st st' L :
  (requestBodyComplete st = true → b = false → b' = false) →
  requestBodyComplete st' = requestBodyComplete st →
  responseBodyComplete st' = responseBodyComplete st →
  Body (request_of st') = Body (request_of st) → progress b st L → progress b' st' L.
Proof.
  intros Hb H1 H2 H3 Hp. destruct Hp.
  - apply progress_idle; [congruence| |]; rewrite H1; intros E; [auto|rewrite H3; auto].
  - apply progress_open; congruence.
  - apply progress_closed; congruence.
  - apply progress_early; [congruence| | |done]; rewrite H1; intros E; [auto|rewrite H3; auto].
  - apply progress_late; congruence.
Qed.

Definition exchange_ok (x : Exchange) : Prop :=
  quiet_ctx (reqCtx (ex_stream x)) ∧ progress (ex_running x) (ex_stream x) (ex_log x).

(** *** The response handlers leave the request alone *)

Lemma HandleResponseBody_request w c body w' c' r :
  HandleResponseBody s w c body = Ok (w', c', r) → Request c' = Request c.
Proof.
  unfold HandleResponseBody. destruct (Profile_of c) as [p|]; [|done].
  destruct (negb _ && negb _); [by intros [= _ <- _]|].
  destruct (json_unmarshal_map _ _) as [b []]; [by intros [= _ <- _]|].
  intros E. apply mbind_Ok in E as ([[[w1 cs1] rsp1] [e1|]] & _ & E); [by injection E as _ <- _|].
  apply mbind_Ok in E as ([[[w2 cs2] rsp2] [e2|]] & _ & E); [by injection E as _ <- _|].
  revert E. unfold finishResponse. destruct (if BodyMutated _ then _ else _); intros [= _ <- _]; [|done].
  by destruct (BodyMutated _).
Qed.

Lemma HandleResponseChunk_request w c body eos w' c' r :
  HandleResponseChunk w c body eos = Ok (w', c', r) → Request c' = Request c.
Proof.
  unfold HandleResponseChunk, buildStreamedChunkResponse. destruct (Profile_of c) as [p|]; [|done].
  destruct (ResponseChunkProcessors p) as [|cp cps]; [by destruct (ResponseHeadersSent c); intros [= _ <- _]|].
  intros E. apply mbind_Ok in E as ([[[w1 cs1] rsp1] [e1|]] & _ & E); [by injection E as _ <- _|].
  revert E. simpl. by destruct (ResponseHeadersSent c); intros [= _ <- _].
Qed.

Lemma HandleResponseHeaders_request w c h w' c' r :
  HandleResponseHeaders s w c h = Ok (w', c', r) → Request c' = Request c.
Proof.
  unfold HandleResponseHeaders. intros E.
  apply mbind_Ok in E as ([[[w1 cs1] rsp1] [e1|]] & _ & E); by injection E as _ <- _.
Qed.

Lemma complete_response_request w c w' c' :
  complete_response s w c = Ok (w', c') → Request c' = Request c.
Proof.
  unfold complete_response, notify. destruct (now w) as [t w1].
  destruct (hasNotifier s); [|done]. by intros [= _ <-].
Qed.

(** *** A round *)

Definition still {A} (r : A + goerror) : bool := match r with inl _ => true | inr _ => false end.

Lemma on_request_body_progress w st body eos w' st' r L :
  quiet_server s → quiet_ctx (reqCtx st) → progress true st L →
  on_request_body s w st body eos = Ok (w', st', r) →
  ∃ new, notified w' = notified w ++ new ∧ progress (still r) st' (L ++ new).
Proof.
  intros Hs Hc Hp. unfold on_request_body. destruct (requestBodyComplete st) eqn:E1.
  { intros [= <- <- <-]. exists []. by rewrite !app_nil_r. }
  destruct eos; simpl.
  - intros E. apply mbind_Ok in E as ([[w1 c1] r1] & H1 & [= -> <- ->]).
    apply (HandleRequestBody_events _ _ _ _ _ _ _ Hs Hc) in H1 as [_ Hn].
    eexists. split; [exact Hn|].
    destruct Hp as [E2 _ _| | |rq' rsp cs' d t E2 _ _ Hb|]; [|congruence..| |congruence].
    + destruct r as [rs|e]; [by apply progress_open|by apply progress_idle].
    + destruct r as [rs|e]; [by apply progress_late|by apply progress_early].
  - intros [= <- <- <-]. exists []. rewrite !app_nil_r. split; [done|].
    by eapply (progress_same true); [..|exact Hp].
Qed.

Lemma on_response_body_progress w st body eos w' st' r L :
  quiet_server s → quiet_ctx (reqCtx st) → progress true st L →
  on_response_body s w st body eos = Ok (w', st', r) →
  ∃ new, notified w' = notified w ++ new ∧ progress (still r) st' (L ++ new).
Proof.
  intros Hs Hc Hp. unfold on_response_body. destruct (responseBodyComplete st) eqn:E1.
  { intros [= <- <- <-]. exists []. by rewrite !app_nil_r. }
  destruct (if (_ =? 0)%Z then _ else _) as [c1 w1] eqn:Et.
  assert (quiet_ctx c1 ∧ notified w1 = notified w ∧ Request c1 = request_of st) as (Hc1 & Hn1 & Hr1).
  { revert Et. destruct (_ =? 0)%Z; [|by intros [= <- <-]].
    pose proof (notified_now w) as En. destruct (now w) as [t w2]. by intros [= <- <-]. }
  clear Et. destruct (Profile_of c1) as [p|]; [|done].
  destruct (NeedsResponseBuffering p && negb eos).
  { intros [= <- <- <-]. exists []. rewrite !app_nil_r. split; [done|].
    eapply (progress_same true); [..|exact Hp]; [done..|]. unfold request_of in *. simpl. by rewrite Hr1. }
  intros E. apply mbind_Ok in E as ([[w2 c2] r2] & H2 & E).
  assert (quiet_ctx c2 ∧ notified w2 = notified w1 ∧ Request c2 = Request c1) as (Hc2 & Hn2 & Hr2).
  { destruct (NeedsResponseBuffering p).
    - pose proof (HandleResponseBody_request _ _ _ _ _ _ H2).
      by apply (HandleResponseBody_events _ _ _ _ _ _ _ Hs Hc1) in H2 as [? ?].
    - pose proof (HandleResponseChunk_request _ _ _ _ _ _ _ H2).
      by apply (HandleResponseChunk_events _ _ _ _ _ _ _ Hc1) in H2 as [? ?]. }
  apply mbind_Ok in E as ([w3 c3] & H3 & [= -> <- ->]). destruct eos.
  - pose proof (complete_response_request _ _ _ _ H3) as Hr3.
    apply (complete_response_events _ _ _ _ _ Hc2) in H3 as (_ & d & t & Hn3).
    eexists. split; [rewrite Hn3, Hn2, Hn1; reflexivity|].
    destruct Hp as [_ Hf Hi|rq cs Hr _ Hb| | |];
      [|by apply progress_closed; unfold request_of in *; simpl in *; congruence|congruence..].
    assert (requestBodyComplete st = false) as Hr
      by (destruct (requestBodyComplete st); [by specialize (Hf eq_refl)|done]).
    specialize (Hi Hr). apply progress_early; unfold request_of in *; simpl in *; congruence.
  - injection H3 as <- <-. exists []. rewrite !app_nil_r. split; [congruence|].
    eapply (progress_same true); [..|exact Hp]; [done..|]. unfold request_of in *; simpl in *; congruence.
Qed.

Lemma dispatch_progress w st m h w' st' r L :
  quiet_server s → quiet_ctx (reqCtx st) → progress true st L →
  dispatch s w st m = Some h → h = Ok (w', st', r) →
  ∃ new, notified w' = notified w ++ new ∧ progress (still r) st' (L ++ new).
Proof.
  intros Hs Hc Hp.
  assert (∀ w1 c (r : list ProcessingResponse + goerror), notified w1 = notified w → Body (Request c) = Body (request_of st) →
    ∃ new, notified w1 = notified w ++ new ∧ progress (still r) (with_ctx st c) (L ++ new)) as Hsame.
  { intros w1 c r1 Hn Hr. exists []. rewrite !app_nil_r. split; [done|].
    by eapply (progress_same true); [..|exact Hp]. }
  destruct m as [hs|b e| |hs|b e| |]; simpl.
  - unfold HandleRequestHeaders. pose proof (notified_now w) as En. destruct (now w) as [t w1].
    intros [= <-] [= <- <- <-]. apply (Hsame _ _ (inl _)); [done|].
    unfold capture_headers. by destruct hs as [[[hl|] ?]|].
  - intros [= <-]. by apply on_request_body_progress.
  - intros [= <-] [= <- <- <-]. by apply (Hsame _ _ (inl _)).
  - intros [= <-] E. apply mbind_Ok in E as ([[w1 c1] r1] & H1 & [= -> <- ->]).
    apply Hsame; [|by rewrite (HandleResponseHeaders_request _ _ _ _ _ _ H1)].
    apply mbind_Ok in H1 as ([[[w2 cs2] rsp2] e2] & H2 & H1).
    apply (runResponseHeadersProcessors_preserves (λ w1 _, notified w1 = notified w) _
      (stable_notified _) (quiet_loop _ _ _ (qs_hdr _ Hs)) _ _ _ _ _ _ _ eq_refl) in H2.
    by destruct e2; injection H1 as <- _ _.
  - intros [= <-]. by apply on_response_body_progress.
  - intros [= <-] [= <- <- <-]. by apply (Hsame _ _ (inl _)).
  - done.
Qed.

Lemma process_step_progress w st rd w' st' sent ret L :
  quiet_server s → quiet_ctx (reqCtx st) → progress true st L →
  process_step s w st rd = Ok (w', st', sent, ret) →
  ∃ new, notified w' = notified w ++ new ∧
    progress (match ret with None => true | Some _ => false end) st' (L ++ new).
Proof.
  intros Hs Hc Hp. unfold process_step.
  assert (∀ b, ∃ new, notified w = notified w ++ new ∧ progress b st (L ++ new)) as Hsame.
  { intros b. exists []. rewrite !app_nil_r. split; [done|]. by eapply (progress_same true); [..|exact Hp]. }
  destruct (ctx_done rd); [by intros [= <- <- _ <-]|].
  destruct (received rd) as [m| | |e] eqn:Er; [|by intros [= <- <- _ <-]..].
  destruct (dispatch s w st m) as [h|] eqn:Ed; [|by intros [= <- <- _ <-]].
  intros E. apply mbind_Ok in E as ([[w1 st1] o] & H1 & E).
  destruct (dispatch_progress _ _ _ _ _ _ _ _ Hs Hc Hp Ed H1)
    as (new & Hn & Hp1).
  assert (∀ b, (still o = false → b = false) → progress b st1 (L ++ new)) as Hany.
  { intros b Hb. eapply progress_same; [|done..|exact Hp1]. auto. }
  exists new. destruct o as [rs|e].
  - destruct (send_all (send_ok rd) 0 rs) as [sent1 ok]. injection E as <- <- _ <-. split; [done|by apply Hany].
  - destruct (BuildErrResponse e); [destruct (send_ok rd 0)|]; injection E as <- <- _ <-;
      (split; [done|by apply Hany]).
Qed.

Lemma round_exchange_ok w x rd w' x' :
  quiet_server s → exchange_ok x → ex_running x = true →
  round_exchange w x rd = Ok (w', x') →
  exchange_ok x' ∧ ∃ new, notified w' = notified w ++ new ∧ ex_log x' = ex_log x ++ new.
Proof.
  intros Hs [Hc Hp] Hrun E. rewrite Hrun in Hp.
  apply mbind_Ok in E as ([[[w1 st1] sent] ret] & H1 & [= -> <-]).
  destruct (process_step_progress _ _ _ _ _ _ _ _ Hs Hc Hp H1) as (new & Hn & Hp1).
  assert (quiet_ctx (reqCtx st1)) as Hq.
  { eapply (process_step_inv (notified w)); [exact Hs| |exact H1]. split; [done|]. exists []. rewrite app_nil_r.
    split_and!; [done|apply Nat.le_0_l|apply Nat.le_0_l|constructor]. }
  rewrite Hn, drop_app_length. split; [by split|]. by exists new.
Qed.

Lemma new_exchange_ok : quiet_server s → exchange_ok new_exchange.
Proof.
  intros Hs. split; [|by apply progress_idle].
  intros p [= <-]. apply (qs_empty _ Hs).
Qed.

(** *** What the exchanges amount to *)

Context `{GA : !GoArch}.
Import RequestMetadata.

(** The stream did not notify its response before its request. *)
Definition requests_first (log : list Event) : bool :=
  match log with ResponseEvent _ _ _ _ _ :: _ => false | _ => true end.

(** The load of one exchange on a model: its requests and its tokens, from when
    its request is notified until its response is. *)
Definition load (n : string) (log : list Event) : Z * Z :=
  match log with
  | [RequestEvent _ _ as e] => match about n e with Some (_, t) => (1, t) | None => (0, 0) end
  | _ => (0, 0)
  end%Z.

Lemma about_response n rq cs rq' rsp cs' d t :
  Body rq = Body rq' →
  about n (ResponseEvent rq' rsp cs' d t) = prod_map (λ _, false) id <$> about n (RequestEvent rq cs).
Proof.
  intros Hb. simpl. unfold body_string, body_float, body_lookup. rewrite Hb.
  by destruct (String.eqb _ n).
Qed.

Lemma observe_request n rq cs a b :
  observe n (a, b) (RequestEvent rq cs) = ((a + (load n [RequestEvent rq cs]).1)%Z, (b + (load n [RequestEvent rq cs]).2)%Z).
Proof. unfold observe, load. simpl. destruct (String.eqb _ n); simpl; f_equal; lia. Qed.

Lemma observe_response n rq cs rq' rsp cs' d t a b :
  Body rq = Body rq' →
  let l := load n [RequestEvent rq cs] in
  (l.1 ≤ a)%Z → (l.2 ≤ b)%Z → (0 ≤ a)%Z → (0 ≤ b)%Z →
  observe n (a, b) (ResponseEvent rq' rsp cs' d t) = ((a - l.1)%Z, (b - l.2)%Z).
Proof.
  intros Hb. unfold observe, load. rewrite (about_response n rq cs) by done. simpl.
  destruct (String.eqb _ n); simpl; intros; f_equal; lia.
Qed.

(** A round changes the totals by what it changes in its exchange. *)
Lemma observe_progress n b b' st st' log new x y :
  progress b st log → progress b' st' (log ++ new) → requests_first (log ++ new) = true →
  (0 ≤ (load n log).1 ≤ x)%Z → (0 ≤ (load n log).2 ≤ y)%Z → Forall (λ e, 0 ≤ (load n [e]).2)%Z new →
  foldl (observe n) (x, y) new =
    (x - (load n log).1 + (load n (log ++ new)).1, y - (load n log).2 + (load n (log ++ new)).2)%Z.
Proof.
  assert (∀ l : Z * Z, (x, y) = (x - l.1 + l.1, y - l.2 + l.2)%Z) as Hid by (intros l; f_equal; lia).
  intros Hp Hp' Hfirst Hx Hy Hnew.
  destruct Hp as [|rq cs _ _ Hb|rq cs rq' rsp cs' d t _ _ _ _|rq' rsp cs' d t|rq cs rq' rsp cs' d t];
    [| | |discriminate Hfirst..].
  - simpl in Hp', Hfirst. destruct Hp' as [|rq cs|rq cs rq' rsp cs' d t _ _ Hb Hb'| |]; [..|discriminate Hfirst|discriminate Hfirst];
      simpl app; cbn [foldl].
    + apply (Hid (0, 0)%Z).
    + rewrite observe_request. simpl. f_equal; lia.
    + apply Forall_inv in Hnew. assert (0 ≤ (load n [RequestEvent rq cs]).1)%Z
        by (unfold load; by destruct (about n _) as [[]|]).
      rewrite observe_request, (observe_response n rq cs) by (congruence || simpl in *; lia). simpl. f_equal; lia.
  - destruct new as [|e new]; [apply Hid|]. simpl app in Hp'.
    inversion Hp' as [| |rq1 cs1 rq' rsp cs' d t H1 H2 Hb1 Hb1' [E1 E2]| |]; subst. cbn [foldl].
    rewrite (observe_response n rq cs) by (congruence || lia). simpl. f_equal; lia.
  - destruct new as [|e new]; [apply Hid|]. simpl app in Hp'. inversion Hp'.
Qed.

Lemma load_bounds B n log : bounded_tokens B log → (0 ≤ (load n log).1)%Z ∧ (0 ≤ (load n log).2)%Z.
Proof.
  unfold load. destruct log as [|[rq cs|rq rsp cs d t|x y] [|e' log]]; try done. intros He%Forall_inv.
  destruct (about n (RequestEvent rq cs)) as [[b t]|] eqn:E; [|done]. destruct (He _ _ _ E). simpl. lia.
Qed.

Lemma requests_first_insert xs i x x' new :
  xs !! i = Some x → ex_log x' = ex_log x ++ new →
  Forall (λ x, requests_first (ex_log x) = true) (<[i:=x']> xs) →
  Forall (λ x, requests_first (ex_log x) = true) xs ∧ requests_first (ex_log x') = true.
Proof.
  intros Hi Hlog Hf. assert (requests_first (ex_log x') = true) as Hx'.
  { eapply (proj1 (Forall_lookup _ _) Hf i). by eapply list_lookup_insert_eq, lookup_lt_Some. }
  split; [|done]. rewrite <- (list_insert_id _ _ _ Hi), <- (list_insert_insert_eq xs i x x').
  apply Forall_insert; [done|]. rewrite Hlog in Hx'. by destruct (ex_log x) as [|[] ?].
Qed.

(** What holds of all the streams of the server, at any time. *)
Lemma serves_ok w0 w xs :
  quiet_server s → serves w0 w xs →
  Forall exchange_ok xs ∧ ∃ L, notified w = notified w0 ++ L ∧
    ∀ B, bounded_tokens B L →
      Forall (λ x, bounded_tokens B (ex_log x)) xs ∧
      (Forall (λ x, requests_first (ex_log x) = true) xs →
        ∀ n, in_flight n L = (zsum (λ x, (load n (ex_log x)).1) xs, zsum (λ x, (load n (ex_log x)).2) xs)).
Proof.
  intros Hs. induction 1 as [|w xs _ (Hok & L & HL & HB)|w xs i x r w' x' _ (Hok & L & HL & HB) Hi Hr E
    |w xs w' _ (Hok & L & HL & HB) E].
  - split; [constructor|]. exists []. rewrite app_nil_r. split; [done|]. by intros B _.
  - split; [apply Forall_app; split; [done|]; by constructor; [apply new_exchange_ok|]|].
    exists L. split; [done|]. intros B Hb. destruct (HB B Hb) as [Hbs Hn]. split.
    + apply Forall_app. split; [done|]. by apply Forall_singleton, Forall_nil.
    + intros [Hf _]%Forall_app n. by rewrite !zsum_app, Hn, !Z.add_0_r by done.
  - pose proof (proj1 (Forall_lookup _ _) Hok _ _ Hi) as Hx.
    destruct (round_exchange_ok _ _ _ _ _ Hs Hx Hr E) as (Hx' & new & Hn & Hlog).
    split; [by apply Forall_insert|]. exists (L ++ new). rewrite Hn, HL, app_assoc. split; [done|].
    intros B [Hb Hbn]%Forall_app. destruct (HB B Hb) as [Hbs Hfl].
    pose proof (proj1 (Forall_lookup _ _) Hbs _ _ Hi) as Hbx. split.
    + apply Forall_insert; [done|]. rewrite Hlog. by apply Forall_app.
    + intros Hfirst n. destruct (requests_first_insert _ _ _ _ _ Hi Hlog Hfirst) as [Hf0 Hf1].
      rewrite !(zsum_insert _ _ _ _ _ Hi), Hlog. unfold in_flight. rewrite foldl_app.
      fold (in_flight n L). rewrite (Hfl Hf0). destruct Hx as [_ Hp], Hx' as [_ Hp']. rewrite Hlog in Hp', Hf1.
      apply (observe_progress n _ _ _ _ _ _ _ _ Hp Hp' Hf1).
      * apply (zsum_elem (λ x, (load n (ex_log x)).1) _ i); [|done].
        eapply Forall_impl; [exact Hbs|]. intros z Hz. by apply (load_bounds B n).
      * apply (zsum_elem (λ x, (load n (ex_log x)).2) _ i); [|done].
        eapply Forall_impl; [exact Hbs|]. intros z Hz. by apply (load_bounds B n).
      * eapply Forall_impl; [exact Hbn|]. intros e He. apply (load_bounds B n [e]). by apply Forall_singleton.
  - split; [done|]. exists L. rewrite E. by split.
Qed.

(** The exchanges that wait for a response of a model: their request - for that
    model, whatever it was for at first - was notified, their response was not. *)
Definition awaits (n : string) (x : Exchange) : bool :=
  match ex_log x with
  | [RequestEvent _ _] => String.eqb (body_string (request_of (ex_stream x)) "model") n
  | _ => false
  end.

Lemma load_awaits n x : exchange_ok x → (load n (ex_log x)).1 = (if awaits n x then 1 else 0)%Z.
Proof.
  intros [_ Hp]. unfold awaits. destruct Hp as [|rq cs _ _ Hb| | |]; try done. simpl.
  unfold body_string, body_lookup. rewrite Hb. by destruct (String.eqb _ n).
Qed.

(** C22: which body the events of a stream hold. An event carries pointers to
    the stream's request, and the data layer reads its body later, when the event
    loop gets to it. However the rounds of however many streams interleave and
    in whatever order their messages come, a stream has at any time notified one
    of five things. Nothing. Its request: the event holds the body that the
    stream's request has now. Its request and then its response: both hold that
    body. Its response only, which ended first: the event holds the body of a
    request that nothing was parsed into, and so does the stream's request until
    its own body has ended. Or that response and then its request: the request's
    event holds the body that the request has now, the response's the one from
    before it was parsed. So what an event points to has changed since, at most,
    for a response that was notified before its request. *)
Theorem events_hold_the_request w0 w xs :
  quiet_server s → serves w0 w xs →
  Forall (λ x, let now := Body (Request (reqCtx (ex_stream x))) in
    match ex_log x with
    | [] => responseBodyComplete (ex_stream x) = false
    | [RequestEvent rq _] => Body rq = now
    | [RequestEvent rq _; ResponseEvent rq' _ _ _ _] => Body rq = now ∧ Body rq' = now
    | [ResponseEvent rq' _ _ _ _] => Body rq' = Body NewInferenceRequest ∧
        (requestBodyComplete (ex_stream x) = false → Body rq' = now)
    | [ResponseEvent rq' _ _ _ _; RequestEvent rq _] =>
        Body rq' = Body NewInferenceRequest ∧ Body rq = now
    | _ => False
    end) xs.
Proof.
  intros Hs Hw. destruct (serves_ok _ _ _ Hs Hw) as [Hok _]. eapply Forall_impl; [exact Hok|].
  intros x [_ Hp]. destruct Hp as [| | |rq' rsp cs' d t _ _ Hi Hb|]; try done.
  split; [done|]. intros Hr. unfold request_of in Hi. rewrite (Hi Hr). exact Hb.
Qed.

Context `{TD : !TDigest} `{DS : !Datastore W}.

(** Load is the number of open exchanges. Let any number of streams run
    concurrently, their rounds interleaved in any order, and let a fresh request
    metadata extractor see the events they notify, in order and in any batches,
    over a store that has no counts yet. Then the load the in-flight scorer reads for
    a model is exactly the number of streams that have notified a request for
    it and not yet its response - provided that no stream notified its response
    before its request. A stream that ended in between is one of them, for ever:
    nothing takes its count back. *)
Theorem load_is_open_exchanges B name w0 w xs L (s0 : W) e s1 n m :
  quiet_server s → serves w0 w xs → Forall (λ x, requests_first (ex_log x) = true) xs →
  notified w = notified w0 ++ L →
  store_ok s0 → (∀ n, attr s0 n RequestMetadataAttributeKey = None) →
  feed (WithName NewRequestMetadataExtractor name, s0) L e s1 →
  (1 ≤ B)%Z → bounded_tokens B L → (Z.of_nat (length L) * B ≤ max_int64)%Z →
  current s1 n m → n ≠ "" →
  inflightRequestCount s1 m = Z.of_nat (length (List.filter (awaits n) xs)).
Proof.
  intros Hs Hw Hfirst HL Hok Hnew Hf HB Hb Hlen Hc Hn.
  destruct (serves_ok _ _ _ Hs Hw) as (Hx & L' & HL' & Hcount).
  rewrite HL in HL'. apply app_inv_head in HL' as <-. destruct (Hcount B Hb) as [_ Hfl]. specialize (Hfl Hfirst).
  destruct (feed_counts B name s0 L e s1 n m) as [-> _]; [done..|]. rewrite Hfl. simpl.
  apply zsum_count. eapply Forall_impl; [exact Hx|]. intros x. apply load_awaits.
Qed.

(** ** Responses that are streamed *)

(** A plugin of the response path that does not write the body. *)
Definition keeps_body (f : W → CycleState → InferenceResponse → called W InferenceResponse) : Prop :=
  ∀ b, call_preserves (λ _ m, Body (rmsg m) = b) f.

Definition streaming_profile (p : Profile W) : Prop :=
  NeedsResponseBuffering p = false ∧
  Forall (λ p, ∀ fin, keeps_body (λ w cs m, ProcessResponseChunk p w cs m fin)) (ResponseChunkProcessors p).

(** No profile asks for a response to be buffered - which the loader decides by
    whether there are response plugins. *)
Record streaming_server : Prop :=
  { ss_hdr : Forall (λ p, keeps_body (ProcessResponseHeaders p)) (responseHeadersPostProcessors s);
    ss_empty : streaming_profile (emptyProfile s);
    ss_pick : ∀ pp w cs m w' cs' m' p e, profilePicker s = Some pp →
      PickProfile pp w cs m (profiles s) = Ok (w', cs', m', (Some p, e)) → streaming_profile p }.

Definition streaming_ctx (c : RequestContext W) : Prop :=
  (∀ p, Profile_of c = Some p → streaming_profile p) ∧ Body (rmsg (Response c)) = Some ∅.

(** An event that tells nothing about what a response used. *)
Definition uncosted (e : Event) : Prop :=
  match e with ResponseEvent _ rsp _ _ _ => Body (rmsg rsp) = Some ∅ | _ => True end.

Lemma uncosted_sample v e : uncosted e → RequestCost.sample_of v e = None.
Proof.
  destruct e as [|rq rsp cs d t|]; [done| |done]. simpl. intros Hb.
  destruct (body_lookup rq "model" ≫= as_string) as [m|]; [|done]. simpl. destruct (String.eqb m ""); [done|].
  destruct (RequestCost.price_of v m) as [tp|]; [|done]. simpl.
  unfold RequestCost.extractTokenCounts, body_lookup. by rewrite Hb.
Qed.

Context (Hquiet : quiet_server s) (Hstream : streaming_server).

Lemma HandleRequestBody_streaming w c body w' c' r :
  streaming_ctx c → HandleRequestBody s w c body = Ok (w', c', r) → streaming_ctx c'.
Proof using Hstream.
  intros [Hp Hb] E. apply mbind_Ok in E as ([[w1 c1] e1] & H1 & E).
  assert (streaming_ctx c1) as Hc1.
  { revert H1. unfold prepareRequest. destruct (json_unmarshal_map _ _) as [b []]; [by intros [= _ <- _]|].
    intros E1. apply mbind_Ok in E1 as ([[[w2 cs2] rq2] [e2|]] & _ & E1); [by injection E1 as _ <- _|].
    destruct (profilePicker s) as [pp|] eqn:Epp; [|done].
    apply mbind_Ok in E1 as ([[[w3 cs3] rq3] [p e3]] & H3 & E1).
    assert (∀ q, p = Some q → streaming_profile q) as Hq.
    { intros q ->. by eapply (ss_pick Hstream). }
    destruct e3; [by injection E1 as _ <- _|]. destruct p as [p|]; [|done].
    apply mbind_Ok in E1 as ([[[w4 cs4] rq4] e4] & _ & E1). by injection E1 as _ <- _. }
  destruct e1; [by injection E as _ <- _|].
  by apply finishRequest_ok in E as [(_ & -> & _)|(out & t & -> & _ & _ & _)].
Qed.

Lemma HandleResponseHeaders_streaming w c h w' c' r :
  streaming_ctx c → HandleResponseHeaders s w c h = Ok (w', c', r) → streaming_ctx c'.
Proof using Hstream.
  intros [Hp Hb] E. apply mbind_Ok in E as ([[[w1 cs1] rsp1] e1] & H1 & E).
  apply (runResponseHeadersProcessors_preserves (λ _ m, Body (rmsg m) = Some ∅)) in H1; [|done| |].
  - by destruct e1; injection E as _ <- _.
  - eapply Forall_impl; [apply (ss_hdr Hstream)|]. intros p Hk. apply Hk.
  - simpl. rewrite <- Hb. unfold capture_headers. by destruct h as [[[hl|] ?]|].
Qed.

Lemma HandleResponseChunk_streaming w c body eos w' c' r :
  streaming_ctx c → HandleResponseChunk w c body eos = Ok (w', c', r) → streaming_ctx c'.
Proof.
  intros [Hp Hb]. unfold HandleResponseChunk, buildStreamedChunkResponse.
  destruct (Profile_of c) as [p|] eqn:Ep; [|done]. destruct (Hp p eq_refl) as [_ Hch].
  destruct (ResponseChunkProcessors p) as [|cp cps] eqn:Ec.
  { destruct (ResponseHeadersSent c); intros [= _ <- _]; (split; simpl; [by rewrite Ep|done]). }
  intros E. apply mbind_Ok in E as ([[[w1 cs1] rsp1] e1] & H1 & E).
  apply (runResponseChunkProcessors_preserves (λ _ m, Body (rmsg m) = Some ∅)) in H1; [|done| |done].
  - destruct e1; [injection E as _ <- _; split; simpl; [by rewrite Ep|done]|].
    revert E. simpl. destruct (ResponseHeadersSent c); intros [= _ <- _]; (split; simpl; [by rewrite Ep|done]).
  - eapply Forall_impl; [exact Hch|]. intros q Hk. apply Hk.
Qed.

Lemma complete_response_streaming w c w' c' :
  streaming_ctx c → complete_response s w c = Ok (w', c') →
  streaming_ctx c' ∧ ∃ new, notified w' = notified w ++ new ∧ Forall uncosted new.
Proof.
  intros [Hp Hb]. unfold complete_response, notify.
  pose proof (notified_now w) as En. destruct (now w) as [t w1]. simpl in En.
  destruct (hasNotifier s); [|done]. intros [= <- <-]. split; [by split|]. eexists.
  rewrite notified_Notify. unfold RecordRequestTTFT. rewrite notified_record, En.
  split; [done|]. by apply Forall_singleton.
Qed.

Lemma on_response_body_streaming w st body eos w' st' r :
  quiet_ctx (reqCtx st) → streaming_ctx (reqCtx st) → on_response_body s w st body eos = Ok (w', st', r) →
  streaming_ctx (reqCtx st') ∧ ∃ new, notified w' = notified w ++ new ∧ Forall uncosted new.
Proof using Hquiet Hstream.
  intros Hq Hc. unfold on_response_body. destruct (responseBodyComplete st).
  { intros [= <- <- <-]. split; [done|]. exists []. by rewrite app_nil_r. }
  destruct (if (_ =? 0)%Z then _ else _) as [c1 w1] eqn:Et.
  assert (quiet_ctx c1 ∧ streaming_ctx c1 ∧ notified w1 = notified w) as (Hq1 & Hc1 & <-).
  { revert Et. destruct (_ =? 0)%Z; [|by intros [= <- <-]].
    pose proof (notified_now w) as En. destruct (now w) as [t w2]. by intros [= <- <-]. }
  destruct (Profile_of c1) as [p|] eqn:Ep; [|done]. destruct (proj1 Hc1 _ Ep) as [-> _]. simpl.
  intros E. apply mbind_Ok in E as ([[w2 c2] r2] & H2 & E).
  pose proof (HandleResponseChunk_streaming _ _ _ _ _ _ _ Hc1 H2) as Hc2.
  apply (HandleResponseChunk_events _ _ _ _ _ _ _ Hq1) in H2 as [_ <-].
  apply mbind_Ok in E as ([w3 c3] & H3 & [= -> <- ->]). destruct eos.
  - by apply (complete_response_streaming _ _ _ _ Hc2) in H3.
  - injection H3 as -> ->. split; [done|]. exists []. by rewrite app_nil_r.
Qed.

Lemma process_step_streaming w st rd w' st' sent ret :
  quiet_ctx (reqCtx st) → streaming_ctx (reqCtx st) → process_step s w st rd = Ok (w', st', sent, ret) →
  streaming_ctx (reqCtx st') ∧ ∃ new, notified w' = notified w ++ new ∧ Forall uncosted new.
Proof using Hquiet Hstream.
  intros Hq Hc. assert (∃ new, notified w = notified w ++ new ∧ Forall uncosted new) as Hnone
    by (exists []; by rewrite app_nil_r).
  unfold process_step. destruct (ctx_done rd); [by intros [= <- <- _ _]|].
  destruct (received rd) as [m| | |e]; [|by intros [= <- <- _ _]..].
  destruct (dispatch s w st m) as [h|] eqn:Ed; [|by intros [= <- <- _ _]].
  intros E. apply mbind_Ok in E as ([[w1 st1] o] & H1 & E).
  assert (w1 = w' ∧ st1 = st') as [-> ->].
  { destruct o as [rs|e]; [destruct (send_all _ _ _)|destruct (BuildErrResponse e); [destruct (send_ok rd 0)|]];
      by injection E as <- <- _ _. }
  clear E. destruct m as [hs|b e| |hs|b e| |]; simpl in Ed; try (injection Ed as <-); try done.
  - unfold HandleRequestHeaders in Ed. pose proof (notified_now w) as En. destruct (now w) as [t w1].
    simpl in En. injection Ed as <-. injection H1 as <- <- _. rewrite En. by split.
  - revert H1. unfold on_request_body. destruct (requestBodyComplete st); [by intros [= <- <- _]|].
    destruct e; simpl; [|by intros [= <- <- _]].
    intros H1. apply mbind_Ok in H1 as ([[w2 c2] r2] & H2 & [= <- <- _]).
    split; [by eapply HandleRequestBody_streaming|].
    apply (HandleRequestBody_events _ _ _ _ _ _ _ Hquiet Hq) in H2 as [_ Hn].
    eexists. split; [exact Hn|]. destruct r2; by repeat constructor.
  - by injection H1 as <- <- _.
  - apply mbind_Ok in H1 as ([[w2 c2] r2] & H2 & [= -> <- _]).
    split; [by eapply HandleResponseHeaders_streaming|].
    apply mbind_Ok in H2 as ([[[w3 cs3] rsp3] e3] & H3 & H2).
    apply (runResponseHeadersProcessors_preserves (λ w1 _, notified w1 = notified w) _
      (stable_notified _) (quiet_loop _ _ _ (qs_hdr _ Hquiet)) _ _ _ _ _ _ _ eq_refl) in H3 as Hn.
    by destruct e3; injection H2 as <- _ _; rewrite Hn.
  - by apply (on_response_body_streaming _ _ _ _ _ _ _ Hq Hc) in H1.
  - by injection H1 as <- <- _.
Qed.

Lemma serves_streaming w0 w xs :
  serves w0 w xs →
  Forall (λ x, streaming_ctx (reqCtx (ex_stream x))) xs ∧
  ∃ L, notified w = notified w0 ++ L ∧ Forall uncosted L.
Proof using GA Hquiet Hstream.
  induction 1 as [|w xs _ (Hc & L & HL & Hu)|w xs i x r w' x' Hw (Hc & L & HL & Hu) Hi Hr E
    |w xs w' _ (Hc & L & HL & Hu) E].
  - split; [constructor|]. exists []. by rewrite app_nil_r.
  - split; [|by exists L]. apply Forall_app. split; [done|]. apply Forall_singleton. split; [|done].
    intros p [= <-]. apply (ss_empty Hstream).
  - pose proof (proj1 (Forall_lookup _ _) Hc _ _ Hi) as Hx.
    pose proof (proj1 (Forall_lookup _ _) (proj1 (serves_ok _ _ _ Hquiet Hw)) _ _ Hi) as [Hq _].
    apply mbind_Ok in E as ([[[w1 st1] sent] ret] & H1 & [= -> <-]).
    destruct (process_step_streaming _ _ _ _ _ _ _ Hq Hx H1) as (Hx1 & new & Hn & Hun).
    split; [by apply Forall_insert|]. exists (L ++ new). rewrite Hn, HL, app_assoc.
    split; [done|]. by apply Forall_app.
  - split; [done|]. exists L. by rewrite E.
Qed.

(** C23: streamed responses are never costed. A server whose profiles do not
    buffer responses parses no response body - the loader buffers only for
    response plugins - so the events of all its streams hold no usage: whatever
    batch of them the cost extractor is given, it takes no sample, and no
    model's cost digest changes. *)
Theorem streamed_responses_are_not_costed w0 w xs L batch now e (s0 : W) :
  serves w0 w xs → notified w = notified w0 ++ L → batch ⊆ L → store_ok s0 →
  RequestCost.digest <$> RequestCost.state (RequestCost.Extract now e s0 batch).1 =
    RequestCost.digest <$> RequestCost.state e ∧
  ∀ m, attr (RequestCost.Extract now e s0 batch).2 m CostDigestAttributeKey = attr s0 m CostDigestAttributeKey.
Proof using GA Hquiet Hstream.
  intros Hw HL Hb Hok. destruct (serves_streaming _ _ _ Hw) as (_ & L' & HL' & Hu).
  rewrite HL in HL'. apply app_inv_head in HL' as <-. apply RequestCost.Extract_no_samples; [done|].
  clear HL. induction batch as [|ev batch IH]; [done|]. simpl.
  rewrite uncosted_sample; [apply IH; set_solver|]. rewrite Forall_forall in Hu. apply Hu. set_solver.
Qed.
End exchanges.

(** ** Running exchanges *)

Section run.
Context {W : Type} `{WW : !World W} `{MO : !MapOrder} `{JT : !JsonText} `{GS : !GrpcStatus}.
Context (s : Server W).

(** Delivering a round to the [i]-th stream that is running. *)
Definition serve (wx : W * list Exchange) (ir : nat * Round) : option (W * list Exchange) :=
  match wx.2 !! ir.1 with
  | Some x =>
      if ex_running x then
        match round_exchange s wx.1 x ir.2 with
        | Ok (w', x') => Some (w', <[ir.1:=x']> wx.2)
        | Panic _ => None
        end
      else None
  | None => None
  end.

Fixpoint serve_all (wx : W * list Exchange) (rounds : list (nat * Round)) : option (W * list Exchange) :=
  match rounds with
  | [] => Some wx
  | ir :: rounds => wx' ← serve wx ir; serve_all wx' rounds
  end.

Lemma serve_all_serves w0 w xs rounds wx' :
  serves s w0 w xs → serve_all (w, xs) rounds = Some wx' → serves s w0 wx'.1 wx'.2.
Proof.
  revert w xs. induction rounds as [|[i r] rounds IH]; intros w xs Hs; simpl; [by intros [= <-]|].
  unfold serve. simpl. destruct (xs !! i) as [x|] eqn:Ei; [|done].
  destruct (ex_running x) eqn:Er; [|done].
  destruct (round_exchange s w x r) as [[w' x']|] eqn:E; [|done]. simpl. apply IH. by eapply serves_round.
Qed.

Lemma serves_new w0 n : serves s w0 w0 (replicate n (new_exchange s)).
Proof.
  induction n as [|n IH]; [constructor|]. rewrite replicate_S_end. by apply serves_accept.
Qed.
End run.
