(* ===== verification/Drift.v ===== *)
(** Streams, processor, extractor and scorer together: how far the load that the
    in-flight scorer reads may be from the number of open exchanges, when the
    processor has events to deliver yet and has dropped some. *)

From Stdlib Require Import String.
From S2P Require Import Prelude GoFloat GoValue Envoy Message World Handlers ServerProofs.
From S2P Require Import Datalayer Extractors ModelSelector SelectorPlugins Processor.
From S2P Require Import Feedback Exchanges.

Local Open Scope string_scope.
Local Open Scope list_scope.

(** ** What the processor was offered *)





(** ** Missing events

    Taking an event into account moves two counts no further apart, and one
    count by one at most. *)

Section drift.
Context `{GA : !GoArch}.
Import RequestMetadata.




End drift.

Section composed.
Context {W : Type} `{WW : !World W} `{MO : !MapOrder} `{JT : !JsonText} `{GS : !GrpcStatus}.
Context `{GA : !GoArch} `{TD : !TDigest} `{DS : !Datastore W} (s : Server W).
Import RequestMetadata.


End composed.
