(* ===== verification/InTree.v ===== *)
(** The servers that a configuration can load with the factories the runner
    registers: what they are made of, and that the plugins of the repository
    satisfy what the theorems on pkg/handlers ask of a server's plugins. *)

From Stdlib Require Import String.
From S2P Require Import Prelude GoFloat GoValue Envoy Message World Handlers ServerProofs ServerSpec.
From S2P Require Import ServerSafety BodyProofs Adapters Datalayer Extractors ModelSelector Pickers SelectorPlugins.
From S2P Require Import SelectorProofs RequestPlugins Processor Loader LoaderProofs Exchanges.

Local Open Scope string_scope.
Local Open Scope list_scope.

(** Random draws and the session cache do not notify events. *)
Class QuietEnv (W : Type) `{!World W} `{!Rand W} `{!SessionCache W} : Prop := {
  notified_uint64n n (w : W) : notified (uint64n n w).2 = notified w;
  notified_Float64 (w : W) : notified (Float64 w).2 = notified w;
  notified_lru_Get c k (w : W) : notified (lru_Get c k w).2 = notified w;
  notified_lru_Add c k v (w : W) : notified (lru_Add c k v w) = notified w;
  notified_uuid_New (w : W) : notified (uuid_New w).2 = notified w
}.

Section in_tree.
Context {W : Type} `{TD : TDigest} `{WW : !World W} `{DS : !Datastore W} `{MO : MapOrder}
  `{RD : !Rand W} `{MP : MathPow} `{PQ : PdqSort} `{SC : !SessionCache W}
  `{FS : Extractors.ModelConfig.Files W} `{SS : !StoreStable W}.
Context (adapters : W → AdaptersStore) (complete : W → W * option goerror).

(** ** What a server is made of *)

(** A part of a model selector that returns whatever it is called with; a picker
    is called with at least one model, and picks one. *)
Definition total_part (x : Filter W + Scorer W + Picker W) : Prop :=
  match x with
  | inl (inl f) => ∀ w cs m ms, ∃ w' cs' m' ms', runFilter f w cs m ms = Ok (w', cs', m', ms')
  | inl (inr s) => ∀ w cs m ms, ∃ w' cs' m' sc, runScore s w cs m ms = Ok (w', cs', m', sc)
  | inr k => ∀ w cs sms, sms ≠ [] → ∃ w' cs' p, runPick k w cs sms = Ok (w', cs', Some {| TargetModel := Some p |})
  end.

(** The cost scorer, which is not registered, is none of them. *)
Definition in_tree_part (x : Filter W + Scorer W + Picker W) : Prop := repository_plugin x ∧ total_part x.

Definition in_tree_pipeline (p : ModelSelectorPipeline W) : Prop :=
  Forall (λ f, in_tree_part (inl (inl f))) (filters p) ∧
  Forall (λ s, in_tree_part (inl (inr (ws_Scorer s)))) (scorers p) ∧
  ∀ k, picker p = Some k → in_tree_part (inr k).

Lemma in_tree_repository p : in_tree_pipeline p → repository_pipeline p.
Proof.
  intros (Hf & Hs & Hk). split_and!.
  - eapply Forall_impl; [exact Hf|]. by intros f [].
  - eapply Forall_impl; [exact Hs|]. by intros s [].
  - intros k Ek. apply (Hk k Ek).
Qed.

(** A request processor that is not a model selector. *)
Definition in_tree_direct (q : RequestProcessor W) : Prop :=
  (∃ b, q = BodyFieldToHeader.processor_of b) ∨ ∃ n, q = BaseModelToHeaderPlugin adapters n.

Definition in_tree_processor (q : RequestProcessor W) : Prop :=
  in_tree_direct q ∨ ∃ n p, q = ModelSelectorPlugin n p ∧ in_tree_pipeline p.

Definition in_tree_response (r : ResponseProcessor W) : Prop :=
  ∃ c, r = SessionAffinity.processor_of c.

Record in_tree_profile (p : Profile W) : Prop :=
  { itp_request : Forall in_tree_processor (RequestPlugins p);
    itp_response : Forall in_tree_response (ResponsePlugins p);
    itp_chunks : ResponseChunkProcessors p = [] }.

Record in_tree_server (s : Server W) : Prop :=
  { its_pre : Forall in_tree_processor (preProcessors s);
    its_picker pp : profilePicker s = Some pp → ∃ n, pp = SingleProfile.SingleProfilePicker n;
    its_profiles : map_Forall (λ _, in_tree_profile) (profiles s);
    its_buffering n p : profiles s !! n = Some p →
      NeedsResponseBuffering p = true ↔ ResponsePlugins p ≠ [] ∨ postProcessors s ≠ [];
    its_post : Forall in_tree_response (postProcessors s);
    its_headers : Forall (λ h, ∃ q, h = ModelNameToHeader.processor_of q) (responseHeadersPostProcessors s);
    its_empty : emptyProfile s = NewProfile;
    its_notifier : hasNotifier s = true }.

(** ** What the factories make *)

Record in_tree_plugin (p : AnyPlugin W) : Prop :=
  { it_request q : as_request p = Some (Direct q) → in_tree_direct q;
    it_response r : as_response p = Some r → in_tree_response r;
    it_chunk : as_chunk p = None;
    it_headers h : as_headers p = Some h → ∃ q, h = ModelNameToHeader.processor_of q;
    it_picker pp : as_profile_picker p = Some pp → ∃ n, pp = SingleProfile.SingleProfilePicker n;
    it_filter f : as_filter (as_selector p) = Some f → in_tree_part (inl (inl f));
    it_scorer sc : as_scorer (as_selector p) = Some sc → in_tree_part (inl (inr sc));
    it_pick k : as_picker (as_selector p) = Some k → in_tree_part (inr k) }.

Definition in_tree (s : Loading W) : Prop :=
  map_Forall (λ _, in_tree_plugin) (plugins s) ∧ map_Forall (λ _, in_tree_pipeline) (pipelines s).

Lemma in_tree_AddPlugin n p s : in_tree_plugin p → in_tree s → in_tree (AddPlugin n p s).
Proof. intros Hp [H1 H2]. split; [by apply map_Forall_insert_2|done]. Qed.

Lemma new_pipeline : in_tree_pipeline NewModelSelectorPipeline.
Proof. by split_and!; [constructor..|]. Qed.

(** *** None of the registered parts panics *)

Lemma first_model_total {A} (f : A → Ptr) (l l' : list A) :
  l ≡ₚ l' → l' ≠ [] → ∃ p, first_model (f <$> l) = Ok {| TargetModel := Some p |}.
Proof.
  intros Hp Hne. destruct l as [|x l]; [by apply Permutation_nil_l in Hp|]. by exists (f x).
Qed.

Lemma random_total n : total_part (inr (RandomPicker n)).
Proof.
  intros w cs sms Hne. simpl. unfold Random_Pick. pose proof (ShuffleScoredModels_perm w sms) as Hp.
  destruct (ShuffleScoredModels w sms) as [w1 l]. simpl in Hp.
  destruct (first_model_total sm_Model l sms Hp Hne) as [p ->]. by eexists _, _, _.
Qed.

Lemma max_score_total n : total_part (inr (MaxScorePicker n)).
Proof.
  intros w cs sms Hne. simpl. unfold MaxScore_Pick. pose proof (ShuffleScoredModels_perm w sms) as Hp.
  destruct (ShuffleScoredModels w sms) as [w1 l]. simpl in Hp.
  destruct (first_model_total sm_Model (SortStableFunc compare_scores l) sms) as [p ->]; [|done|by eexists _, _, _].
  etransitivity; [apply insertion_sort_perm|done].
Qed.

Lemma weighted_random_total n : total_part (inr (WeightedRandomPicker n)).
Proof.
  intros w cs sms Hne. simpl. unfold WeightedRandom_Pick.
  destruct (negb _); [by apply (random_total n)|]. pose proof (assign_keys_models w sms) as Hm.
  destruct (assign_keys w sms) as [w1 l]. simpl in Hm.
  destruct (first_model_total (λ k, sm_Model (wm_model k)) (SortFunc compare_keys l) l) as [p ->];
    [apply SortFunc_perm|by intros ->; destruct sms|by eexists _, _, _].
Qed.

Lemma session_total c : total_part (inl (inr (SessionAffinity.scorer_of c))).
Proof.
  intros w cs m ms. simpl. unfold SessionAffinity.runScore. destruct (String.eqb _ ""); [by eexists _, _, _, _|].
  destruct (lru_Get _ _ w) as [[prev|] w1]; by eexists _, _, _, _.
Qed.

Lemma group_total n : total_part (inl (inl (ModelGroupFilter n))).
Proof. intros w cs m ms. by eexists _, _, _, _. Qed.
Lemma inflight_total n : total_part (inl (inr (InflightRequestsScorer n))).
Proof. intros w cs m ms. by eexists _, _, _, _. Qed.
Lemma costguard_total c : total_part (inl (inr (CostGuard.scorer_of c))).
Proof. intros w cs m ms. by eexists _, _, _, _. Qed.

(** A plugin implements few interfaces: the others are nil. *)
Ltac one_interface :=
  split; simpl; (done || (intros ? [= <-]; try (split; [constructor|]);
    eauto using group_total, inflight_total, costguard_total, session_total, random_total, max_score_total,
      weighted_random_total)).

Definition in_tree_factory (f : FactoryFunc W) : Prop := ∀ n b s s' r,
  f n b s = Ok (s', r) → in_tree s → in_tree s' ∧ ∀ p, r = inl p → in_tree_plugin p.

Lemma in_tree_factories :
  factories_make (registerInTreePlugins adapters complete) in_tree in_tree_plugin.
Proof.
  assert (map_Forall (λ _, in_tree_factory) (registerInTreePlugins adapters complete)) as H.
  { apply (registered_all in_tree_factory); [apply map_Forall_empty|].
    repeat (apply Forall_cons_2); try apply Forall_nil_2; intros n b s s' r H Hs; simpl in H.
    all: try (injection H as <- <-; split; [exact Hs|intros p Hp]).
    all: try (injection Hp as <-; one_interface).
    all: try (match type of Hp with context [match ?x with _ => _ end] => destruct x; [injection Hp as <-|discriminate Hp] end;
      one_interface).
    - left. by eexists.
    - unfold BaseModelToHeaderPluginFactory in H. destruct (complete (world s)) as [w [e|]];
        injection H as <- <-; (split; [exact Hs|intros p Hp; try done]).
      injection Hp as <-. one_interface. right. by eexists.
    - injection H as <- <-. split; [|intros p [= <-]; one_interface].
      split; [apply Hs|]. apply map_Forall_insert_2; [apply new_pipeline|apply Hs].
    - by eexists. }
  intros ty f n b s s' r Hf. by apply (H ty f Hf).
Qed.

(** ** What is built of them *)

Definition in_tree_request (r : LoadedRequest W) : Prop :=
  match r with Direct q => in_tree_direct q | Selector _ _ => True end.

Definition in_tree_object (o : PluginObject W) : Prop :=
  match o with
  | Plain q => ∃ p, in_tree_plugin p ∧ q = as_selector p
  | Weighted w => ∃ p, in_tree_plugin p ∧ ws_plugin w = as_selector p ∧
                       as_scorer (as_selector p) = Some (ws_Scorer w)
  end.

Record in_tree_loaded (p : LoadedProfile W) : Prop :=
  { itl_request : Forall in_tree_request (lp_Request p);
    itl_response : Forall in_tree_response (lp_Response p);
    itl_chunks : lp_Chunks p = [];
    itl_selector : Forall in_tree_object (lp_Selector p) }.

Lemma GetPlugin_in_tree s n p : in_tree s → GetPlugin s n = Some p → in_tree_plugin p.
Proof. intros [H _] Hp. by apply (H n p). Qed.

Lemma in_tree_request_of p r : in_tree_plugin p → as_request p = Some r → in_tree_request r.
Proof. intros Hp Hr. destruct r as [q|]; [|done]. by apply (it_request p Hp). Qed.

Lemma Forall2_image {A B} (P : A → B → Prop) (Q : B → Prop) l k :
  Forall2 P l k → (∀ x y, P x y → Q y) → Forall Q k.
Proof. induction 1; constructor; eauto. Qed.

Lemma Forall_lefts {A B} (P : A → Prop) (l : list (A + B)) :
  Forall (λ x, ∀ a, x = inl a → P a) l → Forall P (lefts l).
Proof. induction 1 as [|[a|b] l Hx _ IH]; simpl; [constructor|by constructor; [apply Hx|]|done]. Qed.

Lemma Forall_rights {A B} (P : B → Prop) (l : list (A + B)) :
  Forall (λ x, ∀ b, x = inr b → P b) l → Forall P (rights l).
Proof. induction 1 as [|[a|b] l Hx _ IH]; simpl; [constructor|done|by constructor; [apply Hx|]]. Qed.

Lemma place_request_in_tree s ref x :
  in_tree s → place_request s ref = inl x →
  match x with inl r => in_tree_request r | inr o => in_tree_object o end.
Proof.
  intros Hs. unfold place_request. intros (p & Hp%need_inl & H)%bind_inl.
  apply (GetPlugin_in_tree _ _ _ Hs) in Hp. destruct (as_request p) as [r|] eqn:Er.
  { injection H as <-. by eapply in_tree_request_of. }
  destruct (as_scorer (as_selector p)) as [sc|] eqn:Es.
  - apply bind_inl in H as (wt & _ & [= <-]). exists p. by split_and!.
  - destruct (_ || _); [|done]. injection H as <-. by exists p.
Qed.

Lemma place_response_in_tree s ref x :
  in_tree s → place_response s ref = inl x → ∃ r, x = inl r ∧ in_tree_response r.
Proof.
  intros Hs. unfold place_response. intros (p & Hp%need_inl & H)%bind_inl.
  apply (GetPlugin_in_tree _ _ _ Hs) in Hp. rewrite (it_chunk p Hp) in H.
  destruct (as_response p) as [r|] eqn:Er; [|done]. injection H as <-.
  exists r. split; [done|]. by apply (it_response p Hp).
Qed.

Lemma buildProfile_in_tree s raw p : in_tree s → buildProfile s raw = inl p → in_tree_loaded p.
Proof.
  intros Hs. unfold buildProfile. intros (u & _ & H)%bind_inl.
  apply bind_inl in H as (ps & _ & H). apply bind_inl in H as (u1 & _ & H).
  apply bind_inl in H as (reqs & Hq%mapM_inl & H). apply bind_inl in H as (rsps & Hr%mapM_inl & H).
  apply bind_inl in H as (u2 & _ & [= <-]). split; simpl.
  - apply Forall_lefts. eapply Forall2_image; [exact Hq|]. simpl. intros ref x Hx a ->.
    by apply (place_request_in_tree _ _ _ Hs) in Hx.
  - apply Forall_lefts. eapply Forall2_image; [exact Hr|]. simpl. intros ref x Hx a ->.
    by apply (place_response_in_tree _ _ _ Hs) in Hx as (r & [= ->] & ?).
  - destruct (rights rsps) as [|cp l] eqn:E; [done|].
    assert (Forall (λ _, False) (rights rsps)) as Hf; [|rewrite E in Hf; by inversion Hf].
    apply Forall_rights. eapply Forall2_image; [exact Hr|]. simpl. intros ref x Hx a ->.
    by apply (place_response_in_tree _ _ _ Hs) in Hx as (r & [=] & ?).
  - apply Forall_rights. eapply Forall2_image; [exact Hq|]. simpl. intros ref x Hx a ->.
    by apply (place_request_in_tree _ _ _ Hs) in Hx.
Qed.

Lemma buildProfiles_in_tree s raws ps :
  in_tree s → buildProfiles s raws = inl ps → map_Forall (λ _, in_tree_loaded) ps.
Proof.
  intros Hs H. assert (build_profiles s raws ∅ = inl ps) as Hb by (by destruct raws). clear H.
  assert (map_Forall (λ _, in_tree_loaded) (∅ : gmap string (LoadedProfile W))) as Hacc by apply map_Forall_empty.
  revert Hacc Hb. generalize (∅ : gmap string (LoadedProfile W)).
  induction raws as [|raw raws IH]; intros acc Hacc; simpl; [by intros [= <-]|].
  intros (p & Hp & H)%bind_inl. eapply IH; [|exact H].
  apply map_Forall_insert_2; [by eapply buildProfile_in_tree|done].
Qed.

(** *** Wiring *)

Lemma AddPlugins_in_tree pl pl' objs :
  Forall in_tree_object objs → in_tree_pipeline pl → AddPlugins pl objs = (pl', None) →
  in_tree_pipeline pl'.
Proof.
  intros Ho (Hf & Hsc & Hk) H. apply AddPlugins_all_or_nothing in H as (Ef & Es & _ & Hp).
  unfold in_tree_pipeline. rewrite Ef, Es.
  assert (∀ o, o ∈ objs → ∃ p, in_tree_plugin p ∧ plugin_of o = as_selector p) as Hpl.
  { intros o Hin. rewrite Forall_forall in Ho. specialize (Ho o Hin).
    destruct o as [q|w]; [destruct Ho as (p & ? & ->)|destruct Ho as (p & ? & E & _)]; by exists p. }
  split_and!.
  - apply Forall_app. split; [done|]. apply Forall_forall. intros f (o & Hin & E)%list_elem_of_omap.
    destruct (Hpl o Hin) as (p & Hp' & Ep). rewrite Ep in E. by apply (it_filter p Hp').
  - apply Forall_app. split; [done|]. apply Forall_forall. intros ws (o & Hin & E)%list_elem_of_omap.
    destruct o as [q|w]; [done|]. injection E as ->. rewrite Forall_forall in Ho.
    destruct (Ho _ Hin) as (p & Hp' & _ & E). by apply (it_scorer p Hp').
  - intros k Ek. rewrite Ek in Hp. simpl in Hp.
    assert (k ∈ option_list (picker pl) ++ omap (λ o, as_picker (plugin_of o)) objs) as Hin
      by (rewrite Hp; by left).
    apply elem_of_app in Hin as [Hin|(o & Hin & E)%list_elem_of_omap].
    + destruct (picker pl) as [k'|]; [|set_solver]. apply list_elem_of_singleton in Hin as ->. by apply Hk.
    + destruct (Hpl o Hin) as (p & Hp' & Ep). rewrite Ep in E. by apply (it_pick p Hp').
Qed.

Definition pipelines_in_tree (s : Loading W) : Prop := map_Forall (λ _, in_tree_pipeline) (pipelines s).

Lemma wire_in_tree objs name ref s :
  Forall in_tree_object objs → pipelines_in_tree s → pipelines_in_tree (wire objs name ref s).1.
Proof.
  intros Ho Hs. unfold wire.
  assert (in_tree_pipeline (default NewModelSelectorPipeline (pipelines s !! ref))) as Hpl.
  { destruct (pipelines s !! ref) as [pl|] eqn:E; [by apply (Hs ref)|apply new_pipeline]. }
  destruct (AddPlugins _ objs) as [pl' [e|]] eqn:E.
  - apply AddPlugins_all_or_nothing in E. simpl in E. subst pl'. by apply map_Forall_insert_2.
  - apply (AddPlugins_in_tree _ _ _ Ho Hpl) in E. apply map_Forall_insert_2; [|done].
    destruct (picker pl') eqn:Ep; [done|]. destruct E as (Hf & Hsc & _).
    split_and!; [done..|]. intros k [= <-]. split; [constructor|apply max_score_total].
Qed.

Lemma wire_requests_in_tree objs reqs s :
  Forall in_tree_object objs → pipelines_in_tree s → pipelines_in_tree (wire_requests objs reqs s).1.
Proof.
  intros Ho. revert s. induction reqs as [|[q|name ref] reqs IH]; intros s Hs; simpl; [done|auto|].
  pose proof (wire_in_tree objs name ref s Ho Hs) as Hw.
  destruct (wire objs name ref s) as [s1 [u|e]]; [|done]. by apply IH.
Qed.

Lemma wire_profiles_in_tree ps s :
  Forall in_tree_loaded ps → pipelines_in_tree s → pipelines_in_tree (wire_profiles ps s).1.
Proof.
  intros Hps. revert s. induction Hps as [|p ps Hp _ IH]; intros s Hs; simpl; [done|].
  pose proof (wire_requests_in_tree (lp_Selector p) (lp_Request p) s (itl_selector p Hp) Hs) as Hw.
  destruct (wire_requests _ _ s) as [s1 [u|e]]; [|done]. by apply IH.
Qed.

(** *** The server *)

(** The single profile picker picks one of the profiles, or none. *)
Lemma Pick_inv w cs m (ps : gmap string (Profile W)) w' cs' m' p e :
  SingleProfile.Pick w cs m ps = Ok (w', cs', m', (p, e)) →
  w' = w ∧ cs' = cs ∧ m' = m ∧ ∀ q, p = Some q → ∃ n, ps !! n = Some q.
Proof.
  unfold SingleProfile.Pick. destruct (negb _); [by intros [= <- <- <- <- _]|].
  intros [= <- <- <- <- _]. split_and!; [done..|]. intros q Hq.
  destruct (go_range ps) as [|[n q'] l] eqn:E; [done|]. injection Hq as ->. exists n.
  apply elem_of_go_range. rewrite E. by left.
Qed.

Lemma running_in_tree s r : pipelines_in_tree s → in_tree_request r → in_tree_processor (running s r).
Proof.
  intros Hs. destruct r as [q|n ref]; intros Hr; [by left|]. right. eexists _, _. split; [done|].
  destruct (pipelines s !! ref) as [pl|] eqn:E; simpl; [by apply (Hs ref)|apply new_pipeline].
Qed.

Lemma running_all_in_tree s l :
  pipelines_in_tree s → Forall in_tree_request l → Forall in_tree_processor (running s <$> l).
Proof.
  intros Hs Hl. apply Forall_fmap. eapply Forall_impl; [exact Hl|]. intros r. by apply running_in_tree.
Qed.

Lemma buildPostProcessors_in_tree s raw posts :
  in_tree s → buildPostProcessors s raw = inl posts →
  Forall in_tree_response posts.1 ∧ Forall (λ h, ∃ q, h = ModelNameToHeader.processor_of q) posts.2.
Proof.
  intros Hs. unfold buildPostProcessors. intros (placed & Hp%mapM_inl & [= <-])%bind_inl.
  assert (Forall (λ bh : option (ResponseProcessor W) * option (ResponseHeadersProcessor W),
    (∀ r, bh.1 = Some r → in_tree_response r) ∧
    (∀ h, bh.2 = Some h → ∃ q, h = ModelNameToHeader.processor_of q)) placed) as Hall.
  { eapply Forall2_image; [exact Hp|]. simpl. intros ref bh (p & Hg%need_inl & H)%bind_inl.
    apply (GetPlugin_in_tree _ _ _ Hs) in Hg. assert (bh = (as_response p, as_headers p)) as ->.
    { destruct (as_response p), (as_headers p); by inversion H. }
    split; [apply (it_response p Hg)|apply (it_headers p Hg)]. }
  rewrite Forall_forall in Hall. simpl. split; apply Forall_forall; intros x (bh & Hin & E)%list_elem_of_omap.
  - by apply (proj1 (Hall bh Hin)).
  - by apply (proj2 (Hall bh Hin)).
Qed.

Lemma build_in_tree raw s c :
  in_tree s → build raw s = inl c →
  Forall in_tree_request (PreProcessors c) ∧ map_Forall (λ _, in_tree_loaded) (Profiles c) ∧
  (∀ pp, ProfilePicker_of c = Some pp → ∃ n, pp = SingleProfile.SingleProfilePicker n) ∧
  Forall in_tree_response (PostProcessors c) ∧
  Forall (λ h, ∃ q, h = ModelNameToHeader.processor_of q) (ResponseHeadersPostProcessors c).
Proof.
  intros Hs (ps & Hps & Hpre & Hpost & Hf & Hpp)%build_inv. split_and!.
  - apply mapM_inl in Hpre. eapply Forall2_image; [exact Hpre|]. simpl. intros ref r Hr.
    apply bind_inl in Hr as (p & Hp%need_inl & Hr%need_inl).
    eapply in_tree_request_of; [by eapply GetPlugin_in_tree|done].
  - apply force_buffering_ok in Hf as [-> _]. apply (buildProfiles_in_tree _ _ _ Hs) in Hps.
    intros n p. rewrite lookup_fmap. intros (q & Hq & ->)%fmap_Some. destruct (Hps n q Hq).
    destruct (nonempty _); by split.
  - intros pp. rewrite Hpp. intros (r & _ & E)%bind_Some. apply bind_Some in E as (p & Hp & E).
    by apply (it_picker p (GetPlugin_in_tree _ _ _ Hs Hp)).
  - apply (buildPostProcessors_in_tree _ _ _ Hs) in Hpost. apply Hpost.
  - apply (buildPostProcessors_in_tree _ _ _ Hs) in Hpost. apply Hpost.
Qed.

(** Whatever loads is a server of these parts. *)
Lemma loaded_parts decode bytes p w0 s' c :
  LoadConfiguration decode (registerInTreePlugins adapters complete) bytes (NewHandle p w0) = Ok (s', inl c) →
  pipelines_in_tree s' ∧ ∃ raw s2, in_tree s2 ∧ build raw s2 = inl c.
Proof.
  intros (raw & raw' & s1 & s2 & s3 & _ & Hi & Ha & Hb & Hd & Hw)%LoadConfiguration_inv.
  assert (in_tree s2) as Hs2.
  { eapply (loading_keeps _ in_tree in_tree_plugin); [apply in_tree_factories|apply in_tree_AddPlugin| |exact Hi|exact Ha].
    split; apply map_Forall_empty. }
  split; [|by exists raw', s2]. destruct (build_in_tree _ _ _ Hs2 Hb) as (_ & Hps & _).
  unfold buildModelSelector in Hw. replace s' with (wire_profiles (go_range (Profiles c)).*2 s3).1 by (by rewrite Hw).
  apply wire_profiles_in_tree.
  - apply Forall_fmap, Forall_forall. intros [n q] Hq%elem_of_go_range. by apply (Hps n).
  - destruct (buildDatalayerSources_frame (cfg_Datalayer raw') s2) as [_ E]. rewrite Hd in E. simpl in E.
    unfold pipelines_in_tree. rewrite E. apply Hs2.
Qed.

Lemma loaded_in_tree decode bytes p w0 s' c :
  LoadConfiguration decode (registerInTreePlugins adapters complete) bytes (NewHandle p w0) = Ok (s', inl c) →
  in_tree_server (server_of s' c).
Proof.
  intros (Hpl & raw & s2 & Hs2 & Hb)%loaded_parts. pose proof Hb as (_ & Hwf)%build_shape.
  destruct (build_in_tree _ _ _ Hs2 Hb) as (Hpre & Hps & Hpp & Hpost & Hhdr).
  split; simpl; try done.
  - by apply running_all_in_tree.
  - intros n q. rewrite lookup_fmap. intros (lp & Hlp & ->)%fmap_Some. destruct (Hps n lp Hlp).
    split; [by apply running_all_in_tree|done..].
  - intros n q. rewrite lookup_fmap. intros (lp & Hlp & ->)%fmap_Some. by apply (Hwf n lp).
Qed.

(** ** What the processors preserve *)

(** A property of the world and the request that nothing a request plugin of
    the repository does can break. *)
Record request_invariant (I : W → InferenceRequest → Prop) : Prop :=
  { ri_world : world_stable I;
    ri_uint64n n w m : I w m → I (uint64n n w).2 m;
    ri_Float64 w m : I w m → I (Float64 w).2 m;
    ri_lru_Get c k w m : I w m → I (lru_Get c k w).2 m;
    ri_SetHeader w m k v : I w m → I w (SetHeader m k v);
    ri_model w m m' n : I w m → SetBodyField m "model" (AStr n) = Ok m' → I w m' }.

Section request.
Context (I : W → InferenceRequest → Prop) (HI : request_invariant I).

Lemma ri_now w m : I w m → I (now w).2 m.
Proof using HI. apply (ri_world I HI). Qed.

Lemma ri_record x w m : I w m → I (record x w) m.
Proof using HI. intros H. apply (ri_world I HI _ _ H). Qed.

Lemma ri_record_since ext tn t w m : I w m → I (record_since ext tn t w) m.
Proof using HI. apply stable_record_since, HI. Qed.

Lemma shuffle_loop_inv {A} i w (l : list A) m : I w m → I (shuffle_loop i w l).1 m.
Proof using HI.
  revert w l. induction i as [|i IH]; intros w l Hw; [done|]. cbn [shuffle_loop].
  pose proof (ri_uint64n I HI (Z.of_nat (S i) + 1) w m Hw) as Hn.
  destruct (uint64n (Z.of_nat (S i) + 1) w) as [j w']. by apply IH.
Qed.

Lemma assign_keys_inv w l m : I w m → I (assign_keys w l).1 m.
Proof using HI.
  revert w. induction l as [|x l IH]; intros w Hw; simpl; [done|].
  destruct (fle (Score x) f0).
  - pose proof (IH w Hw). by destruct (assign_keys w l).
  - pose proof (ri_Float64 I HI w m Hw) as Hn. destruct (Float64 w) as [u w'].
    pose proof (IH w' Hn). by destruct (assign_keys w' l).
Qed.

(** A part of the selector hands on the request it was given. *)
Definition part_preserves (x : Filter W + Scorer W + Picker W) : Prop :=
  match x with
  | inl (inl f) => ∀ w cs m ms w' cs' m' ms', I w m → runFilter f w cs m ms = Ok (w', cs', m', ms') → I w' m'
  | inl (inr s) => ∀ w cs m ms w' cs' m' sc, I w m → runScore s w cs m ms = Ok (w', cs', m', sc) → I w' m'
  | inr k => ∀ w cs m sms w' cs' r, I w m → runPick k w cs sms = Ok (w', cs', r) → I w' m
  end.

Lemma random_preserves w cs m sms w' cs' r : I w m → Random_Pick w cs sms = Ok (w', cs', r) → I w' m.
Proof using HI.
  unfold Random_Pick, ShuffleScoredModels. intros Hw. pose proof (shuffle_loop_inv (length sms - 1) w sms m Hw) as Hs.
  destruct (shuffle_loop _ w sms) as [w1 l]. by intros (x & _ & [= <- _ _])%mbind_Ok.
Qed.

Lemma repository_part_preserves x : repository_plugin x → part_preserves x.
Proof using HI.
  destruct 1; simpl.
  - by intros w cs m ms w' cs' m' ms' Hw [= <- _ <- _].
  - intros w cs m ms w' cs' m' sc Hw E. by apply mbind_Ok in E as (s & _ & [= <- _ <- _]).
  - by intros w cs m ms w' cs' m' sc Hw [= <- _ <- _].
  - by intros w cs m ms w' cs' m' sc Hw [= <- _ <- _].
  - intros w cs m ms w' cs' m' sc Hw. unfold SessionAffinity.runScore.
    destruct (String.eqb _ ""); [by intros [= <- _ <- _]|].
    set (sid := default "" _). set (c := Name _). pose proof (ri_lru_Get I HI c sid w m Hw) as Hn.
    destruct (lru_Get c sid w) as [[prev|] w1]; intros [= <- _ <- _]; by apply ri_record.
  - intros w cs m sms w' cs' r Hw. unfold MaxScore_Pick, ShuffleScoredModels.
    pose proof (shuffle_loop_inv (length sms - 1) w sms m Hw) as Hs.
    destruct (shuffle_loop _ w sms) as [w1 l]. by intros (x & _ & [= <- _ _])%mbind_Ok.
  - intros w cs m sms w' cs' r. apply random_preserves.
  - intros w cs m sms w' cs' r Hw. unfold WeightedRandom_Pick. destruct (negb _); [by apply random_preserves|].
    pose proof (assign_keys_inv w sms m Hw) as Hk. destruct (assign_keys w sms) as [w1 l].
    by intros (x & _ & [= <- _ _])%mbind_Ok.
Qed.

Lemma runFilters_inv fs w cs m ms w' cs' m' ms' :
  Forall (λ f, part_preserves (inl (inl f))) fs → I w m →
  runFilters fs w cs m ms = Ok (w', cs', m', ms') → I w' m'.
Proof using HI.
  intros Hfs. revert w cs m ms. induction Hfs as [|f fs Hf _ IH]; intros w cs m ms Hw; simpl;
    [by intros [= <- _ <- _]|].
  apply ri_now in Hw. destruct (now w) as [t w0]. intros ([[[w1 cs1] m1] ms1] & E1 & H)%mbind_Ok.
  apply (Hf _ _ _ _ _ _ _ _ Hw), (ri_record_since filterExtensionPoint (f_name f) t) in E1.
  destruct ms1; [by injection H as <- _ <- _|]. by eapply IH.
Qed.

Lemma runScorers_inv ss w cs m ms sm w' cs' m' sm' :
  Forall (λ s, part_preserves (inl (inr (ws_Scorer s)))) ss → I w m →
  runScorers ss w cs m ms sm = Ok (w', cs', m', sm') → I w' m'.
Proof using HI.
  intros Hss. revert w cs m sm. induction Hss as [|s ss Hs _ IH]; intros w cs m sm Hw; simpl;
    [by intros [= <- _ <- _]|].
  apply ri_now in Hw. destruct (now w) as [t w0]. intros ([[[w1 cs1] m1] sc] & E1 & H)%mbind_Ok.
  apply (Hs _ _ _ _ _ _ _ _ Hw), (ri_record_since scorerExtensionPoint (s_name (ws_Scorer s)) t) in E1.
  by eapply IH.
Qed.

Lemma repository_pipeline_parts p :
  repository_pipeline p →
  Forall (λ f, part_preserves (inl (inl f))) (filters p) ∧
  Forall (λ s, part_preserves (inl (inr (ws_Scorer s)))) (scorers p) ∧
  ∀ k, picker p = Some k → part_preserves (inr k).
Proof using HI.
  intros (Hf & Hs & Hk). split_and!.
  - eapply Forall_impl; [exact Hf|]. intros f. apply repository_part_preserves.
  - eapply Forall_impl; [exact Hs|]. intros s. apply repository_part_preserves.
  - intros k Ek. by apply repository_part_preserves, Hk.
Qed.

Lemma Run_inv p w cs m ms w' cs' m' r :
  repository_pipeline p → I w m → Run p w cs m ms = Ok (w', cs', m', r) → I w' m'.
Proof using HI.
  intros (Hf & Hs & Hk)%repository_pipeline_parts Hw. unfold Run, runFilterPlugins, runScorerPlugins.
  intros ([[[w1 cs1] m1] ms1] & E1 & H)%mbind_Ok. apply (runFilters_inv _ _ _ _ _ _ _ _ _ Hf Hw) in E1.
  destruct ms1 as [|x ms1]; [by injection H as <- _ <- _|].
  apply mbind_Ok in H as ([[[w2 cs2] m2] sm2] & E2 & H). apply (runScorers_inv _ _ _ _ _ _ _ _ _ _ Hs E1) in E2.
  apply mbind_Ok in H as ([[w3 cs3] r3] & E3 & [= <- _ <- _]).
  unfold runPickerPlugin in E3. destruct (picker p) as [k|] eqn:Ek; [|done].
  apply ri_now in E2. destruct (now w2) as [t w4]. apply mbind_Ok in E3 as ([[w5 cs5] r5] & E5 & [= <- _ _]).
  apply ri_record_since. by eapply (Hk k).
Qed.

Lemma record_attempt_inv t e w m : I w m → I (record_attempt t e w) m.
Proof using HI.
  intros Hw. unfold record_attempt. apply ri_now in Hw. destruct (now w) as [t' w'].
  destruct e; by apply ri_record, ri_record.
Qed.

Lemma Select_inv p w cs m ms w' cs' m' r :
  repository_pipeline p → I w m → Select p w cs m ms = Ok (w', cs', m', r) → I w' m'.
Proof using HI.
  intros Hp Hw. unfold Select. apply ri_now in Hw. destruct (now w) as [t w1].
  destruct ms as [|x ms]; [intros [= <- _ <- _]; by apply record_attempt_inv|].
  intros ([[[w2 cs2] m2] r2] & E2 & H)%mbind_Ok. apply (Run_inv _ _ _ _ _ _ _ _ _ Hp Hw) in E2.
  destruct r2 as [[[[y|]]|]|e]; injection H as <- _ <- _; by apply record_attempt_inv.
Qed.

Lemma processor_preserves q : in_tree_processor q → call_preserves I (ProcessRequest q).
Proof using HI.
  intros [[[b ->]|[n ->]]|(n & p & -> & Hp)] w cs m w' cs' m' e Hw; simpl.
  - unfold BodyFieldToHeader.ProcessRequest. destruct (body_lookup _ _).
    + destruct (String.eqb _ ""); intros [= <- _ <- _]; [by apply ri_record|by apply (ri_SetHeader I HI)].
    + intros [= <- _ <- _]. by apply ri_record.
  - unfold BaseModelToHeader_ProcessRequest. destruct (body_lookup _ _); intros [= <- _ <- _]; [|done].
    by apply (ri_SetHeader I HI).
  - unfold ModelSelector_ProcessRequest. destruct (GetModels _ _) as [|x ms]; [by intros [= <- _ <- _]|].
    intros ([[[w1 cs1] m1] r] & E1 & H)%mbind_Ok. apply (Select_inv _ _ _ _ _ _ _ _ _ (in_tree_repository p Hp) Hw) in E1.
    destruct r as [y|e1]; [|by injection H as <- _ <- _].
    apply mbind_Ok in H as (m2 & E2 & [= <- _ <- _]). by eapply (ri_model I HI).
Qed.

Lemma processors_preserve l :
  Forall in_tree_processor l → Forall (λ q, call_preserves I (ProcessRequest q)) l.
Proof using HI. intros H. eapply Forall_impl; [exact H|]. apply processor_preserves. Qed.

(** The request side of a server of these parts keeps the invariant. *)
Lemma request_side s : in_tree_server s → request_plugins_preserve I s.
Proof using HI.
  intros Hs. split; [apply processors_preserve, (its_pre s Hs)|].
  intros pp w cs m w' cs' m' p e Epp Hw. destruct (its_picker s Hs pp Epp) as [n ->]. simpl.
  intros (-> & _ & -> & Hp)%Pick_inv. split; [done|]. intros q ->. destruct (Hp q eq_refl) as [k Hk].
  apply processors_preserve, (itp_request q), (its_profiles s Hs k q Hk).
Qed.
End request.

(** The same for the response. *)
Record response_invariant (J : W → InferenceResponse → Prop) : Prop :=
  { rsi_world : world_stable J;
    rsi_lru_Add c k v w m : J w m → J (lru_Add c k v w) m;
    rsi_uuid_New w m : J w m → J (uuid_New w).2 m;
    rsi_SetHeader w m k v : J w m → J w (with_rmsg m (SetHeader (rmsg m) k v)) }.

Section response.
Context (J : W → InferenceResponse → Prop) (HJ : response_invariant J).

Lemma response_preserves r : in_tree_response r → call_preserves J (ProcessResponse r).
Proof using HJ.
  intros [c ->] w cs m w' cs' m' e Hw. simpl. unfold SessionAffinity.ProcessResponse.
  destruct (String.eqb _ ""); [by intros [= <- _ <- _]|].
  destruct (match ReadCycleStateKey _ _ _ with inl _ => _ | inr _ => _ end) as [sid w1] eqn:E.
  assert (J w1 m) as Hw1.
  { revert E. destruct (ReadCycleStateKey _ _ _); [by intros [= _ <-]|].
    pose proof (rsi_uuid_New J HJ w m Hw). destruct (uuid_New w). by intros [= _ <-]. }
  intros [= <- _ <- _]. apply (rsi_SetHeader J HJ), (rsi_world J HJ), (rsi_lru_Add J HJ), Hw1.
Qed.

Lemma responses_preserve l :
  Forall in_tree_response l → Forall (λ r, call_preserves J (ProcessResponse r)) l.
Proof using HJ. intros H. eapply Forall_impl; [exact H|]. apply response_preserves. Qed.

Lemma headers_preserve l :
  Forall (λ h, ∃ q, h = ModelNameToHeader.processor_of q) l →
  Forall (λ h, call_preserves J (ProcessResponseHeaders h)) l.
Proof using HJ.
  intros H. eapply Forall_impl; [exact H|]. intros h [q ->] w cs m w' cs' m' e Hw. simpl.
  unfold ModelNameToHeader.ProcessResponseHeaders. destruct (ReadCycleStateKey _ _ _) as [n|e1].
  - intros [= <- _ <- _]. by apply (rsi_SetHeader J HJ).
  - destruct (is_not_found e1); by intros [= <- _ <- _].
Qed.
End response.

(** ** The laws of the servers *)

Context `{QE : !QuietEnv W}.

Lemma notified_request L : request_invariant (λ w _, notified w = L).
Proof using QE.
  split; [apply stable_notified|..]; intros; simpl in *; try done.
  - by rewrite notified_uint64n.
  - by rewrite notified_Float64.
  - by rewrite notified_lru_Get.
Qed.

Lemma notified_response L : response_invariant (λ w _, notified w = L).
Proof using QE.
  split; [apply stable_notified|..]; intros; simpl in *; try done.
  - by rewrite notified_lru_Add.
  - by rewrite notified_uuid_New.
Qed.

Lemma tracks_request h0 : request_invariant (λ _ m, tracks h0 m).
Proof. split; [apply stable_message|..]; intros; eauto with ipp. Qed.

Lemma body_response b : response_invariant (λ _ m, Body (rmsg m) = b).
Proof.
  split; [apply (stable_message (λ m, Body (rmsg m) = b))|..]; intros; simpl in *; [done..|].
  by rewrite Body_SetHeader.
Qed.

Lemma quiet_in_tree_profile p : in_tree_profile p → quiet_profile p.
Proof using QE.
  intros Hp. split.
  - apply Forall_forall. intros q Hq L. pose proof (itp_request p Hp) as H. rewrite Forall_forall in H.
    by apply (processor_preserves _ (notified_request L)), H.
  - apply Forall_forall. intros q Hq L. pose proof (itp_response p Hp) as H. rewrite Forall_forall in H.
    by apply (response_preserves _ (notified_response L)), H.
  - by rewrite (itp_chunks p Hp).
Qed.

Lemma in_tree_quiet_server s : in_tree_server s → quiet_server s.
Proof using QE.
  intros Hs. split.
  - apply Forall_forall. intros q Hq L. pose proof (its_pre s Hs) as H. rewrite Forall_forall in H.
    by apply (processor_preserves _ (notified_request L)), H.
  - apply Forall_forall. intros q Hq L. pose proof (its_post s Hs) as H. rewrite Forall_forall in H.
    by apply (response_preserves _ (notified_response L)), H.
  - apply Forall_forall. intros q Hq L.
    pose proof (headers_preserve _ (notified_response L) _ (its_headers s Hs)) as H.
    rewrite Forall_forall in H. by apply H.
  - rewrite (its_empty s Hs). split; constructor.
  - intros pp w cs m w' cs' m' p e Epp. destruct (its_picker s Hs pp Epp) as [n ->]. simpl.
    intros (-> & _ & -> & Hp)%Pick_inv. split; [done|]. intros q ->. destruct (Hp q eq_refl) as [k Hk].
    apply quiet_in_tree_profile, (its_profiles s Hs k q Hk).
Qed.

(** The profile that a server can pick. *)
Lemma picked s pp w cs m w' cs' m' p e :
  in_tree_server s → profilePicker s = Some pp → PickProfile pp w cs m (profiles s) = Ok (w', cs', m', (Some p, e)) →
  ∃ n, profiles s !! n = Some p.
Proof.
  intros Hs Epp. destruct (its_picker s Hs pp Epp) as [n ->]. simpl. intros (_ & _ & _ & Hp)%Pick_inv. by apply Hp.
Qed.

Lemma in_tree_buffers s : in_tree_server s → postProcessors s ≠ [] → buffers s.
Proof.
  intros Hs Hpost pp w cs m w' cs' m' p e Epp E. destruct (picked _ _ _ _ _ _ _ _ _ _ Hs Epp E) as [n Hn].
  apply (its_buffering s Hs n p Hn). by right.
Qed.

(** Without response plugins nothing is buffered. *)
Lemma in_tree_streams s :
  in_tree_server s → postProcessors s = [] → map_Forall (λ _ p, ResponsePlugins p = []) (profiles s) →
  Exchanges.streaming_server s.
Proof.
  intros Hs Hpost Hno. split.
  - apply Forall_forall. intros h Hh b. pose proof (headers_preserve _ (body_response b) _ (its_headers s Hs)) as H.
    rewrite Forall_forall in H. by apply H.
  - rewrite (its_empty s Hs). by split; constructor.
  - intros pp w cs m w' cs' m' p e Epp E. destruct (picked _ _ _ _ _ _ _ _ _ _ Hs Epp E) as [n Hn]. split.
    + destruct (NeedsResponseBuffering p) eqn:Eb; [|done]. apply (its_buffering s Hs n p Hn) in Eb as [Eb|Eb]; [|done].
      by rewrite (Hno n p Hn) in Eb.
    + by rewrite (itp_chunks p (its_profiles s Hs n p Hn)).
Qed.

(** ** What an exchange does to the bodies *)

Context `{JT : JsonText} `{GS : GrpcStatus}.

Definition request_part (r : ProcessingResponse) : option bytes :=
  match r with RequestBodyResp c => Some (chunk_body c) | _ => None end.
Definition response_part (r : ProcessingResponse) : option bytes :=
  match r with ResponseBodyResp c => Some (chunk_body c) | _ => None end.

(** The body the model server receives, and the body the client receives. *)
Definition upstream (rs : list ProcessingResponse) : bytes := mjoin (omap request_part rs).
Definition downstream (rs : list ProcessingResponse) : bytes := mjoin (omap response_part rs).

Lemma parts_app (f : ProcessingResponse → option bytes) rs rs' :
  mjoin (omap f (rs ++ rs')) = mjoin (omap f rs) ++ mjoin (omap f rs').
Proof. by rewrite omap_app, join_app. Qed.

Lemma parts_chunks (f : ProcessingResponse → option bytes) wrap cs :
  (∀ c, f (wrap c) = Some (chunk_body c)) → mjoin (omap f (wrap <$> cs)) = mjoin (chunk_body <$> cs).
Proof. intros H. f_equal. induction cs as [|c cs IH]; [done|]. cbn. by rewrite H, IH. Qed.

Lemma parts_none (f : ProcessingResponse → option bytes) rs :
  Forall (λ r, f r = None) rs → mjoin (omap f rs) = [].
Proof. intros H. induction H as [|r rs Hr _ IH]; [done|]. cbn. by rewrite Hr. Qed.

(** A request whose body is the client's [b], or [b] with another model. *)
Definition only_model (b : option (gmap string any)) (m : InferenceMessage) : Prop :=
  (Body m = b ∧ bodyMutated m = false) ∨
  ∃ f n, b = Some f ∧ Body m = Some (<["model" := AStr n]> f) ∧ bodyMutated m = true.

Lemma only_model_request b : request_invariant (λ _ m, only_model b m).
Proof.
  split; [apply (stable_message (only_model b))|done..| |].
  - intros w m k v. unfold only_model. by rewrite Body_SetHeader, bodyMutated_SetHeader.
  - intros w m m' n H E. right. unfold SetBodyField in E. destruct (Body m) as [f|] eqn:Ef; [|done].
    injection E as <-. simpl. unfold only_model in H. rewrite Ef in H.
    destruct H as [[<- _]|(f' & n' & -> & [= ->] & _)]; [by eexists f, n|].
    exists f', n. by rewrite insert_insert_eq.
Qed.

Lemma HandleRequestBody_only_model s w c body w' c' rs :
  in_tree_server s → bodyMutated (Request c) = false →
  HandleRequestBody s w c body = Ok (w', c', inl rs) →
  ∃ b, json_unmarshal_map body (Body (Request c)) = (b, false) ∧ downstream rs = [] ∧
    (upstream rs = body ∨
     ∃ f n, b = Some f ∧ json_marshal_map (Some (<["model" := AStr n]> f)) = Some (upstream rs)).
Proof.
  intros Hs Hm E. apply mbind_Ok in E as ([[w1 c1] e] & E1 & E). destruct e as [e|]; [done|].
  pose proof (prepareRequest_decodes _ _ _ _ _ _ E1) as [b Eb]. exists b. split; [done|].
  apply (prepareRequest_preserves _ _ _ _ _ _ _ _ (ri_world _ (only_model_request b))
    (request_side _ (only_model_request b) s Hs)) in E1; [|left; by rewrite Eb].
  apply finishRequest_ok in E as [(_ & _ & [e [=]])|(out & t & _ & Hout & _ & [= ->])].
  destruct (BuildChunked_streams out true) as [Hchunks _]. unfold upstream, downstream. cbn [omap list_omap request_part response_part].
  rewrite (parts_chunks request_part RequestBodyResp) by done. rewrite Hchunks. split.
  - apply parts_none, Forall_fmap, Forall_forall. done.
  - destruct E1 as [[_ Hb]|(f & n & -> & Hb & Hmut)].
    + left. rewrite Hb in Hout. by injection Hout.
    + right. exists f, n. rewrite Hmut, Hb in Hout. done.
Qed.

Lemma untouched_response : response_invariant (λ _ m, bodyMutated (rmsg m) = false).
Proof.
  split; [apply (stable_message (λ m, bodyMutated (rmsg m) = false))|..]; intros; simpl in *; [done..|].
  by rewrite bodyMutated_SetHeader.
Qed.

Lemma HandleResponseHeaders_untouched s w c h w' c' rs :
  in_tree_server s → bodyMutated (rmsg (Response c)) = false →
  HandleResponseHeaders s w c h = Ok (w', c', inl rs) →
  bodyMutated (rmsg (Response c')) = false ∧ upstream rs = [] ∧ downstream rs = [].
Proof.
  intros Hs Hm E. apply mbind_Ok in E as ([[[w1 cs1] m1] e] & E1 & E).
  apply (runResponseHeadersProcessors_preserves _ _ (rsi_world _ untouched_response)
    (headers_preserve _ untouched_response _ (its_headers s Hs))) in E1.
  - destruct e; [done|]. injection E as <- <- <-. split; [done|]. by destruct (GetEndOfStream h).
  - unfold capture_headers. by destruct h as [[[hl|] ?]|].
Qed.

Lemma HandleResponseBody_untouched s w c body w' c' rs p :
  in_tree_server s → Profile_of c = Some p → in_tree_profile p → bodyMutated (rmsg (Response c)) = false →
  HandleResponseBody s w c body = Ok (w', c', inl rs) → upstream rs = [] ∧ downstream rs = body.
Proof.
  intros Hs Hp Hpt Hm.
  assert (∀ hm, let rs := ResponseHeadersResp hm :: (ResponseBodyResp <$> BuildChunkedBodyResponses body true) in
    upstream rs = [] ∧ downstream rs = body) as Hsent.
  { intros hm. unfold upstream, downstream. cbn [omap list_omap request_part response_part].
    rewrite (parts_chunks response_part ResponseBodyResp) by done.
    destruct (BuildChunked_streams body true) as [-> _]. split; [|done]. by apply parts_none, Forall_fmap, Forall_forall. }
  unfold HandleResponseBody, generatePassthroughResponseBodyResponse, AddStreamedResponseBody. rewrite Hp.
  destruct (negb _ && negb _); [intros [= _ _ <-]; apply Hsent|].
  destruct (json_unmarshal_map _ _) as [b []]; [intros [= _ _ <-]; apply Hsent|].
  intros E. apply mbind_Ok in E as ([[[w1 cs1] m1] e1] & E1 & E).
  assert (bodyMutated (rmsg m1) = false) as Hm1.
  { destruct (0 <? length (ResponsePlugins p))%nat; [|by injection E1 as _ _ <- _].
    by apply (runResponsePlugins_preserves _ _ (rsi_world _ untouched_response)
      (responses_preserve _ untouched_response _ (itp_response p Hpt))) in E1. }
  destruct e1; [done|]. apply mbind_Ok in E as ([[[w2 cs2] m2] e2] & E2 & E).
  apply (runResponsePlugins_preserves _ _ (rsi_world _ untouched_response)
    (responses_preserve _ untouched_response _ (its_post s Hs))) in E2; [|done].
  destruct e2; [done|]. revert E. unfold finishResponse, BodyMutated. simpl. rewrite E2.
  intros [= _ _ <-]. apply Hsent.
Qed.

(** The response as it is streamed or buffered. *)
Lemma response_untouched s w st cs last w' st' sent p :
  in_tree_server s → Profile_of (reqCtx st) = Some p → in_tree_profile p →
  bodyMutated (rmsg (Response (reqCtx st))) = false →
  responseBody st = [] → responseBodyComplete st = false →
  Process_rounds s w st (response_rounds cs last) = Ok (w', st', sent, None) →
  upstream sent = [] ∧ downstream sent = mjoin cs ++ last.
Proof.
  intros Hs Hp Hpt Hm Hb Hd E. destruct (NeedsResponseBuffering p) eqn:En.
  - pose proof (buffered_response s w st cs last p Hd Hp En) as Hr. rewrite E, Hb in Hr. simpl in Hr.
    symmetry in Hr. apply answer_ok in Hr. unfold respond in Hr.
    pose proof (first_chunk_profile w (reqCtx st)) as Hpf.
    assert (Response (first_chunk w (reqCtx st)).1 = Response (reqCtx st)) as Hrf.
    { unfold first_chunk. destruct (_ =? 0)%Z; [|done]. by destruct (now w). }
    destruct (first_chunk w (reqCtx st)) as [c1 w1]. simpl in Hpf, Hrf.
    apply mbind_Ok in Hr as ([[w2 c2] o] & E2 & Hr). apply mbind_Ok in Hr as ([w3 c3] & _ & [= _ _ ->]).
    eapply HandleResponseBody_untouched; [exact Hs| |exact Hpt| |exact E2]; congruence.
  - assert (ready_to_stream st) as Hready.
    { split; [done|]. exists p. split; [done|]. split; [done|apply (itp_chunks p Hpt)]. }
    destruct (streaming_rounds s w st cs last Hready (its_notifier s Hs)) as (w2 & st2 & E2 & _).
    rewrite E in E2. injection E2 as _ _ ->. unfold upstream, downstream. rewrite !parts_app.
    assert (∀ b : bool, mjoin (omap request_part (if b then [] else [ResponseHeadersResp (buildHeadersResponse (reqCtx st))])) = [] ∧
      mjoin (omap response_part (if b then [] else [ResponseHeadersResp (buildHeadersResponse (reqCtx st))])) = []) as Hh
      by (by intros []).
    destruct (Hh (ResponseHeadersSent (reqCtx st))) as [-> ->]. clear. split.
    + rewrite parts_none; [done|]. by apply Forall_fmap, Forall_forall.
    + assert (mjoin (omap response_part ((λ b, ResponseBodyResp (streamed b false)) <$> cs)) = mjoin cs) as ->.
      { induction cs as [|b cs IH]; [done|]. exact (f_equal (app b) IH). }
      simpl. by rewrite app_nil_r.
Qed.

(** C17: whatever configuration loads with the plugins the runner registers, the
    server it gives satisfies what the theorems on the server ask of its
    plugins: none notifies the data layer itself, the header mutations of a
    request always account for its headers, every pipeline selects among the
    models of the store, no profile processes chunks, a configuration with
    post-processors buffers every response and one without response plugins
    buffers none. *)
Theorem loaded_servers_are_lawful `{!RandStable W} `{!SessionStable W} decode bytes p w0 s' c :
  LoadConfiguration decode (registerInTreePlugins adapters complete) bytes (NewHandle p w0) = Ok (s', inl c) →
  let s := server_of s' c in
  quiet_server s ∧ (∀ h0, request_plugins_preserve (λ _ m, tracks h0 m) s) ∧
  map_Forall (λ _, lawful) (pipelines s') ∧
  map_Forall (λ _ q, ResponseChunkProcessors q = []) (profiles s) ∧
  (postProcessors s ≠ [] → buffers s) ∧
  (postProcessors s = [] → map_Forall (λ _ q, ResponsePlugins q = []) (profiles s) →
   Exchanges.streaming_server s).
Proof using QE SS.
  intros Hload s. pose proof (proj1 (loaded_parts _ _ _ _ _ _ Hload)) as Hpl.
  apply loaded_in_tree in Hload as Hs. fold s in Hs. split_and!.
  - by apply in_tree_quiet_server.
  - intros h0. apply request_side; [apply tracks_request|done].
  - intros ref pl Hr. by eapply repository_pipeline_lawful, in_tree_repository, Hpl.
  - intros n q Hq. apply itp_chunks, (its_profiles s Hs n q Hq).
  - by apply in_tree_buffers.
  - by apply in_tree_streams.
Qed.

(** C5: the processor is transparent but for the model. Take any configuration
    that loads with the plugins the runner registers, and any exchange that the
    proxy delivers in order, in whatever pieces, and that meets no error. The
    model server receives the client's body byte for byte, or the client's JSON
    object printed with one field changed, the name of the model; and the client
    receives the model server's body byte for byte, whether it was buffered,
    parsed by plugins or streamed. *)
Theorem loaded_servers_are_transparent decode bytes p w0 s' c w h cs last rh rcs rlast w' st sent :
  LoadConfiguration decode (registerInTreePlugins adapters complete) bytes (NewHandle p w0) = Ok (s', inl c) →
  Process (server_of s' c) w (exchange_rounds h cs last rh rcs rlast) = Ok (w', st, sent, None) →
  (upstream sent = mjoin cs ++ last ∨
   ∃ f n, json_unmarshal_map (mjoin cs ++ last) (Some ∅) = (Some f, false) ∧
     json_marshal_map (Some (<["model" := AStr n]> f)) = Some (upstream sent)) ∧
  downstream sent = mjoin rcs ++ rlast.
Proof.
  intros Hs%loaded_in_tree. set (s := server_of s' c) in *.
  intros (w1 & c1 & rs1 & w2 & c2 & rs2 & w3 & rs3 & st3 & rs4 & E1 & E2 & E3 & Hb & Hd & E4 & ->)%exchange_stages.
  assert (Body (Request c1) = Some ∅ ∧ bodyMutated (Request c1) = false ∧ bodyMutated (rmsg (Response c1)) = false ∧
    upstream rs1 = [] ∧ downstream rs1 = []) as (Hb1 & Hm1 & Hr1 & Hu1 & Hd1).
  { revert E1. unfold HandleRequestHeaders. destruct (now w) as [t w4]. intros [= _ <- <-].
    unfold capture_headers. destruct h as [[[hl|] [|]]|]; by simpl. }
  pose proof (HandleRequestBody_picks _ _ _ _ _ _ _ E2) as (Hrsp & pp & ? & ? & ? & ? & ? & ? & q & e & Epp & Eq & Hq).
  destruct (picked _ _ _ _ _ _ _ _ _ _ Hs Epp Eq) as [k Hk]. pose proof (its_profiles s Hs k q Hk) as Hqt.
  pose proof (HandleRequestBody_only_model _ _ _ _ _ _ _ Hs Hm1 E2) as (b & Eb & Hd2 & Hu2).
  rewrite Hb1 in Eb. pose proof (HandleResponseHeaders_profile _ _ _ _ _ _ _ E3) as Hp3.
  apply HandleResponseHeaders_untouched in E3 as (Hm3 & Hu3 & Hd3); [|done|by rewrite Hrsp].
  apply (response_untouched s w3 st3 rcs rlast w' st rs4 q) in E4 as [Hu4 Hd4]; [|done|congruence|done..].
  unfold upstream, downstream in *. rewrite !parts_app, Hu1, Hd1, Hu3, Hd2, Hd3, Hu4, Hd4, !app_nil_r. simpl.
  split; [|done]. destruct Hu2 as [->|(f & n & -> & E)]; [by left|right]. by exists f, n.
Qed.

(** ** When such a server can panic *)

(** A request with a body that can be written. *)
Definition has_body (b : option (gmap string any)) : Prop := b ≠ None.

Lemma has_body_request : request_invariant (λ _ m, has_body (Body m)).
Proof.
  split; [apply (stable_message (λ m, has_body (Body m)))|done..| |].
  - intros w m k v. by rewrite Body_SetHeader.
  - intros w m m' n _. unfold SetBodyField. destruct (Body m); [|done]. by intros [= <-].
Qed.

Lemma runFilters_total fs w cs m ms :
  Forall (λ f, in_tree_part (inl (inl f))) fs → ∃ w' cs' m' ms', runFilters fs w cs m ms = Ok (w', cs', m', ms').
Proof.
  intros Hfs. revert w cs m ms. induction Hfs as [|f fs [_ Hf] _ IH]; intros w cs m ms; simpl;
    [by eexists _, _, _, _|].
  destruct (now w) as [t w0]. destruct (Hf w0 cs m ms) as (w1 & cs1 & m1 & ms1 & ->). cbn [mbind res_bind].
  destruct ms1; [by eexists _, _, _, _|apply IH].
Qed.

Lemma runScorers_total ss w cs m ms sm :
  Forall (λ s, in_tree_part (inl (inr (ws_Scorer s)))) ss →
  ∃ w' cs' m' sm', runScorers ss w cs m ms sm = Ok (w', cs', m', sm') ∧ scored_models sm' = scored_models sm.
Proof.
  intros Hss. revert w cs m sm. induction Hss as [|s ss [_ Hs] _ IH]; intros w cs m sm; simpl;
    [by eexists _, _, _, _|].
  destruct (now w) as [t w0]. destruct (Hs w0 cs m ms) as (w1 & cs1 & m1 & sc & ->). cbn [mbind res_bind].
  edestruct IH as (w2 & cs2 & m2 & sm2 & -> & E). eexists _, _, _, _. split; [done|]. by rewrite E, apply_scores_models.
Qed.

Lemma init_scores_nonempty w x ms : init_scores w (x :: ms) ≠ ∅.
Proof.
  unfold init_scores. simpl. generalize (insert_non_empty (∅ : gmap string ScoredModel) (GetName w x)
    {| sm_Model := x; Score := f0 |}). generalize (<[GetName w x := {| sm_Model := x; Score := f0 |}]> (∅ : gmap string ScoredModel)).
  induction ms as [|y ms IH]; intros m Hm; simpl; [done|]. apply IH, insert_non_empty.
Qed.

Lemma scored_nonempty w x ms (sm : gmap string ScoredModel) :
  scored_models sm = scored_models (init_scores w (x :: ms)) → (go_range sm).*2 ≠ [].
Proof.
  intros E H. assert (sm = ∅) as ->.
  { apply map_empty. intros n. apply eq_None_not_Some. intros [v Hv].
    apply elem_of_go_range, (list_elem_of_fmap_2 snd) in Hv. rewrite H in Hv. by apply not_elem_of_nil in Hv. }
  unfold scored_models in E. rewrite fmap_empty in E. symmetry in E. apply fmap_empty_inv in E.
  by apply init_scores_nonempty in E.
Qed.

Lemma Run_total p w cs m ms :
  in_tree_pipeline p → picker p ≠ None → ∃ w' cs' m' r, Run p w cs m ms = Ok (w', cs', m', r).
Proof.
  intros (Hf & Hs & Hk) Hp. unfold Run, runFilterPlugins, runScorerPlugins.
  destruct (runFilters_total (filters p) w cs m ms Hf) as (w1 & cs1 & m1 & ms1 & ->). cbn [mbind res_bind].
  destruct ms1 as [|x ms1]; [by eexists _, _, _, _|].
  destruct (runScorers_total (scorers p) w1 cs1 m1 (x :: ms1) (init_scores w1 (x :: ms1)) Hs)
    as (w2 & cs2 & m2 & sm & -> & E). cbn [mbind res_bind].
  unfold runPickerPlugin. destruct (picker p) as [k|]; [|done]. destruct (now w2) as [t w3].
  destruct (proj2 (Hk k eq_refl) w3 cs2 _ (scored_nonempty _ _ _ _ E)) as (w4 & cs4 & y & ->).
  by eexists _, _, _, _.
Qed.

Lemma selector_calm n p :
  in_tree_pipeline p → picker p ≠ None → calm_request_plugin has_body (ModelSelectorPlugin n p).
Proof.
  intros Hp Hk w cs m Hm. simpl. unfold ModelSelector_ProcessRequest.
  destruct (GetModels AllModelsPredicate w) as [|x ms]; [by eexists _, _, _, _|].
  assert (∃ w' cs' m' r, Select p w cs m (x :: ms) = Ok (w', cs', m', r)) as (w1 & cs1 & m1 & r & E).
  { unfold Select. destruct (now w) as [t w1]. destruct (Run_total p w1 cs m (x :: ms) Hp Hk) as (w2 & cs2 & m2 & r & ->).
    cbn [mbind res_bind]. destruct r as [[[[y|]]|]|e]; by eexists _, _, _, _. }
  rewrite E. cbn [mbind res_bind].
  apply (Select_inv _ has_body_request _ _ _ _ _ _ _ _ _ (in_tree_repository p Hp) Hm) in E.
  destruct r as [y|e]; [|by eexists _, _, _, _]. unfold SetBodyField.
  destruct (Body m1) as [b|] eqn:Eb; [|done]. by eexists _, _, _, _.
Qed.

Lemma direct_calm Q q : in_tree_direct q → calm_request_plugin Q q.
Proof.
  intros [[b ->]|[n ->]] w cs m Hm; simpl.
  - unfold BodyFieldToHeader.ProcessRequest. destruct (body_lookup _ _); [|by eexists _, _, _, _].
    destruct (String.eqb _ ""); eexists _, _, _, _; (split; [done|]); [done|by rewrite Body_SetHeader].
  - unfold BaseModelToHeader_ProcessRequest. destruct (body_lookup _ _); [|by eexists _, _, _, _].
    eexists _, _, _, _. split; [done|]. by rewrite Body_SetHeader.
Qed.

Lemma response_calm r : in_tree_response r → returns (ProcessResponse r).
Proof.
  intros [c ->] w cs m _. simpl. unfold SessionAffinity.ProcessResponse.
  destruct (String.eqb _ ""); [by eexists _, _, _, _|].
  destruct (match ReadCycleStateKey _ _ _ with inl _ => _ | inr _ => _ end). by eexists _, _, _, _.
Qed.

Lemma headers_calm (h : ResponseHeadersProcessor W) : (∃ q, h = ModelNameToHeader.processor_of q) → returns (ProcessResponseHeaders h).
Proof.
  intros [q ->] w cs m _. simpl. unfold ModelNameToHeader.ProcessResponseHeaders.
  destruct (ReadCycleStateKey _ _ _) as [n|e]; [by eexists _, _, _, _|].
  destruct (is_not_found e); by eexists _, _, _, _.
Qed.

(** Every model selector has a picker. *)
Definition selectors_wired (s : Loading W) (l : list (LoadedRequest W)) : Prop :=
  ∀ n ref, Selector n ref ∈ l → ∃ pl, pipelines s !! ref = Some pl ∧ picker pl ≠ None.

Lemma running_calm s l :
  pipelines_in_tree s → Forall in_tree_request l → selectors_wired s l →
  Forall (calm_request_plugin has_body) (running s <$> l).
Proof.
  intros Hs Hl Hw. apply Forall_fmap, Forall_forall. intros r Hr. rewrite Forall_forall in Hl. specialize (Hl r Hr).
  destruct r as [q|n ref]; [by apply direct_calm|]. destruct (Hw n ref Hr) as (pl & Hpl & Hk).
  simpl. rewrite Hpl. apply selector_calm; [by apply (Hs ref)|done].
Qed.

(** C18: the only ways a configured server can panic. Take a configuration that
    loads with the plugins the runner registers, whose profile picker is set and
    whose pre-processors name no model selector that no profile uses. Then
    [Process] handles whatever messages arrive, in whatever order and over
    whatever store, clock and random numbers, without a panic, as long as the
    body of the request is not JSON null. Without any of the three conditions
    there are panics: [wrong_picker_reference_crashes],
    [preprocessing_selector_crashes], [null_body_crashes]. *)
Theorem loaded_servers_panic_only_on_null decode bytes p w0 s' c w rounds :
  LoadConfiguration decode (registerInTreePlugins adapters complete) bytes (NewHandle p w0) = Ok (s', inl c) →
  ProfilePicker_of c ≠ None →
  (∀ n ref, Selector n ref ∈ PreProcessors c →
   ∃ k q n', Profiles c !! k = Some q ∧ Selector n' ref ∈ lp_Request q) →
  (∀ body, handled_body [] rounds = Some body → json_decode body ≠ Some ANil) →
  ∃ w' st sent ret, Process (server_of s' c) w rounds = Ok (w', st, sent, ret).
Proof.
  intros Hload Hpp Hpre Hnull.
  assert (∀ k q, Profiles c !! k = Some q → selectors_wired s' (lp_Request q)) as Hw.
  { intros k q Hq n ref Hr. destruct (loaded_selectors_have_pickers _ _ _ _ _ _ _ _ _ _ Hload Hq Hr) as (pl & y & _ & Hpl & Ey).
    exists pl. split; [done|]. by rewrite Ey. }
  pose proof (loaded_in_tree _ _ _ _ _ _ Hload) as Hs.
  apply loaded_parts in Hload as (Hpl & raw & s2 & Hs2 & Hb).
  destruct (build_in_tree _ _ _ Hs2 Hb) as (Hreq & Hps & _).
  assert (calm_server has_body (server_of s' c)) as Hcalm.
  { split; simpl; [done|..].
    - apply running_calm; [done..|]. intros n ref Hr. destruct (Hpre n ref Hr) as (k & q & n' & Hq & Hr').
      by apply (Hw k q Hq n').
    - destruct (ProfilePicker_of c) as [pp|] eqn:Epp; [|done]. exists pp. split; [done|].
      destruct (its_picker _ Hs pp Epp) as [n ->]. intros w1 cs rq Hrq. simpl.
      destruct (SingleProfile.single_profile_is_picked w1 cs rq (running_profile s' <$> Profiles c)) as ([q e] & E & Hq).
      eexists _, _, _, _, _. split; [exact E|]. split; [done|]. intros ->.
      destruct q as [q|]; [|done]. destruct Hq as [k Hk]. exists k, q. split; [done|]. rewrite Hk. apply lookup_singleton_eq.
    - intros k q. rewrite lookup_fmap. intros (lp & Hlp & ->)%fmap_Some. destruct (Hps k lp Hlp) as [H1 H2 H3 _].
      split; simpl; [by apply running_calm; [..|by eapply Hw]| |by rewrite H3].
      eapply Forall_impl; [exact H2|]. apply response_calm.
    - split; constructor.
    - eapply Forall_impl; [apply (its_post _ Hs)|]. apply response_calm.
    - eapply Forall_impl; [apply (its_headers _ Hs)|]. apply headers_calm. }
  apply (Process_rounds_return has_body _ Hcalm); [by apply new_stream_calm|].
  intros _ body Hbody i b. unfold json_unmarshal_map. specialize (Hnull body Hbody).
  destruct (json_decode body) as [[]|]; try done. by intros [= <- _].
Qed.
End in_tree.
