(* ===== verification/Concrete.v ===== *)
(** A concrete environment: a clock, metrics and random numbers, the in-memory
    store and a session cache, as one state that implements every interface
    the plugins use, and the runs of the model selection theorems in it. *)

From Stdlib Require Import String.
From S2P Require Import Prelude GoFloat GoValue Envoy Message World Handlers Datalayer.
From S2P Require Import Extractors ModelSelector Pickers SelectorPlugins SelectorProofs.
From S2P Require Import RequestPlugins ServerProofs JsonProofs BodyProofs.

Local Open Scope string_scope.
Local Open Scope list_scope.

(** ** The environment *)

Record SimWorld := { base : StdWorld; store : Store; sessions : list (string * string * string) }.

Definition with_base (w : SimWorld) (b : StdWorld) : SimWorld :=
  {| base := b; store := store w; sessions := sessions w |}.
Definition with_store (w : SimWorld) (s : Store) : SimWorld :=
  {| base := base w; store := s; sessions := sessions w |}.

#[export] Program Instance SimWorld_World : World SimWorld := {
  now w := ((now (base w)).1, with_base w (now (base w)).2);
  record m w := with_base w (record m (base w));
  Notify e w := with_base w (Notify e (base w));
  notified w := notified (base w)
}.
Solve Obligations with (intros; simpl; done).

Definition sim_GetOrCreateModel (n : string) (w : SimWorld) : Ptr * SimWorld :=
  let '(p, s) := GetOrCreateModel n (store w) in (p, with_store w s).

#[export] Program Instance SimWorld_Datastore : Datastore SimWorld := {
  GetOrCreateModel := sim_GetOrCreateModel;
  DeleteModel n w := with_store w (DeleteModel n (store w));
  GetModels P w := GetModels P (store w);
  GetName w := GetName (store w);
  GetAttributes w := GetAttributes (store w);
  update_attributes f p w := with_store w (update_attributes f p (store w));
  store_ok w := store_ok (store w);
  current w := current (store w);
  view w := view (store w)
}.
Next Obligation. intros w n p. apply current_view. Qed.
Next Obligation. intros w n. apply view_current. Qed.
Next Obligation. intros w n p p'. apply current_unique. Qed.
Next Obligation.
  intros w n p w' Hok. unfold sim_GetOrCreateModel.
  destruct (GetOrCreateModel n (store w)) as [q s] eqn:E. intros [= <- <-].
  exact (GetOrCreateModel_spec (store w) n q s Hok E).
Qed.
Next Obligation. intros w n. apply (DeleteModel_spec (store w)). Qed.
Next Obligation. intros w P. apply (GetModels_spec (store w)). Qed.
Next Obligation. intros w f n p. apply (update_spec (store w)). Qed.

#[export] Program Instance SimWorld_Rand : Rand SimWorld := {
  uint64n n w := ((uint64n n (base w)).1, with_base w (uint64n n (base w)).2);
  Float64 w := ((Float64 (base w)).1, with_base w (Float64 (base w)).2)
}.
Next Obligation.
  intros n w Hn. apply (uint64n_range n (base w) Hn).
Qed.

#[export] Program Instance SimWorld_SessionCache : SessionCache SimWorld := {
  lru_Get c k w := (snd <$> List.find (λ kv, String.eqb kv.1.1 c && String.eqb kv.1.2 k) (sessions w), w);
  lru_Add c k v w := {| base := base w; store := store w; sessions := (c, k, v) :: sessions w |};
  lru_Len c w := Z.of_nat (length (List.filter (λ kv, String.eqb kv.1.1 c) (sessions w)));
  uuid_New w := ("session-" +:+ itoa (Z.of_nat (uuids (base w))),
    with_base w {| clock := clock (base w); metrics := metrics (base w); events := events (base w);
                   randoms := randoms (base w); uuids := S (uuids (base w)) |})
}.
Next Obligation. intros c k v m w. simpl. by rewrite !String.eqb_refl. Qed.
Next Obligation. done. Qed.

(** Absolute paths, each a file. *)
#[export] Instance SimWorld_Files : ModelConfig.Files SimWorld := {|
  ModelConfig.filepath_Abs s _ := inl s; ModelConfig.stat_IsDir _ _ := inl false |}.

#[export] Instance SimWorld_StoreStable : StoreStable SimWorld.
Proof. by split. Qed.

#[export] Instance SimWorld_RandStable : RandStable SimWorld.
Proof. by split. Qed.

#[export] Instance SimWorld_SessionStable : SessionStable SimWorld.
Proof. by split. Qed.

(** Two models, both priced, one of them in a group. *)
Definition priced (x : Z) : Cloneable :=
  CTokenPrices {| InputTokenPrice := f_of_Z x; OutputTokenPrice := f_of_Z x |}.

Definition sim_store : Store :=
  foldl (λ s kv, publish kv.1 s kv.2) NewDatastore
    [(TokenPricesAttributeKey, ("llama", priced 1)); (TokenPricesAttributeKey, ("qwen", priced 3));
     (GroupsAttributeKey, ("qwen", CGroups ["fast"]))].

Definition sim : SimWorld := {| base := std0; store := sim_store; sessions := [] |}.

Lemma sim_store_ok : store_ok sim_store.
Proof. unfold sim_store. cbn [foldl fst snd]. do 3 refine (proj1 (publish_spec _ _ _ _ _)). apply store_wf_new. Qed.

Lemma sim_ok : store_ok sim.
Proof. exact sim_store_ok. Qed.

Lemma sim_models : GetModels AllModelsPredicate sim = [2%positive; 1%positive].
Proof. vm_compute. reflexivity. Qed.

(** ** Runs of the selector *)

Definition scorer_plugin : Plugin SimWorld :=
  {| pl_name := {| Type_ := "costguard"; Name := "costguard" |}; as_filter := None;
     as_scorer := None; as_picker := None |}.

Definition cost_guard : CostGuard.CostGuardScorer :=
  CostGuard.NewCostGuardScorer f_half f_half f1 1 f_half.

Definition neutral : WeightedScorer SimWorld :=
  NewWeightedScorer scorer_plugin (CostGuard.scorer_of cost_guard) f1.

Definition picker_plugin : Plugin SimWorld :=
  {| pl_name := {| Type_ := "max-score-picker"; Name := "max" |}; as_filter := None;
     as_scorer := None; as_picker := Some (MaxScorePicker "max") |}.

(** Adding the picker a second time fails. *)
Lemma AddPlugins_all_or_nothing_witness :
  (AddPlugins (WithPicker NewModelSelectorPipeline (MaxScorePicker "max"))
    [Weighted neutral; Plain picker_plugin]).1 =
  WithPicker NewModelSelectorPipeline (MaxScorePicker (W := SimWorld) "max").
Proof.
  destruct (AddPlugins (WithPicker NewModelSelectorPipeline (MaxScorePicker (W := SimWorld) "max"))
    [Weighted neutral; Plain picker_plugin]) as [p' err] eqn:E.
  pose proof (AddPlugins_all_or_nothing _ _ _ _ E) as H. destruct err; [exact H|].
  exfalso. vm_compute in E. discriminate E.
Defined.

Definition sim_pipeline : ModelSelectorPipeline SimWorld :=
  group_pipeline "group" "max" [neutral; NewWeightedScorer scorer_plugin (CostScorer "cost") f1].

Definition ask (model : string) : InferenceRequest :=
  with_body NewInferenceRequest (Some {["model" := AStr model]}).

Definition succeeded {A B M} (r : res (A * B * M * option goerror)) : bool :=
  match r with Ok (_, _, _, None) => true | _ => false end.

Lemma succeeded_inv {A B M} (r : res (A * B * M * option goerror)) :
  succeeded r = true → ∃ a b m, r = Ok (a, b, m, None).
Proof. destruct r as [[[[a b] m] [e|]]|]; try done. by exists a, b, m. Qed.

Lemma sim_pipeline_lawful : lawful sim_pipeline.
Proof.
  apply repository_pipeline_lawful. split_and!.
  - apply Forall_singleton. constructor.
  - apply Forall_cons_2; [constructor|]. apply Forall_singleton. constructor.
  - intros k [= <-]. constructor.
Qed.

Lemma selected_model_is_in_store_witness :
  ∃ w' cs' rq', ModelSelector_ProcessRequest sim_pipeline sim ∅ (ask "auto") = Ok (w', cs', rq', None) ∧
    ∃ n, is_Some (view sim !! n) ∧ body_lookup rq' "model" = Some (AStr n).
Proof.
  destruct (succeeded_inv (ModelSelector_ProcessRequest sim_pipeline sim ∅ (ask "auto")))
    as (w' & cs' & rq' & E); [vm_compute; reflexivity|].
  destruct (selected_model_is_in_store sim_pipeline sim ∅ (ask "auto") w' cs' rq') as (n & Hn & Hb & _).
  - exact sim_ok.
  - apply sim_pipeline_lawful.
  - exact E.
  - exists w', cs', rq'. split; [exact E|]. exists n. exact (conj Hn Hb).
Defined.

Lemma sim_names : NoDup (GetName sim <$> [1%positive; 2%positive]).
Proof. apply (bool_decide_unpack (NoDup _)). vm_compute. exact I. Qed.

Lemma model_group_filter_exact_witness :
  ∃ ms', ModelGroup_Filter sim ∅ (ask "auto/fast") [1%positive; 2%positive] =
      Ok (sim, ∅, ask "auto/fast", ms') ∧
    ∀ m, m ∈ ms' ↔ m ∈ [1%positive; 2%positive] ∧ wanted sim (ask "auto/fast") m.
Proof.
  destruct (model_group_filter_exact sim ∅ (ask "auto/fast") [1%positive; 2%positive] sim_names)
    as (ms' & E & _ & H). by exists ms'.
Defined.

(** Three requests in flight for the first model. *)
Definition busy : SimWorld :=
  with_store sim (publish RequestMetadataAttributeKey sim_store
    ("llama", CRequestMetadataCount {| Requests := 3; Tokens := 30 |})).

Lemma inflight_scorer_extremes_witness :
  Inflight_scores busy [1%positive; 2%positive] !! 1%positive = Some f0 ∧
  Inflight_scores busy [1%positive; 2%positive] !! 2%positive = Some f1.
Proof.
  assert (Forall (λ m, 0 ≤ inflightRequestCount busy m < 2 ^ 53)%Z [1%positive; 2%positive]) as H.
  { repeat apply Forall_cons_2; [..|apply Forall_nil_2]; vm_compute; (split; [discriminate|reflexivity]). }
  split.
  - apply (inflight_scorer_extremes busy [1%positive; 2%positive] 1%positive H); [set_solver|..].
    + repeat apply Forall_cons_2; [..|apply Forall_nil_2]; vm_compute; discriminate.
    + apply Exists_cons_tl, Exists_cons_hd. vm_compute. discriminate.
  - apply (inflight_scorer_extremes busy [1%positive; 2%positive] 2%positive H); [set_solver|].
    repeat apply Forall_cons_2; [..|apply Forall_nil_2]; vm_compute; discriminate.
Defined.

(** The cost scorer on the sim's prices, the in-flight scorer on three requests. *)
Lemma scores_are_shares_witness :
  (∃ sc x y, Cost_scores sim [1%positive; 2%positive] = Ok sc ∧ sc !! 1%positive = Some x ∧
     sc !! 2%positive = Some y ∧ fle y x = true) ∧
  rates [1%positive; 2%positive] (λ m m', inflightRequestCount busy m ≤ inflightRequestCount busy m')%Z
    (Inflight_scores busy [1%positive; 2%positive]).
Proof.
  split.
  - destruct (proj1 (scores_are_shares sim [1%positive; 2%positive])) as (sc & E & H).
    { repeat apply Forall_cons_2; [..|apply Forall_nil_2]; (split; [vm_compute; by eexists|vm_compute; by intuition]). }
    destruct (H 1%positive) as (x & Hx & _ & _ & _ & Hxy); [by left|].
    destruct (H 2%positive) as (y & Hy & _); [by right; left|].
    exists sc, x, y. split; [exact E|]. split; [exact Hx|]. split; [exact Hy|].
    apply (Hxy 2%positive y); [by right; left|exact Hy|vm_compute; reflexivity].
  - apply (scores_are_shares busy [1%positive; 2%positive]).
    repeat apply Forall_cons_2; [..|apply Forall_nil_2]; vm_compute; (split; discriminate).
Defined.

Definition affinity : SessionAffinity.SessionAffinityScorer :=
  {| SessionAffinity.typedName := {| Type_ := "session-affinity"; Name := "session" |};
     SessionAffinity.sessionIDKey := "x-session-id"; SessionAffinity.maxSessions := 10;
     SessionAffinity.ttl := 1 |}.

Definition answer_of (model : string) : InferenceResponse :=
  with_rmsg NewInferenceResponse (with_body newInferenceMessage (Some {["model" := AStr model]})).

(** A request that presents the session of a response. *)
Definition again (response : InferenceResponse) : InferenceRequest :=
  with_headers NewInferenceRequest (Headers (rmsg response)).

Lemma session_sticks_witness :
  ∃ w' cs' response' w2 cs3 sc,
    SessionAffinity.ProcessResponse affinity sim ∅ (answer_of "qwen") = Ok (w', cs', response', None) ∧
    SessionAffinity.runScore affinity w' ∅ (again response') [1%positive; 2%positive] =
      Ok (w2, cs3, again response', sc) ∧
    ∀ m, sc !! m = if decide (m ∈ [1%positive; 2%positive])
                   then Some (if String.eqb (GetName w2 m) "qwen" then f1 else f0) else None.
Proof.
  destruct (succeeded_inv (SessionAffinity.ProcessResponse affinity sim ∅ (answer_of "qwen")))
    as (w' & cs' & response' & E); [vm_compute; reflexivity|].
  destruct (session_sticks affinity sim ∅ (answer_of "qwen") w' cs' response' ∅ (again response')
    [1%positive; 2%positive]) as (w2 & cs3 & sc & E2 & H).
  - exact E.
  - vm_compute. discriminate.
  - vm_compute. discriminate.
  - reflexivity.
  - exists w', cs', response', w2, cs3, sc. split; [exact E|]. split; [exact E2|]. exact H.
Defined.

(** The states of a selection in [sim]: same store. *)
Definition in_sim (w : SimWorld) : Prop := store w = sim_store.

Lemma in_sim_steady : steady in_sim.
Proof. split; [done..|]. intros w w' p Hw Hw'. simpl. by rewrite Hw, Hw'. Qed.

Lemma pipeline_serves_the_best_witness :
  ∃ w' cs' p, Run (group_pipeline "group" "max" [neutral]) sim ∅ (ask "auto/fast")
      [1%positive; 2%positive] = Ok (w', cs', ask "auto/fast", inl (Some {| TargetModel := Some p |})) ∧
    wanted sim (ask "auto/fast") p.
Proof.
  destruct (pipeline_serves_the_best in_sim in_sim_steady (ask "auto/fast") [1%positive; 2%positive]
    "group" "max" [(neutral, score_all CostGuard.neutralScore)] sim ∅)
    as (w' & cs' & p & kept & E & Hk & Hp & _).
  - reflexivity.
  - exact sim_names.
  - apply Forall_singleton. apply costguard_scores_by, in_sim_steady.
  - apply Exists_cons_tl, Exists_cons_hd. unfold wanted. simpl. right. right. right.
    split_and!; [reflexivity|discriminate|]. exists ["fast"]. split; [vm_compute; reflexivity|].
    simpl. by left.
  - intros kept p _ Hp. unfold total. cbn [foldl]. unfold add_weighted. cbn [fst snd].
    rewrite lookup_score_all, decide_True by done. vm_compute. reflexivity.
  - exists w', cs', p. split; [exact E|]. by apply Hk.
Defined.

(** A response of qwen that was processed, and the request that comes back. *)
Definition answered : SimWorld * CycleState * InferenceResponse :=
  match SessionAffinity.ProcessResponse affinity sim ∅ (answer_of "qwen") with
  | Ok (w, cs, response, _) => (w, cs, response)
  | Panic _ => (sim, ∅, answer_of "")
  end.

Definition answered_sid : string :=
  default "" (Headers (rmsg answered.2) !! SessionAffinity.sessionIDKey affinity).

Lemma in_sim_keeps c sid : keeps_entry in_sim c sid.
Proof. split; [done..|]. intros w Hw. by split. Qed.

Lemma sessions_are_served_by_their_model_witness :
  answered_sid ≠ "" ∧
  ∃ w' cs', Run (group_pipeline "group" "max"
      [NewWeightedScorer scorer_plugin (SessionAffinity.scorer_of affinity) f1])
    answered.1.1 ∅ (again answered.2) [1%positive; 2%positive] =
      Ok (w', cs', again answered.2, inl (Some {| TargetModel := Some 2%positive |})).
Proof.
  split; [vm_compute; discriminate|].
  apply (sessions_are_served_by_their_model in_sim in_sim_steady (again answered.2)
    [1%positive; 2%positive] affinity sim ∅ (answer_of "qwen") answered.1.1 answered.1.2 answered.2
    answered_sid scorer_plugin f1 "group" "max" answered.1.1 ∅ 2%positive).
  - vm_compute. reflexivity.
  - vm_compute. discriminate.
  - vm_compute. discriminate.
  - vm_compute. reflexivity.
  - vm_compute. reflexivity.
  - vm_compute. reflexivity.
  - apply in_sim_keeps.
  - reflexivity.
  - apply (steady_distinct in_sim in_sim_steady sim); [reflexivity|vm_compute; reflexivity|exact sim_names].
  - apply list_elem_of_further, list_elem_of_here.
  - exact I.
  - vm_compute. reflexivity.
  - vm_compute. reflexivity.
Defined.

Definition empty_world : SimWorld := {| base := std0; store := NewDatastore; sessions := [] |}.

Lemma empty_ok : store_ok empty_world.
Proof. exact store_wf_new. Qed.

Lemma no_model_errors_witness :
  (∃ w2 cs2 rq2 e, ModelSelector_ProcessRequest sim_pipeline sim ∅ (ask "gemma") =
      Ok (w2, cs2, rq2, Some e) ∧ BuildErrResponse e = inl (ImmediateResp 429 (s2b (error_text e)))) ∧
  (∃ e e', ModelSelector_ProcessRequest sim_pipeline empty_world ∅ (ask "gemma") =
      Ok (empty_world, ∅, ask "gemma", Some e) ∧ BuildErrResponse e = inr e').
Proof.
  split.
  - destruct (runFilters (filters sim_pipeline) (now sim).2 ∅ (ask "gemma")
      (GetModels AllModelsPredicate sim)) as [[[[w1 cs1] rq1] ms]|] eqn:E; [|vm_compute in E; discriminate].
    destruct ms as [|x ms]; [|vm_compute in E; discriminate].
    eapply (proj1 (no_model_errors sim_pipeline sim ∅ (ask "gemma") sim_ok)); [|exact E].
    by rewrite sim_models.
  - apply (no_model_errors sim_pipeline empty_world ∅ (ask "gemma") empty_ok).
    vm_compute. reflexivity.
Defined.

(** A response of a model that has been removed. *)
Definition ghost_events : list Event := [ResponseEvent (req_of "ghost" 5) (rsp_of 1 2) ∅ 0 0].

Lemma removed_model_crashes_cost_scorer_witness :
  let w' := (RequestMetadata.Extract
    (RequestMetadata.WithName RequestMetadata.NewRequestMetadataExtractor "counts") sim ghost_events).2 in
  ∃ why, Cost_scores w' (GetModels AllModelsPredicate w') = Panic why.
Proof.
  apply (removed_model_crashes_cost_scorer _ sim ghost_events "ghost" "llama").
  - exact sim_ok.
  - discriminate.
  - vm_compute. reflexivity.
  - vm_compute. reflexivity.
  - vm_compute. by eexists.
Defined.

Definition header_plugin : ModelNameToHeader.Plugin :=
  {| ModelNameToHeader.typedName := {| Type_ := "model-name-to-header"; Name := "header" |};
     ModelNameToHeader.headerName := "X-Gateway-Model-Name" |}.

Lemma selected_model_is_echoed_witness :
  ∃ w' cs' rq' response',
    ModelSelector_ProcessRequest sim_pipeline sim ∅ (ask "auto/fast") = Ok (w', cs', rq', None) ∧
    ModelNameToHeader.ProcessResponseHeaders header_plugin w' cs' NewInferenceResponse =
      Ok (w', cs', response', None) ∧
    Headers (rmsg response') !! "X-Gateway-Model-Name" = Some (body_string rq' "model").
Proof.
  destruct (succeeded_inv (ModelSelector_ProcessRequest sim_pipeline sim ∅ (ask "auto/fast")))
    as (w' & cs' & rq' & E); [vm_compute; reflexivity|].
  destruct (ModelNameToHeader.selected_model_is_echoed sim_pipeline header_plugin sim ∅ (ask "auto/fast")
    w' cs' rq' w' cs' NewInferenceResponse E eq_refl) as (response' & Er & Hh).
  exists w', cs', rq', response'. split; [exact E|]. split; [exact Er|].
  rewrite Hh. apply lookup_insert_eq.
Defined.

(** A server that selects the model, and a request to it. *)
Definition selecting_server : Server SimWorld :=
  WithEventNotifier (NewServer [] (Some (SingleProfile.SingleProfilePicker "single"))
    {["default" := {| RequestPlugins := [ModelSelectorPlugin "selector" sim_pipeline];
                      ResponsePlugins := []; ResponseChunkProcessors := [];
                      NeedsResponseBuffering := false |}]} [] []).

Definition quotes_of (s : string) : bytes :=
  List.map (λ b, if decide (b = Byte.x27) then Byte.x22 else b) (s2b s).

Definition fast_body : bytes := quotes_of "{'max_tokens': 1e2, 'model': 'auto/fast', 'prompt': 'a\\u0026b'}".

Definition clean_bodyb (b : option (gmap string any)) : bool :=
  match b with
  | Some m => forallb (λ kv, valid_utf8 kv.1 && clean kv.2 && (Z.of_nat (height kv.2) <? 10000)%Z)
                (map_to_list m)
  | None => true
  end.

Lemma clean_bodyb_spec b m : clean_bodyb b = true → b = Some m → clean_body m.
Proof.
  intros H ->. simpl in H. rewrite forallb_forall in H. intros k v Hk.
  apply elem_of_map_to_list, list_elem_of_In, H in Hk. simpl in Hk.
  apply andb_prop in Hk as [[Hk Hv]%andb_prop Hh%Z.ltb_lt]. by split_and!.
Qed.

Lemma mutated_body_arrives_witness :
  ∃ w' c' rs, HandleRequestBody selecting_server sim (NewRequestContext selecting_server) fast_body =
      Ok (w', c', inl rs) ∧
    body_lookup (Request c') "model" = Some (AStr "qwen") ∧
    json_unmarshal_map (body_sent rs) None = (Body (Request c'), false).
Proof.
  assert (match HandleRequestBody selecting_server sim (NewRequestContext selecting_server) fast_body with
    | Ok (_, c', inl rs) => (Z.of_nat (length (body_sent rs)) <=? max_int64)%Z && bodyMutated (Request c') &&
        clean_bodyb (Body (Request c')) && String.eqb (body_string (Request c') "model") "qwen"
    | _ => false end = true) as Hok by (vm_compute; reflexivity).
  destruct (HandleRequestBody _ _ _ fast_body) as [[[w' c'] [rs|]]|] eqn:E; try discriminate Hok.
  apply andb_prop in Hok as [[[Hl%Z.leb_le Hm]%andb_prop Hc]%andb_prop Hq%String.eqb_eq].
  exists w', c', rs. split; [reflexivity|]. split.
  - unfold body_string in Hq. destruct (body_lookup (Request c') "model") as [[]|]; try discriminate Hq.
    change (s = "qwen") in Hq. rewrite Hq. reflexivity.
  - refine (proj1 (proj1 (mutated_body_arrives selecting_server sim (NewRequestContext selecting_server)
      fast_body w' c' rs Hl) E Hm _ _)); [intros b Hb; exact (clean_bodyb_spec (Some ∅) b eq_refl Hb)|].
    intros m k v Hb Hk _. exact (clean_bodyb_spec _ _ Hc Hb k v Hk).
Defined.
