(* ===== verification/LoaderRuns.v ===== *)
(** Concrete configurations, loaded and run in the environment of [Concrete],
    and a run of the processor that feeds the store. *)

From Stdlib Require Import String.
From S2P Require Import Prelude GoFloat GoValue Envoy Message World Handlers ServerSafety Adapters.
From S2P Require Import Datalayer Extractors ModelSelector Pickers SelectorPlugins.
From S2P Require Import SelectorProofs RequestPlugins Processor Loader LoaderProofs Options Runner Feedback.
From S2P Require Import Concrete.

Local Open Scope string_scope.
Local Open Scope list_scope.

(** ** Configurations *)

Definition sim_registry : Registry SimWorld :=
  registerInTreePlugins (λ _, NewAdaptersStore) (λ w, (w, None)).

Definition spec_of (type : string) : PluginSpec :=
  {| spec_Name := ""; spec_Type := type; spec_Parameters := [] |}.

(** A profile [default] with these request plugins. *)
Definition config_of (types : list string) (picker : option string) (pre : list string)
    (request : list string) : PayloadProcessorConfig :=
  {| cfg_Plugins := spec_of <$> types;
     cfg_PreProcessing := Some (named <$> pre);
     cfg_ProfilePicker := named <$> picker;
     cfg_Profiles := [{| raw_Name := "default";
                         raw_Plugins := Some {| raw_Request := named <$> request; raw_Response := [] |} |}];
     cfg_PostProcessing := None; cfg_Datalayer := None |}.

Definition load (c : PayloadProcessorConfig) :=
  LoadConfiguration (W := SimWorld) (λ _, inl c) sim_registry (s2b "{}") (NewHandle NewProcessor sim).

Definition loads (c : PayloadProcessorConfig) : bool :=
  match load c with Ok (_, inl _) => true | _ => false end.

Lemma loads_inv c : loads c = true → ∃ s' cfg, load c = Ok (s', inl cfg).
Proof. unfold loads. destruct (load c) as [[s' [cfg|]]|]; try done. by exists s', cfg. Qed.

Definition selector_config : PayloadProcessorConfig :=
  config_of ["model-selector"; "base-model-to-header"] None [] ["model-selector"; "base-model-to-header"].

Lemma loaded_profiles_well_formed_witness :
  ∃ s' c, load selector_config = Ok (s', inl c) ∧ Profiles c ≠ ∅ ∧
    ∀ n p, Profiles c !! n = Some p → n ≠ "" ∧ (lp_Response p = [] ∨ lp_Chunks p = []).
Proof.
  destruct (loads_inv selector_config) as (s' & c & E); [vm_compute; reflexivity|].
  destruct (loaded_profiles_well_formed (λ _, inl selector_config) sim_registry (s2b "{}") (NewHandle NewProcessor sim) s' c E) as [H1 H2].
  exists s', c. split; [exact E|]. split; [exact H1|]. intros n p Hp.
  destruct (H2 n p Hp) as (H3 & H4 & _). exact (conj H3 H4).
Defined.

(** What a check on the outcome of loading says of that outcome. *)
Lemma loads_with c (P : Loading SimWorld → Config SimWorld → bool) :
  match load c with Ok (s', inl cfg) => P s' cfg | _ => false end = true →
  ∃ s' cfg, load c = Ok (s', inl cfg) ∧ P s' cfg = true.
Proof. destruct (load c) as [[s' [cfg|]]|]; try done. by exists s', cfg. Qed.

Definition selector_of (r : LoadedRequest SimWorld) : option (string * positive) :=
  match r with Selector n ref => Some (n, ref) | Direct _ => None end.

Definition selectors_of (rs : list (LoadedRequest SimWorld)) : list (string * positive) :=
  omap selector_of rs.

Lemma elem_of_selectors n ref rs : (n, ref) ∈ selectors_of rs → Selector n ref ∈ rs.
Proof. intros ([q|n' ref'] & Hr & H)%list_elem_of_omap; simplify_eq/=. done. Qed.

Definition default_selectors (c : Config SimWorld) : option (list (string * positive)) :=
  (λ p, selectors_of (lp_Request p)) <$> Profiles c !! "default".

Lemma loaded_selectors_have_pickers_witness :
  ∃ s' c p pl k, load selector_config = Ok (s', inl c) ∧ Profiles c !! "default" = Some p ∧
    running s' (Selector "model-selector" 1%positive) = ModelSelectorPlugin "model-selector" pl ∧
    picker pl = Some k.
Proof.
  destruct (loads_with selector_config (λ _ c,
    bool_decide (default_selectors c = Some [("model-selector", 1%positive)]))) as (s' & c & E & Hc);
    [vm_compute; reflexivity|]. apply bool_decide_eq_true in Hc.
  apply fmap_Some in Hc as (p & Hp & Hs).
  destruct (loaded_selectors_have_pickers (λ _, inl selector_config) sim_registry (s2b "{}")
    (NewHandle NewProcessor sim) s' c "default" p "model-selector" 1%positive E Hp) as (pl & k & H1 & _ & H3).
  - apply elem_of_selectors. rewrite <- Hs. by left.
  - exists s', c, p, pl, k. exact (conj E (conj Hp (conj H1 H3))).
Defined.

(** The reverse of the reference order. *)
Program Definition map_order_rev : MapOrder :=
  {| go_range := fun K _ _ V m => reverse (map_to_list m) |}.
Next Obligation. intros. apply reverse_Permutation. Qed.

Definition two_profiles : gmap string (LoadedProfile SimWorld) :=
  <["a" := {| lp_Request := [Selector "first" 1%positive]; lp_Response := []; lp_Chunks := [];
              lp_Buffering := false; lp_Selector := [] |}]>
    {["b" := {| lp_Request := [Selector "second" 2%positive]; lp_Response := []; lp_Chunks := [];
                lp_Buffering := false; lp_Selector := [] |}]}.

Lemma profile_order_irrelevant_witness :
  same_outcome (buildModelSelector (MO := map_order_std) two_profiles (NewHandle NewProcessor sim))
    (buildModelSelector (MO := map_order_rev) two_profiles (NewHandle NewProcessor sim)).
Proof.
  apply (profile_order_irrelevant map_order_std map_order_rev two_profiles).
  intros n n' p q. unfold two_profiles.
  intros [[<- <-]|[_ [<- <-]%lookup_singleton_Some]]%lookup_insert_Some
    [[<- <-]|[_ [<- <-]%lookup_singleton_Some]]%lookup_insert_Some Hne; try done;
    unfold apart; simpl; set_solver.
Defined.

Definition one_selector : Loading SimWorld :=
  {| plugins := ∅; pipelines := {[1%positive := NewModelSelectorPipeline]}; processor := NewProcessor;
     world := sim |}.

Lemma shared_selector_loads_at_random_witness :
  let profiles : gmap string (LoadedProfile SimWorld) :=
    <["a" := sharing_profile [Plain picker_plugin]]> {["b" := sharing_profile []]} in
  go_range profiles = [("a", sharing_profile [Plain picker_plugin]); ("b", sharing_profile [])] ∨
  go_range profiles = [("b", sharing_profile []); ("a", sharing_profile [Plain picker_plugin])].
Proof.
  apply (shared_selector_loads_at_random map_order_std one_selector picker_plugin (MaxScorePicker "max"));
    reflexivity.
Defined.

Definition hello : bytes :=
  s2b (b2s (List.map (λ b, if decide (b = Byte.x27) then Byte.x22 else b) (s2b "{'model': 'llama'}"))).

Lemma default_configuration_routes_witness :
  ∃ s' c, LoadConfiguration (W := SimWorld) (λ _, inr (ENew "unused")) sim_registry []
      (NewHandle NewProcessor sim) = Ok (s', inl c) ∧
    ∃ w' ctx' rs,
      HandleRequestBody (server_of s' c) sim (NewRequestContext (server_of s' c)) hello = Ok (w', ctx', inl rs) ∧
      Headers (Request ctx') !! "X-Gateway-Model-Name" = Some "llama".
Proof.
  destruct (default_configuration_routes (W := SimWorld) (λ _, inr (ENew "unused")) (λ _, NewAdaptersStore)
    (λ w, (w, None)) (λ _, eq_refl) (λ _ _, eq_refl) NewProcessor sim eq_refl) as (s' & c & E & H).
  exists s', c. split; [exact E|].
  destruct (H sim (NewRequestContext (server_of s' c)) hello {["model" := AStr "llama"]} "llama")
    as (w' & ctx' & rs & H1 & H2 & _).
  - vm_compute. reflexivity.
  - reflexivity.
  - discriminate.
  - reflexivity.
  - exists w', ctx', rs. exact (conj H1 H2).
Defined.

(** A response before its request, a body that does not parse, and more. *)
Definition odd_rounds : list Round :=
  deliver <$> [ResponseBody (s2b "late") true; ResponseTrailers; RequestBody (s2b "{") false;
               RequestHeaders None; RequestBody (s2b "[") true; UnknownRequest].

Lemma process_panics_only_in_plugins_witness :
  ∃ s' c, LoadConfiguration (W := SimWorld) (λ _, inr (ENew "unused")) sim_registry []
      (NewHandle NewProcessor sim) = Ok (s', inl c) ∧
    ∃ w' st' sent ret, Process (server_of s' c) sim odd_rounds = Ok (w', st', sent, ret).
Proof.
  destruct (default_loads (W := SimWorld) (λ _, inr (ENew "unused")) (λ _, NewAdaptersStore)
    (λ w, (w, None)) NewProcessor sim eq_refl) as [s' E].
  eexists s', _. split; [exact E|].
  apply (process_panics_only_in_plugins (λ _, True) (server_of s' (default_config (λ _, NewAdaptersStore))) sim
    odd_rounds); [apply default_server_calm|]. intros body _ i b _. exact I.
Defined.

Definition instantiated := instantiatePlugins sim_registry
  (cfg_Plugins (applyRawConfigDefaults selector_config)) (NewHandle NewProcessor sim).

Lemma plugins_instantiated_once_witness :
  ∃ s', instantiated = Ok (s', inl tt) ∧
    is_Some (GetPlugin s' "model-selector") ∧ is_Some (GetPlugin s' "base-model-to-header").
Proof.
  assert (match instantiated with Ok (_, inl _) => true | _ => false end = true) as Hok
    by (vm_compute; reflexivity).
  destruct instantiated as [[s' [[]|]]|] eqn:E; try discriminate Hok.
  destruct (plugins_instantiated_once sim_registry (cfg_Plugins (applyRawConfigDefaults selector_config))
    (NewHandle NewProcessor sim) s' (in_tree_keep_plugins _ _) E) as (_ & _ & _ & H & _).
  exists s'. split; [reflexivity|]. split; apply H; simpl; [by left|by right; left].
Defined.




Definition unwired_config : PayloadProcessorConfig :=
  config_of ["model-selector"; "base-model-to-header"] None ["model-selector"] ["base-model-to-header"].

Lemma preprocessing_selector_crashes_witness :
  ∃ s' c, load unwired_config = Ok (s', inl c) ∧
    ∃ why, HandleRequestBody (server_of s' c) sim (NewRequestContext (server_of s' c)) hello = Panic why.
Proof.
  destruct (loads_with unwired_config (λ _ c,
    bool_decide (selectors_of (PreProcessors c) = [("model-selector", 1%positive)]) &&
    (length (PreProcessors c) =? 1)%nat &&
    forallb (λ np, bool_decide (selectors_of (lp_Request np.2) = [])) (map_to_list (Profiles c))))
    as (s' & c & E & [[Hc Hl]%andb_prop Hf]%andb_prop); [vm_compute; reflexivity|].
  exists s', c. split; [exact E|].
  apply (preprocessing_selector_crashes (λ _, inl unwired_config) sim_registry (s2b "{}") NewProcessor sim
    s' c "model-selector" 1%positive [] (in_tree_all_new _ _) E) with (m := {["model" := AStr "llama"]}).
  - clear E. apply bool_decide_eq_true in Hc.
    destruct (PreProcessors c) as [|[q|n ref] [|]]; try discriminate Hc; try discriminate Hl.
    simpl in Hc. injection Hc as -> ->. reflexivity.
  - intros n q Hq Hin. clear E. rewrite forallb_forall in Hf.
    assert ((n, q) ∈ map_to_list (Profiles c)) as Hin' by (by apply elem_of_map_to_list).
    apply list_elem_of_In, Hf, bool_decide_eq_true in Hin'. simpl in Hin'.
    apply list_elem_of_omap in Hin as ([x|n' ref'] & Hx & [= ->]).
    assert ((n', 1%positive) ∈ selectors_of (lp_Request q)) as Hin
      by (apply list_elem_of_omap; by exists (Selector n' 1%positive)).
    rewrite Hin' in Hin. by apply not_elem_of_nil in Hin.
  - vm_compute. reflexivity.
  - clear. intros H. apply (f_equal length) in H. vm_compute in H. discriminate H.
Defined.

(** ** A start-up *)

Definition start_up : res (list (startup SimWorld) * (unit + RunError)) :=
  Runner_Run (λ _, None) (λ _, inr (ENew "no such file")) "" (λ _, inr (ENew "unused")) sim_registry
    NewRunner (started_with 4) sim [].

Lemma run_serves_what_is_configured_witness :
  ∃ tr pre s c p, start_up = Ok (tr, inl tt) ∧ Start (processor s) = inl p ∧
    tr = pre ++ [SProcessorStart p; SHealthServer 9005; SExtProcServer 9004 true (server_of s c);
                 SManagerStart; SProcessorStop].
Proof.
  assert (match start_up with Ok (_, inl tt) => true | _ => false end = true) as Hok
    by (vm_compute; reflexivity).
  destruct start_up as [[tr [[]|]]|] eqn:E; try discriminate Hok.
  destruct (run_serves_what_is_configured (λ _, None) (λ _, inr (ENew "no such file")) ""
    (λ _, inr (ENew "unused")) sim_registry NewRunner (started_with 4) sim tr (inl tt) E)
    as [[_ [e He]]|(o & s & c & p & pre & l & rest & Hv & _ & Hp & -> & _ & _ & Hl & Hr)];
    [discriminate He|].
  injection Hv as <-. rewrite (Hr eq_refl), app_nil_r in Hl. subst l.
  eexists _, pre, s, c, p. split; [reflexivity|]. split; [exact Hp|reflexivity].
Defined.

(** ** Events on their way to the scorer *)

(** A registration that nothing interrupts, and an event on its way through a
    loop with one extractor. *)
Definition registered_first : list action :=
  [ARegisterExtractor; ARegisterExtractor_read; ARegisterExtractor_write 0].

Definition handed_out : list action := [ALoop_receive; ALoop_extract; ALoop_next].

(** Five requests: three were handed out, one is in the event loop's hand and
    the last is still in the buffer. *)
Definition busy_actions : list action :=
  registered_first ++
  [AStart; AStart_go;
   ANotify (RequestEvent (req_of "llama" 10) ∅); ANotify (RequestEvent (req_of "llama" 20) ∅);
   ANotify (RequestEvent (req_of "qwen" 5) ∅)] ++ handed_out ++ handed_out ++ handed_out ++
  [ANotify (RequestEvent (req_of "qwen" 7) ∅); ALoop_receive; ANotify (RequestEvent (req_of "qwen" 9) ∅)].

Definition busy_state : Processor := default Processor.NewProcessor (run Processor.NewProcessor busy_actions).

Definition busy_counts : RequestMetadata.RequestMetadataExtractor * SimWorld :=
  foldl (λ es ev, RequestMetadata.Extract es.1 es.2 [ev])
    (RequestMetadata.WithName RequestMetadata.NewRequestMetadataExtractor "counts", sim)
    (extracted 0 (log busy_state)).

Lemma feed_foldl (es : RequestMetadata.RequestMetadataExtractor * SimWorld) evs :
  let es' := foldl (λ es ev, RequestMetadata.Extract es.1 es.2 [ev]) es evs in feed es evs es'.1 es'.2.
Proof.
  simpl. induction evs as [|ev evs IH] using rev_ind; [constructor|].
  rewrite foldl_app. simpl. by apply feed_event.
Qed.

Lemma no_counts_yet n : attr sim n RequestMetadataAttributeKey = None.
Proof.
  assert (forallb (λ na, bool_decide (na.2 !! RequestMetadataAttributeKey = None))
    (map_to_list (view sim)) = true) as H by (vm_compute; reflexivity).
  unfold attr. destruct (view sim !! n) as [a|] eqn:E; [|done]. rewrite forallb_forall in H.
  apply elem_of_map_to_list, list_elem_of_In, H, bool_decide_eq_true in E. exact E.
Qed.

Lemma busy_events_bounded : RequestMetadata.bounded_tokens 20 (accepted (log busy_state)).
Proof.
  replace (accepted (log busy_state)) with
    [RequestEvent (req_of "llama" 10) ∅; RequestEvent (req_of "llama" 20) ∅;
     RequestEvent (req_of "qwen" 5) ∅; RequestEvent (req_of "qwen" 7) ∅;
     RequestEvent (req_of "qwen" 9) ∅] by (vm_compute; reflexivity).
  unfold RequestMetadata.bounded_tokens.
  repeat (apply Forall_cons_2); [..|apply Forall_nil_2];
    intros m b t H; unfold RequestMetadata.about in H;
    (destruct (String.eqb _ m); [|discriminate]); injection H as <- <-; vm_compute; split; discriminate.
Qed.

Lemma scorer_sees_accepted_events_witness :
  length (waiting 0 busy_state) = 2 ∧
  Inflight_scores busy_counts.2 [2%positive; 1%positive] !! 2%positive = Some f1.
Proof.
  split; [vm_compute; reflexivity|].
  destruct (scorer_sees_accepted_events 20 "counts" busy_state 0 sim busy_counts.1 busy_counts.2)
    as (_ & H).
  - apply reachable_run.
  - vm_compute. reflexivity.
  - vm_compute. apply le_n.
  - exact sim_ok.
  - exact no_counts_yet.
  - apply (feed_foldl (RequestMetadata.WithName RequestMetadata.NewRequestMetadataExtractor "counts", sim)).
  - discriminate.
  - exact busy_events_bounded.
  - vm_compute. discriminate.
  - vm_compute. reflexivity.
  - destruct (H [2%positive; 1%positive]) as [_ Hs].
    + apply Forall_cons_2; [|apply Forall_cons_2; [|apply Forall_nil_2]].
      * exists "qwen". split; [vm_compute; reflexivity|discriminate].
      * exists "llama". split; [vm_compute; reflexivity|discriminate].
    + apply (Hs 2%positive); [by left|].
      repeat (apply Forall_cons_2); [..|apply Forall_nil_2]; vm_compute; discriminate.
Defined.
