(* ===== verification/ExchangeRuns.v ===== *)
(** Runs of concurrent exchanges in the concrete environment, and an exchange
    through a configured server. *)

From Stdlib Require Import String.
From S2P Require Import Prelude GoFloat GoValue Envoy Message World Handlers ServerProofs Adapters Datalayer Extractors.
From S2P Require Import ModelSelector SelectorPlugins RequestPlugins Processor Feedback Exchanges Drift Concrete LoaderRuns.
From S2P Require Import ServerSpec Pickers Loader InTree.

Local Open Scope string_scope.
Local Open Scope list_scope.

(** A server that passes bodies through and notifies. *)
Definition plain_server : Server SimWorld :=
  WithEventNotifier (NewServer [] (Some (SingleProfile.SingleProfilePicker "single"))
    {["default" := NewProfile]} [] []).

Lemma plain_picks w cs m w' cs' m' p e :
  PickProfile (SingleProfile.SingleProfilePicker "single") w cs m (profiles plain_server) =
    Ok (w', cs', m', (p, e)) → w' = w ∧ p = Some NewProfile.
Proof.
  simpl. unfold SingleProfile.Pick. rewrite map_size_singleton, go_range_singleton.
  simpl. by intros [= -> _ _ <- _].
Qed.

Lemma plain_quiet : quiet_server plain_server.
Proof.
  split; [constructor..| |].
  - split; constructor.
  - intros pp w cs m w' cs' m' p e [= <-] [-> ->]%plain_picks. split; [done|].
    intros q [= <-]. split; constructor.
Qed.

Lemma plain_streams : streaming_server plain_server.
Proof.
  split; [constructor|by split; constructor|].
  intros pp w cs m w' cs' m' p e [= <-] [_ [= ->]]%plain_picks. by split; constructor.
Qed.

(** Three streams: one has ended, one waits for its response, one has sent half
    of its request. *)
Definition three_streams : list (nat * Round) :=
  [(0, deliver (RequestHeaders None)); (1, deliver (RequestBody (take 3 hello) false));
   (0, deliver (RequestBody hello true)); (2, deliver (RequestBody (take 9 hello) false));
   (1, deliver (RequestBody (drop 3 hello) true)); (0, deliver (ResponseHeaders None));
   (0, deliver (ResponseBody (s2b "hi") false)); (0, deliver (ResponseBody (s2b "!") true))]%nat.

Definition three_served : option (SimWorld * list (Exchange (W := SimWorld))) :=
  serve_all plain_server (sim, replicate 3 (new_exchange plain_server)) three_streams.

Lemma three_serves wx : three_served = Some wx → serves plain_server sim wx.1 wx.2.
Proof. apply serve_all_serves, serves_new. Qed.

(** The events of the three streams. *)
Definition three_events : list Event :=
  match three_served with Some (w, _) => notified w | None => [] end.

Definition opened (x : Exchange (W := SimWorld)) : bool :=
  match ex_log x with [RequestEvent _ _] => true | _ => false end.

Lemma three_found :
  ∃ w x y z, serves plain_server sim w [x; y; z] ∧
    Forall (λ x, requests_first (ex_log x) = true) [x; y; z] ∧
    notified w = notified sim ++ three_events ∧
    opened y = true ∧ length (List.filter (awaits "llama") [x; y; z]) = 1.
Proof.
  assert (match three_served with
    | Some (_, [x; y; z]) => forallb (λ x, requests_first (ex_log x)) [x; y; z] && opened y && (length (List.filter (awaits "llama") [x; y; z]) =? 1)%nat
    | _ => false end = true) as H by (vm_compute; reflexivity).
  destruct three_served as [[w [|x [|y [|z [|? ?]]]]]|] eqn:E; try discriminate H.
  apply andb_prop in H as [[Hf Ho]%andb_prop Hc%Nat.eqb_eq]. exists w, x, y, z.
  split_and!; [exact (three_serves _ E)| | |done..].
  - simpl in Hf. repeat (apply andb_prop in Hf as [? Hf]). by repeat constructor.
  - unfold three_events. rewrite E. reflexivity.
Qed.

Lemma events_hold_the_request_witness :
  ∃ w x y z rq cs, serves plain_server sim w [x; y; z] ∧ ex_log y = [RequestEvent rq cs] ∧
    Body rq = Body (Request (reqCtx (ex_stream y))).
Proof.
  destruct three_found as (w & x & y & z & Hs & _ & _ & Ho & _).
  pose proof (events_hold_the_request plain_server sim w _ plain_quiet Hs) as H.
  apply Forall_inv_tail, Forall_inv in H. revert Ho H. unfold opened.
  destruct (ex_log y) as [|[rq cs| |] [|? ?]] eqn:Ey; try discriminate.
  intros _ H. exists w, x, y, z, rq, cs. split; [exact Hs|]. split; [exact Ey|exact H].
Defined.

(** The counts made of the events. *)
Definition three_counts : RequestMetadata.RequestMetadataExtractor * SimWorld :=
  foldl (λ es ev, RequestMetadata.Extract es.1 es.2 [ev])
    (RequestMetadata.WithName RequestMetadata.NewRequestMetadataExtractor "counts", sim) three_events.

Lemma three_bounded : RequestMetadata.bounded_tokens 20 three_events.
Proof.
  assert (forallb (λ ev, match ev with
    | RequestEvent rq _ | ResponseEvent rq _ _ _ _ => bool_decide (body_float rq "max_tokens" = f0)
    | OtherEvent _ _ => true end) three_events = true) as H by (vm_compute; reflexivity).
  unfold RequestMetadata.bounded_tokens. apply Forall_forall. intros ev Hev m b t Ha.
  rewrite forallb_forall in H. apply list_elem_of_In, H in Hev.
  destruct ev as [rq ?|rq ? ? ? ?|? ?]; [apply bool_decide_eq_true in Hev..|discriminate Ha];
    unfold RequestMetadata.about in Ha; rewrite Hev in Ha; (destruct (String.eqb _ m); [|discriminate Ha]);
    injection Ha as <- <-; vm_compute; split; discriminate.
Qed.

Lemma load_is_open_exchanges_witness :
  inflightRequestCount three_counts.2 1%positive = 1%Z.
Proof.
  destruct three_found as (w & x & y & z & Hs & Hf & Hn & _ & Hc).
  rewrite (load_is_open_exchanges plain_server 20 "counts" sim w _ three_events sim three_counts.1 three_counts.2
    "llama" 1%positive plain_quiet Hs Hf Hn).
  - rewrite Hc. reflexivity.
  - exact sim_ok.
  - exact no_counts_yet.
  - apply (feed_foldl (RequestMetadata.WithName RequestMetadata.NewRequestMetadataExtractor "counts", sim)).
  - discriminate.
  - exact three_bounded.
  - vm_compute. discriminate.
  - vm_compute. reflexivity.
  - discriminate.
Defined.




Lemma streamed_responses_are_not_costed_witness :
  let e := RequestCost.NewRequestCostMetadataExtractor (f_of_Z 200) 0 in
  RequestCost.digest <$> RequestCost.state (RequestCost.Extract 5 e sim three_events).1 = ∅.
Proof.
  destruct three_found as (w & x & y & z & Hs & _ & Hn & _).
  refine (proj1 (streamed_responses_are_not_costed plain_server plain_quiet plain_streams sim w _ three_events
    three_events 5 (RequestCost.NewRequestCostMetadataExtractor (f_of_Z 200) 0) sim Hs Hn _ sim_ok)).
  intros ev Hev. exact Hev.
Defined.

(** A response that ends before the body of its request does is notified for no
    model, since that body is not parsed yet; when the body ends the request is
    notified for its model, and nothing ever takes that count back. So the counts
    of [load_error_is_bounded] are for streams that notify their request first. *)
Example early_response_leaks :
  match serve_all plain_server (sim, [new_exchange plain_server])
    [(0, deliver (ResponseBody (s2b "busy") true)); (0, deliver (RequestBody hello true))] with
  | Some (w', [x]) =>
      requestBodyComplete (ex_stream x) = true ∧ responseBodyComplete (ex_stream x) = true ∧
      requests_first (ex_log x) = false ∧ awaits "llama" x = false ∧
      RequestMetadata.in_flight "llama" (notified w') = (1, 0)%Z
  | _ => False
  end.
Proof. vm_compute. done. Qed.

(** ** A configured server *)

#[export] Instance SimWorld_QuietEnv : QuietEnv SimWorld.
Proof. by split. Qed.

(** A model selector with a scorer, a picker and session affinity, which also
    processes responses. *)
Definition full_config : PayloadProcessorConfig :=
  {| cfg_Plugins := spec_of <$> ["model-selector"; "base-model-to-header"; InflightRequestsScorerType;
       MaxScorePickerType; SessionAffinity.PluginType; "model-name-to-header"];
     cfg_PreProcessing := None; cfg_ProfilePicker := None;
     cfg_Profiles := [{| raw_Name := "default"; raw_Plugins := Some
       {| raw_Request := [named "model-selector"; named "base-model-to-header"; named MaxScorePickerType;
            {| ref_name := InflightRequestsScorerType; ref_Weight := Some f1 |};
            {| ref_name := SessionAffinity.PluginType; ref_Weight := Some f1 |}];
          raw_Response := [named SessionAffinity.PluginType] |} |}];
     cfg_PostProcessing := Some [named SessionAffinity.PluginType; named "model-name-to-header"];
     cfg_Datalayer := None |}.

(** A request that leaves the choice of the model to the selector. *)
Definition ask_auto : bytes :=
  s2b (b2s (List.map (λ b, if decide (b = Byte.x27) then Byte.x22 else b) (s2b "{'model': 'auto'}"))).

Definition full_exchange : list Round :=
  exchange_rounds None [take 5 ask_auto] (drop 5 ask_auto) None [take 7 hello] (drop 7 hello).

Lemma pieces n (b : bytes) : mjoin [take n b] ++ drop n b = b.
Proof. simpl. by rewrite app_nil_r, take_drop. Qed.

Lemma full_run :
  ∃ s' c w' st sent, load full_config = Ok (s', inl c) ∧
    Process (server_of s' c) sim full_exchange = Ok (w', st, sent, None) ∧
    bool_decide (upstream sent = ask_auto) = false ∧ length (PostProcessors c) = 1.
Proof.
  assert (match load full_config with
    | Ok (s', inl c) =>
        match Process (server_of s' c) sim full_exchange with
        | Ok (_, _, sent, None) =>
            negb (bool_decide (upstream sent = ask_auto)) && (length (PostProcessors c) =? 1)%nat
        | _ => false
        end
    | _ => false
    end = true) as H by (vm_compute; reflexivity).
  destruct (load full_config) as [[s' [c|]]|] eqn:El; try discriminate H.
  destruct (Process (server_of s' c) sim full_exchange) as [[[[w' st] sent] [|]]|] eqn:Ep; try discriminate H.
  apply andb_prop in H as [Hu%negb_true_iff Hl%Nat.eqb_eq]. exists s', c, w', st, sent.
  exact (conj eq_refl (conj Ep (conj Hu Hl))).
Qed.

(** The model server is sent the object with the model that was selected, and
    the client what the model server answered. *)
Lemma loaded_servers_are_transparent_witness :
  ∃ s' c w' st sent f n, load full_config = Ok (s', inl c) ∧
    Process (server_of s' c) sim full_exchange = Ok (w', st, sent, None) ∧
    json_marshal_map (Some (<["model" := AStr n]> f)) = Some (upstream sent) ∧ downstream sent = hello.
Proof.
  destruct full_run as (s' & c & w' & st & sent & El & Ep & Hu & _). apply bool_decide_eq_false in Hu.
  destruct (loaded_servers_are_transparent (λ _, NewAdaptersStore) (λ w, (w, None)) (λ _, inl full_config)
    (s2b "{}") NewProcessor sim s' c sim None [take 5 ask_auto] (drop 5 ask_auto) None [take 7 hello] (drop 7 hello)
    w' st sent El Ep) as [[Hb|(f & n & _ & Hf)] Hd]; [destruct (Hu (eq_trans Hb (pieces 5 ask_auto)))|].
  exists s', c, w', st, sent, f, n. split; [exact El|]. split; [exact Ep|].
  split; [exact Hf|exact (eq_trans Hd (pieces 7 hello))].
Defined.

Lemma loaded_servers_are_lawful_witness :
  ∃ s' c, load full_config = Ok (s', inl c) ∧ quiet_server (server_of s' c) ∧ buffers (server_of s' c).
Proof.
  destruct full_run as (s' & c & w' & st & sent & El & _ & _ & Hl).
  destruct (loaded_servers_are_lawful (λ _, NewAdaptersStore) (λ w, (w, None)) (λ _, inl full_config)
    (s2b "{}") NewProcessor sim s' c El) as (Hq & _ & _ & _ & Hb & _).
  exists s', c. split; [exact El|]. split; [exact Hq|]. apply Hb. simpl.
  destruct (PostProcessors c); [discriminate Hl|discriminate].
Defined.

(** A response before its request, an unfinished request and a repeated one. *)
Definition strange_rounds : list Round :=
  deliver <$> [ResponseBody (s2b "late") true; ResponseTrailers; RequestBody (take 5 ask_auto) false;
    RequestHeaders None; RequestBody (drop 5 ask_auto) true; RequestBody (s2b "null") true; ResponseBody hello true].

Lemma loaded_servers_panic_only_on_null_witness :
  ∃ s' c w' st sent ret, load full_config = Ok (s', inl c) ∧
    Process (server_of s' c) sim strange_rounds = Ok (w', st, sent, ret).
Proof.
  destruct (loads_with full_config (λ _ c,
    bool_decide (is_Some (pp_name <$> ProfilePicker_of c)) && negb (nonempty (PreProcessors c))))
    as (s' & c & El & [Hp Hc]%andb_prop); [vm_compute; reflexivity|].
  apply bool_decide_eq_true in Hp.
  destruct (loaded_servers_panic_only_on_null (λ _, NewAdaptersStore) (λ w, (w, None)) (λ _, inl full_config)
    (s2b "{}") NewProcessor sim s' c sim strange_rounds El) as (w' & st & sent & ret & E).
  - intros H. rewrite H in Hp. by destruct Hp.
  - destruct (PreProcessors c); [|discriminate Hc]. intros n ref Hr. destruct (not_elem_of_nil _ Hr).
  - intros body Hb. vm_compute in Hb. injection Hb as <-. vm_compute. discriminate.
  - exists s', c, w', st, sent, ret. exact (conj El E).
Defined.

(** With a model selector, a request whose body is null panics. *)
Example null_body_crashes :
  match load selector_config with
  | Ok (s', inl c) =>
      Process (server_of s' c) sim [deliver (RequestBody (s2b "null") true)] =
        Panic "assignment to entry in nil map"
  | _ => False
  end.
Proof. vm_compute. reflexivity. Qed.
